(* ===== verification/_CoqProject ===== *)
-Q . S2P
Prelude.v
GoStrings.v
Urn.v
SchedErrors.v
TimeWheel.v
WheelSpec.v
LeaseMgr.v
DeHeap.v
FifoQueue.v
CreateQueue.v
InsQueue.v
ObsQueue.v
ReqQueue.v
SessionStore.v
LiteAlloc.v
ConcSched.v
ConcInv.v
ConcProps.v
ReplicaScaler.v
ScaleQueue.v
AutoScaler.v
LitePool.v
LiteSched.v
LiteWheel.v
LiteInv.v
LiteProps.v
LoadBalance.v
AliasRoute.v
SchedulerProxy.v
ScaleHint.v
SessionCtx.v
SessionCtxProps.v
TenantQuota.v
RoundRobin.v
MicroService.v
PredictScaler.v
StateLease.v
StateRoute.v
OneShotPool.v
Metrics.v
OnDemandQueue.v
