(* ===== verification/Prelude.v ===== *)
(** * A verification of the openYuanrong function scheduler

    ** The program

    openYuanrong runs functions as a service.  The part that is verified is the
    scheduler process written in Go (src/go/pkg/functionscaler, with its shared
    packages in src/go/pkg/common/faas_common), and of it the session-aware
    "lite" scheduler with everything it stands on.  A client acquires an
    allocation (a lease on one unit of an instance's concurrency) for a session,
    retains it while it works and releases it.  The scheduler process that owns
    the session on a hash ring of schedulers serves it.  It picks an instance,
    reserves the session's units on it, gives the lease a task in a time wheel
    that reclaims it when it is abandoned, and records the session's instance in
    an external store so that another process can take the session over.  When
    no instance has room it sends a scale-up hint to the scheduler that owns the
    function, and waits.

    Beside it stand the concurrency schedulers of ordinary functions.  They keep
    the instances of a function in a queue ordered by free threads, bind threads
    to sessions and give them back when a session is idle, put requests that
    find no thread into a queue with a timeout, and lease threads on a time
    wheel.  Functions of other kinds are served in turn or by least connections;
    a function with states has an instance per state, which is leased and given
    up when it is idle; a one-shot function has an instance per request; and a
    client can create an instance and ask for it by name.
    Scalers watch the schedulers and decide how many instances to create or
    remove, by the demand they see, by metrics that the instances report, or by a
    prediction; the instance queue of a function carries that out, with workers
    that create, retry and cancel, as long as the quota of the tenant, which the
    processes count together in etcd, allows.  Requests name functions by URNs
    and aliases, and an alias chooses a version by weight or by rules.  Sessions with a persistent
    context keep its history in a key-value store, where contexts are forked and
    deleted.

    ** Files

    - [Prelude]: Go's integers and durations, tactics, hints, sums over maps.
    - [GoStrings]: the parts of Go's standard library used on strings: strings,
      strconv, hex, SHA-256, CRC-32.
    - [Urn]: common/faas_common/urnutils: names of functions, their parsing,
      printing, shortening and anonymising.
    - [SchedErrors]: the schedulers' errors and which of them are retried.
    - [TimeWheel]: common/faas_common/timewheel/simpletimewheel.go.
    - [WheelSpec]: what users of the wheel rely on, as the class [ExpiryWheel]
      with its laws, and that the wheel has it.
    - [LeaseMgr]: functionscaler/lease/generic_lease_manager.go, over that class.
    - [DeHeap]: common/faas_common/queue/priorityqueue.go, the two-ended heap
      and the queue on it.
    - [FifoQueue]: common/faas_common/queue/fifoqueue.go.
    - [CreateQueue]: functionscaler/instancequeue/create_request_queue.go.
    - [InsQueue]: instances with their threads, and the queues they wait in: the
      priority queue and the queue with a buffer of
      scheduler/concurrencyscheduler, both instances of the class [InsQueue] with
      the laws [InsQueueLaws].
    - [ObsQueue]: basic_concurrency_scheduler.go, lines 137 to 499: the records
      of sub-healthy and evicting instances, and the queue that publishes thread
      counts, over [InsQueue].
    - [ReqQueue]: functionscaler/requestqueue/instance_request_queue.go.
    - [SessionStore]: functionscaler/session: the interface of stores (class
      [Store] with its laws [StoreLaws]), the Redis, data system and no-op
      stores, the asynchronous coordinator, the single-flight group.
    - [LiteAlloc]: litescheduler/allocation.go and request.go: identifiers,
      keys, the decision whether a request is for the lite scheduler.
    - [ConcSched]: sessionmanager.go, the rest of basic_concurrency_scheduler.go
      and what reserved_ and scaled_concurrency_scheduler.go add.
    - [ConcInv]: the sessions' invariant under every operation and every step of
      the goroutines that unbind them.
    - [ConcProps]: the other theorems on the concurrency schedulers.
    - [ReplicaScaler]: functionscaler/scaler/replicascaler.go, and the scaler's
      view of the queue that publishes thread counts.
    - [ScaleQueue]: functionscaler/instancequeue/scaled_instance_queue.go, for
      reserved instances, with the replica scaler and [CreateQueue].
    - [AutoScaler]: functionscaler/scaler/autoscaler.go.
    - [LitePool]: litescheduler/pool.go and dispatcher.go: one function's
      instances, session bindings, dispatch policies.
    - [LiteSched]: litescheduler/operation.go, event.go, expiry.go, idle.go,
      litescheduler.go: the handlers, over the interface [ExpiryWheel], and the
      running system ([sys], [sys_step]).
    - [LiteWheel]: the time wheel as the lite scheduler's.
    - [LiteInv]: the invariant of the running system, kept by every handler.
    - [LiteProps]: what follows for reachable states, and runs that show where
      the code does not do what it means to.
    - [LoadBalance]: common/faas_common/loadbalance: hash rings, weighted round
      robin, over the class [LoadBalance].
    - [AliasRoute]: common/faas_common/aliasroute, with its round robin from
      [LoadBalance] and its names from [Urn].
    - [SchedulerProxy]: functionscaler/selfregister/proxy.go: who owns a key.
    - [ScaleHint]: litescheduler/scalehint.go, utils/timeoutmap.go and the
      receiver of hints in httpserver.go and faasscheduler.go.
    - [SessionCtx]: functionscaler/sessioncontextmanager and
      sessioncontextregistry: forks, deletions, hints and idle reports of
      session contexts, in a monad of errors and state.
    - [SessionCtxProps]: a program logic for that monad, and the theorems.
    - [TenantQuota]: functionscaler/tenantquota: the counts of a tenant's
      instances, kept by several processes.
    - [RoundRobin]: scheduler/roundrobinscheduler, with [ReplicaScaler] as the
      scaler that listens to it.
    - [MicroService]: scheduler/microservicescheduler.
    - [PredictScaler]: functionscaler/scaler/predictscaler.go.
    - [StateLease]: functionscaler/stateinstance/lease.go: the leases on the
      instance of a state.
    - [StateRoute]: instancepool/stateroute.go, state/state.go and what
      instancepool/poolmanager.go does with states, over [StateLease].
    - [OneShotPool]: instancepool/oneshot_instance_pool.go.
    - [OnDemandQueue]: instancequeue/ondemand_instance_queue.go, with the guards
      of instancepool/instancepool.go.
    - [Metrics]: functionscaler/metrics/bucket_collector.go, whose numbers
      [AutoScaler] calculates with.

    ** How code becomes definitions

    A handler is a function on an explicit state, with the source's early
    returns as branches and errors as values.  A mutex's critical section is one
    step.  A goroutine that gives up its locks is cut there, and its stages
    ([acq_pc] for an acquire, [do_pc] for a single-flight call, the worker's
    steps in the coordinator, the claims of a hint sender, the polling and
    expiring goroutines of a lease holder, the scheduling and timeout loops of a
    request queue, [unbind_pc] for an idle session, the two loops of the auto
    scaler, the loops and the watcher of the predictive one, the locked and
    unlocked parts of a quota's update, [sr_pc] for a request for a state) interleave freely with everything else; the goroutines of the
    instance queue are lists of the atomic acts they have before them.  A timer of
    the standard library is armed, then fired, and then its goroutine runs; it can
    be stopped in the first of these only.  Pointers
    that are compared or shared (triggers of the wheel, session bindings, timers,
    claims) are addresses.  The time, the order of a map iteration and the
    answers of the outside (stores, JSON decoders, HTTP) are arguments or
    parameters; what the code relies on is a class of
    laws or a named hypothesis.  Machine words wrap where the code can see it
    (hashes, the identifiers' numbers); durations and counters are unbounded
    integers.  Floating point scores of the dispatcher and metrics of the
    scalers are exact fractions; the weights of aliases, whose rounding decides,
    are IEEE doubles.  A store that can fail takes, at every call, one of three
    outcomes: success, failure, or failure after the effect.  The loops inside a
    function of the source, and its stages, are definitions of their own beside
    the one that has the function's name.

    Bounds: loops that are not structural carry fuel.  The heap's [shiftDown]
    runs with the length of its slice, which [shiftDown_terminates] shows is
    enough; the binary search [Search] with the length of the range; the
    redirect loop of a hint recurses on the number of retries left; the loops
    that empty a request queue with its length; the loops that read a history
    with the size of the store, which [readHistory_spec] shows is enough; the
    grouping of a prediction with its length, which [grouping_ends] shows is
    enough, with the case in which no fuel is.

    ** What is shown

    - Time wheel: a task is emitted at exactly the tick its interval asks for
      and, with a consumer that keeps up, it is emitted; updating restarts the
      wait; a task that asks to fire once fires twice.
    - Leases: a lease is settled once, by its release or by its expiry, whatever
      the goroutines do; it expires at the tick its interval asks for; and an
      extension that answers success and is too late.
    - Request queue: requests are neither lost nor answered twice, the queue and
      what is being scheduled stay within the limit, a turn of the timeout loop
      answers exactly the overdue ones at the front, and there is a timer or a
      trigger while someone waits, as long as no request is pushed back into an
      empty queue; and what happens then, after a stop, and when a cancel is late.
    - Queues of instances: both meet one interface; what the publishing queue has
      published adds up to what it holds, and two cases in which it does not.
    - Concurrency schedulers: threads stay within an instance's concurrency and
      no thread id is handed out twice; the goroutine that unbinds a session
      never blocks with the lock in its hand, in any interleaving; binding and
      unbinding are inverse.  A request without a context that leaks threads, an
      idle session nobody unbinds, a designated instance that loses against the
      session's, a destroyed scheduler that publishes.
    - Scalers and the instance queue: what the scaler takes to be pending is
      what is queued, being created or being removed, up to cancelled and given
      up creations, in every interleaving; the replica scaler counts the
      instances there are, and settles at the number that is asked for; the auto
      scaler exceeds the demand by less than an instance, covers it before there
      are metrics, and then removes nothing that is in use; its trigger never
      blocks.  The queue of creations is a queue with two ends.
      Cases in which a creation that is cancelled blocks, a late callback, a lost
      trigger, a worker that outlives its queue.
    - Predictive scaler: a prediction takes the scaler exactly to it, the passive
      loops cover the demand with less than an instance over and keep to the
      prediction; and one ignored signal after which the passive loop is off for
      good, a value that stops the process, a prediction taken by another
      version.
    - Metrics: averages stay within what was reported and the rate is never zero,
      which is what the auto scaler assumes; and a time in milliseconds that is
      taken off one in seconds.
    - States: every instance created for a state is in its route, or being
      deleted, or was reported gone, and no two are created for a state at once,
      as long as no state is deleted and an event is not overtaken ([calm_run]);
      leases stay within the concurrency, each with a timer, and an instance
      without lease is watched.  Leases nobody can release, two instances for one
      state, a deleted state that comes back, two ways to crash.
    - One-shot pool: no instance is kept, whatever the timers and goroutines do;
      and one that is deleted twice.
    - On-demand queue: no instance is lost, and what an acquire finds by name or
      identifier is registered; instances that outlive their function, a check
      that never fires, a name that is taken away.
    - Round robin and micro-service schedulers: every instance of the preferred
      zone is served once per round; the scaler that listens counts the instances
      there are; the least connected instance is chosen, by the allocations that
      are held; the policy in turn is the round robin scheduler.  An instance that
      comes back unheard, releases that count twice.
    - Tenant quota: with a working etcd the instances that run never exceed the
      quota, in any interleaving of the processes; one process alone counts
      exactly; and counts that stay too high, a refusal that sticks, a credit.
    - Names and aliases: a URN is read back as it was printed, keys and labels
      stay apart and within their bounds; an alias spreads requests by weight and
      its rules decide the version.
    - Session contexts: forks and deletions that failed anywhere are completed by
      repeating them, with the copy exact up to the turn and nothing left or
      touched besides; hints follow the life of a context.  A repeated fork that
      is not registered, a turn and an instance that survive a deletion.
    - Heap: its ends are the extremes after any pushes, no operation loses or
      duplicates an object, [shiftDown] terminates; and a run in which popping
      breaks the order.
    - Session store: the coordinator applies what it accepted once and in order,
      and nothing after it was stopped and cleaned; the last write decides; the
      Redis store meets the contract; lookups are single flight.
    - Lite scheduler: capacity accounting, no overselling, affinity, no dangling
      references, the store's mirror of the bindings, reclaiming of leases, the
      round trip of acquire, release and unbind, in every reachable state.  Five
      runs or cases in which units leak or leases are lost or refused.
    - Rings and balancers: the owner of a key depends on the members only,
      leaving or joining moves no other key, exactly one scheduler accepts a
      session; weighted round robin is exact over a period; stained nodes are
      avoided.
    - Hints: one per key and window, and redirects lead to the owner within the
      bound; and a failed dispatch that keeps its claim.

    ** What is not modelled

    Logging, metrics export, tracing, transport and configuration loading.  The
    start-up barriers between the event loops of the lite scheduler.  Of the
    concurrency schedulers: the waiting around the request queue in the reserved
    and the scaled scheduler, the migration of old session records, the
    allocation between rollout versions, and, after the scaled scheduler has
    replaced its queues, the goroutines that still hold the old ones.  The
    client of the wise cloud service.  Of the instance pools: the generic pool and
    the pool manager but for states, which pass events on to the queues and
    schedulers that are modelled; the calls that create instances, with their
    Kubernetes and kernel options; the builders of the queues.  The allocator between rollout versions is used by tests only.  What a runtime writes to a session context is part of the
    outside, and so is the retry inside the store's client.
    The dashboard, the collector, the controllers and the SDKs
    in C++, Java, Python and Rust are other programs. *)
From stdpp Require Export base gmap strings list fin_maps.
From Stdlib Require Export ZArith Lia.
From Stdlib Require Import Permutation.

#[global] Open Scope Z_scope.
Declare Scope go_scope.
Delimit Scope go_scope with go.

(** ** Go's machine integers

    [time.Duration], [int], [int64] are modelled as [Z]; the operations whose
    rounding or wrap-around the code observes are written out. *)

(** Go's [/] and [%] on signed integers truncate toward zero. *)
Definition go_quot (a b : Z) : Z := Z.quot a b.
Definition go_rem (a b : Z) : Z := Z.rem a b.
Notation "a /g b" := (go_quot a b) (at level 40, left associativity) : go_scope.
Notation "a %g b" := (go_rem a b) (at level 40, left associativity) : go_scope.
#[global] Open Scope go_scope.

(** Arithmetic on [uint64] and [uint32] wraps. *)
Definition wrap64 (z : Z) : Z := z mod 2 ^ 64.
Definition wrap32 (z : Z) : Z := z mod 2 ^ 32.

(** Conversion [int(x)] of a [uint64]. *)
Definition to_int64 (z : Z) : Z :=
  if z <? 2 ^ 63 then z else z - 2 ^ 64.

(** Durations in nanoseconds, as package [time] has them. *)
Definition Millisecond : Z := 1000000.
Definition Second : Z := 1000 * Millisecond.

Lemma go_quot_nonneg a b : 0 <= a -> 0 < b -> a /g b = a / b.
Proof. intros. apply Z.quot_div_nonneg; lia. Qed.

Lemma go_rem_nonneg a b : 0 <= a -> 0 < b -> a %g b = a mod b.
Proof. intros. apply Z.rem_mod_nonneg; lia. Qed.

(** ** Automation *)

Create HintDb go discriminated.

(** Splits the booleans of the model's tests into propositions [lia] reads. *)
Ltac zbool :=
  repeat match goal with
  | H : (_ && _) = true |- _ => apply andb_prop in H; destruct H
  | H : (_ || _) = false |- _ => apply orb_false_elim in H; destruct H
  | H : negb _ = true |- _ => apply negb_true_iff in H
  | H : negb _ = false |- _ => apply negb_false_iff in H
  | H : (_ <? _) = true |- _ => apply Z.ltb_lt in H
  | H : (_ <? _) = false |- _ => apply Z.ltb_ge in H
  | H : (_ <=? _) = true |- _ => apply Z.leb_le in H
  | H : (_ <=? _) = false |- _ => apply Z.leb_gt in H
  | H : (_ =? _) = true |- _ => apply Z.eqb_eq in H
  | H : (_ =? _) = false |- _ => apply Z.eqb_neq in H
  | H : bool_decide _ = true |- _ => apply bool_decide_eq_true_1 in H
  | H : bool_decide _ = false |- _ => apply bool_decide_eq_false_1 in H
  end.

(** One case per test of an [if] in the goal, with the test's meaning. *)
Ltac case_bool :=
  match goal with
  | |- context [if ?b then _ else _] =>
      lazymatch type of b with
      | bool => destruct b eqn:?; zbool
      | _ => destruct b
      end
  end.

(** ** Sums over finite maps

    The accounting arguments add up a quantity of every entry of a map. *)
Section msum.
Context {K A : Type} `{Countable K}.

Definition msum (f : K -> A -> Z) (m : gmap K A) : Z :=
  map_fold (fun k x acc => f k x + acc) 0 m.

Lemma msum_empty f : msum f ∅ = 0.
Proof. reflexivity. Qed.

Lemma msum_insert f m k x :
  m !! k = None -> msum f (<[k:=x]> m) = f k x + msum f m.
Proof.
  intros Hk. unfold msum. rewrite map_fold_insert_L; [done| |done].
  intros. lia.
Qed.

Lemma msum_delete f m k x :
  m !! k = Some x -> msum f (delete k m) = msum f m - f k x.
Proof.
  intros Hk. rewrite <- (insert_delete_id m k x Hk) at 2.
  rewrite msum_insert; [lia|]. apply lookup_delete_eq.
Qed.

Lemma msum_replace f m k x y :
  m !! k = Some x -> msum f (<[k:=y]> m) = msum f m - f k x + f k y.
Proof.
  intros Hk. rewrite <- insert_delete_eq, msum_insert by apply lookup_delete_eq.
  rewrite (msum_delete f m k x Hk). lia.
Qed.

Lemma msum_ext f g m :
  (forall k x, m !! k = Some x -> f k x = g k x) -> msum f m = msum g m.
Proof.
  induction m as [|k x m Hk IH] using map_ind; intros Hfg; [done|].
  rewrite !msum_insert by done. rewrite (Hfg k x), IH; [done| |].
  - intros k' x' Hk'. apply Hfg. rewrite lookup_insert_ne; [done|congruence].
  - apply lookup_insert_eq.
Qed.

Lemma msum_le f g m :
  (forall k x, m !! k = Some x -> f k x <= g k x) -> msum f m <= msum g m.
Proof.
  induction m as [|k x m Hk IH] using map_ind; intros Hfg; [done|].
  rewrite !msum_insert by done.
  assert (f k x <= g k x) by (apply Hfg, lookup_insert_eq).
  assert (msum f m <= msum g m); [|lia].
  apply IH. intros k' x' Hk'. apply Hfg. rewrite lookup_insert_ne; [done|congruence].
Qed.

Lemma msum_nonneg f m :
  (forall k x, m !! k = Some x -> 0 <= f k x) -> 0 <= msum f m.
Proof.
  intros Hf. assert (msum (fun _ _ => 0) m = 0) as E.
  { induction m as [|k x m Hk IH] using map_ind; [done|].
    rewrite msum_insert, IH; [done| |done].
    intros k' x' Hk'. apply (Hf k'). rewrite lookup_insert_ne; [done|congruence]. }
  rewrite <- E. by apply msum_le.
Qed.

Lemma msum_zero f m :
  (forall k x, m !! k = Some x -> f k x = 0) -> msum f m = 0.
Proof.
  intros Hf. rewrite (msum_ext f (fun _ _ => 0) m Hf).
  induction m as [|k x m Hk IH] using map_ind; [done|].
  rewrite msum_insert, IH; [done| |done].
  intros k' x' Hk'. apply (Hf k'). rewrite lookup_insert_ne; [done|congruence].
Qed.

Lemma msum_lookup_le f m k x :
  (forall k x, m !! k = Some x -> 0 <= f k x) ->
  m !! k = Some x -> f k x <= msum f m.
Proof.
  intros Hf Hk. pose proof (msum_delete f m k x Hk).
  assert (0 <= msum f (delete k m)); [|lia].
  apply msum_nonneg. intros k' x' Hk'. apply (Hf k').
  by apply lookup_delete_Some in Hk' as [_ ?].
Qed.

Lemma msum_filter f (P : K * A -> Prop) `{forall x, Decision (P x)} m :
  msum f (filter P m) = msum (fun k x => if decide (P (k, x)) then f k x else 0) m.
Proof.
  induction m as [|k x m Hk IH] using map_ind; [done|].
  rewrite msum_insert by done. rewrite <- IH.
  destruct (decide (P (k, x))) as [HP|HP].
  - rewrite map_filter_insert_True by done. rewrite msum_insert; [done|].
    apply map_lookup_filter_None. by left.
  - rewrite map_filter_insert_False by done. rewrite delete_id; [done|].
    done.
Qed.
End msum.

(** ** Filters that keep or drop everything *)
Lemma list_filter_all {A} (P : A -> Prop) `{forall x, Decision (P x)} (l : list A) :
  Forall P l -> filter P l = l.
Proof. induction 1 as [|x l Hx _ IH]; [done|]. by rewrite filter_cons_True, IH. Qed.

Lemma list_filter_none {A} (P : A -> Prop) `{forall x, Decision (P x)} (l : list A) :
  Forall (fun x => ~ P x) l -> filter P l = [].
Proof. induction 1 as [|x l Hx _ IH]; [done|]. by rewrite filter_cons_False. Qed.
