(* ===== verification/GoStrings.v ===== *)
(** * The parts of Go's standard library the source uses on strings

    Packages [strings], [strconv], [crypto/sha256], [encoding/hex] and
    [hash/crc32], on byte strings.  Separators are single bytes, as at every
    call site of the modelled code. *)
From S2P Require Import Prelude.
From stdpp Require Import pretty.
From Stdlib Require Import Ascii.

#[local] Open Scope string_scope.
#[local] Open Scope Z_scope.

(** ** strings *)

Definition HasPrefix (s p : string) : bool := String.prefix p s.

Definition TrimPrefix (s p : string) : string :=
  if HasPrefix s p then String.substring (String.length p) (String.length s - String.length p) s
  else s.

(** The text before and after the first [c]. *)
Fixpoint cut (c : ascii) (s : string) : option (string * string) :=
  match s with
  | EmptyString => None
  | String d s' =>
      if Ascii.eqb d c then Some (EmptyString, s')
      else match cut c s' with
           | Some (a, b) => Some (String d a, b)
           | None => None
           end
  end.

(** [SplitN] for a positive [n]. *)
Fixpoint SplitN (c : ascii) (n : nat) (s : string) : list string :=
  match n with
  | O => []
  | S O => [s]
  | S n => match cut c s with
           | Some (a, b) => a :: SplitN c n b
           | None => [s]
           end
  end.

Definition Split (c : ascii) (s : string) : list string := SplitN c (S (String.length s)) s.

Fixpoint Join (sep : string) (l : list string) : string :=
  match l with
  | [] => ""
  | [x] => x
  | x :: l => x ++ sep ++ Join sep l
  end.

(** [strings.Contains] for a one-byte substring. *)
Definition Contains (c : ascii) (s : string) : bool :=
  match cut c s with Some _ => true | None => false end.

(** ** strconv *)

Definition Itoa (z : Z) : string := pretty z.

Definition digit_val (c : ascii) : option N :=
  let n := N_of_ascii c in
  if ((48 <=? n) && (n <=? 57))%N then Some (n - 48)%N else None.

Fixpoint digits_val (acc : N) (s : string) : option N :=
  match s with
  | EmptyString => Some acc
  | String c s => match digit_val c with
                  | Some d => digits_val (acc * 10 + d) s
                  | None => None
                  end
  end.

Definition ParseDigits (s : string) : option N :=
  match s with EmptyString => None | _ => digits_val 0 s end.

(** [None] is a syntax or a range error. *)
Definition Atoi (s : string) : option Z :=
  let range (z : Z) := if (- 2 ^ 63 <=? z) && (z <? 2 ^ 63) then Some z else None in
  match s with
  | String "-" r => match ParseDigits r with Some n => range (- Z.of_N n) | None => None end
  | String "+" r => match ParseDigits r with Some n => range (Z.of_N n) | None => None end
  | _ => match ParseDigits s with Some n => range (Z.of_N n) | None => None end
  end.

(** ** Bytes *)

Fixpoint bytes_of (s : string) : list Z :=
  match s with
  | EmptyString => []
  | String c s => Z.of_N (N_of_ascii c) :: bytes_of s
  end.

(** [n] bytes of [z], big endian. *)
Fixpoint be_bytes (n : nat) (z : Z) : list Z :=
  match n with
  | O => []
  | S n => Z.land (Z.shiftr z (8 * Z.of_nat n)) 255 :: be_bytes n z
  end.

Definition hex_digit (n : Z) : ascii :=
  if n <? 10 then ascii_of_N (Z.to_N (n + 48)) else ascii_of_N (Z.to_N (n + 87)).

(** [hex.EncodeToString]. *)
Fixpoint EncodeToString (l : list Z) : string :=
  match l with
  | [] => ""
  | b :: l => String (hex_digit (Z.shiftr b 4)) (String (hex_digit (Z.land b 15)) (EncodeToString l))
  end.

(** ** crypto/sha256 *)

Module SHA256.
(** The constants are the first 32 bits of the fractional parts of the cube and
    square roots of the first primes; [root] finds an integer root bit by bit. *)
Fixpoint root (e : Z) (bit : nat) (x r : Z) : Z :=
  let try := r + 2 ^ Z.of_nat bit in
  let r := if try ^ e <=? x then try else r in
  match bit with O => r | S bit => root e bit x r end.
Definition fraction32 (e p : Z) : Z := wrap32 (root e 39 (p * 2 ^ (32 * e)) 0).

Definition divides_none (ds : list Z) (n : Z) : bool := forallb (fun d => negb (n mod d =? 0)) ds.
(** The primes up to a bound, by trial division with the smaller ones. *)
Definition primes (bound : nat) : list Z :=
  fold_left (fun ps n => if divides_none ps n then (ps ++ [n])%list else ps) (seqZ 2 (Z.of_nat bound)) [].

Definition K : list Z := Eval vm_compute in map (fraction32 3) (firstn 64 (primes 310)).
Definition init : list Z := Eval vm_compute in map (fraction32 2) (firstn 8 (primes 18)).

Definition rotr (n x : Z) : Z := Z.lor (Z.shiftr x n) (wrap32 (Z.shiftl x (32 - n))).
Definition xor3 (a b c : Z) : Z := Z.lxor a (Z.lxor b c).
Definition s0 (x : Z) : Z := xor3 (rotr 7 x) (rotr 18 x) (Z.shiftr x 3).
Definition s1 (x : Z) : Z := xor3 (rotr 17 x) (rotr 19 x) (Z.shiftr x 10).
Definition S0 (x : Z) : Z := xor3 (rotr 2 x) (rotr 13 x) (rotr 22 x).
Definition S1 (x : Z) : Z := xor3 (rotr 6 x) (rotr 11 x) (rotr 25 x).
Definition Ch (e f g : Z) : Z := Z.lxor (Z.land e f) (Z.land (Z.lxor e 0xffffffff) g).
Definition Maj (a b c : Z) : Z := xor3 (Z.land a b) (Z.land a c) (Z.land b c).

(** The last 16 words of the schedule, most recent first. *)
Fixpoint schedule (n : nat) (w : list Z) : list Z :=
  match n with
  | O => []
  | S n =>
      let at_ i := nth i w 0 in
      let x := wrap32 (s1 (at_ 1%nat) + at_ 6%nat + s0 (at_ 14%nat) + at_ 15%nat) in
      x :: schedule n (x :: firstn 15 w)
  end.

Definition round (st : list Z) (kw : Z * Z) : list Z :=
  match st with
  | [a; b; c; d; e; f; g; h] =>
      let t1 := h + S1 e + Ch e f g + fst kw + snd kw in
      let t2 := S0 a + Maj a b c in
      [wrap32 (t1 + t2); a; b; c; wrap32 (d + t1); e; f; g]
  | _ => st
  end.

Definition compress (h block : list Z) : list Z :=
  let ws := (block ++ schedule 48 (rev block))%list in
  zip_with (fun x y => wrap32 (x + y)) h (fold_left round (zip K ws) h).

Definition word (l : list Z) : Z := fold_left (fun acc b => acc * 256 + b) l 0.

Fixpoint chunks (n : nat) (k : nat) (l : list Z) : list (list Z) :=
  match n with
  | O => []
  | S n => firstn k l :: chunks n k (skipn k l)
  end.

Definition pad (l : list Z) : list Z :=
  let n := length l in
  let z := ((119 - n mod 64) mod 64)%nat in
  (l ++ [128] ++ repeat 0 z ++ be_bytes 8 (8 * Z.of_nat n))%list.

Definition blocks (l : list Z) : list (list Z) :=
  map (fun b => map word (chunks 16 4 b)) (chunks (length l / 64) 64 l).

(** [sha256.Sum256]: 32 bytes. *)
Definition Sum256 (l : list Z) : list Z :=
  concat (map (be_bytes 4) (fold_left compress (blocks (pad l)) init)).
End SHA256.

(** ** hash/crc32, IEEE polynomial *)
Definition crc32_step (crc b : Z) : Z :=
  Nat.iter 8 (fun c => if Z.odd c then Z.lxor (Z.shiftr c 1) 0xEDB88320 else Z.shiftr c 1)
    (Z.lxor crc b).
Definition ChecksumIEEE (l : list Z) : Z :=
  Z.lxor (fold_left crc32_step l 0xFFFFFFFF) 0xFFFFFFFF.

(** Test vectors of the two checksums. *)
Example Sum256_abc :
  EncodeToString (SHA256.Sum256 (bytes_of "abc"))
  = "ba7816bf8f01cfea414140de5dae2223b00361a396177a9cb410ff61f20015ad".
Proof. by vm_compute. Qed.

Example ChecksumIEEE_check : ChecksumIEEE (bytes_of "123456789") = 0xCBF43926.
Proof. by vm_compute. Qed.

(** ** Lemmas *)

#[local] Arguments String.append : simpl nomatch.

Lemma HasPrefix_app p s : HasPrefix (p ++ s) p = true.
Proof.
  unfold HasPrefix. induction p as [|c p IH]; simpl; [by destruct s|].
  by destruct (Ascii.ascii_dec c c).
Qed.

Lemma substring_all s : String.substring 0 (String.length s) s = s.
Proof. induction s as [|c s IH]; simpl; congruence. Qed.

Lemma string_length_app a b :
  String.length (a ++ b) = (String.length a + String.length b)%nat.
Proof. induction a as [|c a IH]; simpl; congruence. Qed.

Lemma TrimPrefix_app p s : TrimPrefix (p ++ s) p = s.
Proof.
  unfold TrimPrefix. rewrite HasPrefix_app, string_length_app.
  replace (String.length p + String.length s - String.length p)%nat with (String.length s) by lia.
  induction p as [|c p IH]; simpl; [apply substring_all|done].
Qed.

(** [s] does not contain the byte [c]. *)
Definition free_of (c : ascii) (s : string) : Prop := cut c s = None.

Lemma free_of_cons c d s : free_of c (String d s) <-> d <> c /\ free_of c s.
Proof.
  unfold free_of. simpl. destruct (Ascii.eqb_spec d c) as [->|]; [naive_solver|].
  destruct (cut c s) as [[]|]; naive_solver.
Qed.

Lemma cut_app c a b : free_of c a -> cut c (a ++ String c b) = Some (a, b).
Proof.
  induction a as [|d a IH]; simpl; [by rewrite Ascii.eqb_refl|].
  intros [Hd Ha]%free_of_cons. rewrite (proj2 (Ascii.eqb_neq d c)) by done. by rewrite IH.
Qed.

Lemma cut_Some c s a b : cut c s = Some (a, b) -> s = a ++ String c b /\ free_of c a.
Proof.
  revert a. induction s as [|d s IH]; intros a; simpl; [done|].
  destruct (Ascii.eqb_spec d c) as [->|Hd]; [by intros [= <- ->]|].
  destruct (cut c s) as [[a' b']|]; [|done]. intros [= <- ->].
  destruct (IH a' eq_refl) as [-> Ha]. split; [done|]. by apply free_of_cons.
Qed.

Lemma free_of_substring c n m s : free_of c s -> free_of c (String.substring n m s).
Proof.
  revert n m. induction s as [|d s IH]; intros n m Hs; [by destruct n, m|].
  apply free_of_cons in Hs as [Hd Hs]. destruct n; simpl; [|by apply IH].
  destruct m; [done|]. apply free_of_cons. auto.
Qed.

Lemma hex_digit_not_colon n : 0 <= n < 16 -> hex_digit n <> ":"%char.
Proof.
  intros Hn. assert (n ∈ seqZ 0 16) as Hin by (apply elem_of_seqZ; lia).
  vm_compute in Hin. repeat (apply elem_of_cons in Hin as [->|Hin]; [by vm_compute|]).
  by apply elem_of_nil in Hin.
Qed.

Lemma EncodeToString_no_colon l :
  Forall (fun b => 0 <= b < 256) l -> free_of ":" (EncodeToString l).
Proof.
  induction 1 as [|b l Hb _ IH]; simpl; [done|].
  apply free_of_cons; split; [|apply free_of_cons; split; [|done]]; apply hex_digit_not_colon.
  - rewrite Z.shiftr_div_pow2 by lia. split; [apply Z.div_pos; lia|apply Z.div_lt_upper_bound; lia].
  - change 15 with (Z.ones 4). rewrite Z.land_ones by lia. apply Z.mod_pos_bound. lia.
Qed.

Lemma be_bytes_range n z : Forall (fun b => 0 <= b < 256) (be_bytes n z).
Proof.
  induction n; simpl; constructor; [|done].
  change 255 with (Z.ones 8). rewrite Z.land_ones by lia. apply Z.mod_pos_bound. lia.
Qed.

Lemma Sum256_range l : Forall (fun b => 0 <= b < 256) (SHA256.Sum256 l).
Proof.
  unfold SHA256.Sum256. induction (fold_left _ _ _) as [|x xs IH]; [constructor|].
  cbn [map concat]. apply Forall_app. split; [|done]. apply (be_bytes_range 4).
Qed.

(** *** Decimal numbers *)

Lemma digit_val_pretty (n : N) : (n < 10)%N -> digit_val (pretty_N_char n) = Some n.
Proof.
  intros Hn. assert (n ∈ [0; 1; 2; 3; 4; 5; 6; 7; 8; 9]%N) as Hin.
  { rewrite !elem_of_cons. lia. }
  repeat (apply elem_of_cons in Hin as [->|Hin]; [by vm_compute|]). by apply elem_of_nil in Hin.
Qed.

Lemma digits_val_pretty_go (x : N) s : digits_val 0 (pretty_N_go x s) = digits_val x s.
Proof.
  revert s. induction (N.lt_wf_0 x) as [x _ IH]. intros s.
  destruct (decide (x = 0)%N) as [->|Hx]; [by rewrite pretty_N_go_0|].
  rewrite pretty_N_go_step by lia. rewrite IH by (apply N.div_lt; lia). simpl.
  rewrite digit_val_pretty by (apply N.mod_lt; lia). f_equal.
  pose proof (N.div_mod x 10 ltac:(lia)). lia.
Qed.

Lemma pretty_N_go_length (x : N) s : (String.length s <= String.length (pretty_N_go x s))%nat.
Proof.
  revert s. induction (N.lt_wf_0 x) as [x _ IH]. intros s.
  destruct (decide (x = 0)%N) as [->|Hx]; [by rewrite pretty_N_go_0|].
  rewrite pretty_N_go_step by lia. etrans; [|apply IH; apply N.div_lt; lia]. simpl. lia.
Qed.

Lemma ParseDigits_pretty (x : N) : ParseDigits (pretty x) = Some x.
Proof.
  unfold pretty, pretty_N. destruct (decide (x = 0)%N) as [->|Hx]; [done|].
  pose proof (digits_val_pretty_go x "") as Hd. rewrite pretty_N_go_step in * by lia.
  pose proof (pretty_N_go_length (x / 10) (String (pretty_N_char (x `mod` 10)) "")) as Hl.
  destruct (pretty_N_go _ _); [simpl in Hl; lia|]. unfold ParseDigits. by rewrite Hd.
Qed.

Lemma Atoi_unsigned s : s <> "" -> digit_val (default "x"%char (String.get 0 s)) <> None ->
  Atoi s = match ParseDigits s with
           | Some n => if (- 2 ^ 63 <=? Z.of_N n) && (Z.of_N n <? 2 ^ 63) then Some (Z.of_N n) else None
           | None => None end.
Proof.
  intros Hs Hd. destruct s as [|c s]; [done|]. simpl in Hd. unfold Atoi.
  destruct c as [[] [] [] [] [] [] [] []]; try done; by exfalso; apply Hd.
Qed.

(** [strconv.Atoi] reads back what [%d] prints of a non-negative [int]. *)
Lemma Atoi_Itoa (z : Z) : 0 <= z < 2 ^ 63 -> Atoi (Itoa z) = Some z.
Proof.
  intros Hz. destruct z as [|p|p]; [done| |lia]. change (Itoa (Zpos p)) with (pretty (N.pos p)).
  pose proof (ParseDigits_pretty (N.pos p)) as Hp. set (s := pretty (N.pos p)) in *.
  rewrite Atoi_unsigned.
  - rewrite Hp. simpl Z.of_N. destruct (Z.leb_spec (- 2 ^ 63) (Zpos p)); [|lia].
    destruct (Z.ltb_spec (Zpos p) (2 ^ 63)); [done|lia].
  - intros ->. done.
  - destruct s as [|c s']; [done|]. simpl in *. by destruct (digit_val c).
Qed.

(** [Join] and [Split] with the same one-character separator. *)
Lemma SplitN_SS c n s :
  SplitN c (S (S n)) s = match cut c s with Some (a, b) => a :: SplitN c (S n) b | None => [s] end.
Proof. done. Qed.

Lemma Join_cons c x y l :
  Join (String c "") (x :: y :: l) = x ++ String c (Join (String c "") (y :: l)).
Proof. done. Qed.

Lemma SplitN_Join c l n :
  l <> [] -> Forall (free_of c) l -> (length l <= n)%nat -> SplitN c n (Join (String c "") l) = l.
Proof.
  revert n. induction l as [|x l IH]; intros n Hne HF Hn; [done|].
  apply Forall_cons in HF as [Hx HF]. simpl in Hn. destruct n as [|n]; [lia|].
  destruct l as [|y l].
  - simpl. destruct n; [done|]. unfold free_of in Hx. by rewrite Hx.
  - destruct n as [|n]; [simpl in Hn; lia|]. rewrite Join_cons, SplitN_SS, cut_app by done.
    f_equal. apply IH; [done|done|simpl in *; lia].
Qed.

Lemma Join_length c l : (length l <= S (String.length (Join (String c "") l)))%nat.
Proof.
  induction l as [|x [|y l] IH]; [simpl; lia..|].
  rewrite Join_cons, string_length_app. simpl in *. lia.
Qed.

Lemma Split_Join c l :
  l <> [] -> Forall (free_of c) l -> Split c (Join (String c "") l) = l.
Proof. intros Hne HF. apply SplitN_Join; [done|done|apply Join_length]. Qed.

Lemma SplitN_nonempty c n s : SplitN c (S n) s <> [].
Proof. destruct n; simpl; [done|]. by destruct (cut c s) as [[? ?]|]. Qed.

Lemma Join_SplitN c n s : Join (String c "") (SplitN c (S n) s) = s.
Proof.
  revert s. induction n as [|n IH]; intros s; [done|]. rewrite SplitN_SS.
  destruct (cut c s) as [[a b]|] eqn:E; [|done]. apply cut_Some in E as [-> _].
  pose proof (SplitN_nonempty c n b) as Hne. specialize (IH b). destruct (SplitN c (S n) b) as [|x l]; [done|].
  by rewrite Join_cons, IH.
Qed.

Lemma Join_Split c s : Join (String c "") (Split c s) = s.
Proof. apply Join_SplitN. Qed.

Lemma free_of_app c a b : free_of c a -> free_of c b -> free_of c (a ++ b).
Proof.
  intros Ha Hb. induction a as [|d a IH]; [done|]. apply free_of_cons in Ha as [Hd Ha].
  change (String d a ++ b) with (String d (a ++ b)). apply free_of_cons. auto.
Qed.

Lemma string_app_assoc (a b c : string) : (a ++ (b ++ c)) = ((a ++ b) ++ c).
Proof. induction a as [|x a IH]; [done|]. simpl. by rewrite IH. Qed.

Lemma SplitN_fuel c n m s : (String.length s < n)%nat -> (String.length s < m)%nat -> SplitN c n s = SplitN c m s.
Proof.
  revert m s. induction n as [|n IH]; intros [|m] s Hn Hm; try lia.
  destruct (cut c s) as [[a b]|] eqn:E.
  - pose proof (cut_Some _ _ _ _ E) as [Hs _]. rewrite Hs, string_length_app in Hn, Hm. simpl in Hn, Hm.
    destruct n as [|n], m as [|m]; try lia. rewrite !SplitN_SS, E. f_equal. apply IH; lia.
  - destruct n as [|n], m as [|m]; simpl; by rewrite ?E.
Qed.

Lemma Split_app c a b : free_of c a -> Split c (a ++ String c b) = a :: Split c b.
Proof.
  intros Ha. unfold Split. rewrite (SplitN_fuel c _ (S (S (String.length a + String.length b))))
    by (rewrite string_length_app; simpl; lia).
  rewrite SplitN_SS, cut_app by done. f_equal. apply SplitN_fuel; lia.
Qed.

Lemma substring_length n m s : (String.length (String.substring n m s) <= m)%nat.
Proof.
  revert n m. induction s as [|c s IH]; intros n m; [destruct n, m; simpl; lia|].
  destruct n; [destruct m as [|m]|]; simpl; [lia| |apply IH]. specialize (IH 0%nat m). lia.
Qed.

Lemma substring_app a b : String.substring (String.length a) (String.length b) (a ++ b) = b.
Proof. induction a as [|c a IH]; [apply substring_all|]. exact IH. Qed.

(** A printed number has digits only, and a sign. *)
Lemma pretty_N_char_digit n : is_Some (digit_val (pretty_N_char n)).
Proof. unfold pretty_N_char. repeat case_match; eexists; vm_compute; reflexivity. Qed.

Lemma pretty_N_go_free c (x : N) s : digit_val c = None -> free_of c s -> free_of c (pretty_N_go x s).
Proof.
  intros Hc. revert s. induction (N.lt_wf_0 x) as [x _ IH]; intros s Hs.
  destruct (decide (x = 0)%N) as [->|Hx]; [by rewrite pretty_N_go_0|].
  rewrite pretty_N_go_step by lia. apply IH; [apply N.div_lt; lia|].
  apply free_of_cons. split; [|done]. intros <-. destruct (pretty_N_char_digit (x mod 10)). congruence.
Qed.

Lemma pretty_N_free c (x : N) : digit_val c = None -> free_of c (pretty x).
Proof.
  intros Hc. unfold pretty, pretty_N. destruct (decide _); [|by apply pretty_N_go_free].
  apply free_of_cons. split; [|done]. by intros <-.
Qed.

Lemma Itoa_free c z : digit_val c = None -> c <> "-"%char \/ 0 <= z -> free_of c (Itoa z).
Proof.
  intros Hc Hz. destruct z as [|p|p].
  - apply free_of_cons. split; [|done]. by intros <-.
  - by apply (pretty_N_free c (N.pos p)).
  - change (Itoa (Zneg p)) with ("-" ++ pretty (N.pos p)). apply free_of_app; [|by apply pretty_N_free].
    apply free_of_cons. split; [|done]. destruct Hz; [congruence|lia].
Qed.

(** The part behind the last separator. *)
Lemma Split_free c s : free_of c s -> Split c s = [s].
Proof. intros Hs. unfold Split. destruct (String.length s) as [|n] eqn:E; [done|]. by rewrite SplitN_SS, Hs. Qed.

Lemma last_Split c a b : free_of c b -> last (Split c (a ++ String c b)) = Some b.
Proof.
  intros Hb. remember (String.length a) as n eqn:Hn. assert (Hle : (String.length a <= n)%nat) by lia. clear Hn. revert a Hle.
  induction n as [|n IH]; intros a Hle.
  { destruct a; [|simpl in Hle; lia]. rewrite Split_app by done. by rewrite Split_free. }
  destruct (cut c a) as [[a1 a2]|] eqn:E.
  - apply cut_Some in E as [-> Ha1]. rewrite string_length_app in Hle. simpl in Hle.
    rewrite <- string_app_assoc. change (String c a2 ++ String c b) with (String c (a2 ++ String c b)). rewrite Split_app by done.
    specialize (IH a2 ltac:(lia)). destruct (Split c (a2 ++ String c b)) as [|y l]; [done|]. exact IH.
  - rewrite Split_app by done. by rewrite Split_free.
Qed.
