(* ===== verification/Urn.v ===== *)
(** * Names of functions

    pkg/common/faas_common/urnutils: the names of functions (urn_utils.go), of
    functions within a service (gadgets.go) and the keys they have in etcd
    (urnconv.go); parsing, printing, hiding tenants in logs, and the names that
    are given to Kubernetes.

    Strings are bytes; where the source converts to runes the names are ASCII.
    Indexing is within bounds by the length checks of the source. *)
From Stdlib Require Import Ascii.
From S2P Require Import Prelude GoStrings.
#[local] Open Scope string_scope.
#[local] Open Scope Z_scope.

Notation DefaultURNVersion := "latest"%string (only parsing).
Notation k8sLabelLen := 63%nat (only parsing).

(** [s[:n]] and [s[n:]]. *)
Definition str_take (n : nat) (s : string) : string := String.substring 0 n s.
Definition str_drop (n : nat) (s : string) : string := String.substring n (String.length s - n) s.

(** [strings.ReplaceAll] of one byte by another, [strings.ToLower]. *)
Fixpoint ReplaceAll (s : string) (a b : ascii) : string :=
  match s with "" => "" | String c s => String (if Ascii.eqb c a then b else c) (ReplaceAll s a b) end.
Definition lower (c : ascii) : ascii :=
  let n := N_of_ascii c in if ((65 <=? n) && (n <=? 90))%N then ascii_of_N (n + 32) else c.
Fixpoint ToLower (s : string) : string :=
  match s with "" => "" | String c s => String (lower c) (ToLower s) end.

(** ** Function names *)

Record FunctionURN := mkURN {
  ur_ProductID : string;
  ur_RegionID : string;
  ur_BusinessID : string;
  ur_TenantID : string;
  ur_TypeSign : string;
  ur_FuncName : string;
  ur_FuncVersion : string
}.
Implicit Types (p : FunctionURN).

Definition StringWithoutVersion p : string :=
  Join ":" [ur_ProductID p; ur_RegionID p; ur_BusinessID p; ur_TenantID p; ur_TypeSign p; ur_FuncName p].
Definition urn_String p : string :=
  let urn := StringWithoutVersion p in
  if negb (String.eqb (ur_FuncVersion p) "") then urn ++ ":" ++ ur_FuncVersion p else urn.

(** The version that [p] had stays when the text has none. *)
Definition urn_ParseFrom (urn : string) p : option FunctionURN :=
  match Split ":" urn with
  | [a; b; c; d; e; f] => Some (mkURN a b c d e f (ur_FuncVersion p))
  | [a; b; c; d; e; f; v] => Some (mkURN a b c d e f v)
  | _ => None
  end.

Definition noURN : FunctionURN := mkURN "" "" "" "" "" "" "".
Definition GetFunctionInfo (urn : string) : option FunctionURN := urn_ParseFrom urn noURN.
Definition GetFuncInfoWithVersion (urn : string) : option FunctionURN :=
  match GetFunctionInfo urn with
  | Some p => if String.eqb (ur_FuncVersion p) "" then None else Some p
  | None => None
  end.

Definition ParseAliasURN (aliasURN : string) : string :=
  match Split ":" aliasURN with
  | [a; b; c; d; e; f; v] => Join ":" [a; b; c; d; e; f; if HasPrefix v "!" then str_drop 1 v else v]
  | _ => aliasURN
  end.

Definition GetAlias p : string :=
  if String.eqb (ur_FuncVersion p) DefaultURNVersion then "" else
  match Atoi (ur_FuncVersion p) with Some _ => "" | None => ur_FuncVersion p end.
Definition GetAliasForFuncBranch p : string :=
  if HasPrefix (ur_FuncVersion p) "!" then str_drop 1 (ur_FuncVersion p) else "".

Definition BuildURNOrAliasURNTemp (business tenant function versionOrAlias : string) : string :=
  if String.eqb business "" || String.eqb tenant "" || String.eqb function "" || String.eqb versionOrAlias "" then ""
  else Join ":" ["sn"; "cn"; business; tenant; "function"; function; versionOrAlias].

(** A name without a version, with the default service in front. *)
Definition BuildStandardFunctionName (functionName : string) : string :=
  match Split "@" functionName with
  | [_] => "0@default@" ++ functionName
  | [_; _; _] => functionName
  | _ => ""
  end.

(** *** Validity *)

Definition isLetter (c : ascii) : bool :=
  let n := N_of_ascii c in (((65 <=? n) && (n <=? 90)) || ((97 <=? n) && (n <=? 122)))%N.
Definition isAlnum (c : ascii) : bool :=
  let n := N_of_ascii c in isLetter c || ((48 <=? n) && (n <=? 57))%N.
Definition isWord (c : ascii) : bool := isAlnum c || Ascii.eqb c "_" || Ascii.eqb c "-".

(** [([a-zA-Z0-9_-]*[a-zA-Z0-9])?$] *)
Fixpoint regexp_tail (s : string) : bool :=
  match s with
  | "" => true
  | String c "" => isAlnum c
  | String c s => isWord c && regexp_tail s
  end.
(** [^[a-zA-Z]([a-zA-Z0-9_-]*[a-zA-Z0-9])?$] *)
Definition functionGraphFuncNameRegexp (s : string) : bool :=
  match s with "" => false | String c s => isLetter c && regexp_tail s end.

Section Separator.
(** The separator of services and functions, which is configured. *)
Context (separator : ascii).

Definition GetFunctionNameAndServiceName (funcName : string) : option (string * string) :=
  if HasPrefix funcName "0" then
    match Split separator funcName with
    | _ :: service :: ((_ :: _) as rest) => Some (service, Join (String separator "") rest)
    | _ => None
    end
  else None.

(** No error. *)
Definition urn_Valid p : bool :=
  match GetFunctionNameAndServiceName (ur_FuncName p) with
  | None => false
  | Some (serviceID, functionName) =>
      (functionGraphFuncNameRegexp serviceID || functionGraphFuncNameRegexp functionName) &&
      negb ((128 <? String.length serviceID) || (128 <? String.length functionName))%nat
  end.

(** ** Names within a service *)

Record ComplexFuncName := mkComplex { cf_prefix : string; cf_ServiceID : string; cf_FuncName : string }.

Definition NewComplexFuncName (svcID funcName : string) : ComplexFuncName := mkComplex "0" svcID funcName.

Definition cf_ParseFrom (name : string) : ComplexFuncName :=
  match Split separator name with
  | prefix :: svc :: _ :: _ =>
      if negb (String.eqb prefix "0") then mkComplex "" "" name
      else mkComplex prefix svc (str_drop (String.length prefix + 1 + String.length svc + 1) name)
  | _ => mkComplex "" "" name
  end.
Definition cf_String (c : ComplexFuncName) : string :=
  Join (String separator "") [cf_prefix c; cf_ServiceID c; cf_FuncName c].
End Separator.

(** ** Keys *)

Definition CombineFunctionKey (tenantID funcName version : string) : string := Join "/" [tenantID; funcName; version].
Definition GetTenantFromFuncKey (funcKey : string) : string :=
  match Split "/" funcKey with [t; _; _] => t | _ => "" end.
Definition GetFuncNameFromFuncKey (funcKey : string) : string :=
  match Split "/" funcKey with [t; f; _] => t ++ "/" ++ f | _ => "" end.
Definition GetTenantFromAliasUrn (aliasUrn : string) : string :=
  match Split ":" aliasUrn with [_; _; _; t; _; _; _] => t | _ => "" end.
Definition CheckAliasUrnTenant (tenantID aliasUrn : string) : bool :=
  negb (String.eqb (GetTenantFromAliasUrn aliasUrn) "") && String.eqb (GetTenantFromAliasUrn aliasUrn) tenantID.

Record FunctionInfo := mkInfo { fi_Business : string; fi_Tenant : string; fi_FuncName : string; fi_Version : string }.
Definition GetFunctionInfoByKey (key : string) : FunctionInfo :=
  let keyFields := Split "/" key in
  let at_ i := nth i keyFields "" in
  if negb (length keyFields =? 11)%nat && negb (length keyFields =? 13)%nat then mkInfo "" "" "" ""
  else mkInfo (at_ 4%nat) (at_ 6%nat) (at_ 8%nat) (at_ 10%nat).

(** ** Hiding tenants *)

Definition Anonymize (str : string) : string :=
  if (String.length str <? 3 + 1 + 3)%nat then "****"
  else str_take 3 str ++ "****" ++ str_drop (String.length str - 3) str.
(** The element at an index, anonymized. *)
Definition anonymize_at (i : nat) (l : list string) : list string := alter Anonymize i l.
Definition AnonymizeTenantURN (urn : string) : string :=
  let elements := Split ":" urn in
  if (length elements <? 6)%nat || (7 <? length elements)%nat then urn else Join ":" (anonymize_at 3 elements).
Definition AnonymizeTenantKey (functionKey : string) : string := Join "/" (anonymize_at 0 (Split "/" functionKey)).
Definition AnonymizeTenantMetadataEtcdKey (etcdKey : string) : string :=
  let elements := Split "/" etcdKey in
  if (length elements <=? 6)%nat then etcdKey else Join "/" (anonymize_at 6 elements).

(** ** Names for Kubernetes *)

(** [fnv.New32a], in decimal. *)
Definition fnv32a (l : list Z) : Z := fold_left (fun h b => wrap32 (Z.lxor h b * 16777619)) l 2166136261.
Definition FnvHash (s : string) : string := Itoa (fnv32a (bytes_of s)).

Definition str_limit (n : nat) (s : string) : string := if (n <? String.length s)%nat then str_take n s else s.

(** The product and the tenant. *)
Definition splitTenant (tenant : string) : string * string :=
  match Split "@" tenant with
  | [_] => ("", tenant)
  | [t; product] => (product, t)
  | _ => ("", "")
  end.
Definition acquireBrief (business tenant : string) : string :=
  let '(product, tenant) := splitTenant tenant in
  str_limit 4 business ++ str_limit 4 tenant ++ str_limit 4 product.
Definition VersionConvForBranch (v : string) : string := str_limit 30 (ReplaceAll v "_" "-").

Definition acquireShorter (funcName : string) (functionNameLen : nat) : string :=
  String.substring (String.length funcName - functionNameLen) (functionNameLen - 1) funcName.

Definition CrName (business tenant funcName version : string) : string :=
  let crHash := str_limit 10 (FnvHash (Join "-" [business; tenant; funcName; version])) in
  let brief := acquireBrief business tenant in
  let ver := VersionConvForBranch version in
  let funcName := ReplaceAll (ReplaceAll funcName "@" "-") "_" "-" in
  let shortFunctionNameLen :=
    (k8sLabelLen - String.length brief - String.length ver - String.length crHash - 4)%nat in
  let funcName :=
    if HasPrefix funcName "0" && (shortFunctionNameLen <? String.length funcName)%nat
    then acquireShorter funcName shortFunctionNameLen else funcName in
  let crName := Join "-" [brief; funcName; ver; crHash] in
  let crNameLower := ToLower crName in
  if String.eqb crName crNameLower then "y" ++ crNameLower else "z" ++ crNameLower.

Definition CrNameByURN (urn : string) : string :=
  if String.eqb urn "" then "" else
  match GetFunctionInfo urn with
  | Some p => CrName (ur_BusinessID p) (ur_TenantID p) (ur_FuncName p) (ur_FuncVersion p)
  | None => ""
  end.
Definition CrNameByKey (funcKey : string) : string :=
  let i := GetFunctionInfoByKey funcKey in CrName (fi_Business i) (fi_Tenant i) (fi_FuncName i) (fi_Version i).

(** A label of at most 63 characters that begins with a letter when it was cut. *)
Definition GetShortFuncName (funcName : string) : string :=
  if (k8sLabelLen <? String.length funcName)%nat
  then "X" ++ str_drop (String.length funcName - k8sLabelLen + 1) funcName else funcName.

(** ** Printing and parsing *)

Definition urn_fields p : list string :=
  [ur_ProductID p; ur_RegionID p; ur_BusinessID p; ur_TenantID p; ur_TypeSign p; ur_FuncName p; ur_FuncVersion p].

Lemma urn_String_fields p :
  urn_String p = Join ":" (if String.eqb (ur_FuncVersion p) "" then take 6 (urn_fields p) else urn_fields p).
Proof.
  destruct p as [a b c d e f v]. unfold urn_String, StringWithoutVersion. simpl. destruct (String.eqb_spec v "") as [->|Hv]; [done|].
  simpl. by rewrite <- !string_app_assoc.
Qed.

Lemma Split_urn p : Forall (free_of ":") (urn_fields p) ->
  Split ":" (urn_String p) = if String.eqb (ur_FuncVersion p) "" then take 6 (urn_fields p) else urn_fields p.
Proof.
  intros HF. rewrite urn_String_fields. destruct (String.eqb _ _); apply Split_Join; try done.
  by apply Forall_take.
Qed.

(** C35: names of functions are printed and parsed back.  Fields without a colon
    come back from the text as they were, with and without a version; and a text
    that is accepted as a name with a version is the text that its fields
    print. *)
Theorem urn_roundtrip p :
  Forall (free_of ":") (urn_fields p) ->
  GetFunctionInfo (urn_String p) = Some p /\
  forall urn, GetFuncInfoWithVersion urn = Some p -> urn_String p = urn.
Proof.
  intros HF. split.
  - unfold GetFunctionInfo, urn_ParseFrom. rewrite Split_urn by done.
    destruct p as [a b c d e f v]. simpl. by destruct (String.eqb_spec v "") as [->|].
  - intros urn. unfold GetFuncInfoWithVersion, GetFunctionInfo, urn_ParseFrom.
    pose proof (Join_Split ":" urn) as HJ. revert HJ.
    destruct (Split ":" urn) as [|a [|b [|c [|d [|e [|f [|v [|w r]]]]]]]]; try done. intros HJ.
    simpl. destruct (String.eqb_spec v "") as [->|Hv]; [done|]. intros [= <-]. rewrite urn_String_fields. simpl.
    rewrite (proj2 (String.eqb_neq v "")) by done. exact HJ.
Qed.

Lemma urn_roundtrip_witness :
  let p := mkURN "sn" "cn" "yrk" "tenant" "function" "0@default@f" "latest" in
  GetFunctionInfo (urn_String p) = Some p.
Proof. apply (urn_roundtrip (mkURN "sn" "cn" "yrk" "tenant" "function" "0@default@f" "latest")). repeat constructor. Defined.

(** ** What a log shows of a tenant *)

Lemma Anonymize_free c t : free_of c "****" -> free_of c t -> free_of c (Anonymize t).
Proof.
  intros Hs Ht. unfold Anonymize. destruct (_ <? _)%nat; [done|].
  apply free_of_app; [by apply free_of_substring|]. apply free_of_app; [done|by apply free_of_substring].
Qed.

Definition with_tenant (t : string) p : FunctionURN :=
  mkURN (ur_ProductID p) (ur_RegionID p) (ur_BusinessID p) t (ur_TypeSign p) (ur_FuncName p) (ur_FuncVersion p).

Lemma AnonymizeTenantURN_String p :
  Forall (free_of ":") (urn_fields p) ->
  AnonymizeTenantURN (urn_String p) = urn_String (with_tenant (Anonymize (ur_TenantID p)) p).
Proof.
  intros HF. unfold AnonymizeTenantURN. rewrite Split_urn, !urn_String_fields by done. destruct p as [a b c d e f v]. simpl.
  by destruct (String.eqb v "").
Qed.

(** An anonymized name shows six letters of the tenant at most.  It is again
    a name with the same other fields, and two names that differ in the middle of
    their tenants only (beyond the first three and the last three letters) look
    the same. *)
Theorem anonymize_hides_tenant p t :
  Forall (free_of ":") (t :: urn_fields p) ->
  (7 <= String.length (ur_TenantID p))%nat -> (7 <= String.length t)%nat ->
  str_take 3 t = str_take 3 (ur_TenantID p) ->
  str_drop (String.length t - 3) t = str_drop (String.length (ur_TenantID p) - 3) (ur_TenantID p) ->
  AnonymizeTenantURN (urn_String (with_tenant t p)) = AnonymizeTenantURN (urn_String p) /\
  GetFunctionInfo (AnonymizeTenantURN (urn_String p)) = Some (with_tenant (Anonymize (ur_TenantID p)) p).
Proof.
  intros [Ht HF]%Forall_cons Hl1 Hl2 H1 H2.
  assert (Anonymize t = Anonymize (ur_TenantID p)) as Heq.
  { unfold Anonymize. rewrite !(proj2 (Nat.ltb_ge _ _)) by lia. by rewrite H1, H2. }
  assert (forall u, free_of ":" u -> Forall (free_of ":") (urn_fields (with_tenant u p))) as Hw.
  { intros u Hu. destruct p as [a b c d e f v]. unfold urn_fields, with_tenant in *. simpl in *.
    rewrite !Forall_cons in HF |- *. tauto. }
  assert (free_of ":" (ur_TenantID p)) as Hp by (unfold urn_fields in HF; rewrite !Forall_cons in HF; tauto).
  rewrite !AnonymizeTenantURN_String by auto. split.
  - simpl. by rewrite Heq.
  - unfold GetFunctionInfo, urn_ParseFrom. rewrite Split_urn by (apply Hw, Anonymize_free; done).
    destruct p as [a b c d e f v]. simpl. by destruct (String.eqb_spec v "") as [->|].
Qed.

Lemma anonymize_hides_tenant_witness :
  let p := mkURN "sn" "cn" "yrk" "abc123456xyz" "function" "f" "1" in
  AnonymizeTenantURN (urn_String (with_tenant "abc9xyz" p)) = AnonymizeTenantURN (urn_String p).
Proof.
  apply (anonymize_hides_tenant (mkURN "sn" "cn" "yrk" "abc123456xyz" "function" "f" "1") "abc9xyz");
    [repeat constructor|simpl; lia|simpl; lia|reflexivity|reflexivity].
Defined.

(** ** Names within a service, and keys *)

Lemma cf_String_new separator svcID funcName :
  cf_String separator (NewComplexFuncName svcID funcName) = "0" ++ String separator (svcID ++ String separator funcName).
Proof. done. Qed.

Lemma Split_complex separator svcID funcName :
  free_of separator svcID -> separator <> "0"%char ->
  exists x l, Split separator (cf_String separator (NewComplexFuncName svcID funcName)) = "0" :: svcID :: x :: l /\
    Join (String separator "") (x :: l) = funcName.
Proof.
  intros Hs Hsep. rewrite cf_String_new, Split_app, Split_app by (done || (apply free_of_cons; split; [congruence|done])).
  pose proof (SplitN_nonempty separator (String.length funcName) funcName) as Hne.
  pose proof (Join_Split separator funcName) as HJ. unfold Split in *. destruct (SplitN _ _ _) as [|x l]; [done|]. eauto.
Qed.

Lemma service_of_complex separator svcID funcName :
  free_of separator svcID -> separator <> "0"%char ->
  GetFunctionNameAndServiceName separator (cf_String separator (NewComplexFuncName svcID funcName)) = Some (svcID, funcName).
Proof.
  intros Hs Hsep. destruct (Split_complex separator svcID funcName Hs Hsep) as (x & l & Hsp & HJ).
  unfold GetFunctionNameAndServiceName. rewrite Hsp, HJ. by rewrite cf_String_new.
Qed.

Lemma str_drop_app a b : str_drop (String.length a) (a ++ b) = b.
Proof.
  unfold str_drop. rewrite string_length_app.
  replace (String.length a + String.length b - String.length a)%nat with (String.length b) by lia. apply substring_app.
Qed.

(** Names within a service are printed and parsed back: a service without
    the separator and any name, which may contain it. *)
Theorem complex_name_roundtrip separator svcID funcName :
  free_of separator svcID -> separator <> "0"%char ->
  let c := NewComplexFuncName svcID funcName in
  cf_ParseFrom separator (cf_String separator c) = c /\
  GetFunctionNameAndServiceName separator (cf_String separator c) = Some (svcID, funcName).
Proof.
  intros Hs Hsep c. split; [|by apply service_of_complex].
  destruct (Split_complex separator svcID funcName Hs Hsep) as (x & l & Hsp & _).
  unfold cf_ParseFrom. fold c in Hsp. rewrite Hsp. cbn match. simpl negb. cbn match. unfold c, NewComplexFuncName. f_equal.
  change (cf_String separator _) with ("0" ++ String separator (svcID ++ String separator funcName)).
  set (front := "0" ++ String separator (svcID ++ String separator "")).
  replace ("0" ++ String separator (svcID ++ String separator funcName)) with (front ++ funcName)
    by (change (front ++ funcName) with (String "0" (String separator ((svcID ++ String separator "") ++ funcName)));
        by rewrite <- string_app_assoc).
  replace (String.length "0" + 1 + String.length svcID + 1)%nat with (String.length front)
    by (unfold front; simpl; rewrite string_length_app; simpl; lia).
  apply str_drop_app.
Qed.

Lemma complex_name_roundtrip_witness :
  GetFunctionNameAndServiceName "-" (cf_String "-" (NewComplexFuncName "svc" "my-fn")) = Some ("svc", "my-fn").
Proof. apply (complex_name_roundtrip "-" "svc" "my-fn"); done. Defined.

(** Only one of the two names is checked.  A function whose service has a
    proper name is valid whatever characters its own name is made of: [Valid]
    asks that one of them match the pattern, not both. *)
Theorem valid_ignores_function_name separator p svcID funcName :
  free_of separator svcID -> separator <> "0"%char ->
  functionGraphFuncNameRegexp svcID = true -> (String.length svcID <= 128)%nat -> (String.length funcName <= 128)%nat ->
  ur_FuncName p = cf_String separator (NewComplexFuncName svcID funcName) ->
  urn_Valid separator p = true.
Proof.
  intros Hs Hsep Hr H1 H2 Hn. unfold urn_Valid. rewrite Hn, service_of_complex, Hr by done.
  simpl. apply negb_true_iff, orb_false_iff. split; apply Nat.ltb_ge; lia.
Qed.

Lemma valid_ignores_function_name_witness :
  functionGraphFuncNameRegexp "../etc" = false /\
  urn_Valid "-" (mkURN "sn" "cn" "yrk" "t" "function" "0-svc-../etc" "1") = true.
Proof.
  split; [reflexivity|].
  apply (valid_ignores_function_name "-" (mkURN "sn" "cn" "yrk" "t" "function" "0-svc-../etc" "1") "svc" "../etc");
    try done; simpl; lia.
Defined.

(** Keys are taken apart again. *)
Lemma function_key_roundtrip t f v :
  Forall (free_of "/") [t; f; v] ->
  GetTenantFromFuncKey (CombineFunctionKey t f v) = t /\ GetFuncNameFromFuncKey (CombineFunctionKey t f v) = t ++ "/" ++ f.
Proof.
  intros HF. unfold GetTenantFromFuncKey, GetFuncNameFromFuncKey, CombineFunctionKey. by rewrite Split_Join.
Qed.

(** A tenant is found again in the name that is built for it, and only there. *)
Lemma alias_urn_tenant b t f v t' :
  Forall (free_of ":") [b; t; f; v] -> b <> "" -> t <> "" -> f <> "" -> v <> "" ->
  CheckAliasUrnTenant t' (BuildURNOrAliasURNTemp b t f v) = String.eqb t t'.
Proof.
  intros HF Hb Ht Hf Hv. unfold BuildURNOrAliasURNTemp.
  rewrite !(proj2 (String.eqb_neq _ _)) by done. simpl orb. cbn match.
  unfold CheckAliasUrnTenant, GetTenantFromAliasUrn. rewrite !Forall_cons in HF. destruct HF as (H1 & H2 & H3 & H4 & _).
  rewrite Split_Join by (done || (repeat (apply Forall_cons; split; [done|]); done)).
  by rewrite (proj2 (String.eqb_neq t "")).
Qed.

(** ** Names that fit a label *)

Lemma ReplaceAll_length s a b : String.length (ReplaceAll s a b) = String.length s.
Proof. induction s as [|c s IH]; [done|]. simpl. by rewrite IH. Qed.
Lemma ToLower_length s : String.length (ToLower s) = String.length s.
Proof. induction s as [|c s IH]; [done|]. simpl. by rewrite IH. Qed.
Lemma str_limit_length n s : (String.length (str_limit n s) <= n)%nat.
Proof.
  unfold str_limit, str_take. destruct (n <? String.length s)%nat eqn:E; [apply substring_length|].
  apply Nat.ltb_ge in E. lia.
Qed.
Lemma HasPrefix_char c d s : HasPrefix (String c s) (String d "") = Ascii.eqb d c.
Proof.
  unfold HasPrefix. cbn [String.prefix]. destruct (ascii_dec d c) as [->|Hn]; [by rewrite Ascii.eqb_refl; destruct s|].
  symmetry. by apply Ascii.eqb_neq.
Qed.
Lemma HasPrefix_replaced s a b d :
  a <> d -> b <> d -> HasPrefix (ReplaceAll s a b) (String d "") = HasPrefix s (String d "").
Proof.
  intros Ha Hb. destruct s as [|c s]; [done|]. cbn [ReplaceAll]. rewrite !HasPrefix_char.
  destruct (Ascii.eqb_spec c a) as [->|]; [|done]. by rewrite !(proj2 (Ascii.eqb_neq _ _)) by congruence.
Qed.

Lemma marked_length j :
  String.length (if String.eqb j (ToLower j) then "y" ++ ToLower j else "z" ++ ToLower j) = S (String.length j).
Proof. transitivity (S (String.length (ToLower j))); [by destruct (String.eqb _ _)|by rewrite ToLower_length]. Qed.

Lemma brief_length b t : (String.length (acquireBrief b t) <= 12)%nat.
Proof.
  unfold acquireBrief. destruct (splitTenant t) as [pr te]. rewrite !string_length_app.
  pose proof (str_limit_length 4 b). pose proof (str_limit_length 4 te). pose proof (str_limit_length 4 pr). lia.
Qed.

(** The name of a function's custom resource fits a Kubernetes label when
    the function belongs to a service (its name begins with "0"), however long
    its tenant, name and version are; any other name is not cut, so that the
    result is longer than the name. *)
Theorem CrName_fits_label business tenant funcName version :
  let n := String.length (CrName business tenant funcName version) in
  if HasPrefix funcName "0" then (n <= k8sLabelLen)%nat else (String.length funcName + 4 <= n)%nat.
Proof.
  intros n. subst n. unfold CrName. cbv zeta.
  set (hash := str_limit 10 _). set (brief := acquireBrief business tenant). set (ver := VersionConvForBranch version).
  set (fn := ReplaceAll (ReplaceAll funcName "@" "-") "_" "-").
  assert (String.length fn = String.length funcName) as Hfn by (unfold fn; by rewrite !ReplaceAll_length).
  assert (HasPrefix fn "0" = HasPrefix funcName "0") as Hp by (unfold fn; by rewrite !HasPrefix_replaced).
  set (short := (63 - String.length brief - String.length ver - String.length hash - 4)%nat).
  set (name := if HasPrefix fn "0" && (short <? String.length fn)%nat then acquireShorter fn short else fn).
  rewrite marked_length. assert (String.length (Join "-" [brief; name; ver; hash]) =
    String.length brief + String.length name + String.length ver + String.length hash + 3)%nat as ->.
  { cbn [Join]. rewrite !string_length_app. cbn [String.length]. lia. }
  assert (String.length brief <= 12)%nat by apply brief_length. assert (String.length ver <= 30)%nat by apply str_limit_length.
  assert (String.length hash <= 10)%nat by apply str_limit_length.
  unfold name. rewrite Hp. destruct (HasPrefix funcName "0"); simpl; [|lia].
  destruct (short <? String.length fn)%nat eqn:E; [|apply Nat.ltb_ge in E; unfold short in *; lia].
  pose proof (substring_length (String.length fn - short) (short - 1) fn). unfold acquireShorter. unfold short in *. lia.
Qed.

(** What is cut off is not only the front: the last letter goes too, so that two
    long names that differ in it alone differ in their hash alone. *)
Lemma acquireShorter_drops_last s c d n :
  (0 < n <= String.length s)%nat -> acquireShorter (s ++ String c "") n = acquireShorter (s ++ String d "") n.
Proof.
  intros Hn. unfold acquireShorter. rewrite !string_length_app. simpl.
  assert (forall x k m, (k + m <= String.length s)%nat -> String.substring k m (s ++ x) = String.substring k m s) as H.
  { clear. induction s as [|a s IH]; intros x k m Hk; simpl in *.
    - assert (k = 0%nat /\ m = 0%nat) as [-> ->] by lia. by destruct x.
    - destruct k as [|k]; [destruct m as [|m]; [done|]; f_equal; apply IH; lia|apply IH; lia]. }
  rewrite !H by lia. done.
Qed.
