(* ===== verification/SchedErrors.v ===== *)
(** * Error values of the function scheduler

    The sentinel errors of scheduler/instance_scheduler.go, the coded errors of
    common/faas_common/snerror, and the predicates the schedulers classify
    create errors with. *)
From S2P Require Import Prelude.

(** An [error]: a sentinel compared by identity, a coded [SNError], or any
    other value known by its text. *)
Inductive schError :=
  | ErrUnsupported
  | ErrInternal
  | ErrTypeConvertFail
  | ErrInsNotExist
  | ErrInsAlreadyExist
  | ErrInsSubHealthy
  | ErrNoInsAvailable
  | ErrDesignateInsNotAvailable
  | ErrInsReqTimeout
  | ErrInvalidSession
  | ErrFuncSigMismatch
  | ErrFunctionDeleted
  | ErrSessionNotFound
  | ErrOverAcqLimitExceeded.

Inductive goError :=
  | Sentinel (e : schError)
  | SNError (code : Z) (message : string)
  | PlainError (message : string).

#[global] Instance schError_eq_dec : EqDecision schError.
Proof. solve_decision. Defined.
#[global] Instance goError_eq_dec : EqDecision goError.
Proof. solve_decision. Defined.

Notation UserErrorMax := (4999)%Z (only parsing).
Notation UserErrorMin := (4000)%Z (only parsing).

Definition snerror_IsUserError (code : Z) : bool := (UserErrorMin <=? code) && (code <=? UserErrorMax).

Notation UserFuncEntryNotFoundErrCode := (4001)%Z (only parsing).
Notation KernelEtcdWriteFailedCode := (161913)%Z (only parsing).
Notation WiseCloudNuwaColdStartErrCode := (161915)%Z (only parsing).
Notation ReachMaxInstancesCode := (150429)%Z (only parsing).
Notation GettingPodErrorCode := (150431)%Z (only parsing).
Notation ReachMaxOnDemandInstancesPerTenant := (150432)%Z (only parsing).
Notation CancelGeneralizePod := (150439)%Z (only parsing).

Definition IsUnrecoverableError (err : goError) : bool :=
  match err with
  | SNError code _ =>
      if snerror_IsUserError code then true
      else (code =? UserFuncEntryNotFoundErrCode) || (code =? KernelEtcdWriteFailedCode) ||
           (code =? WiseCloudNuwaColdStartErrCode)
  | _ => false
  end.

Definition NeedTryError (err : goError) : bool :=
  match err with
  | SNError code _ =>
      (code =? GettingPodErrorCode) || (code =? CancelGeneralizePod) ||
      (code =? ReachMaxInstancesCode) || (code =? ReachMaxOnDemandInstancesPerTenant)
  | _ => false
  end.

(** No error is both: what ends every pending request at once is never an error
    the worker manager wants retried. *)
Lemma unrecoverable_not_retried err : IsUnrecoverableError err = true -> NeedTryError err = false.
Proof.
  destruct err as [e|code msg|msg]; try done. unfold IsUnrecoverableError, NeedTryError, snerror_IsUserError.
  destruct (4000 <=? code) eqn:E1, (code <=? 4999) eqn:E2; simpl; lia.
Qed.
