(* ===== verification/TimeWheel.v ===== *)
(** * The time wheel of pkg/common/faas_common/timewheel

    [SimpleTimeWheel] (simpletimewheel.go) triggers registered tasks after a
    number of ticks.  A trigger object is shared between the slot that holds it
    and the [record] map, so triggers live in a heap and both hold its address.
    The [run] goroutine is split into the steps at which it can be observed:
    one tick, the (possibly blocking) send on [readyCh], and the stop. *)
From S2P Require Import Prelude.

Notation minPace := (2 * Millisecond)%Z (only parsing).
Notation minSlotNum := (1)%Z (only parsing).
Definition readyChan : nat := 10.
Definition readyChanBlock : nat := 5.

Inductive twError :=
  | ErrTaskAlreadyExist (taskID : string)
  | ErrInvalidTaskInterval
  | ErrNotTimeTrigger
  | ErrReadyChanBlock.

Record timeTrigger := mkTrigger {
  tt_taskID : string;
  tt_times : Z;
  tt_index : Z;
  tt_circle : Z;
  tt_circleCount : Z
}.

(** [tw_sending] is the list the [run] goroutine is blocked sending; the [Z]s
    are [time.Duration] and [int64]. *)
Record SimpleTimeWheel := mkWheel {
  tw_pace : Z;
  tw_perimeter : Z;
  tw_slotNum : Z;
  tw_curSlot : Z;
  tw_slots : list (gmap string nat);
  tw_record : gmap string nat;
  tw_heap : list timeTrigger;
  tw_sending : option (list string);
  tw_readyCh : list (list string);
  tw_stopped : bool
}.

Definition set_tasks (w : SimpleTimeWheel) (slots : list (gmap string nat))
    (record : gmap string nat) (heap : list timeTrigger) : SimpleTimeWheel :=
  mkWheel (tw_pace w) (tw_perimeter w) (tw_slotNum w) (tw_curSlot w) slots record
    heap (tw_sending w) (tw_readyCh w) (tw_stopped w).

Definition set_cur (w : SimpleTimeWheel) (c : Z) : SimpleTimeWheel :=
  mkWheel (tw_pace w) (tw_perimeter w) (tw_slotNum w) c (tw_slots w) (tw_record w)
    (tw_heap w) (tw_sending w) (tw_readyCh w) (tw_stopped w).

Definition set_chan (w : SimpleTimeWheel) (s : option (list string))
    (ch : list (list string)) (stopped : bool) : SimpleTimeWheel :=
  mkWheel (tw_pace w) (tw_perimeter w) (tw_slotNum w) (tw_curSlot w) (tw_slots w)
    (tw_record w) (tw_heap w) s ch stopped.

Definition NewSimpleTimeWheel (pace slotNum : Z) : SimpleTimeWheel :=
  let pace := if pace <? minPace then minPace else pace in
  let slotNum := if slotNum <? minSlotNum then minSlotNum else slotNum in
  mkWheel pace (slotNum * pace) slotNum 0 (replicate (Z.to_nat slotNum) ∅) ∅ []
    None [] false.

(** [gt.slots[i].Store], [gt.slots[i].Delete]. *)
Definition slot_store (slots : list (gmap string nat)) (i : Z) (id : string) (p : nat) :=
  alter (fun m => <[id:=p]> m) (Z.to_nat i) slots.
Definition slot_delete (slots : list (gmap string nat)) (i : Z) (id : string) :=
  alter (fun m => delete id m) (Z.to_nat i) slots.
Definition slot_at (w : SimpleTimeWheel) (i : Z) : gmap string nat :=
  default ∅ (tw_slots w !! Z.to_nat i).

(** The new state of a trigger after its slot is visited. *)
Definition visit_trigger (t : timeTrigger) : timeTrigger :=
  if tt_circleCount t =? tt_circle t
  then mkTrigger (tt_taskID t)
         (if 0 <? tt_times t then tt_times t - 1 else tt_times t)
         (tt_index t) (tt_circle t) (0 + 1)
  else mkTrigger (tt_taskID t) (tt_times t) (tt_index t) (tt_circle t)
         (tt_circleCount t + 1).

(** The body of the [slot.Range] callback for the entry [(id, p)]. *)
Definition visit (currSlot : Z) (acc : SimpleTimeWheel * list string)
    (e : string * nat) : SimpleTimeWheel * list string :=
  let '(w, readyList) := acc in
  let '(id, p) := e in
  match tw_heap w !! p with
  | None => (set_tasks w (slot_delete (tw_slots w) currSlot id) (tw_record w) (tw_heap w),
             readyList)
  | Some t =>
      let heap := <[p:=visit_trigger t]> (tw_heap w) in
      if tt_circleCount t =? tt_circle t then
        (if tt_times t =? 0
         then set_tasks w (slot_delete (tw_slots w) currSlot id)
                (delete (tt_taskID t) (tw_record w)) heap
         else set_tasks w (tw_slots w) (tw_record w) heap,
         readyList ++ [tt_taskID t])
      else (set_tasks w (tw_slots w) (tw_record w) heap, readyList)
  end.

(** [slot.Range] visits each entry once, in an order Go does not specify; the
    model uses the map's own. *)
Definition checkAndFireTrigger (w : SimpleTimeWheel) (currSlot : Z) : SimpleTimeWheel :=
  let '(w', readyList) :=
    fold_left (visit currSlot) (map_to_list (slot_at w currSlot)) (w, []) in
  match readyList with
  | [] => w'
  | _ => set_chan w' (Some readyList) (tw_readyCh w') (tw_stopped w')
  end.

(** One turn of [run] on the ticker; [None] when the goroutine is blocked on
    [readyCh] or has returned. *)
Definition run_tick (w : SimpleTimeWheel) : option SimpleTimeWheel :=
  if tw_stopped w then None else
  match tw_sending w with
  | Some _ => None
  | None =>
      let curSlot := (tw_curSlot w + 1) %g Z.of_nat (length (tw_slots w)) in
      Some (checkAndFireTrigger (set_cur w curSlot) curSlot)
  end.

(** The send on the bounded [readyCh] goes through. *)
Definition run_send (w : SimpleTimeWheel) : option SimpleTimeWheel :=
  match tw_sending w with
  | Some l => if (length (tw_readyCh w) <? readyChan)%nat
              then Some (set_chan w None (tw_readyCh w ++ [l]) (tw_stopped w))
              else None
  | None => None
  end.

(** [None] is a blocked receive. *)
Definition Wait (w : SimpleTimeWheel)
    : option (list string * option twError * SimpleTimeWheel) :=
  match tw_readyCh w with
  | readyList :: rest =>
      Some (readyList,
            if (readyChanBlock <? length rest)%nat then Some ErrReadyChanBlock else None,
            set_chan w (tw_sending w) rest (tw_stopped w))
  | [] => if tw_stopped w then Some ([], None, w) else None
  end.

(** Where a task of the given interval goes: circle, circleCount and index. *)
Definition place (w : SimpleTimeWheel) (interval : Z) : Z * Z * Z :=
  let curSlot := tw_curSlot w in
  let circle := (interval /g tw_pace w + curSlot + 1) /g tw_slotNum w in
  let circleCount := 1 in
  let index := (interval /g tw_pace w + curSlot + 1) %g tw_slotNum w in
  let circleCount := if curSlot <? index then circleCount - 1 else circleCount in
  (circle, circleCount, index).

Definition AddTask (w : SimpleTimeWheel) (taskID : string) (interval times : Z)
    : option twError * SimpleTimeWheel :=
  if interval <? tw_perimeter w then (Some ErrInvalidTaskInterval, w) else
  match tw_record w !! taskID with
  | Some _ => (Some (ErrTaskAlreadyExist taskID), w)
  | None =>
      let '(circle, circleCount, index) := place w interval in
      let p := length (tw_heap w) in
      let trigger := mkTrigger taskID times index circle circleCount in
      (None, set_tasks w (slot_store (tw_slots w) index taskID p)
               (<[taskID:=p]> (tw_record w)) (tw_heap w ++ [trigger]))
  end.

Definition DelTask (w : SimpleTimeWheel) (taskID : string)
    : option twError * SimpleTimeWheel :=
  match tw_record w !! taskID with
  | None => (None, w)
  | Some p =>
      let record := delete taskID (tw_record w) in
      match tw_heap w !! p with
      | None => (Some ErrNotTimeTrigger, set_tasks w (tw_slots w) record (tw_heap w))
      | Some t => (None, set_tasks w (slot_delete (tw_slots w) (tt_index t) taskID) record
                           (tw_heap w))
      end
  end.

(** [Stop] waits for [run] to return, which drops a list it is blocked on. *)
Definition Stop (w : SimpleTimeWheel) : SimpleTimeWheel :=
  if tw_stopped w then w else set_chan w None (tw_readyCh w) true.

Definition UpdateTask (w : SimpleTimeWheel) (taskID : string) (interval times : Z)
    : option twError * SimpleTimeWheel :=
  match tw_record w !! taskID with
  | None => AddTask w taskID interval times
  | Some p =>
      match tw_heap w !! p with
      | None => (Some ErrNotTimeTrigger, w)
      | Some t =>
          let slots := slot_delete (tw_slots w) (tt_index t) (tt_taskID t) in
          let '(circle, circleCount, index) := place w interval in
          let t' := mkTrigger (tt_taskID t) times index circle circleCount in
          (None, set_tasks w (slot_store slots index (tt_taskID t) p) (tw_record w)
                   (<[p:=t']> (tw_heap w)))
      end
  end.

(** ** Well-formed wheels *)

(** The trigger a task id is registered with. *)
Definition trigger_of (w : SimpleTimeWheel) (id : string) : option timeTrigger :=
  tw_record w !! id ≫= fun p => tw_heap w !! p.

(** A trigger as [place] builds it and [visit_trigger] keeps it. *)
Definition trigger_ok (w : SimpleTimeWheel) (t : timeTrigger) : Prop :=
  0 <= tt_index t < tw_slotNum w /\ 1 <= tt_circle t /\
  0 <= tt_circleCount t <= tt_circle t.

Record wheel_wf (w : SimpleTimeWheel) : Prop := {
  wf_pace : 0 < tw_pace w;
  wf_slotNum : 0 < tw_slotNum w;
  wf_length : Z.of_nat (length (tw_slots w)) = tw_slotNum w;
  wf_perimeter : tw_perimeter w = tw_slotNum w * tw_pace w;
  wf_cur : 0 <= tw_curSlot w < tw_slotNum w;
  wf_record : forall id p, tw_record w !! id = Some p ->
    exists t, tw_heap w !! p = Some t /\ tt_taskID t = id /\ trigger_ok w t /\
              slot_at w (tt_index t) !! id = Some p;
  wf_slots : forall i id p, 0 <= i -> slot_at w i !! id = Some p ->
    tw_record w !! id = Some p /\ exists t, tw_heap w !! p = Some t /\ tt_index t = i
}.

(** Ticks until a trigger fires: to the next visit of its slot, then one full
    turn for every circle it has left. *)
Definition trigger_remaining (w : SimpleTimeWheel) (t : timeTrigger) : Z :=
  (tt_index t - tw_curSlot w - 1) mod tw_slotNum w + 1
  + (tt_circle t - tt_circleCount t) * tw_slotNum w.

Definition remaining (w : SimpleTimeWheel) (id : string) : option Z :=
  trigger_remaining w <$> trigger_of w id.

(** ** Slots *)

Lemma slot_at_store w slots record heap i j id p :
  0 <= i < Z.of_nat (length slots) -> 0 <= j ->
  slot_at (set_tasks w (slot_store slots i id p) record heap) j =
  (if decide (i = j) then <[id:=p]> (slot_at (set_tasks w slots record heap) j)
   else slot_at (set_tasks w slots record heap) j).
Proof.
  intros Hi Hj. unfold slot_at, slot_store; simpl.
  case_decide as E.
  - subst j. rewrite list_lookup_alter_eq.
    destruct (lookup_lt_is_Some_2 slots (Z.to_nat i)) as [m Hm]; [lia|].
    by rewrite Hm.
  - rewrite list_lookup_alter_ne; [done|]. lia.
Qed.

Lemma slot_at_delete w slots record heap i j id :
  0 <= i -> 0 <= j ->
  slot_at (set_tasks w (slot_delete slots i id) record heap) j =
  (if decide (i = j) then delete id (slot_at (set_tasks w slots record heap) j)
   else slot_at (set_tasks w slots record heap) j).
Proof.
  intros Hi Hj. unfold slot_at, slot_delete; simpl.
  case_decide as E.
  - subst j. rewrite list_lookup_alter_eq.
    destruct (slots !! Z.to_nat i); simpl; [done|]. by rewrite delete_empty.
  - rewrite list_lookup_alter_ne; [done|]. lia.
Qed.

Lemma slot_at_tasks w record heap i :
  slot_at (set_tasks w (tw_slots w) record heap) i = slot_at w i.
Proof. done. Qed.

Lemma slot_store_length slots i id p :
  length (slot_store slots i id p) = length slots.
Proof. apply length_alter. Qed.

Lemma slot_delete_length slots i id : length (slot_delete slots i id) = length slots.
Proof. apply length_alter. Qed.

Lemma wf_trigger w id t :
  wheel_wf w -> trigger_of w id = Some t ->
  tt_taskID t = id /\ trigger_ok w t /\
  exists p, tw_record w !! id = Some p /\ tw_heap w !! p = Some t /\
            slot_at w (tt_index t) !! id = Some p.
Proof.
  intros Hwf Ht. unfold trigger_of in Ht.
  destruct (tw_record w !! id) as [p|] eqn:Hp; [|done]. simpl in Ht.
  destruct (wf_record w Hwf id p Hp) as (t' & Hh & Hid & Hok & Hs).
  assert (t' = t) by congruence. subst. eauto 10.
Qed.

(** Two tasks never share a trigger. *)
Lemma wf_record_inj w id1 id2 p :
  wheel_wf w -> tw_record w !! id1 = Some p -> tw_record w !! id2 = Some p -> id1 = id2.
Proof.
  intros Hwf H1 H2.
  destruct (wf_record w Hwf id1 p H1) as (t1 & Hh1 & <- & _).
  destruct (wf_record w Hwf id2 p H2) as (t2 & Hh2 & <- & _). congruence.
Qed.

Lemma NewSimpleTimeWheel_wf pace slotNum : wheel_wf (NewSimpleTimeWheel pace slotNum).
Proof.
  unfold NewSimpleTimeWheel, Millisecond.
  set (P := if pace <? _ then _ else _). set (S := if slotNum <? _ then _ else _).
  assert (0 < P) by (subst P; case_bool; lia).
  assert (0 < S) by (subst S; case_bool; lia).
  split; simpl; try done; try lia.
  - rewrite length_replicate. lia.
  - intros i id p _. unfold slot_at; simpl.
    destruct (replicate _ _ !! _) as [m|] eqn:E; [|done].
    apply lookup_replicate in E as [-> _]. done.
Qed.

(** ** Placing a task *)

(** [place] puts a task so that it fires after [interval / pace + 1] ticks. *)
Lemma place_spec w interval circle count index times id :
  wheel_wf w -> tw_perimeter w <= interval ->
  place w interval = (circle, count, index) ->
  let t := mkTrigger id times index circle count in
  trigger_ok w t /\ trigger_remaining w t = interval / tw_pace w + 1.
Proof.
  intros Hwf Hint Hpl. destruct Hwf as [Hp Hs _ Hper Hcur _ _].
  unfold place in Hpl. rewrite Hper in Hint.
  assert (tw_slotNum w <= interval / tw_pace w) as Hn
    by (apply Z.div_le_lower_bound; lia).
  rewrite (go_quot_nonneg interval (tw_pace w)) in Hpl by nia.
  rewrite go_quot_nonneg, go_rem_nonneg in Hpl by lia.
  set (n := interval / tw_pace w) in *.
  set (S := tw_slotNum w) in *. set (c := tw_curSlot w) in *.
  pose proof (Z.div_mod (n + c + 1) S ltac:(lia)) as Hdm.
  pose proof (Z.mod_pos_bound (n + c + 1) S ltac:(lia)) as Hmb.
  assert (1 <= (n + c + 1) / S) as Hq by (apply Z.div_le_lower_bound; lia).
  injection Hpl as <- <- <-.
  set (q := (n + c + 1) / S) in *. set (r := (n + c + 1) mod S) in *.
  unfold trigger_ok, trigger_remaining; simpl; fold S c.
  destruct (Z.ltb_spec c r) as [Hlt|Hge].
  - split; [lia|]. rewrite (Z.mod_small (r - c - 1)); nia.
  - split; [lia|].
    replace ((r - c - 1) mod S) with (r - c - 1 + S); [nia|].
    rewrite <- (Z.mod_add (r - c - 1) 1 S) by lia.
    rewrite Z.mod_small; lia.
Qed.

(** ** The task operations *)

Lemma set_tasks_remaining w slots record heap id :
  remaining (set_tasks w slots record heap) id =
  trigger_remaining w <$> trigger_of (set_tasks w slots record heap) id.
Proof. done. Qed.

Lemma wf_heap_bound w id p :
  wheel_wf w -> tw_record w !! id = Some p -> (p < length (tw_heap w))%nat.
Proof.
  intros Hwf Hp. destruct (wf_record w Hwf id p Hp) as (t & Ht & _).
  by eapply lookup_lt_Some.
Qed.

Lemma AddTask_wf w id interval times w' :
  wheel_wf w -> AddTask w id interval times = (None, w') -> wheel_wf w'.
Proof.
  intros Hwf. unfold AddTask. destruct (Z.ltb_spec interval (tw_perimeter w)); [done|].
  destruct (tw_record w !! id) eqn:Hid; [done|].
  destruct (place w interval) as [[circle count] index] eqn:Hpl.
  intros [= <-].
  destruct (place_spec w interval circle count index times id Hwf ltac:(lia) Hpl) as [Hok _].
  pose proof Hok as ((Hi1 & Hi2) & _); simpl in Hi1, Hi2.
  pose proof (wf_length w Hwf) as Hlen.
  split; simpl; try apply Hwf.
  - rewrite slot_store_length. apply Hlen.
  - intros id' p Hp. apply lookup_insert_Some in Hp as [[<- <-]|[Hne Hp]].
    + exists (mkTrigger id times index circle count). split_and!; try done.
      * by rewrite lookup_app_r, Nat.sub_diag by lia.
      * simpl. rewrite slot_at_store by lia. rewrite decide_True by done.
        apply lookup_insert_eq.
    + destruct (wf_record w Hwf id' p Hp) as (t & Ht & Htid & Htok & Hs).
      exists t. split_and!; try done.
      * rewrite lookup_app_l; [done|]. by eapply lookup_lt_Some.
      * rewrite slot_at_store by (destruct Htok; lia).
        case_decide; [rewrite lookup_insert_ne|]; done.
  - intros i id' p Hi. rewrite slot_at_store by lia. intros Hs.
    assert (i = index /\ id' = id /\ p = length (tw_heap w) \/
            id' <> id /\ slot_at w i !! id' = Some p) as [(-> & -> & ->)|[Hne Hs']].
    { case_decide as E.
      - subst i. apply lookup_insert_Some in Hs as [[<- <-]|[? ?]]; [by left|right].
        by split; [congruence|].
      - right. split; [|done]. intros ->.
        destruct (wf_slots w Hwf i id p Hi Hs) as [Hr _]. congruence. }
    + split; [apply lookup_insert_eq|]. eexists.
      rewrite lookup_app_r, Nat.sub_diag by lia. by split.
    + destruct (wf_slots w Hwf i id' p Hi Hs') as (Hr & t & Ht & Hti).
      split; [by rewrite lookup_insert_ne|]. exists t. split; [|done].
      rewrite lookup_app_l; [done|]. by eapply lookup_lt_Some.
Qed.

Lemma AddTask_other w id interval times err w' id' :
  wheel_wf w -> AddTask w id interval times = (err, w') -> id' <> id ->
  trigger_of w' id' = trigger_of w id'.
Proof.
  intros Hwf. unfold AddTask. destruct (interval <? _); [by intros [= <- <-]|].
  destruct (tw_record w !! id); [by intros [= <- <-]|].
  destruct (place w interval) as [[circle count] index]. intros [= <- <-] Hne.
  unfold trigger_of; simpl. rewrite lookup_insert_ne by done.
  destruct (tw_record w !! id') as [p|] eqn:Hp; simpl; [|done].
  rewrite lookup_app_l; [done|]. by eapply wf_heap_bound.
Qed.

Lemma AddTask_remaining w id interval times w' :
  wheel_wf w -> AddTask w id interval times = (None, w') ->
  remaining w' id = Some (interval / tw_pace w + 1).
Proof.
  intros Hwf. unfold AddTask. destruct (Z.ltb_spec interval (tw_perimeter w)); [done|].
  destruct (tw_record w !! id) eqn:Hid; [done|].
  destruct (place w interval) as [[circle count] index] eqn:Hpl.
  intros [= <-]. rewrite set_tasks_remaining. unfold trigger_of; simpl.
  rewrite lookup_insert_eq; simpl. rewrite lookup_app_r, Nat.sub_diag by lia; simpl.
  by destruct (place_spec w interval circle count index times id Hwf ltac:(lia) Hpl) as [_ ->].
Qed.

Lemma AddTask_trigger w id interval times w' :
  wheel_wf w -> AddTask w id interval times = (None, w') ->
  exists t, trigger_of w' id = Some t /\ tt_times t = times /\
    tt_circle t = (interval / tw_pace w + tw_curSlot w + 1) / tw_slotNum w.
Proof.
  intros Hwf. unfold AddTask. destruct (Z.ltb_spec interval (tw_perimeter w)); [done|].
  destruct (tw_record w !! id) eqn:Hid; [done|].
  destruct (place w interval) as [[circle count] index] eqn:Hpl. intros [= <-].
  unfold trigger_of; simpl. rewrite lookup_insert_eq; simpl.
  rewrite lookup_app_r, Nat.sub_diag by lia. eexists. split_and!; try done; simpl.
  unfold place in Hpl. destruct Hwf as [Hp Hs _ Hper Hcur _ _].
  assert (0 <= interval) by nia. pose proof (Z.div_pos interval (tw_pace w)).
  rewrite (go_quot_nonneg interval) in Hpl by lia.
  rewrite go_quot_nonneg in Hpl by lia. by injection Hpl.
Qed.

Lemma DelTask_gone w id err w' :
  wheel_wf w -> DelTask w id = (err, w') ->
  err = None /\ trigger_of w' id = None /\
  forall id', id' <> id -> trigger_of w' id' = trigger_of w id'.
Proof.
  intros Hwf. unfold DelTask. destruct (tw_record w !! id) as [p|] eqn:Hp.
  - destruct (wf_record w Hwf id p Hp) as (t & Ht & _). rewrite Ht.
    intros [= <- <-]. unfold trigger_of; simpl. rewrite lookup_delete_eq.
    split_and!; [done..|]. intros id' Hne. by rewrite lookup_delete_ne.
  - intros [= <- <-]. unfold trigger_of at 1. by rewrite Hp.
Qed.

Lemma DelTask_wf w id err w' : wheel_wf w -> DelTask w id = (err, w') -> wheel_wf w'.
Proof.
  intros Hwf. unfold DelTask. destruct (tw_record w !! id) as [p|] eqn:Hp.
  2: { intros [= <- <-]. done. }
  destruct (wf_record w Hwf id p Hp) as (t & Ht & Htid & Htok & Hs). rewrite Ht.
  intros [= <- <-]. split; simpl; try apply Hwf.
  - rewrite slot_delete_length. apply Hwf.
  - intros id' p' Hp'. apply lookup_delete_Some in Hp' as [Hne Hp'].
    destruct (wf_record w Hwf id' p' Hp') as (t' & Ht' & Htid' & Htok' & Hs').
    exists t'. split_and!; try done.
    rewrite slot_at_delete by (destruct Htok, Htok'; lia).
    case_decide; [rewrite lookup_delete_ne|]; done.
  - intros i id' p' Hi. rewrite slot_at_delete by (destruct Htok; lia). intros Hs'.
    assert (id' <> id /\ slot_at w i !! id' = Some p') as [Hne Hs''].
    { case_decide as E.
      - apply lookup_delete_Some in Hs' as [? ?]. by split.
      - split; [|done]. intros ->.
        destruct (wf_slots w Hwf i id p' Hi Hs') as (Hr & t' & Ht' & Hti). congruence. }
    rewrite lookup_delete_ne by done. by apply (wf_slots w Hwf i id' p' Hi).
Qed.

Lemma UpdateTask_remaining w id interval times err w' :
  wheel_wf w -> tw_perimeter w <= interval ->
  UpdateTask w id interval times = (err, w') ->
  err = None /\ remaining w' id = Some (interval / tw_pace w + 1) /\
  forall id', id' <> id -> trigger_of w' id' = trigger_of w id'.
Proof.
  intros Hwf Hint. unfold UpdateTask. destruct (tw_record w !! id) as [p|] eqn:Hp.
  - destruct (wf_record w Hwf id p Hp) as (t & Ht & Htid & Htok & Hs). rewrite Ht.
    destruct (place w interval) as [[circle count] index] eqn:Hpl. intros [= <- <-].
    split; [done|]. unfold remaining, trigger_of; simpl. split.
    + rewrite Hp; simpl. rewrite list_lookup_insert_eq by (by eapply lookup_lt_Some).
      simpl. unfold trigger_remaining.
      by destruct (place_spec w interval circle count index times (tt_taskID t) Hwf Hint Hpl)
        as [_ <-].
    + intros id' Hne. destruct (tw_record w !! id') as [p'|] eqn:Hp'; simpl; [|done].
      rewrite list_lookup_insert_ne; [done|]. intros ->.
      by apply Hne, (wf_record_inj w id' id p').
  - intros HA. assert (err = None) as ->.
    { unfold AddTask in HA. rewrite Hp in HA.
      destruct (Z.ltb_spec interval (tw_perimeter w)); [lia|].
      destruct (place w interval) as [[? ?] ?]. by injection HA. }
    split_and!; [done| |].
    + by eapply AddTask_remaining.
    + intros id' Hne. by eapply AddTask_other.
Qed.

Lemma UpdateTask_wf w id interval times err w' :
  wheel_wf w -> tw_perimeter w <= interval ->
  UpdateTask w id interval times = (err, w') -> wheel_wf w'.
Proof.
  intros Hwf Hint. unfold UpdateTask. destruct (tw_record w !! id) as [p|] eqn:Hp.
  2: { intros HA. destruct err; [|by eapply AddTask_wf].
       unfold AddTask in HA. rewrite Hp in HA. destruct (interval <? _); [by simplify_eq|].
       destruct (place w interval) as [[? ?] ?]. done. }
  destruct (wf_record w Hwf id p Hp) as (t & Ht & Htid & Htok & Hs). rewrite Ht.
  destruct (place w interval) as [[circle count] index] eqn:Hpl. intros [= <- <-].
  destruct (place_spec w interval circle count index times (tt_taskID t) Hwf Hint Hpl)
    as [Hok _].
  pose proof Hok as ((Hi1 & Hi2) & _); simpl in Hi1, Hi2. destruct Htok as [Hti Htc].
  pose proof (wf_length w Hwf) as Hlen. pose proof (lookup_lt_Some _ _ _ Ht) as Hlt.
  rewrite Htid.
  split; simpl; try apply Hwf.
  - by rewrite slot_store_length, slot_delete_length.
  - intros id' p' Hp'. destruct (decide (id' = id)) as [->|Hne].
    + assert (p' = p) as -> by congruence.
      exists (mkTrigger id times index circle count). split_and!; try done.
      * by rewrite list_lookup_insert_eq.
      * simpl. rewrite slot_at_store by (rewrite ?slot_delete_length; lia).
        rewrite decide_True by done. apply lookup_insert_eq.
    + destruct (wf_record w Hwf id' p' Hp') as (t' & Ht' & Htid' & Htok' & Hs').
      exists t'. split_and!; try done.
      * rewrite list_lookup_insert_ne; [done|]. intros ->.
        by apply Hne, (wf_record_inj w id' id p').
      * rewrite slot_at_store by (rewrite ?slot_delete_length; destruct Htok'; lia).
        rewrite slot_at_delete by (destruct Htok'; lia).
        repeat case_decide; rewrite ?lookup_insert_ne, ?lookup_delete_ne; done.
  - intros i id' p' Hi.
    rewrite slot_at_store by (rewrite ?slot_delete_length; lia).
    rewrite slot_at_delete by lia. intros Hs'.
    assert (i = index /\ id' = id /\ p' = p \/
            id' <> id /\ slot_at w i !! id' = Some p') as [(-> & -> & ->)|[Hne Hs'']].
    { destruct (decide (id' = id)) as [->|Hne].
      - left. destruct (decide (index = i)) as [<-|Hii].
        + rewrite lookup_insert_eq in Hs'. by simplify_eq.
        + exfalso. case_decide; [by rewrite lookup_delete_eq in Hs'|].
          destruct (wf_slots w Hwf i id p' Hi Hs') as (Hr & t' & Ht' & Hti'). congruence.
      - right. split; [done|].
        repeat case_decide; rewrite ?lookup_insert_ne, ?lookup_delete_ne in Hs'; done. }
    + split; [done|]. eexists. rewrite list_lookup_insert_eq by done. by split.
    + destruct (wf_slots w Hwf i id' p' Hi Hs'') as (Hr & t' & Ht' & Hti').
      split; [done|]. exists t'. split; [|done].
      rewrite list_lookup_insert_ne; [done|]. intros ->.
      by apply Hne, (wf_record_inj w id' id p').
Qed.

(** ** One tick *)

Definition fires (t : timeTrigger) : bool := tt_circleCount t =? tt_circle t.
Definition removed (t : timeTrigger) : bool := fires t && (tt_times t =? 0).

Lemma visit_one cs w r id p t :
  0 <= cs -> tw_heap w !! p = Some t -> tt_taskID t = id ->
  exists w' r', visit cs (w, r) (id, p) = (w', r') /\
    w' = set_tasks w (tw_slots w') (tw_record w') (tw_heap w') /\
    length (tw_slots w') = length (tw_slots w) /\
    tw_heap w' = <[p:=visit_trigger t]> (tw_heap w) /\
    (forall i, tw_record w' !! i =
       if bool_decide (i = id) && removed t then None else tw_record w !! i) /\
    (forall i j, 0 <= i -> slot_at w' i !! j =
       if bool_decide (i = cs) && bool_decide (j = id) && removed t
       then None else slot_at w i !! j) /\
    (forall i, i ∈ r' <-> i ∈ r \/ (i = id /\ fires t = true)).
Proof.
  intros Hcs Ht Hid. unfold visit, removed, fires. rewrite Ht.
  destruct (tt_circleCount t =? tt_circle t) eqn:Hf; [destruct (tt_times t =? 0) eqn:Ht0|].
  - eexists _, _. split_and!; try done; simpl.
    + by rewrite slot_delete_length.
    + intros i. rewrite Hid. case_bool_decide as E; simpl.
      * subst i. apply lookup_delete_eq.
      * by rewrite lookup_delete_ne.
    + intros i j Hi. rewrite slot_at_delete by done.
      case_decide as E; [subst cs|]; case_bool_decide; simpl; try done.
      * case_bool_decide; [subst|rewrite lookup_delete_ne]; try done.
        apply lookup_delete_eq.
    + intros i. rewrite elem_of_app, list_elem_of_singleton, Hid. naive_solver.
  - eexists _, _. split_and!; try done; simpl; intros; rewrite ?andb_false_r; try done.
    rewrite elem_of_app, list_elem_of_singleton, Hid. naive_solver.
  - eexists _, _. split_and!; try done; simpl; intros; rewrite ?andb_false_r; try done.
    naive_solver.
Qed.

Lemma visit_all cs l : forall w r w' r',
  fold_left (visit cs) l (w, r) = (w', r') ->
  0 <= cs -> NoDup l.*1 -> NoDup l.*2 ->
  (forall id p, (id, p) ∈ l -> exists t, tw_heap w !! p = Some t /\ tt_taskID t = id) ->
  w' = set_tasks w (tw_slots w') (tw_record w') (tw_heap w') /\
  length (tw_slots w') = length (tw_slots w) /\
  (forall id p t, (id, p) ∈ l -> tw_heap w !! p = Some t ->
     tw_heap w' !! p = Some (visit_trigger t) /\
     tw_record w' !! id = (if removed t then None else tw_record w !! id) /\
     slot_at w' cs !! id = (if removed t then None else slot_at w cs !! id) /\
     (id ∈ r' <-> id ∈ r \/ fires t = true)) /\
  (forall p, p ∉ l.*2 -> tw_heap w' !! p = tw_heap w !! p) /\
  (forall id, id ∉ l.*1 -> tw_record w' !! id = tw_record w !! id /\
     slot_at w' cs !! id = slot_at w cs !! id /\ (id ∈ r' <-> id ∈ r)) /\
  (forall i j, 0 <= i -> i <> cs -> slot_at w' i !! j = slot_at w i !! j).
Proof.
  induction l as [|[id0 p0] l IH]; intros w r w' r' Hfold Hcs Hn1 Hn2 Hl; cbn [fold_left] in Hfold.
  { injection Hfold as <- <-. split_and!; try done.
    - by destruct w.
    - intros id p t Hin. by apply not_elem_of_nil in Hin. }
  destruct (Hl id0 p0) as (t0 & Ht0 & Hid0); [by left|].
  destruct (visit_one cs w r id0 p0 t0 Hcs Ht0 Hid0)
    as (w1 & r1 & Hv & Heq1 & Hlen1 & Hheap1 & Hrec1 & Hslot1 & Hr1).
  rewrite Hv in Hfold. simpl in Hn1, Hn2.
  apply NoDup_cons in Hn1 as [Hnin1 Hn1]. apply NoDup_cons in Hn2 as [Hnin2 Hn2].
  assert (forall p, p ∈ l.*2 -> tw_heap w1 !! p = tw_heap w !! p) as Hh1.
  { intros p Hp. rewrite Hheap1, list_lookup_insert_ne; [done|]. by intros ->. }
  destruct (IH w1 r1 w' r' Hfold Hcs Hn1 Hn2) as (Heq & Hlen & Hin & Hhp & Hout & Hsl).
  { intros id p Hip. destruct (Hl id p) as (t & Ht & Hid); [by right|].
    exists t. rewrite Hh1; [done|]. apply list_elem_of_fmap. by exists (id, p). }
  clear IH Hfold Hv. split_and!.
  - rewrite Heq at 1. rewrite Heq1. done.
  - congruence.
  - intros id p t Hip Ht. apply elem_of_cons in Hip as [[= -> ->]|Hip].
    + assert (t0 = t) as -> by congruence.
      destruct (Hout id0 Hnin1) as (Ho1 & Ho2 & Ho3). rewrite Hhp by done.
      rewrite Hheap1, list_lookup_insert_eq by (by eapply lookup_lt_Some).
      rewrite Ho1, Ho2, Ho3, Hrec1, Hslot1, Hr1 by done.
      rewrite !bool_decide_eq_true_2 by done. simpl. naive_solver.
    + assert (p ∈ l.*2) by (apply list_elem_of_fmap; by exists (id, p)).
      assert (id <> id0). { intros ->. apply Hnin1, list_elem_of_fmap. by exists (id0, p). }
      destruct (Hin id p t Hip) as (H1 & H2 & H3 & H4); [by rewrite Hh1|].
      rewrite H1, H2, H3, H4, Hrec1, Hslot1, Hr1 by done.
      rewrite (bool_decide_eq_false_2 (id = id0)) by done.
      rewrite ?andb_false_r. simpl. split_and!; try done. naive_solver.
  - intros p Hp. apply not_elem_of_cons in Hp as [? Hp].
    rewrite Hhp, Hheap1, list_lookup_insert_ne; done.
  - intros id Hid. apply not_elem_of_cons in Hid as [? Hid].
    destruct (Hout id Hid) as (H1 & H2 & H3).
    rewrite H1, H2, H3, Hrec1, Hslot1, Hr1 by done.
    rewrite (bool_decide_eq_false_2 (id = id0)) by done.
    rewrite ?andb_false_r. simpl. split_and!; try done. naive_solver.
  - intros i j Hi Hne. rewrite Hsl, Hslot1 by done.
    by rewrite bool_decide_eq_false_2.
Qed.

(** What the tick hands to [readyCh]. *)
Definition fired (w : SimpleTimeWheel) : list string := default [] (tw_sending w).

Definition next_slot (w : SimpleTimeWheel) : Z := (tw_curSlot w + 1) mod tw_slotNum w.

Lemma slot_entries_nodup w i :
  wheel_wf w -> 0 <= i ->
  NoDup (map_to_list (slot_at w i)).*1 /\ NoDup (map_to_list (slot_at w i)).*2.
Proof.
  intros Hwf Hi. split; [apply NoDup_fst_map_to_list|].
  apply NoDup_fmap_2_strong; [|apply NoDup_map_to_list].
  intros [id1 p1] [id2 p2] H1%elem_of_map_to_list H2%elem_of_map_to_list E; simpl in E.
  subst p2. f_equal.
  destruct (wf_slots w Hwf i id1 p1 Hi H1) as [Hr1 _].
  destruct (wf_slots w Hwf i id2 p1 Hi H2) as [Hr2 _].
  by eapply wf_record_inj.
Qed.

Lemma wf_next_slot w : wheel_wf w -> 0 <= next_slot w < tw_slotNum w.
Proof. intros Hwf. apply Z.mod_pos_bound, Hwf. Qed.

Lemma wf_set_cur w : wheel_wf w -> wheel_wf (set_cur w (next_slot w)).
Proof. intros Hwf. pose proof (wf_next_slot w Hwf). destruct Hwf. by split. Qed.

(** A tick of a well-formed wheel, seen through [visit_all]. *)
Lemma tick_visits w w' :
  wheel_wf w -> run_tick w = Some w' ->
  exists w1 r, fold_left (visit (next_slot w)) (map_to_list (slot_at w (next_slot w)))
                 (set_cur w (next_slot w), []) = (w1, r) /\
    tw_sending w = None /\ r = fired w' /\
    w' = set_chan w1 (tw_sending w') (tw_readyCh w1) (tw_stopped w1) /\ tw_stopped w = false.
Proof.
  intros Hwf. unfold run_tick. destruct (tw_stopped w) eqn:Hst; [done|].
  destruct (tw_sending w) eqn:Hs; [done|]. rewrite (wf_length w Hwf).
  rewrite go_rem_nonneg by (destruct Hwf; lia). fold (next_slot w).
  unfold checkAndFireTrigger. rewrite (surjective_pairing (fold_left _ _ _)).
  change (slot_at (set_cur w (next_slot w)) (next_slot w)) with (slot_at w (next_slot w)).
  destruct (fold_left _ _ _) as [w1 r] eqn:E; simpl. intros Hw'.
  exists w1, r. split; [done|]. split; [done|].
  assert (tw_sending w1 = None) as Hs1.
  { destruct (slot_entries_nodup w (next_slot w) Hwf) as [N1 N2]; [by apply wf_next_slot|].
    apply visit_all in E as (Heq & _); try done.
    - by rewrite Heq.
    - by apply wf_next_slot.
    - intros id p Hip%elem_of_map_to_list.
      destruct (wf_slots w Hwf (next_slot w) id p) as (Hr & t & Ht & _); [by apply wf_next_slot|done|].
      destruct (wf_record w Hwf id p Hr) as (t' & ? & ? & _). by exists t'. }
  destruct r; injection Hw' as <-; simpl.
  - unfold fired. rewrite Hs1. split_and!; [done| |done]. rewrite <- Hs1. by destruct w1.
  - unfold fired. done.
Qed.

(** The task whose trigger the tick visits. *)
Definition visited (w : SimpleTimeWheel) (t : timeTrigger) : bool :=
  tt_index t =? next_slot w.

Lemma slot_at_visited w id p t :
  wheel_wf w -> tw_record w !! id = Some p -> tw_heap w !! p = Some t ->
  slot_at w (next_slot w) !! id = if visited w t then Some p else None.
Proof.
  intros Hwf Hp Ht. pose proof (wf_next_slot w Hwf).
  destruct (wf_record w Hwf id p Hp) as (t' & Ht' & _ & _ & Hs).
  assert (t' = t) as -> by congruence. unfold visited.
  destruct (Z.eqb_spec (tt_index t) (next_slot w)) as [<-|Hne]; [done|].
  destruct (slot_at w (next_slot w) !! id) as [q|] eqn:Hq; [|done].
  destruct (wf_slots w Hwf (next_slot w) id q) as (Hrq & t' & Htq & Hi'); [lia|done|].
  congruence.
Qed.

Lemma slot_at_unregistered w i id :
  wheel_wf w -> 0 <= i -> tw_record w !! id = None -> slot_at w i !! id = None.
Proof.
  intros Hwf Hi Hn. destruct (slot_at w i !! id) as [q|] eqn:Hq; [|done].
  destruct (wf_slots w Hwf i id q Hi Hq). congruence.
Qed.

Lemma not_elem_of_entries w i id :
  slot_at w i !! id = None -> id ∉ (map_to_list (slot_at w i)).*1.
Proof.
  intros Hn Hin. apply list_elem_of_fmap in Hin as [[id' q] [E Hin]]. simpl in E. subst id'.
  apply elem_of_map_to_list in Hin. congruence.
Qed.

(** The state after a tick, task by task. *)
Lemma tick_effect w w' :
  wheel_wf w -> run_tick w = Some w' ->
  (tw_pace w' = tw_pace w /\ tw_perimeter w' = tw_perimeter w /\
   tw_slotNum w' = tw_slotNum w /\ tw_curSlot w' = next_slot w /\
   length (tw_slots w') = length (tw_slots w)) /\
  (forall id p t, tw_record w !! id = Some p -> tw_heap w !! p = Some t ->
     tw_heap w' !! p = Some (if visited w t then visit_trigger t else t) /\
     tw_record w' !! id = (if visited w t && removed t then None else Some p) /\
     (forall i, 0 <= i -> slot_at w' i !! id =
        if visited w t && removed t then None else slot_at w i !! id) /\
     (id ∈ fired w' <-> visited w t && fires t = true)) /\
  (forall id, tw_record w !! id = None -> tw_record w' !! id = None /\
     (forall i, 0 <= i -> slot_at w' i !! id = None) /\ id ∉ fired w').
Proof.
  intros Hwf Htick. pose proof (wf_next_slot w Hwf) as Hcs.
  destruct (tick_visits w w' Hwf Htick) as (w1 & r & Hfold & _ & <- & Hw' & _).
  destruct (slot_entries_nodup w (next_slot w) Hwf) as [N1 N2]; [lia|].
  apply visit_all in Hfold as (Heq & Hlen & Hin & Hhp & Hout & Hsl); try done; try lia.
  2: { intros id p Hip%elem_of_map_to_list.
       destruct (wf_slots w Hwf (next_slot w) id p) as (Hrc & _); [lia|done|].
       destruct (wf_record w Hwf id p Hrc) as (t' & ? & ? & _). by exists t'. }
  change (forall i j, 0 <= i -> i <> next_slot w -> slot_at w1 i !! j = slot_at w i !! j) in Hsl.
  assert (tw_record w' = tw_record w1 /\ tw_heap w' = tw_heap w1 /\
          (forall i, slot_at w' i = slot_at w1 i)) as (Er & Eh & Es) by (by rewrite Hw').
  rewrite Er, Eh. setoid_rewrite Es.
  split_and!; try (rewrite Hw', Heq; done).
  - intros id p t Hp Ht. pose proof (slot_at_visited w id p t Hwf Hp Ht) as Hs.
    destruct (visited w t) eqn:Hv; simpl.
    + destruct (Hin id p t) as (H1 & H2 & H3 & H4); [by apply elem_of_map_to_list|done|].
      simpl in H2. rewrite H2, Hp, H4, elem_of_nil. split_and!; try tauto.
      intros i Hi. destruct (decide (i = next_slot w)) as [->|Hne]; [exact H3|].
      change (slot_at w1 i !! id = if removed t then None else slot_at w i !! id).
      rewrite Hsl by done. destruct (removed t); [|done].
      destruct (slot_at w i !! id) as [q|] eqn:Hq; [|done].
      destruct (wf_slots w Hwf i id q Hi Hq) as (Hrq & t' & Ht' & Hi').
      unfold visited in Hv. zbool. congruence.
    + destruct (Hout id) as (Ho & Hos & Hrd); [by apply not_elem_of_entries|].
      simpl in Ho. rewrite Ho, Hrd, elem_of_nil. split_and!; try done.
      * rewrite Hhp; [done|]. intros [[id' p'] [E Hip]]%list_elem_of_fmap. simpl in E. subst p'.
        apply elem_of_map_to_list in Hip.
        destruct (wf_slots w Hwf (next_slot w) id' p) as (Hrq & _); [lia|done|].
        assert (id' = id) as -> by (by eapply wf_record_inj). congruence.
      * intros i Hi. destruct (decide (i = next_slot w)) as [->|Hne]; [exact Hos|by apply Hsl].
  - intros id Hn. pose proof (slot_at_unregistered w (next_slot w) id Hwf ltac:(lia) Hn) as Hs.
    destruct (Hout id) as (Ho & Hos & Hrd); [by apply not_elem_of_entries|].
    simpl in Ho. rewrite Ho, Hrd, elem_of_nil. split_and!; [done| |tauto].
    intros i Hi. rewrite <- (slot_at_unregistered w i id Hwf Hi Hn).
    destruct (decide (i = next_slot w)) as [->|Hne]; [exact Hos|by apply Hsl].
Qed.

Lemma tick_wf w w' : wheel_wf w -> run_tick w = Some w' -> wheel_wf w'.
Proof.
  intros Hwf Htick. pose proof (wf_next_slot w Hwf) as Hcs.
  destruct (tick_effect w w' Hwf Htick) as ((Ep & Epe & ES & Ec & El) & Hreg & Hun).
  split; try (rewrite ?Ep, ?Epe, ?ES, ?Ec, ?El; apply Hwf).
  - rewrite Ec, ES. lia.
  - intros id p Hp. destruct (tw_record w !! id) as [q|] eqn:Hq.
    2: { destruct (Hun id Hq). congruence. }
    destruct (wf_record w Hwf id q Hq) as (t & Ht & Htid & (Hti & Htc & Htcc) & Hs).
    destruct (Hreg id q t Hq Ht) as (H1 & H2 & H3 & _).
    assert (0 <= tt_index t) by lia.
    destruct (visited w t && removed t) eqn:Hvr; [congruence|].
    assert (q = p) as -> by congruence. eexists. split; [exact H1|].
    unfold trigger_ok, visit_trigger. rewrite ES.
    destruct (visited w t); [|by rewrite H3].
    destruct (tt_circleCount t =? tt_circle t) eqn:Hf; zbool; simpl;
      (split_and!; [done|lia..|by rewrite H3]).
  - intros i id p Hi Hs. destruct (tw_record w !! id) as [q|] eqn:Hq.
    2: { destruct (Hun id Hq) as (_ & Hn & _). rewrite Hn in Hs; done. }
    destruct (wf_record w Hwf id q Hq) as (t & Ht & _).
    destruct (Hreg id q t Hq Ht) as (H1 & H2 & H3 & _). rewrite H3 in Hs by done.
    destruct (visited w t && removed t); [done|].
    destruct (wf_slots w Hwf i id p Hi Hs) as (Hrq & t' & Ht' & Hti).
    assert (p = q) as -> by congruence. assert (t' = t) as -> by congruence.
    split; [done|]. eexists. split; [exact H1|]. unfold visit_trigger.
    destruct (visited w t); [|done]. by destruct (tt_circleCount t =? tt_circle t).
Qed.

Lemma tick_trigger w w' id :
  wheel_wf w -> run_tick w = Some w' ->
  match trigger_of w id with
  | None => trigger_of w' id = None /\ id ∉ fired w'
  | Some t =>
      trigger_of w' id = (if visited w t && removed t then None else
                          Some (if visited w t then visit_trigger t else t)) /\
      (id ∈ fired w' <-> visited w t && fires t = true)
  end.
Proof.
  intros Hwf Htick.
  destruct (tick_effect w w' Hwf Htick) as (_ & Hreg & Hun).
  unfold trigger_of. destruct (tw_record w !! id) as [p|] eqn:Hp; simpl.
  - destruct (wf_record w Hwf id p Hp) as (t & Ht & _). rewrite Ht.
    destruct (Hreg id p t Hp Ht) as (H1 & H2 & _ & H4). rewrite H2. split; [|done].
    by destruct (visited w t && removed t).
  - destruct (Hun id Hp) as (Hn & _ & Hf). by rewrite Hn.
Qed.

(** The distance to the next visit of a slot, and the slot that comes next. *)
Lemma slot_dist S i c :
  0 <= i < S -> 0 <= c < S ->
  (i - c - 1) mod S = if c <? i then i - c - 1 else i - c - 1 + S.
Proof.
  intros Hi Hc. case_bool; [apply Z.mod_small; lia|].
  rewrite <- (Z.mod_add _ 1) by lia. rewrite Z.mul_1_l. apply Z.mod_small; lia.
Qed.

Lemma slot_succ S c : 0 <= c < S -> (c + 1) mod S = if c + 1 =? S then 0 else c + 1.
Proof.
  intros Hc. case_bool; [subst; apply Z.mod_same; lia|apply Z.mod_small; lia].
Qed.

(** Every visit brings a trigger one tick closer. *)
Lemma tick_arith w w' t :
  wheel_wf w -> trigger_ok w t -> tw_slotNum w' = tw_slotNum w ->
  tw_curSlot w' = next_slot w ->
  1 <= trigger_remaining w t /\
  (visited w t && fires t = true <-> trigger_remaining w t = 1) /\
  (visited w t && fires t = false ->
     trigger_remaining w' (if visited w t then visit_trigger t else t) =
     trigger_remaining w t - 1) /\
  (visited w t && fires t = true ->
     trigger_remaining w' (visit_trigger t) = tt_circle t * tw_slotNum w).
Proof.
  intros Hwf (Hi & Hc & Hcc) ES Ec. pose proof (wf_next_slot w Hwf) as Hn.
  pose proof (wf_cur w Hwf) as Hcur. destruct t as [id times i k n]; simpl in *.
  assert (next_slot w = if tw_curSlot w + 1 =? tw_slotNum w then 0 else tw_curSlot w + 1)
    as En by (by apply slot_succ).
  unfold trigger_remaining, visited, fires, visit_trigger; simpl.
  rewrite ES, Ec, slot_dist by done.
  assert (n = k \/ (k - n) * tw_slotNum w >= tw_slotNum w) as Hk by nia.
  destruct (Z.eqb_spec (tw_curSlot w + 1) (tw_slotNum w));
    destruct (Z.eqb_spec i (next_slot w)) as [Hv|Hv]; destruct (Z.eqb_spec n k) as [Hf|Hf];
    simpl; rewrite ?slot_dist by done; rewrite ?Hf, ?Z.sub_diag, ?Z.mul_0_l;
    repeat case_bool; (split_and!; [lia|split; [try done|]|try done|try done]); intros; try lia; nia.
Qed.

(** ** Runs of the wheel *)

(** The steps of a wheel that leave task [id] alone, with what a tick emits:
    the [run] goroutine, [Wait], [Stop], and the task operations on other ids. *)
Inductive wheel_step (id : string) : SimpleTimeWheel -> option (list string) ->
    SimpleTimeWheel -> Prop :=
  | step_tick w w' : run_tick w = Some w' -> wheel_step id w (Some (fired w')) w'
  | step_send w w' : run_send w = Some w' -> wheel_step id w None w'
  | step_wait w l e w' : Wait w = Some (l, e, w') -> wheel_step id w None w'
  | step_stop w : wheel_step id w None (Stop w)
  | step_add w id' i n e w' : id' <> id -> AddTask w id' i n = (e, w') ->
      wheel_step id w None w'
  | step_del w id' e w' : id' <> id -> DelTask w id' = (e, w') -> wheel_step id w None w'
  | step_update w id' i n e w' : id' <> id -> tw_perimeter w <= i ->
      UpdateTask w id' i n = (e, w') -> wheel_step id w None w'.

(** A run, with the lists its ticks emit in order. *)
Inductive wheel_run (id : string) : SimpleTimeWheel -> list (list string) ->
    SimpleTimeWheel -> Prop :=
  | run_nil w : wheel_run id w [] w
  | run_quiet w w1 em w' : wheel_step id w None w1 -> wheel_run id w1 em w' ->
      wheel_run id w em w'
  | run_cons w l w1 em w' : wheel_step id w (Some l) w1 -> wheel_run id w1 em w' ->
      wheel_run id w (l :: em) w'.

Lemma set_chan_wf w s ch b : wheel_wf w -> wheel_wf (set_chan w s ch b).
Proof. intros []. by split. Qed.

Definition same_clock (w w' : SimpleTimeWheel) : Prop :=
  tw_pace w' = tw_pace w /\ tw_slotNum w' = tw_slotNum w /\ tw_curSlot w' = tw_curSlot w.

Lemma same_clock_remaining w w' t :
  same_clock w w' -> trigger_remaining w' t = trigger_remaining w t.
Proof. intros (_ & E1 & E2). unfold trigger_remaining. by rewrite E1, E2. Qed.

Lemma AddTask_clock w id i n e w' : AddTask w id i n = (e, w') -> same_clock w w'.
Proof.
  unfold AddTask. repeat case_match; intros [= <- <-]; by split_and!.
Qed.

Lemma DelTask_clock w id e w' : DelTask w id = (e, w') -> same_clock w w'.
Proof. unfold DelTask. repeat case_match; intros [= <- <-]; by split_and!. Qed.

Lemma UpdateTask_clock w id i n e w' : UpdateTask w id i n = (e, w') -> same_clock w w'.
Proof.
  unfold UpdateTask. repeat case_match; try (intros [= <- <-]; by split_and!).
  apply AddTask_clock.
Qed.

Lemma quiet_step w id w' :
  wheel_wf w -> wheel_step id w None w' ->
  wheel_wf w' /\ same_clock w w' /\ trigger_of w' id = trigger_of w id.
Proof.
  intros Hwf Hst. inversion Hst as [|? ? E|? ? ? ? E| |? ? ? ? ? ? Hne E|? ? ? ? Hne E|
    ? ? ? ? ? ? Hne Hi E]; subst.
  - unfold run_send in E. repeat case_match; simplify_eq.
    by split; [apply set_chan_wf|].
  - unfold Wait in E. repeat case_match; simplify_eq; try (by split_and!);
      by split; [apply set_chan_wf|].
  - unfold Stop. case_match; [done|]. by split; [apply set_chan_wf|].
  - split_and!; [|by eapply AddTask_clock|by eapply AddTask_other; [| |]].
    destruct e; [|by eapply AddTask_wf].
    unfold AddTask in E. repeat case_match; by simplify_eq.
  - split_and!; [by eapply DelTask_wf|by eapply DelTask_clock|].
    destruct (DelTask_gone w id' e w' Hwf E) as (_ & _ & Ho). by apply Ho.
  - split_and!; [by eapply UpdateTask_wf|by eapply UpdateTask_clock|].
    destruct (UpdateTask_remaining w id' i n e w' Hwf Hi E) as (_ & _ & Ho). by apply Ho.
Qed.

Lemma visit_trigger_circle t : tt_circle (visit_trigger t) = tt_circle t.
Proof. unfold visit_trigger. by case_match. Qed.

Lemma visit_trigger_times t : fires t = false -> tt_times (visit_trigger t) = tt_times t.
Proof. unfold visit_trigger, fires. by intros ->. Qed.

(** While a task has ticks left it stays silent and counts them down. *)
Lemma run_silent id w em w' : wheel_run id w em w' -> wheel_wf w ->
  forall t, trigger_of w id = Some t ->
  Z.of_nat (length em) < trigger_remaining w t ->
  Forall (fun l => id ∉ l) em /\ wheel_wf w' /\ tw_slotNum w' = tw_slotNum w /\
  exists t', trigger_of w' id = Some t' /\ tt_times t' = tt_times t /\
    tt_circle t' = tt_circle t /\
    trigger_remaining w' t' = trigger_remaining w t - Z.of_nat (length em).
Proof.
  induction 1 as [w|w w1 em w' Hst _ IH|w l w1 em w' Hst _ IH]; intros Hwf t Ht Hlen.
  - split_and!; try done. exists t. split_and!; try done. simpl. lia.
  - destruct (quiet_step w id w1 Hwf Hst) as (Hwf1 & Hclk & Heq).
    rewrite <- (same_clock_remaining w w1 t Hclk) in Hlen |- *.
    destruct (IH Hwf1 t) as (? & ? & HS & ?); [congruence|done|].
    destruct Hclk as (_ & E & _). rewrite HS, E. by split_and!.
  - inversion Hst as [? ? Htick| | | | | |]; subst. simpl in Hlen.
    pose proof (tick_wf w w1 Hwf Htick) as Hwf1.
    pose proof (tick_trigger w w1 id Hwf Htick) as Htr. rewrite Ht in Htr.
    destruct Htr as [Ht1 Hf]. destruct (tick_effect w w1 Hwf Htick) as ((_ & _ & ES & Ec & _) & _).
    destruct (wf_trigger w id t Hwf Ht) as (_ & Hok & _).
    destruct (tick_arith w w1 t Hwf Hok ES Ec) as (_ & Hone & Hrem & _).
    assert (visited w t && fires t = false) as Hnf.
    { apply not_true_is_false. rewrite Hone. lia. }
    specialize (Hrem Hnf).
    assert (visited w t && removed t = false) as Hnr.
    { unfold removed. rewrite andb_assoc, Hnf. done. }
    rewrite Hnr in Ht1. destruct (IH Hwf1 _ Ht1) as (Hem & Hwf' & HS & t' & H1 & H2 & H3 & H4).
    { lia. }
    split_and!; [|done|congruence|].
    + constructor; [|done]. rewrite Hf, Hnf. done.
    + exists t'. split_and!; [done|..|simpl; lia].
      * rewrite H2. destruct (visited w t); [by apply visit_trigger_times|done].
      * rewrite H3. destruct (visited w t); [apply visit_trigger_circle|done].
Qed.

(** The tick that ends a task's wait emits it. *)
Lemma run_fire id w l em w' t :
  wheel_run id w (l :: em) w' -> wheel_wf w -> trigger_of w id = Some t ->
  trigger_remaining w t = 1 ->
  id ∈ l /\ exists w1, wheel_run id w1 em w' /\ wheel_wf w1 /\
    tw_slotNum w1 = tw_slotNum w /\
    trigger_of w1 id = (if tt_times t =? 0 then None else Some (visit_trigger t)) /\
    trigger_remaining w1 (visit_trigger t) = tt_circle t * tw_slotNum w.
Proof.
  intros Hrun. remember (l :: em) as em0 eqn:Eem.
  induction Hrun as [w|w w1 em0 w' Hst _ IH|w l0 w1 em0 w' Hst Hrun _]; intros Hwf Ht Hone;
    [done| |].
  - destruct (quiet_step w id w1 Hwf Hst) as (Hwf1 & Hclk & Heq).
    rewrite <- (same_clock_remaining w w1 t Hclk) in Hone.
    destruct Hclk as (_ & E & _). rewrite <- E. apply IH; try done. congruence.
  - injection Eem as -> ->. inversion Hst as [? ? Htick| | | | | |]; subst.
    pose proof (tick_trigger w w1 id Hwf Htick) as Htr. rewrite Ht in Htr.
    destruct Htr as [Ht1 Hf]. destruct (tick_effect w w1 Hwf Htick) as ((_ & _ & ES & Ec & _) & _).
    destruct (wf_trigger w id t Hwf Ht) as (_ & Hok & _).
    destruct (tick_arith w w1 t Hwf Hok ES Ec) as (_ & Hiff & _ & Hper).
    apply Hiff in Hone. split; [by rewrite Hf|].
    exists w1. split_and!; [done|by eapply tick_wf|done| |by apply Hper].
    rewrite Ht1. unfold removed. rewrite andb_assoc, Hone; simpl.
    apply andb_prop in Hone as [-> _]. done.
Qed.

(** Once unregistered, a task is never emitted. *)
Lemma run_unregistered id w em w' :
  wheel_run id w em w' -> wheel_wf w -> trigger_of w id = None ->
  Forall (fun l => id ∉ l) em /\ trigger_of w' id = None.
Proof.
  induction 1 as [w|w w1 em w' Hst _ IH|w l w1 em w' Hst _ IH]; intros Hwf Hn; [done| |].
  - destruct (quiet_step w id w1 Hwf Hst) as (Hwf1 & _ & Heq). apply IH; congruence.
  - inversion Hst as [? ? Htick| | | | | |]; subst.
    pose proof (tick_trigger w w1 id Hwf Htick) as Htr. rewrite Hn in Htr.
    destruct Htr as [Hn1 Hf]. destruct (IH (tick_wf w w1 Hwf Htick) Hn1) as [HF Hn'].
    split; [by constructor|done].
Qed.

Lemma run_app id w em1 em2 w' :
  wheel_run id w (em1 ++ em2) w' ->
  exists w1, wheel_run id w em1 w1 /\ wheel_run id w1 em2 w'.
Proof.
  intros Hrun. remember (em1 ++ em2) as em eqn:Eem. revert em1 Eem.
  induction Hrun as [w|w w1 em w' Hst Hr IH|w l w1 em w' Hst Hr IH]; intros em1 Eem.
  - symmetry in Eem. apply app_eq_nil in Eem as [-> ->]. exists w. split; constructor.
  - destruct (IH em1 Eem) as (w2 & H1 & H2). exists w2. split; [|done]. by eapply run_quiet.
  - destruct em1 as [|l1 em1]; simpl in Eem.
    + exists w. split; [constructor|]. rewrite <- Eem. by eapply run_cons.
    + injection Eem as -> ->. destruct (IH em1 eq_refl) as (w2 & H1 & H2).
      exists w2. split; [|done]. by eapply run_cons.
Qed.

Lemma run_trans id w em1 w1 em2 w' :
  wheel_run id w em1 w1 -> wheel_run id w1 em2 w' -> wheel_run id w (em1 ++ em2) w'.
Proof.
  induction 1; intros Hr; simpl; [done|..];
    [eapply run_quiet|eapply run_cons]; eauto.
Qed.

(** Over exactly the ticks a task has left, only the last one emits it. *)
Lemma run_countdown id w em w' t :
  wheel_run id w em w' -> wheel_wf w -> trigger_of w id = Some t ->
  Z.of_nat (length em) = trigger_remaining w t ->
  exists em0 l w1, em = em0 ++ [l] /\ Forall (fun l => id ∉ l) em0 /\ id ∈ l /\
    wheel_run id w1 [] w' /\ wheel_wf w1 /\ tw_slotNum w1 = tw_slotNum w /\
    exists t1, trigger_of w1 id = (if tt_times t =? 0 then None else Some t1) /\
      tt_circle t1 = tt_circle t /\
      (0 < tt_times t -> tt_times t1 = tt_times t - 1) /\
      trigger_remaining w1 t1 = tt_circle t * tw_slotNum w.
Proof.
  intros Hrun Hwf Ht Hlen.
  destruct (wf_trigger w id t Hwf Ht) as (_ & Hok & _).
  destruct (tick_arith w (set_cur w (next_slot w)) t Hwf Hok eq_refl eq_refl) as (Hge & _).
  destruct em as [|l em _] using rev_ind; [simpl in Hlen; lia|].
  rewrite length_app in Hlen; simpl in Hlen.
  apply run_app in Hrun as (wm & Hrun1 & Hrun2).
  destruct (run_silent id w em wm Hrun1 Hwf t Ht) as (HF & Hwfm & HSm & tm & Htm & Etm & Ecm & Erm);
    [lia|].
  destruct (run_fire id wm l [] w' tm Hrun2 Hwfm Htm) as (Hin & w1 & Hr1 & Hwf1 & HS1 & Ht1 & Er1);
    [lia|].
  exists em, l, w1. split_and!; try done; [congruence|].
  exists (visit_trigger tm). rewrite Ht1, Etm. split_and!; try done.
  - by rewrite visit_trigger_circle.
  - intros Htimes. unfold visit_trigger.
    assert (tt_circleCount tm =? tt_circle tm = true) as ->.
    { destruct (wf_trigger wm id tm Hwfm Htm) as (_ & Hokm & _).
      destruct (tick_arith wm (set_cur wm (next_slot wm)) tm Hwfm Hokm eq_refl eq_refl)
        as (_ & Hiff & _). assert (trigger_remaining wm tm = 1) as E by lia.
      apply Hiff in E. apply andb_prop in E as [_ E]. exact E. }
    simpl. case_bool; lia.
  - congruence.
Qed.

Lemma lookup_snoc_fires (id : string) (em0 : list (list string)) (l : list string) :
  Forall (fun l => id ∉ l) em0 -> id ∈ l ->
  forall j l', (em0 ++ [l]) !! j = Some l' -> (id ∈ l' <-> j = length em0).
Proof.
  intros HF Hin j l' Hj. apply lookup_snoc_Some in Hj as [[Hlt Hj]|[-> <-]]; [|done].
  rewrite Forall_lookup in HF. specialize (HF j l' Hj). split; [done|lia].
Qed.

(** A wheel whose consumer keeps up: each tick is followed by the send and the
    receive of what it emitted. *)
Definition tick_and_consume (w : SimpleTimeWheel) : option (list string * SimpleTimeWheel) :=
  w1 ← run_tick w;
  match tw_sending w1 with
  | None => Some ([], w1)
  | Some l => w2 ← run_send w1; '(_, _, w3) ← Wait w2; Some (l, w3)
  end.

Fixpoint ticks (n : nat) (w : SimpleTimeWheel) : option (list (list string) * SimpleTimeWheel) :=
  match n with
  | O => Some ([], w)
  | S n => '(l, w1) ← tick_and_consume w; '(em, w') ← ticks n w1; Some (l :: em, w')
  end.

Definition idle (w : SimpleTimeWheel) : Prop :=
  tw_stopped w = false /\ tw_sending w = None /\ tw_readyCh w = [].

Lemma ticks_run id n w em w' : ticks n w = Some (em, w') -> wheel_run id w em w'.
Proof.
  revert w em. induction n as [|n IH]; intros w em; simpl.
  { intros [= <- <-]. constructor. }
  unfold tick_and_consume. destruct (run_tick w) as [w1|] eqn:Ht; simpl; [|done].
  destruct (tw_sending w1) as [l|] eqn:Hs; simpl.
  - destruct (run_send w1) as [w2|] eqn:Hsend; simpl; [|done].
    destruct (Wait w2) as [[[l2 e2] w3]|] eqn:Hwait; simpl; [|done].
    destruct (ticks n w3) as [[em1 w4]|] eqn:Hn; simpl; [|done]. intros [= <- <-].
    assert (l = fired w1) as -> by (unfold fired; by rewrite Hs).
    eapply run_cons; [by apply step_tick|].
    eapply run_quiet; [by eapply step_send|]. eapply run_quiet; [by eapply step_wait|].
    by apply IH.
  - destruct (ticks n w1) as [[em1 w4]|] eqn:Hn; simpl; [|done]. intros [= <- <-].
    assert ([] = fired w1) as -> by (unfold fired; by rewrite Hs).
    eapply run_cons; [by apply step_tick|]. by apply IH.
Qed.

Lemma tick_chan w w' :
  wheel_wf w -> run_tick w = Some w' ->
  tw_readyCh w' = tw_readyCh w /\ tw_stopped w' = tw_stopped w.
Proof.
  intros Hwf Ht. destruct (tick_visits w w' Hwf Ht) as (w1 & r & Hfold & _ & _ & -> & _).
  destruct (slot_entries_nodup w (next_slot w) Hwf) as [N1 N2]; [by apply wf_next_slot|].
  apply visit_all in Hfold as (-> & _); try done; [by apply wf_next_slot|].
  intros id p Hip%elem_of_map_to_list.
  destruct (wf_slots w Hwf (next_slot w) id p) as (Hr & _); [by apply wf_next_slot|done|].
  destruct (wf_record w Hwf id p Hr) as (t' & ? & ? & _). by exists t'.
Qed.

Lemma ticks_total n : forall w, wheel_wf w -> idle w ->
  exists em w', ticks n w = Some (em, w') /\ length em = n /\ wheel_wf w' /\ idle w'.
Proof.
  induction n as [|n IH]; intros w Hwf Hidle; simpl; [by eexists _, _|].
  destruct Hidle as (Hst & Hs & Hch).
  destruct (run_tick w) as [w1|] eqn:Ht; [|unfold run_tick in Ht; by rewrite Hst, Hs in Ht].
  pose proof (tick_wf w w1 Hwf Ht) as Hwf1. pose proof (tick_chan w w1 Hwf Ht) as [Hch1 Hst1].
  unfold tick_and_consume. rewrite Ht; simpl. destruct (tw_sending w1) as [l|] eqn:Hs1.
  - unfold run_send, Wait. rewrite Hs1, Hch1, Hch; simpl. rewrite Hst1, Hst.
    match goal with |- context [ticks n ?w2] =>
      destruct (IH w2) as (em & w' & -> & Hl & ? & ?) end;
      [by do 2 apply set_chan_wf|by rewrite ?Hst1|].
    eexists _, _. simpl. split_and!; [done|simpl; by rewrite Hl|done|done].
  - simpl. destruct (IH w1) as (em & w' & -> & Hl & ? & ?); [done| |].
    + unfold idle. by rewrite Hst1, Hch1.
    + eexists _, _. simpl. split_and!; [done|simpl; by rewrite Hl|done|done].
Qed.

(** ** Properties *)

(** C30: a task added with a given interval is emitted by the tick number
    [interval / pace + 1] and by no earlier one, whatever else happens to the
    wheel meanwhile (other tasks added, deleted, updated; a slow consumer). *)
Theorem AddTask_fires_exactly w id interval times w0 em w' :
  wheel_wf w -> AddTask w id interval times = (None, w0) -> wheel_run id w0 em w' ->
  Z.of_nat (length em) = interval / tw_pace w + 1 ->
  forall j l, em !! j = Some l -> (id ∈ l <-> Z.of_nat j = interval / tw_pace w).
Proof.
  intros Hwf Hadd Hrun Hlen j l Hj.
  pose proof (AddTask_remaining w id interval times w0 Hwf Hadd) as Hrem.
  unfold remaining in Hrem. destruct (trigger_of w0 id) as [t|] eqn:Ht; [|done].
  simpl in Hrem. injection Hrem as Hrem.
  destruct (run_countdown id w0 em w' t Hrun) as (em0 & lf & w1 & -> & HF & Hin & _);
    [by eapply AddTask_wf|done|lia|].
  rewrite (lookup_snoc_fires id em0 lf HF Hin j l Hj).
  rewrite length_app in Hlen; simpl in Hlen. lia.
Qed.

Definition demo_wheel : SimpleTimeWheel := NewSimpleTimeWheel (5 * Millisecond) 2.

Lemma AddTask_fires_exactly_witness :
  exists w0 w', AddTask demo_wheel "a" (10 * Millisecond) 1 = (None, w0) /\
    wheel_run "a" w0 [[]; []; ["a"]] w' /\
    forall j l, [[]; []; ["a"]] !! j = Some l ->
      ("a"%string ∈ l <-> Z.of_nat j = 10 * Millisecond / tw_pace demo_wheel).
Proof.
  eexists _, _. split; [vm_compute; reflexivity|]. split.
  - apply (ticks_run _ 3). vm_compute. reflexivity.
  - eapply (AddTask_fires_exactly demo_wheel "a" (10 * Millisecond) 1).
    + apply NewSimpleTimeWheel_wf.
    + vm_compute; reflexivity.
    + apply (ticks_run _ 3). vm_compute. reflexivity.
    + vm_compute. reflexivity.
Defined.

(** [UpdateTask] on a registered or unregistered task restarts its wait:
    the next emission is exactly [interval / pace + 1] ticks away, so a lease
    that is extended in time is not emitted by the deadline it had before. *)
Theorem UpdateTask_restarts w id interval times err w0 em w' :
  wheel_wf w -> tw_perimeter w <= interval ->
  UpdateTask w id interval times = (err, w0) -> wheel_run id w0 em w' ->
  Z.of_nat (length em) = interval / tw_pace w + 1 ->
  err = None /\ forall j l, em !! j = Some l -> (id ∈ l <-> Z.of_nat j = interval / tw_pace w).
Proof.
  intros Hwf Hint Hupd Hrun Hlen.
  destruct (UpdateTask_remaining w id interval times err w0 Hwf Hint Hupd) as (-> & Hrem & _).
  split; [done|]. intros j l Hj.
  unfold remaining in Hrem. destruct (trigger_of w0 id) as [t|] eqn:Ht; [|done].
  simpl in Hrem. injection Hrem as Hrem.
  destruct (run_countdown id w0 em w' t Hrun) as (em0 & lf & w1 & -> & HF & Hin & _);
    [by eapply UpdateTask_wf|done|lia|].
  rewrite (lookup_snoc_fires id em0 lf HF Hin j l Hj).
  rewrite length_app in Hlen; simpl in Hlen. lia.
Qed.

Definition demo_wheel_aged : SimpleTimeWheel :=
  match ticks 2 (snd (AddTask demo_wheel "a" (10 * Millisecond) 1)) with
  | Some (_, w) => w
  | None => demo_wheel
  end.

Lemma demo_wheel_aged_wf : wheel_wf demo_wheel_aged.
Proof.
  unfold demo_wheel_aged.
  destruct (AddTask demo_wheel "a" (10 * Millisecond) 1) as [e w] eqn:E.
  assert (wheel_wf w /\ idle w) as [Hwf Hidle].
  { assert (e = None) as -> by (vm_compute in E; congruence). split.
    - eapply AddTask_wf; [|exact E]. apply NewSimpleTimeWheel_wf.
    - vm_compute in E. injection E as <-. done. }
  change (snd (e, w)) with w. destruct (ticks_total 2 w Hwf Hidle) as (em & w' & -> & _ & ? & _). done.
Qed.

Lemma UpdateTask_restarts_witness :
  exists w', let w0 := snd (UpdateTask demo_wheel_aged "a" (10 * Millisecond) 1) in
    wheel_run "a" w0 [[]; []; ["a"]] w' /\
    (@None twError = None /\ forall j l, [[]; []; ["a"]] !! j = Some l ->
      ("a"%string ∈ l <-> Z.of_nat j = 10 * Millisecond / tw_pace demo_wheel_aged)).
Proof.
  eexists _. split.
  - apply (ticks_run _ 3). vm_compute. reflexivity.
  - eapply (UpdateTask_restarts demo_wheel_aged "a" (10 * Millisecond) 1).
    + apply demo_wheel_aged_wf.
    + vm_compute. discriminate.
    + vm_compute; reflexivity.
    + apply (ticks_run _ 3). vm_compute. reflexivity.
    + vm_compute. reflexivity.
Defined.

(** After [DelTask] a task is not emitted again until it is added anew. *)
Theorem DelTask_silences w id err w0 em w' :
  wheel_wf w -> DelTask w id = (err, w0) -> wheel_run id w0 em w' ->
  err = None /\ Forall (fun l => id ∉ l) em.
Proof.
  intros Hwf Hdel Hrun. destruct (DelTask_gone w id err w0 Hwf Hdel) as (-> & Hn & _).
  split; [done|].
  by destruct (run_unregistered id w0 em w' Hrun (DelTask_wf w id None w0 Hwf Hdel) Hn).
Qed.

Lemma DelTask_silences_witness :
  exists w', let w0 := snd (DelTask demo_wheel_aged "a") in
    wheel_run "a" w0 [[]; []; []] w' /\
    (@None twError = None /\ Forall (fun l => "a"%string ∉ l) [[]; []; []]).
Proof.
  eexists _. split.
  - apply (ticks_run _ 3). vm_compute. reflexivity.
  - eapply (DelTask_silences demo_wheel_aged "a").
    + apply demo_wheel_aged_wf.
    + vm_compute; reflexivity.
    + apply (ticks_run _ 3). vm_compute. reflexivity.
Defined.

(** A task added with [times = 1] is emitted twice: at its deadline and
    once more [circle] turns of the wheel later, and only then is it
    unregistered. *)
Theorem one_shot_fires_twice w id interval w0 em w' :
  wheel_wf w -> AddTask w id interval 1 = (None, w0) -> wheel_run id w0 em w' ->
  let n := interval / tw_pace w + 1 in
  let period := (interval / tw_pace w + tw_curSlot w + 1) / tw_slotNum w * tw_slotNum w in
  Z.of_nat (length em) = n + period ->
  trigger_of w' id = None /\
  forall j l, em !! j = Some l ->
    (id ∈ l <-> Z.of_nat j = n - 1 \/ Z.of_nat j = n + period - 1).
Proof.
  intros Hwf Hadd Hrun n period Hlen.
  pose proof (AddTask_remaining w id interval 1 w0 Hwf Hadd) as Hrem.
  destruct (AddTask_trigger w id interval 1 w0 Hwf Hadd) as (t & Ht & Htimes & Hcirc).
  unfold remaining in Hrem. rewrite Ht in Hrem. simpl in Hrem. injection Hrem as Hrem.
  pose proof (AddTask_wf w id interval 1 w0 Hwf Hadd) as Hwf0.
  pose proof (AddTask_clock w id interval 1 None w0 Hadd) as (_ & HS0 & _).
  assert (tw_slotNum w <= period) as Hper.
  { destruct (wf_trigger w0 id t Hwf0 Ht) as (_ & (_ & Hc & _) & _). rewrite Hcirc in Hc.
    pose proof (wf_slotNum w Hwf). unfold period. nia. }
  pose proof (wf_slotNum w Hwf) as HS. fold n in Hrem.
  assert (1 <= n). { destruct (wf_trigger w0 id t Hwf0 Ht) as (_ & Hok & _).
    destruct (tick_arith w0 (set_cur w0 (next_slot w0)) t Hwf0 Hok eq_refl eq_refl). lia. }
  rewrite <- (take_drop (Z.to_nat n) em) in Hrun, Hlen |- *.
  assert (length (take (Z.to_nat n) em) = Z.to_nat n) as Hl1.
  { apply length_take_le. rewrite take_drop in Hlen. lia. }
  rewrite length_app in Hlen. apply run_app in Hrun as (wm & Hr1 & Hr2).
  destruct (run_countdown id w0 _ wm t Hr1 Hwf0 Ht)
    as (ea & l1 & w1 & Ea & Fa & In1 & Hr1' & Hwf1 & HS1 & t1 & Ht1 & Hc1 & Htm1 & Hrem1); [lia|].
  rewrite Htimes in Ht1, Htm1. simpl in Ht1. specialize (Htm1 ltac:(lia)).
  pose proof (run_trans id w1 [] wm _ w' Hr1' Hr2) as Hr. simpl in Hr.
  assert (trigger_remaining w1 t1 = period) as Ep
    by (rewrite Hrem1, Hcirc; unfold period; congruence).
  destruct (run_countdown id w1 _ w' t1 Hr Hwf1 Ht1)
    as (eb & l2 & w2 & Eb & Fb & In2 & Hr2' & Hwf2 & _ & t2 & Ht2 & _); [lia|].
  rewrite Htm1 in Ht2. simpl in Ht2.
  split; [by destruct (run_unregistered id w2 [] w' Hr2' Hwf2 Ht2)|].
  rewrite Ea in Hl1, Hlen |- *. rewrite Eb in Hlen |- *. rewrite !length_app in *. simpl in *.
  intros j l Hj. apply lookup_app_Some in Hj as [Hj|[Hge Hj]].
  - rewrite (lookup_snoc_fires id ea l1 Fa In1 j l Hj).
    apply lookup_lt_Some in Hj. rewrite length_app in Hj. simpl in Hj. lia.
  - rewrite length_app in Hge, Hj. simpl in Hge, Hj.
    rewrite (lookup_snoc_fires id eb l2 Fb In2 _ l Hj).
    apply lookup_lt_Some in Hj. rewrite length_app in Hj. simpl in Hj. lia.
Qed.

Lemma one_shot_fires_twice_witness :
  exists w0 w', AddTask demo_wheel "a" (10 * Millisecond) 1 = (None, w0) /\
    wheel_run "a" w0 [[]; []; ["a"]; []; ["a"]] w' /\
    (trigger_of w' "a" = None /\
     forall j l, [[]; []; ["a"]; []; ["a"]] !! j = Some l ->
      ("a"%string ∈ l <-> Z.of_nat j = 3 - 1 \/ Z.of_nat j = 3 + 2 - 1)).
Proof.
  eexists _, _. split; [vm_compute; reflexivity|]. split.
  - apply (ticks_run _ 5). vm_compute. reflexivity.
  - eapply (one_shot_fires_twice demo_wheel "a" (10 * Millisecond)).
    + apply NewSimpleTimeWheel_wf.
    + vm_compute; reflexivity.
    + apply (ticks_run _ 5). vm_compute. reflexivity.
    + vm_compute. reflexivity.
Defined.

(** With a consumer that keeps up, a task that is added is emitted: the
    wheel goes through [interval / pace + 1] ticks without blocking and the
    last one carries the task. *)
Theorem AddTask_eventually_fires w id interval times w0 :
  wheel_wf w -> idle w -> AddTask w id interval times = (None, w0) ->
  exists em l w', ticks (Z.to_nat (interval / tw_pace w + 1)) w0 = Some (em ++ [l], w') /\
    id ∈ l /\ Forall (fun l => id ∉ l) em.
Proof.
  intros Hwf Hidle Hadd. pose proof (AddTask_wf w id interval times w0 Hwf Hadd) as Hwf0.
  assert (idle w0) as Hidle0.
  { unfold AddTask in Hadd. repeat case_match; simplify_eq. exact Hidle. }
  pose proof (AddTask_remaining w id interval times w0 Hwf Hadd) as Hrem.
  unfold remaining in Hrem. destruct (trigger_of w0 id) as [t|] eqn:Ht; [|done].
  simpl in Hrem. injection Hrem as Hrem.
  destruct (wf_trigger w0 id t Hwf0 Ht) as (_ & Hok & _).
  destruct (tick_arith w0 (set_cur w0 (next_slot w0)) t Hwf0 Hok eq_refl eq_refl) as (Hge & _).
  destruct (ticks_total (Z.to_nat (interval / tw_pace w + 1)) w0 Hwf0 Hidle0)
    as (em & w' & Hticks & Hlen & _).
  destruct (run_countdown id w0 em w' t (ticks_run id _ w0 em w' Hticks) Hwf0 Ht)
    as (em0 & l & w1 & -> & HF & Hin & _); [lia|]. eauto 10.
Qed.

Lemma AddTask_eventually_fires_witness :
  exists em l w', ticks (Z.to_nat (10 * Millisecond / tw_pace demo_wheel + 1))
      (snd (AddTask demo_wheel "a" (10 * Millisecond) 1)) = Some (em ++ [l], w') /\
    "a"%string ∈ l /\ Forall (fun l => "a"%string ∉ l) em.
Proof.
  eapply (AddTask_eventually_fires demo_wheel "a" (10 * Millisecond) 1).
  - apply NewSimpleTimeWheel_wf.
  - done.
  - vm_compute. reflexivity.
Defined.
