(* ===== verification/WheelSpec.v ===== *)
(** * What a time wheel promises

    The interface [timewheel.TimeWheel] with the laws its users rely on, the
    lite scheduler and the lease manager, and [SimpleTimeWheel] as its
    implementation. *)
From S2P Require Import Prelude TimeWheel.

(** ** The interface

    [ew_tick] and [ew_send] are the steps of the wheel's own goroutine, [None]
    when it cannot move; [ew_Wait] is [None] while the caller blocks. *)
Class ExpiryWheel (W : Type) := {
  ew_AddTask : W -> string -> Z -> Z -> option twError * W;
  ew_UpdateTask : W -> string -> Z -> Z -> option twError * W;
  ew_DelTask : W -> string -> option twError * W;
  ew_tick : W -> option W;
  ew_send : W -> option W;
  ew_Wait : W -> option (list string * option twError * W);
  ew_Stop : W -> W
}.

(** What its users rely on: a task is covered while the wheel holds it
    ([ew_has]) or has announced it and not yet delivered it ([ew_pending]);
    adding or updating a task with an interval of at least [ew_min] covers it,
    and only [DelTask] of the task itself or its delivery ends that. *)
Class ExpiryWheelLaws (W : Type) `{ExpiryWheel W} := {
  ew_inv : W -> Prop;
  ew_min : W -> Z;
  ew_has : W -> string -> Prop;
  ew_pending : W -> string -> Prop;
  ew_covered (w : W) (k : string) : Prop := ew_has w k \/ ew_pending w k;
  ew_add_ok w id i n : ew_inv w ->
    let w' := snd (ew_AddTask w id i n) in
    ew_inv w' /\ ew_min w' = ew_min w /\ (ew_min w <= i -> ew_has w' id) /\
    forall k, ew_covered w k -> ew_covered w' k;
  ew_add_min w id i n : ew_inv w -> fst (ew_AddTask w id i n) = None -> ew_min w <= i;
  ew_update_ok w id i n : ew_inv w -> ew_min w <= i ->
    let w' := snd (ew_UpdateTask w id i n) in
    ew_inv w' /\ ew_min w' = ew_min w /\ ew_has w' id /\
    forall k, ew_covered w k -> ew_covered w' k;
  ew_del_ok w id : ew_inv w ->
    let w' := snd (ew_DelTask w id) in
    ew_inv w' /\ ew_min w' = ew_min w /\ forall k, k <> id -> ew_covered w k -> ew_covered w' k;
  ew_del_none w id : ew_inv w -> fst (ew_DelTask w id) = None;
  ew_stop_ok w : ew_inv w -> ew_inv (ew_Stop w);
  ew_stop_min w : ew_inv w -> ew_min (ew_Stop w) = ew_min w;
  ew_tick_ok w w' : ew_inv w -> ew_tick w = Some w' ->
    ew_inv w' /\ ew_min w' = ew_min w /\ forall k, ew_covered w k -> ew_covered w' k;
  ew_send_ok w w' : ew_inv w -> ew_send w = Some w' ->
    ew_inv w' /\ ew_min w' = ew_min w /\ forall k, ew_covered w k -> ew_covered w' k;
  ew_wait_ok w l e w' : ew_inv w -> ew_Wait w = Some (l, e, w') ->
    ew_inv w' /\ ew_min w' = ew_min w /\ forall k, ew_covered w k -> k ∈ l \/ ew_covered w' k
}.

(** ** SimpleTimeWheel *)

#[global] Instance SimpleTimeWheel_wheel : ExpiryWheel SimpleTimeWheel := {
  ew_AddTask := AddTask;
  ew_UpdateTask := UpdateTask;
  ew_DelTask := DelTask;
  ew_tick := run_tick;
  ew_send := run_send;
  ew_Wait := Wait;
  ew_Stop := Stop
}.

Definition wheel_has (w : SimpleTimeWheel) (k : string) : Prop := is_Some (trigger_of w k).

(** In the list the wheel is sending, or in one that waits in the channel. *)
Definition wheel_pending (w : SimpleTimeWheel) (k : string) : Prop :=
  k ∈ fired w \/ exists l, l ∈ tw_readyCh w /\ k ∈ l.

Lemma AddTask_err_same w id i n e w' : AddTask w id i n = (Some e, w') -> w' = w.
Proof. unfold AddTask. repeat case_match; naive_solver. Qed.

Lemma AddTask_chan w id i n e w' :
  AddTask w id i n = (e, w') ->
  tw_sending w' = tw_sending w /\ tw_readyCh w' = tw_readyCh w /\ tw_perimeter w' = tw_perimeter w.
Proof. unfold AddTask. repeat case_match; intros [= <- <-]; done. Qed.

Lemma DelTask_chan w id e w' :
  DelTask w id = (e, w') ->
  tw_sending w' = tw_sending w /\ tw_readyCh w' = tw_readyCh w /\ tw_perimeter w' = tw_perimeter w.
Proof. unfold DelTask. repeat case_match; intros [= <- <-]; done. Qed.

Lemma UpdateTask_chan w id i n e w' :
  UpdateTask w id i n = (e, w') ->
  tw_sending w' = tw_sending w /\ tw_readyCh w' = tw_readyCh w /\ tw_perimeter w' = tw_perimeter w.
Proof.
  unfold UpdateTask. repeat case_match; try (intros [= <- <-]; done). apply AddTask_chan.
Qed.

(** The channel decides what is pending. *)
Lemma pending_same w w' k :
  tw_sending w' = tw_sending w -> tw_readyCh w' = tw_readyCh w ->
  wheel_pending w k -> wheel_pending w' k.
Proof. unfold wheel_pending, fired. by intros -> ->. Qed.

Lemma wheel_add_ok w id i n :
  wheel_wf w ->
  let w' := snd (AddTask w id i n) in
  wheel_wf w' /\ tw_perimeter w' = tw_perimeter w /\ (tw_perimeter w <= i -> wheel_has w' id) /\
  forall k, wheel_has w k \/ wheel_pending w k -> wheel_has w' k \/ wheel_pending w' k.
Proof.
  intros Hwf. destruct (AddTask w id i n) as [e w'] eqn:E. simpl.
  destruct (AddTask_chan _ _ _ _ _ _ E) as (Hs & Hr & Hp).
  assert (Hhas : tw_perimeter w <= i -> wheel_has w' id).
  { intros Hi. destruct e as [e|].
    - pose proof (AddTask_err_same _ _ _ _ _ _ E) as ->. unfold AddTask in E.
      destruct (Z.ltb_spec i (tw_perimeter w)); [lia|].
      destruct (tw_record w !! id) as [p|] eqn:Hid; [|repeat case_match; done].
      destruct (wf_record w Hwf id p Hid) as (t & Ht & _). exists t. unfold trigger_of. by rewrite Hid.
    - destruct (AddTask_trigger _ _ _ _ _ Hwf E) as (t & Ht & _). by exists t. }
  split_and!; [|done|done|].
  - destruct e; [by rewrite (AddTask_err_same _ _ _ _ _ _ E)|by eapply AddTask_wf].
  - intros k [Hk|Hk]; [left|right; by eapply pending_same].
    destruct (decide (k = id)) as [->|Hne]; [|unfold wheel_has; by erewrite AddTask_other].
    destruct (Z.le_gt_cases (tw_perimeter w) i); [auto|]. unfold AddTask in E.
    destruct (Z.ltb_spec i (tw_perimeter w)); [|lia]. by simplify_eq.
Qed.

Lemma wheel_add_min w id i n : wheel_wf w -> fst (AddTask w id i n) = None -> tw_perimeter w <= i.
Proof. intros _. unfold AddTask. destruct (Z.ltb_spec i (tw_perimeter w)); [done|lia]. Qed.

Lemma wheel_update_ok w id i n :
  wheel_wf w -> tw_perimeter w <= i ->
  let w' := snd (UpdateTask w id i n) in
  wheel_wf w' /\ tw_perimeter w' = tw_perimeter w /\ wheel_has w' id /\
  forall k, wheel_has w k \/ wheel_pending w k -> wheel_has w' k \/ wheel_pending w' k.
Proof.
  intros Hwf Hi. destruct (UpdateTask w id i n) as [e w'] eqn:E. simpl.
  destruct (UpdateTask_chan _ _ _ _ _ _ E) as (Hs & Hr & Hp).
  destruct (UpdateTask_remaining _ _ _ _ _ _ Hwf Hi E) as (_ & Hrem & Hother).
  assert (wheel_has w' id) as Hhas.
  { unfold wheel_has, remaining in *. destruct (trigger_of w' id); [done|]. done. }
  split_and!; [by eapply UpdateTask_wf|done|done|].
  intros k [Hk|Hk]; [left|right; by eapply pending_same].
  destruct (decide (k = id)) as [->|Hne]; [done|]. unfold wheel_has. by rewrite Hother.
Qed.

Lemma wheel_del_ok w id :
  wheel_wf w ->
  let w' := snd (DelTask w id) in
  wheel_wf w' /\ tw_perimeter w' = tw_perimeter w /\
  forall k, k <> id -> wheel_has w k \/ wheel_pending w k -> wheel_has w' k \/ wheel_pending w' k.
Proof.
  intros Hwf. destruct (DelTask w id) as [e w'] eqn:E. simpl.
  destruct (DelTask_chan _ _ _ _ E) as (Hs & Hr & Hp).
  destruct (DelTask_gone _ _ _ _ Hwf E) as (_ & _ & Hother).
  split_and!; [by eapply DelTask_wf|done|].
  intros k Hne [Hk|Hk]; [left|right; by eapply pending_same]. unfold wheel_has. by rewrite Hother.
Qed.

Lemma wheel_tick_ok w w' :
  wheel_wf w -> run_tick w = Some w' ->
  wheel_wf w' /\ tw_perimeter w' = tw_perimeter w /\
  forall k, wheel_has w k \/ wheel_pending w k -> wheel_has w' k \/ wheel_pending w' k.
Proof.
  intros Hwf Ht. destruct (tick_effect w w' Hwf Ht) as ((_ & Hper & _) & Hreg & _).
  destruct (tick_chan w w' Hwf Ht) as [Hch _].
  split_and!; [by eapply tick_wf|done|]. intros k [[t Hk]|[Hk|Hk]].
  - destruct (wf_trigger w k t Hwf Hk) as (_ & _ & p & Hp & Hh & _).
    destruct (Hreg k p t Hp Hh) as (Hh' & Hr' & _ & Hf).
    destruct (visited w t && removed t) eqn:E.
    + right. left. apply Hf. unfold removed in E. by destruct (visited w t), (fires t).
    + left. unfold wheel_has, trigger_of. rewrite Hr'. simpl. by rewrite Hh'.
  - unfold run_tick in Ht. unfold fired in Hk. destruct (tw_stopped w); [done|].
    destruct (tw_sending w); [done|]. by apply elem_of_nil in Hk.
  - right. right. by rewrite Hch.
Qed.

Lemma set_chan_has w s ch b k : wheel_has (set_chan w s ch b) k <-> wheel_has w k.
Proof. done. Qed.

Lemma wheel_send_ok w w' :
  wheel_wf w -> run_send w = Some w' ->
  wheel_wf w' /\ tw_perimeter w' = tw_perimeter w /\
  forall k, wheel_has w k \/ wheel_pending w k -> wheel_has w' k \/ wheel_pending w' k.
Proof.
  intros Hwf. unfold run_send. destruct (tw_sending w) as [l|] eqn:Hs; [|done].
  case_match; [|done]. intros [= <-]. split_and!; [by apply set_chan_wf|done|].
  intros k [Hk|[Hk|(l' & Hl & Hk)]]; [by left|right; right..].
  - unfold fired in Hk. rewrite Hs in Hk. exists l. simpl. split; [|done].
    apply elem_of_app. right. by apply list_elem_of_singleton.
  - exists l'. simpl. split; [|done]. apply elem_of_app. by left.
Qed.

Lemma wheel_wait_ok w l e w' :
  wheel_wf w -> Wait w = Some (l, e, w') ->
  wheel_wf w' /\ tw_perimeter w' = tw_perimeter w /\
  forall k, wheel_has w k \/ wheel_pending w k -> k ∈ l \/ (wheel_has w' k \/ wheel_pending w' k).
Proof.
  intros Hwf. unfold Wait. destruct (tw_readyCh w) as [|x rest] eqn:Hr.
  { destruct (tw_stopped w); [|done]. intros [= <- <- <-]. auto. }
  intros [= <- _ <-]. split_and!; [by apply set_chan_wf|done|].
  intros k [Hk|[Hk|(l' & Hl & Hk)]]; [by right; left|by right; right; left|].
  rewrite Hr in Hl. apply elem_of_cons in Hl as [->|Hl]; [by left|].
  right. right. right. exists l'. done.
Qed.

Lemma wheel_del_none w id : wheel_wf w -> fst (DelTask w id) = None.
Proof.
  intros Hwf. destruct (DelTask w id) as [e w'] eqn:E. by destruct (DelTask_gone _ _ _ _ Hwf E) as (? & _).
Qed.

Lemma wheel_stop_ok w : wheel_wf w -> wheel_wf (Stop w).
Proof. intros Hwf. unfold Stop. case_match; [done|by apply set_chan_wf]. Qed.

Lemma wheel_stop_min w : wheel_wf w -> tw_perimeter (Stop w) = tw_perimeter w.
Proof. intros _. unfold Stop. by case_match. Qed.

#[global] Instance SimpleTimeWheel_laws : ExpiryWheelLaws SimpleTimeWheel := {
  ew_inv := wheel_wf;
  ew_min := tw_perimeter;
  ew_has := wheel_has;
  ew_pending := wheel_pending;
  ew_add_ok := wheel_add_ok;
  ew_add_min := wheel_add_min;
  ew_update_ok := wheel_update_ok;
  ew_del_ok := wheel_del_ok;
  ew_del_none := wheel_del_none;
  ew_stop_ok := wheel_stop_ok;
  ew_stop_min := wheel_stop_min;
  ew_tick_ok := wheel_tick_ok;
  ew_send_ok := wheel_send_ok;
  ew_wait_ok := wheel_wait_ok
}.
