(* ===== verification/LeaseMgr.v ===== *)
(** * Leases of instance threads (functionscaler/lease)

    generic_lease_manager.go: a function's lease manager has a holder for each
    instance, and a holder a time wheel, the interval and the callback of every
    lease.  [pollLease] and the goroutines it starts for the lists the wheel
    emits are cut where they hold no lock: [poll_check] and [poll_wait] are the
    turns of the loop, [expire_one] the body of a goroutine's loop for one id.
    A callback runs outside the lock; a step gives the callbacks it leaves to be
    called.  The holder is modelled over the interface of a time wheel. *)
From S2P Require Import Prelude TimeWheel WheelSpec.
#[local] Open Scope Z_scope.

Notation defaultTimeWheelPace := (5 * Millisecond)%Z (only parsing).
Notation defaultTimeWheelSlots := (100)%Z (only parsing).

Inductive leaseError :=
  | errInstanceLeaseHolderNotEnable
  | ErrInstanceNotFound
  | errLeaseNotExist
  | errInvalidInsAlloc
  | errNoManager
  | errWheel (e : twError).

(** Where [pollLease] stands. *)
Inductive poll_pc := PollCheck | PollWait | PollDone.

(** ** One instance's leases *)

Section Holder.
Context {W : Type} `{ExpiryWheel W} {CB : Type}.

(** [lh_expiring]: the goroutines started for emitted lists, with the ids they
    have left. *)
Record instanceLeaseHolder := mkHolder {
  lh_timeWheel : W;
  lh_intervalMap : gmap string Z;
  lh_callbackMap : gmap string CB;
  lh_enable : bool;
  lh_poll : poll_pc;
  lh_expiring : list (list string)
}.
Implicit Types (il : instanceLeaseHolder).

Definition newInstanceLeaseHolder (wheel : W) : instanceLeaseHolder :=
  mkHolder wheel ∅ ∅ true PollCheck [].

Definition set_leases (w : W) (intervals : gmap string Z) (callbacks : gmap string CB) il :=
  mkHolder w intervals callbacks (lh_enable il) (lh_poll il) (lh_expiring il).
Definition set_poll (w : W) (pc : poll_pc) (expiring : list (list string)) il :=
  mkHolder w (lh_intervalMap il) (lh_callbackMap il) (lh_enable il) pc expiring.

Definition holder_stop il : instanceLeaseHolder :=
  let il' := mkHolder (lh_timeWheel il) (lh_intervalMap il) (lh_callbackMap il) false (lh_poll il)
               (lh_expiring il) in
  if lh_enable il
  then mkHolder (ew_Stop (lh_timeWheel il)) (lh_intervalMap il) (lh_callbackMap il) false (lh_poll il)
         (lh_expiring il)
  else il'.

(** [None]: the goroutine is elsewhere, or blocked. *)
Definition poll_check il : option instanceLeaseHolder :=
  match lh_poll il with
  | PollCheck =>
      Some (set_poll (lh_timeWheel il) (if negb (lh_enable il) then PollDone else PollWait) (lh_expiring il) il)
  | _ => None
  end.

Definition poll_wait il : option instanceLeaseHolder :=
  match lh_poll il with
  | PollWait =>
      match ew_Wait (lh_timeWheel il) with
      | None => None
      | Some (readyList, _, w) =>
          Some (set_poll w PollCheck
                  (match readyList with [] => lh_expiring il | _ => lh_expiring il ++ [readyList] end) il)
      end
  | _ => None
  end.

(** The goroutine number [g] handles its next id. *)
Definition expire_one (g : nat) il : option (list (string * CB) * instanceLeaseHolder) :=
  match lh_expiring il !! g with
  | Some (allocationID :: rest) =>
      let w := snd (ew_DelTask (lh_timeWheel il) allocationID) in
      let callback := lh_callbackMap il !! allocationID in
      let il := set_leases w (delete allocationID (lh_intervalMap il))
                  (delete allocationID (lh_callbackMap il)) il in
      Some (match callback with Some cb => [(allocationID, cb)] | None => [] end,
            set_poll w (lh_poll il) (<[g:=rest]> (lh_expiring il)) il)
  | _ => None
  end.

Definition createLease (allocationID : string) (interval : Z) (callback : CB) il
    : option leaseError * instanceLeaseHolder :=
  if negb (lh_enable il) then (Some errInstanceLeaseHolderNotEnable, il) else
  match ew_AddTask (lh_timeWheel il) allocationID interval 1 with
  | (Some err, w) => (Some (errWheel err), set_leases w (lh_intervalMap il) (lh_callbackMap il) il)
  | (None, w) =>
      (None, set_leases w (<[allocationID:=interval]> (lh_intervalMap il))
               (<[allocationID:=callback]> (lh_callbackMap il)) il)
  end.

Definition extendLease (allocationID : string) il : option leaseError * instanceLeaseHolder :=
  if negb (lh_enable il) then (Some errInstanceLeaseHolderNotEnable, il) else
  match lh_intervalMap il !! allocationID with
  | None => (Some errLeaseNotExist, il)
  | Some interval =>
      let '(err, w) := ew_UpdateTask (lh_timeWheel il) allocationID interval 1 in
      (errWheel <$> err, set_leases w (lh_intervalMap il) (lh_callbackMap il) il)
  end.

Definition releaseLease (allocationID : string) il
    : option leaseError * list (string * CB) * instanceLeaseHolder :=
  if negb (lh_enable il) then (Some errInstanceLeaseHolderNotEnable, [], il) else
  let callback := lh_callbackMap il !! allocationID in
  let '(err, w) := ew_DelTask (lh_timeWheel il) allocationID in
  let il := set_leases w (delete allocationID (lh_intervalMap il))
              (delete allocationID (lh_callbackMap il)) il in
  match err with
  | Some err => (Some (errWheel err), [], il)
  | None => (None, match callback with Some cb => [(allocationID, cb)] | None => [] end, il)
  end.

(** ** Runs *)

Inductive lease_event :=
  | LeCreate (allocationID : string) (interval : Z) (callback : CB)
  | LeExtend (allocationID : string)
  | LeRelease (allocationID : string)
  | LePollCheck
  | LePollWait
  | LeExpire (g : nat)
  | LeTick
  | LeSend
  | LeStop.

(** What a run leaves in a log: leases that came to be, callbacks called. *)
Inductive lease_log := LogCreated (id : string) (cb : CB) | LogCalled (id : string) (cb : CB).

Definition log_calls (l : list (string * CB)) : list lease_log := (fun c => LogCalled c.1 c.2) <$> l.
Definition on_wheel (f : W -> option W) il : instanceLeaseHolder :=
  match f (lh_timeWheel il) with
  | Some w => set_leases w (lh_intervalMap il) (lh_callbackMap il) il
  | None => il
  end.

(** A step that cannot be taken leaves the state. *)
Definition lease_step il (e : lease_event) : list lease_log * instanceLeaseHolder :=
  match e with
  | LeCreate id interval cb =>
      match createLease id interval cb il with
      | (None, il) => ([LogCreated id cb], il)
      | (Some _, il) => ([], il)
      end
  | LeExtend id => ([], snd (extendLease id il))
  | LeRelease id => let '(_, calls, il) := releaseLease id il in (log_calls calls, il)
  | LePollCheck => ([], default il (poll_check il))
  | LePollWait => ([], default il (poll_wait il))
  | LeExpire g => match expire_one g il with Some (calls, il) => (log_calls calls, il) | None => ([], il) end
  | LeTick => ([], on_wheel ew_tick il)
  | LeSend => ([], on_wheel ew_send il)
  | LeStop => ([], holder_stop il)
  end.
Fixpoint lease_run il (es : list lease_event) : list lease_log * instanceLeaseHolder :=
  match es with
  | [] => ([], il)
  | e :: es => let '(l, il) := lease_step il e in
               let '(ls, il) := lease_run il es in (l ++ ls, il)
  end.

(** ** The manager *)

(** Holders are objects that outlive their entry in the map. *)
Record GenericInstanceLeaseManager := mkLeaseManager {
  gm_leaseHolders : gmap string nat;
  gm_heap : list instanceLeaseHolder
}.
Implicit Types (gm : GenericInstanceLeaseManager).

Definition NewGenericLeaseManager : GenericInstanceLeaseManager := mkLeaseManager ∅ [].

(** [CreateInstanceLease] finds or makes the holder, and then, with the
    manager's lock given up, creates the lease. *)
Definition findHolder (wheel : W) (instanceID : string) gm : nat * GenericInstanceLeaseManager :=
  match gm_leaseHolders gm !! instanceID with
  | Some p => (p, gm)
  | None =>
      let p := length (gm_heap gm) in
      (p, mkLeaseManager (<[instanceID:=p]> (gm_leaseHolders gm)) (gm_heap gm ++ [newInstanceLeaseHolder wheel]))
  end.

Definition CreateInstanceLease (wheel : W) (alloc : option (string * string)) (interval : Z) (callback : CB) gm
    : option leaseError * GenericInstanceLeaseManager :=
  match alloc with
  | None => (Some errInvalidInsAlloc, gm)
  | Some (instanceID, allocationID) =>
      let '(p, gm) := findHolder wheel instanceID gm in
      match gm_heap gm !! p with
      | None => (None, gm)
      | Some il =>
          let '(err, il) := createLease allocationID interval callback il in
          (err, mkLeaseManager (gm_leaseHolders gm) (<[p:=il]> (gm_heap gm)))
      end
  end.

Definition HandleInstanceDelete (instanceID : string) gm : GenericInstanceLeaseManager :=
  match gm_leaseHolders gm !! instanceID with
  | None => gm
  | Some p => mkLeaseManager (delete instanceID (gm_leaseHolders gm)) (alter holder_stop p (gm_heap gm))
  end.

Definition CleanAllLeases gm : GenericInstanceLeaseManager :=
  mkLeaseManager ∅ (fold_left (fun h p => alter holder_stop p h) ((map_to_list (gm_leaseHolders gm)).*2)
                      (gm_heap gm)).

Definition manager_extendLease (instanceID allocationID : string) gm
    : option leaseError * GenericInstanceLeaseManager :=
  match gm_leaseHolders gm !! instanceID ≫= fun p => (p,.) <$> gm_heap gm !! p with
  | None => (Some ErrInstanceNotFound, gm)
  | Some (p, il) =>
      let '(err, il) := extendLease allocationID il in
      (err, mkLeaseManager (gm_leaseHolders gm) (<[p:=il]> (gm_heap gm)))
  end.

Definition manager_releaseLease (instanceID allocationID : string) gm
    : option leaseError * list (string * CB) * GenericInstanceLeaseManager :=
  match gm_leaseHolders gm !! instanceID ≫= fun p => (p,.) <$> gm_heap gm !! p with
  | None => (Some ErrInstanceNotFound, [], gm)
  | Some (p, il) =>
      let '(err, calls, il) := releaseLease allocationID il in
      (err, calls, mkLeaseManager (gm_leaseHolders gm) (<[p:=il]> (gm_heap gm)))
  end.
End Holder.
Arguments instanceLeaseHolder : clear implicits.
Arguments GenericInstanceLeaseManager : clear implicits.
Arguments lease_event : clear implicits.
Arguments lease_log : clear implicits.

(** ** Every lease is settled once *)

Section HolderInv.
Context {W : Type} `{ExpiryWheelLaws W} {CB : Type}.
Implicit Types (il : instanceLeaseHolder W CB).

(** An id waits in a goroutine's list. *)
Definition in_batch (id : string) il : Prop := exists b, b ∈ lh_expiring il /\ id ∈ b.

Record holder_inv il : Prop := {
  hi_wheel : ew_inv (lh_timeWheel il);
  hi_interval : forall id i, lh_intervalMap il !! id = Some i -> ew_min (lh_timeWheel il) <= i;
  hi_dom : forall id, is_Some (lh_intervalMap il !! id) <-> is_Some (lh_callbackMap il !! id);
  hi_covered : lh_enable il = true ->
    forall id, is_Some (lh_callbackMap il !! id) -> ew_covered (lh_timeWheel il) id \/ in_batch id il
}.

Lemma new_holder_inv w : ew_inv w -> holder_inv (newInstanceLeaseHolder (CB:=CB) w).
Proof.
  intros Hw. split; simpl; [done|done|intros id; by rewrite !lookup_empty; split; intros []|].
  intros _ id [? Hid]. by rewrite lookup_empty in Hid.
Qed.

(** The wheel moves on and covers what it covered, or hands it to a goroutine. *)
Lemma holder_inv_wheel il w pc batches :
  holder_inv il -> ew_inv w -> ew_min w = ew_min (lh_timeWheel il) ->
  (lh_enable il = true -> forall id, ew_covered (lh_timeWheel il) id \/ in_batch id il ->
     ew_covered w id \/ exists b, b ∈ batches /\ id ∈ b) ->
  holder_inv (set_poll w pc batches il).
Proof.
  intros [I1 I2 I3 I4] Hw Hm Hc. split; simpl; [done|rewrite Hm; apply I2|done|].
  intros He id Hid. apply Hc; auto.
Qed.

Lemma on_wheel_inv (f : W -> option W) il :
  (forall w w', ew_inv w -> f w = Some w' ->
     ew_inv w' /\ ew_min w' = ew_min w /\ forall k, ew_covered w k -> ew_covered w' k) ->
  holder_inv il -> holder_inv (on_wheel f il).
Proof.
  intros Hf Hil. unfold on_wheel. destruct (f (lh_timeWheel il)) as [w|] eqn:E; [|done].
  destruct (Hf _ _ (hi_wheel il Hil) E) as (H1 & H2 & H3).
  apply (holder_inv_wheel il w (lh_poll il) (lh_expiring il)); try done.
  intros _ id [Hk|Hk]; auto.
Qed.

(** Ending a lease: its task and both entries go. *)
Lemma holder_inv_end il id :
  holder_inv il ->
  holder_inv (set_leases (snd (ew_DelTask (lh_timeWheel il) id)) (delete id (lh_intervalMap il))
                (delete id (lh_callbackMap il)) il).
Proof.
  intros [I1 I2 I3 I4]. destruct (ew_del_ok (lh_timeWheel il) id I1) as (H1 & H2 & H3). split; simpl.
  - done.
  - intros k i [_ Hk]%lookup_delete_Some. rewrite H2. by eapply I2.
  - intros k. destruct (decide (id = k)) as [->|Hne];
      [rewrite !lookup_delete_eq; by split; intros []|rewrite !lookup_delete_ne by done; apply I3].
  - intros He k Hk. destruct (decide (id = k)) as [->|Hne];
      [rewrite lookup_delete_eq in Hk; by destruct Hk|rewrite lookup_delete_ne in Hk by done].
    destruct (I4 He k Hk) as [Hc|Hb]; [left; by apply H3|by right].
Qed.

Lemma create_inv il id i cb : holder_inv il -> holder_inv (snd (createLease id i cb il)).
Proof.
  intros Hil. unfold createLease. destruct (lh_enable il) eqn:He; simpl; [|done].
  destruct (ew_AddTask (lh_timeWheel il) id i 1) as [err w] eqn:E.
  destruct Hil as [I1 I2 I3 I4]. pose proof (ew_add_ok (lh_timeWheel il) id i 1 I1) as H1.
  pose proof (ew_add_min (lh_timeWheel il) id i 1 I1) as H2. rewrite E in H1, H2. simpl in H1, H2.
  destruct H1 as (Hw & Hm & Hhas & Hcov). destruct err as [err|]; simpl.
  { split; simpl; try done; [rewrite Hm; apply I2|].
    intros _ k Hk. destruct (I4 He k Hk); auto. }
  specialize (H2 eq_refl). split; simpl.
  - done.
  - intros k j [[-> ->]|[_ Hk]]%lookup_insert_Some; rewrite Hm; [done|by eapply I2].
  - intros k. destruct (decide (id = k)) as [->|Hne];
      [rewrite !lookup_insert_eq; done|rewrite !lookup_insert_ne by done; apply I3].
  - intros _ k Hk. destruct (decide (id = k)) as [->|Hne]; [by left; left; apply Hhas|].
    rewrite lookup_insert_ne in Hk by done. destruct (I4 He k Hk); auto.
Qed.

Lemma extend_inv il id : holder_inv il -> holder_inv (snd (extendLease id il)).
Proof.
  intros Hil. unfold extendLease. destruct (lh_enable il) eqn:He; simpl; [|done].
  destruct (lh_intervalMap il !! id) as [i|] eqn:Hi; [|done].
  pose proof Hil as [I1 I2 I3 I4].
  pose proof (ew_update_ok (lh_timeWheel il) id i 1 I1 (I2 _ _ Hi)) as (H1 & H2 & _ & H4).
  destruct (ew_UpdateTask (lh_timeWheel il) id i 1) as [err w]. simpl in *.
  split; simpl; [done|rewrite H2; apply I2|done|]. intros _ k Hk. destruct (I4 He k Hk); auto.
Qed.

Lemma release_inv il id : holder_inv il -> holder_inv (snd (releaseLease id il)).
Proof.
  intros Hil. unfold releaseLease. destruct (lh_enable il); simpl; [|done].
  pose proof (holder_inv_end il id Hil) as He.
  destruct (ew_DelTask (lh_timeWheel il) id) as [[err|] w]; done.
Qed.

Lemma poll_wait_inv il il' : holder_inv il -> poll_wait il = Some il' -> holder_inv il'.
Proof.
  intros Hil. unfold poll_wait. destruct (lh_poll il); try done.
  destruct (ew_Wait (lh_timeWheel il)) as [[[l e] w]|] eqn:E; [|done]. intros [= <-].
  destruct (ew_wait_ok _ _ _ _ (hi_wheel il Hil) E) as (H1 & H2 & H3).
  apply holder_inv_wheel; try done. intros _ id [Hc|(b & Hb & Hid)].
  - destruct (H3 id Hc) as [Hl|Hc']; [|by left]. right.
    destruct l as [|x l]; [by apply elem_of_nil in Hl|]. exists (x :: l). split; [|done].
    apply elem_of_app. right. by apply list_elem_of_singleton.
  - right. exists b. split; [|done]. destruct l; [done|]. apply elem_of_app. by left.
Qed.

Lemma expire_inv il g calls il' : holder_inv il -> expire_one g il = Some (calls, il') -> holder_inv il'.
Proof.
  intros Hil. unfold expire_one. destruct (lh_expiring il !! g) as [[|id rest]|] eqn:Hg; try done.
  intros [= _ <-]. pose proof (holder_inv_end il id Hil) as He.
  destruct He as [I1 I2 I3 I4]. simpl in *. split; simpl; try done.
  intros Hen k Hk. destruct (I4 Hen k Hk) as [Hc|(b & Hb & Hin)]; [by left|right].
  assert (k <> id) as Hne by (intros ->; rewrite lookup_delete_eq in Hk; by destruct Hk).
  apply list_elem_of_lookup in Hb as [j Hj]. simpl in Hj. destruct (decide (g = j)) as [->|Hgj].
  - rewrite Hg in Hj. injection Hj as <-. apply elem_of_cons in Hin as [->|Hin]; [done|].
    exists rest. split; [|done]. apply list_elem_of_lookup. exists j.
    apply list_lookup_insert_eq. by eapply lookup_lt_Some.
  - exists b. split; [|done]. apply list_elem_of_lookup. exists j. simpl. by rewrite list_lookup_insert_ne.
Qed.

Lemma lease_step_inv il e : holder_inv il -> holder_inv (snd (lease_step il e)).
Proof.
  intros Hil. destruct e as [id i cb|id|id| | |g| | |]; simpl.
  - pose proof (create_inv il id i cb Hil). by destruct (createLease id i cb il) as [[]].
  - by apply extend_inv.
  - pose proof (release_inv il id Hil). by destruct (releaseLease id il) as [[]].
  - unfold poll_check. destruct (lh_poll il); try done. by apply holder_inv_wheel; try done; try apply Hil.
  - destruct (poll_wait il) as [il'|] eqn:E; [|done]. by eapply poll_wait_inv.
  - destruct (expire_one g il) as [[calls il']|] eqn:E; [|done]. by eapply expire_inv.
  - apply on_wheel_inv; [apply ew_tick_ok|done].
  - apply on_wheel_inv; [apply ew_send_ok|done].
  - destruct Hil as [I1 I2 I3 I4]. unfold holder_stop. destruct (lh_enable il); split; simpl; try done.
    + by apply ew_stop_ok.
    + intros id i Hi. rewrite ew_stop_min by done. by eapply I2.
Qed.

Lemma lease_run_inv es : forall il, holder_inv il -> holder_inv (snd (lease_run il es)).
Proof.
  induction es as [|e es IH]; intros il Hil; [done|]. simpl.
  pose proof (lease_step_inv il e Hil) as H1. destruct (lease_step il e) as [l il1]. simpl in H1.
  specialize (IH il1 H1). by destruct (lease_run il1 es).
Qed.

(** The callbacks of an id that a log creates and calls, in their order. *)
Definition created (id : string) (log : list (lease_log CB)) : list CB :=
  omap (fun l => match l with LogCreated k cb => if decide (k = id) then Some cb else None | _ => None end) log.
Definition called (id : string) (log : list (lease_log CB)) : list CB :=
  omap (fun l => match l with LogCalled k cb => if decide (k = id) then Some cb else None | _ => None end) log.
(** The callback that is still to come. *)
Definition owed (id : string) il : list CB := option_list (lh_callbackMap il !! id).

(** No lease is created under the id while one of that id is there. *)
Definition fresh_event (id : string) il (e : lease_event CB) : Prop :=
  match e with LeCreate k _ _ => k = id -> lh_callbackMap il !! id = None | _ => True end.
Fixpoint id_fresh (id : string) il (es : list (lease_event CB)) : Prop :=
  match es with
  | [] => True
  | e :: es => fresh_event id il e /\ id_fresh id (snd (lease_step il e)) es
  end.

Lemma called_app id l1 l2 : called id (l1 ++ l2) = called id l1 ++ called id l2.
Proof. apply omap_app. Qed.
Lemma created_app id l1 l2 : created id (l1 ++ l2) = created id l1 ++ created id l2.
Proof. apply omap_app. Qed.

(** Ending a lease calls the callback it owes. *)
Lemma owed_end id k w intervals il :
  let calls := match lh_callbackMap il !! k with Some cb => [(k, cb)] | None => [] end in
  called id (log_calls calls) ++ owed id (set_leases w intervals (delete k (lh_callbackMap il)) il) = owed id il.
Proof.
  unfold owed. simpl. destruct (decide (k = id)) as [->|Hne].
  - rewrite lookup_delete_eq. destruct (lh_callbackMap il !! id); simpl; [|done]. by rewrite decide_True.
  - rewrite lookup_delete_ne by done. destruct (lh_callbackMap il !! k); simpl; [|done].
    by rewrite decide_False.
Qed.

Lemma created_calls id calls : created id (log_calls calls) = [].
Proof. by induction calls. Qed.

Lemma lease_step_owed il e id :
  holder_inv il -> fresh_event id il e ->
  called id (lease_step il e).1 ++ owed id (lease_step il e).2 = owed id il ++ created id (lease_step il e).1.
Proof.
  intros Hil Hf. destruct e as [k i cb|k|k| | |g| | |]; simpl.
  - unfold createLease. destruct (lh_enable il); simpl; [|by rewrite app_nil_r].
    destruct (ew_AddTask (lh_timeWheel il) k i 1) as [[err|] w]; unfold owed; simpl; [by rewrite app_nil_r|].
    destruct (decide (k = id)) as [->|Hne]; [by rewrite (Hf eq_refl), lookup_insert_eq|].
    by rewrite lookup_insert_ne, app_nil_r.
  - rewrite app_nil_r. unfold extendLease. repeat case_match; done.
  - unfold releaseLease. destruct (lh_enable il); simpl; [|by rewrite app_nil_r].
    pose proof (ew_del_none (lh_timeWheel il) k (hi_wheel il Hil)) as Hd.
    destruct (ew_DelTask (lh_timeWheel il) k) as [err w]. simpl in Hd. subst err. simpl.
    by rewrite owed_end, created_calls, app_nil_r.
  - unfold poll_check. rewrite app_nil_r. by destruct (lh_poll il).
  - unfold poll_wait. rewrite app_nil_r. destruct (lh_poll il); try done. by repeat case_match.
  - unfold expire_one. destruct (lh_expiring il !! g) as [[|k rest]|]; simpl; try by rewrite app_nil_r.
    rewrite created_calls, app_nil_r. apply (owed_end id k (lh_timeWheel il) (lh_intervalMap il) il).
  - rewrite app_nil_r. unfold on_wheel. by case_match.
  - rewrite app_nil_r. unfold on_wheel. by case_match.
  - rewrite app_nil_r. unfold holder_stop. by case_match.
Qed.

Lemma lease_run_owed es id : forall il,
  holder_inv il -> id_fresh id il es ->
  called id (lease_run il es).1 ++ owed id (lease_run il es).2 = owed id il ++ created id (lease_run il es).1.
Proof.
  induction es as [|e es IH]; intros il Hil Hf; simpl; [by rewrite app_nil_r|]. destruct Hf as [Hf Hfs].
  pose proof (lease_step_owed il e id Hil Hf) as H1. pose proof (lease_step_inv il e Hil) as Hi.
  destruct (lease_step il e) as [l il1]. simpl in *. specialize (IH il1 Hi Hfs).
  destruct (lease_run il1 es) as [ls il2]. simpl in *.
  rewrite called_app, created_app, <- (assoc_L (++)), IH, (assoc_L (++)), H1. by rewrite (assoc_L (++)).
Qed.

(** C6: a lease ends once.  Whatever a holder's users, its polling loop and the
    goroutines of expired lists do, and however they interleave: the callbacks
    called for an id, followed by the one that is still owed, are exactly those
    the leases of the id were created with, in their order.  No callback is
    called twice, neither by a release and an expiry that race nor by two
    emissions of the wheel; and as long as the holder is enabled, a lease whose
    callback is owed is covered: by a task of the wheel, an emission under way,
    or a goroutine that has its id.  (The id is not
    reused while a lease of it lives.) *)
Theorem lease_settled_once w es id :
  ew_inv w -> id_fresh id (newInstanceLeaseHolder w) es ->
  let log := (lease_run (newInstanceLeaseHolder w) es).1 in
  let il := (lease_run (newInstanceLeaseHolder w) es).2 in
  called id log ++ owed id il = created id log /\
  (lh_enable il = true -> owed id il <> [] -> ew_covered (lh_timeWheel il) id \/ in_batch id il).
Proof.
  intros Hw Hf log il. pose proof (new_holder_inv w Hw) as Hi. split.
  - subst log il. rewrite (lease_run_owed es id _ Hi Hf). by unfold owed; simpl; rewrite lookup_empty.
  - intros He Ho. apply (hi_covered il); [by apply lease_run_inv|done|].
    unfold owed in Ho. destruct (lh_callbackMap il !! id); [by eexists|done].
Qed.
End HolderInv.

(** The holder's wheel: 100 slots of 5ms. *)
Definition holderWheel : SimpleTimeWheel := NewSimpleTimeWheel defaultTimeWheelPace defaultTimeWheelSlots.

(** A lease that is released and another that expires. *)
Definition lease_demo : list (lease_event nat) :=
  [LeCreate "a" (500 * Millisecond) 1%nat; LeCreate "b" (500 * Millisecond) 2%nat; LeRelease "a"] ++
  concat (replicate 101 [LeTick; LeSend; LePollCheck; LePollWait]) ++ [LeExpire 0; LeRelease "b"].

Lemma lease_settled_once_witness :
  let log := (lease_run (newInstanceLeaseHolder holderWheel) lease_demo).1 in
  let il := (lease_run (newInstanceLeaseHolder holderWheel) lease_demo).2 in
  log = [LogCreated "a" 1%nat; LogCreated "b" 2%nat; LogCalled "a" 1%nat; LogCalled "b" 2%nat] /\
  called "b" log ++ owed "b" il = created "b" log.
Proof.
  intros log il. split; [vm_compute; reflexivity|].
  apply (lease_settled_once holderWheel lease_demo "b").
  - apply NewSimpleTimeWheel_wf.
  - vm_compute. repeat split; discriminate.
Defined.

(** ** Leases expire on time *)

Section Timing.
Context {CB : Type} (id : string).
Implicit Types (il : instanceLeaseHolder SimpleTimeWheel CB).

(** An event that is not about this lease. *)
Definition leaves_alone (e : lease_event CB) : Prop :=
  match e with
  | LeCreate k _ _ | LeExtend k | LeRelease k => k <> id
  | LeStop => False
  | _ => True
  end.

(** The ticks of a run that the wheel took. *)
Definition tick_taken il (e : lease_event CB) : Z :=
  match e with LeTick => if run_tick (lh_timeWheel il) then 1 else 0 | _ => 0 end.
Fixpoint ticks_taken il (es : list (lease_event CB)) : Z :=
  match es with
  | [] => 0
  | e :: es => tick_taken il e + ticks_taken (snd (lease_step il e)) es
  end.

(** With [r] ticks to go the task is in the wheel and nowhere else; from then on
    it is on its way, or done. *)
Definition counting (cb : CB) (r : Z) il : Prop :=
  lh_callbackMap il !! id = Some cb /\ remaining (lh_timeWheel il) id = Some r /\ 0 < r /\
  ~ wheel_pending (lh_timeWheel il) id /\ ~ in_batch id il.
Definition due (cb : CB) il : Prop :=
  lh_callbackMap il !! id = Some cb /\ (wheel_pending (lh_timeWheel il) id \/ in_batch id il).
Definition lease_phase (cb : CB) (r : Z) il : Prop :=
  if decide (0 < r) then counting cb r il else due cb il \/ lh_callbackMap il !! id = None.

(** A step of the wheel that leaves the task, and where its id is. *)
Lemma phase_same cb r il il' :
  holder_inv il -> wheel_step id (lh_timeWheel il) None (lh_timeWheel il') ->
  lh_callbackMap il' !! id = lh_callbackMap il !! id ->
  (wheel_pending (lh_timeWheel il') id \/ in_batch id il' <->
   wheel_pending (lh_timeWheel il) id \/ in_batch id il) ->
  lease_phase cb r il -> lease_phase cb r il'.
Proof.
  intros Hil Hst Hc Hp. destruct (quiet_step _ _ _ (hi_wheel il Hil) Hst) as (_ & Hclk & Heq).
  assert (remaining (lh_timeWheel il') id = remaining (lh_timeWheel il) id) as Hr.
  { unfold remaining. rewrite Heq. destruct (trigger_of (lh_timeWheel il) id) as [t|]; simpl; [|done].
    by rewrite (same_clock_remaining _ _ t Hclk). }
  unfold lease_phase, counting, due. rewrite Hc, Hr. case_decide; tauto.
Qed.

(** Steps on the tables of other leases. *)
Lemma phase_quiet cb r il w intervals callbacks :
  holder_inv il -> wheel_step id (lh_timeWheel il) None w ->
  tw_sending w = tw_sending (lh_timeWheel il) -> tw_readyCh w = tw_readyCh (lh_timeWheel il) ->
  callbacks !! id = lh_callbackMap il !! id ->
  lease_phase cb r il -> lease_phase cb r (set_leases w intervals callbacks il).
Proof.
  intros Hil Hst Hs Hr Hc. apply phase_same; try done. simpl. unfold wheel_pending, fired. by rewrite Hs, Hr.
Qed.

Lemma DelTask_other_quiet il k :
  k <> id -> wheel_step id (lh_timeWheel il) None (snd (DelTask (lh_timeWheel il) k)) /\
    tw_sending (snd (DelTask (lh_timeWheel il) k)) = tw_sending (lh_timeWheel il) /\
    tw_readyCh (snd (DelTask (lh_timeWheel il) k)) = tw_readyCh (lh_timeWheel il).
Proof.
  intros Hk. destruct (DelTask (lh_timeWheel il) k) as [e w] eqn:E. simpl.
  destruct (DelTask_chan _ _ _ _ E) as (? & ? & _). split_and!; [by eapply step_del|done|done].
Qed.

(** Ending another lease. *)
Lemma phase_end cb r il k :
  holder_inv il -> k <> id -> lease_phase cb r il ->
  lease_phase cb r (set_leases (snd (DelTask (lh_timeWheel il) k)) (delete k (lh_intervalMap il))
                      (delete k (lh_callbackMap il)) il).
Proof.
  intros Hil Hk. destruct (DelTask_other_quiet il k Hk) as (H1 & H2 & H3).
  apply phase_quiet; try done. by rewrite lookup_delete_ne.
Qed.

Lemma phase_tick cb r il w :
  holder_inv il -> run_tick (lh_timeWheel il) = Some w -> lease_phase cb r il ->
  lease_phase cb (r - 1) (set_leases w (lh_intervalMap il) (lh_callbackMap il) il).
Proof.
  intros Hil Ht. pose proof (hi_wheel il Hil) as Hwf. simpl in Hwf.
  destruct (tick_chan _ _ Hwf Ht) as [Hch _].
  assert (wheel_run id (lh_timeWheel il) [fired w] w) as Hrun.
  { eapply run_cons; [by apply step_tick|constructor]. }
  unfold lease_phase. destruct (decide (0 < r)) as [Hpos|Hpos].
  - intros (Hc & Hrem & _ & Hnp & Hnb). unfold remaining in Hrem.
    destruct (trigger_of (lh_timeWheel il) id) as [t|] eqn:Et; [|done]. injection Hrem as Hrem.
    case_decide as Hr1.
    + destruct (run_silent id _ _ _ Hrun Hwf t Et) as (Hf & _ & _ & t' & Ht' & _ & _ & Hr'); [simpl; lia|].
      apply Forall_cons in Hf as [Hf _]. split_and!; simpl; [done| |done| |done].
      * unfold remaining. rewrite Ht'. simpl. f_equal. simpl in Hr'. lia.
      * intros [?|(l & Hl & Hin)]; [done|]. rewrite Hch in Hl. apply Hnp. right. by exists l.
    + destruct (run_fire id _ _ _ _ t Hrun Hwf Et) as (Hin & _); [lia|].
      left. split; [done|]. left. by left.
  - rewrite decide_False by lia. intros [[Hc Hp]|Hc]; [left|by right]. split; [done|].
    destruct Hp as [[Hp|(l & Hl & Hin)]|Hp]; [| |by right].
    + unfold run_tick in Ht. unfold fired in Hp. destruct (tw_stopped _); [done|].
      destruct (tw_sending _); [done|]. by apply elem_of_nil in Hp.
    + left. right. exists l. simpl. by rewrite Hch.
Qed.

Lemma phase_send cb r il w :
  holder_inv il -> run_send (lh_timeWheel il) = Some w -> lease_phase cb r il ->
  lease_phase cb r (set_leases w (lh_intervalMap il) (lh_callbackMap il) il).
Proof.
  intros Hil Hsend. apply phase_same; [done|by apply step_send|done|]. simpl.
  unfold run_send in Hsend. destruct (tw_sending (lh_timeWheel il)) as [l|] eqn:Hs; [|done].
  destruct (_ <? _)%nat; [|done]. injection Hsend as <-. unfold wheel_pending, fired. simpl. rewrite Hs. simpl.
  setoid_rewrite elem_of_app. setoid_rewrite list_elem_of_singleton.
  unfold in_batch. simpl. split; [|naive_solver].
  intros [[[]%elem_of_nil|(b & [Hb| ->] & Hin)]|Hb]; eauto 10.
Qed.

Lemma phase_wait cb r il il' :
  holder_inv il -> poll_wait il = Some il' -> lease_phase cb r il -> lease_phase cb r il'.
Proof.
  intros Hil. unfold poll_wait. destruct (lh_poll il); try done.
  destruct (ew_Wait (lh_timeWheel il)) as [[[l e] w]|] eqn:E; [|done]. intros [= <-].
  apply phase_same; [done|by eapply step_wait|done|]. unfold in_batch. simpl in *.
  assert (wheel_pending (lh_timeWheel il) id <-> id ∈ l \/ wheel_pending w id) as ->.
  { unfold Wait in E. destruct (tw_readyCh (lh_timeWheel il)) as [|x rest] eqn:Hr.
    - destruct (tw_stopped _); [|done]. injection E as <- _ <-. rewrite elem_of_nil. tauto.
    - injection E as <- _ <-. unfold wheel_pending, fired. simpl. rewrite Hr. setoid_rewrite elem_of_cons.
      naive_solver. }
  destruct l as [|x l]; [rewrite elem_of_nil; tauto|]. setoid_rewrite elem_of_app.
  setoid_rewrite list_elem_of_singleton. naive_solver.
Qed.

Lemma phase_expire cb r il g calls il' :
  holder_inv il -> expire_one g il = Some (calls, il') -> lease_phase cb r il -> lease_phase cb r il'.
Proof.
  intros Hil. unfold expire_one. destruct (lh_expiring il !! g) as [[|k rest]|] eqn:Hg; try done.
  intros [= _ <-] Hph. assert (k :: rest ∈ lh_expiring il) as Hin by (by eapply list_elem_of_lookup_2).
  destruct (decide (k = id)) as [->|Hk].
  - unfold lease_phase in *. case_decide.
    + destruct Hph as (_ & _ & _ & _ & []). exists (id :: rest). split; [done|left].
    + right. simpl. by rewrite lookup_delete_eq.
  - pose proof (phase_end cb r il k Hil Hk Hph) as H1.
    assert (forall b, b ∈ <[g:=rest]> (lh_expiring il) /\ id ∈ b -> in_batch id il) as Hb1.
    { intros b [Hb Hid]. apply list_elem_of_lookup in Hb as [j Hj]. destruct (decide (g = j)) as [<-|Hne].
      - rewrite list_lookup_insert_eq in Hj by (by eapply lookup_lt_Some). injection Hj as <-.
        exists (k :: rest). split; [done|by right].
      - rewrite list_lookup_insert_ne in Hj by done. exists b. split; [by eapply list_elem_of_lookup_2|done]. }
    assert (in_batch id il -> exists b, b ∈ <[g:=rest]> (lh_expiring il) /\ id ∈ b) as Hb2.
    { intros (b & Hb & Hid). apply list_elem_of_lookup in Hb as [j Hj]. destruct (decide (g = j)) as [<-|Hne].
      - rewrite Hg in Hj. injection Hj as <-. apply elem_of_cons in Hid as [->|Hid]; [done|].
        exists rest. split; [|done]. apply list_elem_of_lookup. exists g.
        apply list_lookup_insert_eq. by eapply lookup_lt_Some.
      - exists b. split; [|done]. apply list_elem_of_lookup. exists j. by rewrite list_lookup_insert_ne. }
    revert H1. unfold lease_phase, counting, due, in_batch. simpl. case_decide.
    + intros (? & ? & ? & ? & Hnb). split_and!; try done. intros (b & Hb). apply Hnb, (Hb1 b Hb).
    + intros [[Hc [Hp|Hb]]|Hc]; [left; split; [done|by left]|left; split; [done|right; by apply Hb2]|by right].
Qed.

Lemma phase_step cb r il e :
  holder_inv il -> leaves_alone e -> lease_phase cb r il ->
  lease_phase cb (r - tick_taken il e) (snd (lease_step il e)).
Proof.
  intros Hil Ha Hph. destruct e as [k i c|k|k| | |g| | |]; simpl in *; rewrite ?Z.sub_0_r.
  - unfold createLease. destruct (lh_enable il); simpl; [|done].
    destruct (AddTask (lh_timeWheel il) k i 1) as [[err|] w] eqn:E; simpl;
      destruct (AddTask_chan _ _ _ _ _ _ E) as (? & ? & _);
      apply phase_quiet; try done; try (by eapply step_add). by rewrite lookup_insert_ne.
  - unfold extendLease. destruct (lh_enable il); simpl; [|done].
    destruct (lh_intervalMap il !! k) as [i|] eqn:Hi; [|done].
    destruct (UpdateTask (lh_timeWheel il) k i 1) as [err w] eqn:E. simpl.
    destruct (UpdateTask_chan _ _ _ _ _ _ E) as (? & ? & _).
    apply phase_quiet; try done. eapply step_update; [done| |done]. by apply (hi_interval il Hil k).
  - unfold releaseLease. destruct (lh_enable il); simpl; [|done].
    pose proof (phase_end cb r il k Hil Ha Hph) as H1.
    destruct (DelTask (lh_timeWheel il) k) as [[err|] w]; done.
  - unfold poll_check. by destruct (lh_poll il).
  - destruct (poll_wait il) as [il'|] eqn:E; [|done]. by eapply phase_wait.
  - destruct (expire_one g il) as [[calls il']|] eqn:E; [|done]. by eapply phase_expire.
  - unfold on_wheel. simpl. destruct (run_tick (lh_timeWheel il)) as [w|] eqn:E; [by apply phase_tick|].
    by rewrite Z.sub_0_r.
  - unfold on_wheel. simpl. destruct (run_send (lh_timeWheel il)) as [w|] eqn:E; [by apply phase_send|done].
  - done.
Qed.

Lemma phase_run cb es : forall r il,
  holder_inv il -> Forall leaves_alone es -> lease_phase cb r il ->
  lease_phase cb (r - ticks_taken il es) (lease_run il es).2.
Proof.
  induction es as [|e es IH]; intros r il Hil Ha Hph; simpl; [by rewrite Z.sub_0_r|].
  apply Forall_cons in Ha as [Ha Has]. pose proof (phase_step cb r il e Hil Ha Hph) as H1.
  pose proof (lease_step_inv il e Hil) as Hi. destruct (lease_step il e) as [l il1]. simpl in *.
  specialize (IH _ il1 Hi Has H1). rewrite Z.sub_add_distr. by destruct (lease_run il1 es).
Qed.

Lemma alone_fresh es : forall il, Forall leaves_alone es -> id_fresh id il es.
Proof.
  induction es as [|e es IH]; intros il Ha; [done|]. apply Forall_cons in Ha as [Ha Has].
  split; [|by apply IH]. by destruct e; simpl in *.
Qed.

Lemma alone_created es : forall il, Forall leaves_alone es -> created id (lease_run il es).1 = [].
Proof.
  induction es as [|e es IH]; intros il Ha; [done|]. apply Forall_cons in Ha as [Ha Has]. simpl.
  assert (created id (lease_step il e).1 = []) as H1.
  { destruct e as [k i c|k|k| | |g| | |]; simpl in *; try done.
    - destruct (createLease k i c il) as [[err|] il1]; simpl; [done|]. by rewrite decide_False.
    - destruct (releaseLease k il) as [[err calls] il1]. apply created_calls.
    - destruct (expire_one g il) as [[calls il1]|]; [apply created_calls|done]. }
  destruct (lease_step il e) as [l il1]. simpl in H1. specialize (IH il1 Has).
  destruct (lease_run il1 es) as [ls il2]. simpl in *. by rewrite created_app, H1, IH.
Qed.
End Timing.

(** A lease expires on time.  Let a holder create a lease of an id that is
    not in an emission under way, and let everything else happen except to that
    lease.  As long as the wheel has taken at most [interval / pace] ticks the
    lease is there and its callback has not been called; once it has taken more
    and what it emitted has been worked off, the callback has been called, and
    once. *)
Theorem lease_expires_on_time {CB : Type} (il il0 : instanceLeaseHolder SimpleTimeWheel CB) id i cb es :
  holder_inv il -> ~ wheel_pending (lh_timeWheel il) id -> ~ in_batch id il ->
  createLease id i cb il = (None, il0) -> Forall (leaves_alone id) es ->
  let log := (lease_run il0 es).1 in
  let il' := (lease_run il0 es).2 in
  let deadline := i / tw_pace (lh_timeWheel il) in
  (ticks_taken il0 es <= deadline -> called id log = [] /\ lh_callbackMap il' !! id = Some cb) /\
  (deadline < ticks_taken il0 es -> idle (lh_timeWheel il') -> Forall (fun b => b = []) (lh_expiring il') ->
     called id log = [cb]).
Proof.
  intros Hil Hnp Hnb Hcr Ha log il' deadline. pose proof (create_inv il id i cb Hil) as Hil0.
  rewrite Hcr in Hil0. simpl in Hil0. unfold createLease in Hcr. destruct (lh_enable il); [|done]. simpl in Hcr.
  destruct (AddTask (lh_timeWheel il) id i 1) as [[err|] w] eqn:E; [done|]. injection Hcr as <-.
  set (il0 := set_leases _ _ _ il) in *. pose proof (hi_wheel il Hil) as Hwf. simpl in Hwf.
  destruct (AddTask_chan _ _ _ _ _ _ E) as (Hs & Hr & _).
  assert (lease_phase id cb (deadline + 1) il0) as Hph.
  { assert (0 <= deadline).
    { apply Z.div_pos; [|apply Hwf]. pose proof (wheel_add_min _ _ _ _ Hwf ltac:(by rewrite E)) as Hm.
      destruct Hwf. nia. }
    unfold lease_phase. rewrite decide_True by lia. unfold counting. simpl. rewrite lookup_insert_eq.
    split_and!; [done|by apply (AddTask_remaining _ _ _ _ _ Hwf E)|lia| |done].
    intros Hp. apply Hnp. revert Hp. unfold wheel_pending, fired. by rewrite Hs, Hr. }
  pose proof (phase_run id cb es _ il0 Hil0 Ha Hph) as Hend. fold il' in Hend.
  pose proof (lease_run_owed es id il0 Hil0 (alone_fresh id es il0 Ha)) as How. fold log il' in How.
  assert (created id log = []) as Hcreated by (by apply alone_created).
  unfold owed in How. rewrite Hcreated, app_nil_r in How. simpl in How. rewrite lookup_insert_eq in How. simpl in How.
  unfold lease_phase in Hend. split.
  - intros Hle. rewrite decide_True in Hend by lia. destruct Hend as (Hc & _). rewrite Hc in How. simpl in How.
    split; [|done]. destruct (called id log) as [|x l]; [done|]. by destruct l.
  - intros Hgt (_ & Hs' & Hr') Hb. rewrite decide_False in Hend by lia.
    destruct Hend as [[_ [[Hp|(l & Hl & _)]|(b & Hin & Hid)]]|Hc].
    + unfold fired in Hp. rewrite Hs' in Hp. by apply elem_of_nil in Hp.
    + rewrite Hr' in Hl. by apply elem_of_nil in Hl.
    + rewrite Forall_forall in Hb. rewrite (Hb b Hin) in Hid. by apply elem_of_nil in Hid.
    + rewrite Hc in How. simpl in How. by rewrite app_nil_r in How.
Qed.

(** 101 turns of the wheel and of the polling loop, then the goroutine's. *)
Definition expiry_demo : list (lease_event nat) :=
  concat (replicate 101 [LeTick; LeSend; LePollCheck; LePollWait]) ++ [LeExpire 0].

Lemma lease_expires_on_time_witness :
  let il := newInstanceLeaseHolder holderWheel in
  let il0 := (createLease "b" (500 * Millisecond) 2%nat il).2 in
  ticks_taken il0 expiry_demo = 101 /\ called "b" (lease_run il0 expiry_demo).1 = [2%nat].
Proof.
  intros il il0. split; [vm_compute; reflexivity|].
  refine (proj2 (lease_expires_on_time il il0 "b" (500 * Millisecond) 2%nat expiry_demo _ _ _ _ _) _ _ _).
  - apply new_holder_inv, NewSimpleTimeWheel_wf.
  - intros [Hp|(l & Hl & _)]; [by apply elem_of_nil in Hp|by apply elem_of_nil in Hl].
  - intros (b & Hb & _). by apply elem_of_nil in Hb.
  - vm_compute. reflexivity.
  - repeat constructor.
  - vm_compute. reflexivity.
  - vm_compute. auto.
  - vm_compute. repeat constructor.
Defined.

(** An extension can come too late without being told so.  While a
    goroutine has the id of an expired lease in hand, extending the lease
    succeeds, and its task counts from the beginning again; the goroutine's next
    turn all the same removes the lease and calls its callback. *)
Theorem extended_lease_still_expires {CB : Type} (il : instanceLeaseHolder SimpleTimeWheel CB) g id rest cb :
  holder_inv il -> lh_enable il = true -> lh_callbackMap il !! id = Some cb ->
  lh_expiring il !! g = Some (id :: rest) ->
  exists i il1 il2,
    lh_intervalMap il !! id = Some i /\ extendLease id il = (None, il1) /\
    remaining (lh_timeWheel il1) id = Some (i / tw_pace (lh_timeWheel il) + 1) /\
    expire_one g il1 = Some ([(id, cb)], il2) /\ lh_callbackMap il2 !! id = None.
Proof.
  intros Hil He Hc Hg. destruct (proj2 (hi_dom il Hil id) ltac:(by eexists)) as [i Hi].
  pose proof (hi_interval il Hil id i Hi) as Hmin. unfold extendLease. rewrite He, Hi. simpl in *.
  destruct (UpdateTask (lh_timeWheel il) id i 1) as [err w] eqn:E.
  destruct (UpdateTask_remaining _ _ _ _ _ _ (hi_wheel il Hil) Hmin E) as (-> & Hr & _).
  eexists i, _, _. split_and!; try done; unfold expire_one; simpl; [by rewrite Hg, Hc|].
  simpl. by rewrite lookup_delete_eq.
Qed.

Lemma extended_lease_still_expires_witness :
  let il := (lease_run (newInstanceLeaseHolder holderWheel)
               (LeCreate "b" (500 * Millisecond) 2%nat ::
                concat (replicate 101 [LeTick; LeSend; LePollCheck; LePollWait]))).2 in
  exists i il1 il2,
    lh_intervalMap il !! "b" = Some i /\ extendLease "b" il = (None, il1) /\
    remaining (lh_timeWheel il1) "b" = Some (i / tw_pace (lh_timeWheel il) + 1) /\
    expire_one 0 il1 = Some ([("b", 2%nat)], il2) /\ lh_callbackMap il2 !! "b" = None.
Proof.
  intros il. apply (extended_lease_still_expires il 0 "b" [] 2%nat).
  - apply lease_run_inv, new_holder_inv, NewSimpleTimeWheel_wf.
  - vm_compute. reflexivity.
  - vm_compute. reflexivity.
  - vm_compute. reflexivity.
Defined.
