(* ===== verification/DeHeap.v ===== *)
(** * The two-ended priority queue of pkg/common/faas_common/queue

    [DeHeap] (priorityqueue.go) is a max-min heap in a slice: even levels hold
    maxima, odd levels minima.  [PriorityQueue] keeps the objects of the
    concurrency scheduler's instance queues in it.  Slice accesses are the
    source's; loops carry fuel, the slice's length, which the theorems show is
    never exhausted. *)
From S2P Require Import Prelude.
From Stdlib Require Import Permutation.

Inductive queueError := ErrObjectNotFound | ErrMethodUnsupported | ErrPriority (msg : string).

Section DeHeap.
Context {Obj : Type}.

Record Item := mkItem { ObjID : string; ItemObj : Obj; Priority : Z }.

(** The heap is its slice of items; the field [count] is never read. *)
Local Notation DeHeapT := (list Item).

Definition NewDeHeap : DeHeapT := [].
Definition Copy (dh : DeHeapT) : DeHeapT := dh.
Definition Len (dh : DeHeapT) : nat := length dh.

(** [bits.Len(uint(i)+1) - 1] is the level of node [i]. *)
Definition level (i : nat) : nat := Nat.log2 (i + 1).
Definition isMaxLevel (i : nat) : bool := Nat.even (level i).

(** Go's [(i-1)/2] is 0 at the root, as truncated subtraction gives here. *)
Definition parent (i : nat) : nat := ((i - 1) / 2)%nat.

(** [None] stands for the index -1. *)
Definition grandparent (i : nat) : option nat :=
  match ((i + 1) / 4)%nat with
  | O => None
  | S g => Some g
  end.
Definition leftChild (i : nat) : nat := (i * 2 + 1)%nat.
Definition rightChild (i : nat) : nat := (i * 2 + 2)%nat.

Definition Compare (dh : DeHeapT) (i j : nat) : bool :=
  match dh !! i, dh !! j with
  | Some a, Some b => Priority b <? Priority a
  | _, _ => false
  end.

Definition Swap (dh : DeHeapT) (i j : nat) : DeHeapT :=
  match dh !! i, dh !! j with
  | Some a, Some b => <[j:=a]> (<[i:=b]> dh)
  | _, _ => dh
  end.

(** The loop of [shiftUp] over grandparents. *)
Fixpoint shiftUp_loop (fuel : nat) (dh : DeHeapT) (i : nat) (isMax : bool) : nat * DeHeapT :=
  match fuel with
  | O => (i, dh)
  | S fuel =>
      match grandparent i with
      | None => (i, dh)
      | Some g =>
          if Bool.eqb (Compare dh g i) isMax then (i, dh)
          else shiftUp_loop fuel (Swap dh g i) g isMax
      end
  end.

Definition shiftUp (dh : DeHeapT) (i : nat) : nat * DeHeapT :=
  let isMax := isMaxLevel i in
  let p := parent i in
  let '(dh, i, isMax) :=
    if Bool.eqb (Compare dh p i) isMax then (Swap dh p i, p, negb isMax)
    else (dh, i, isMax) in
  shiftUp_loop (length dh) dh i isMax.

(** The grandchildren loop of [shiftDown]: [gc] from [leftChild lc] up. *)
Fixpoint scan_grandchildren (k : nat) (dh : DeHeapT) (gc last t : nat) (isMax : bool) : nat :=
  match k with
  | O => t
  | S k =>
      if (gc <? length dh)%nat && (gc <=? last)%nat then
        scan_grandchildren k dh (S gc) last
          (if Bool.eqb (Compare dh gc t) isMax then gc else t) isMax
      else t
  end.

(** The child or grandchild [shiftDown] swaps node [i] with ([i] itself when
    there is none). *)
Definition select_down (dh : DeHeapT) (i : nat) : nat :=
  let isMax := isMaxLevel i in
  let lc := leftChild i in
  let rc := rightChild i in
  let t := i in
  let t := if Bool.eqb (Compare dh lc t) isMax then lc else t in
  let t := if (rc <? length dh)%nat && Bool.eqb (Compare dh rc t) isMax then rc else t in
  scan_grandchildren 4 dh (leftChild lc) (rightChild rc) t isMax.

Fixpoint shiftDown_loop (fuel : nat) (dh : DeHeapT) (i : nat) : nat * DeHeapT :=
  match fuel with
  | O => (i, dh)
  | S fuel =>
      let n := length dh in
      if negb (i <? n)%nat then (i, dh) else
      let isMax := isMaxLevel i in
      let lc := leftChild i in
      let rc := rightChild i in
      if (n <=? lc)%nat then (i, dh) else
      let t := select_down dh i in
      if (t =? i)%nat then (i, dh) else
      let dh := Swap dh i t in
      if (t =? lc)%nat || (t =? rc)%nat then (t, dh) else
      let p := parent t in
      if Bool.eqb (Compare dh p t) isMax then shiftDown_loop fuel (Swap dh p t) p
      else shiftDown_loop fuel dh t
  end.

Definition shiftDown (dh : DeHeapT) (i : nat) : nat * DeHeapT :=
  shiftDown_loop (length dh) dh i.

Definition Push (dh : DeHeapT) (item : Item) : DeHeapT :=
  let dh := dh ++ [item] in
  snd (shiftUp dh (length dh - 1)).

Definition Fix (dh : DeHeapT) (i : nat) : DeHeapT :=
  let '(j, dh) := shiftDown dh i in
  if (0 <? j)%nat then snd (shiftUp dh j) else dh.

(** Drops the last element, [dh.items[0:n]]. *)
Definition truncate (dh : DeHeapT) : DeHeapT := take (length dh - 1) dh.

Definition RemoveAt (dh : DeHeapT) (i : nat) : DeHeapT :=
  let n := (length dh - 1)%nat in
  if (length dh =? 0)%nat || (n <? i)%nat then dh
  else snd (shiftDown (truncate (Swap dh i n)) i).

Definition GetMax (dh : DeHeapT) : option Item := dh !! 0%nat.

Definition GetMin (dh : DeHeapT) : option Item :=
  match length dh with
  | O => None
  | S n =>
      let lChd := 1%nat in
      if (n <? lChd)%nat then dh !! 0%nat else
      let rChd := 2%nat in
      dh !! (if (rChd <=? n)%nat && Compare dh lChd rChd then rChd else lChd)
  end.

Definition PopMax (dh : DeHeapT) : option Item * DeHeapT :=
  match length dh with
  | O => (None, dh)
  | S n => (dh !! 0%nat, snd (shiftDown (truncate (Swap dh 0 n)) 0))
  end.

(** The source's second bounds test ([t >= len || n >= len]) is dead: [t <= n]
    and [n = len - 1] there. *)
Definition PopMin (dh : DeHeapT) : option Item * DeHeapT :=
  match length dh with
  | O => (None, dh)
  | S n =>
      let lc := leftChild 0 in
      let rc := rightChild 0 in
      if (n <? lc)%nat then (dh !! 0%nat, truncate dh) else
      let t := if (rc <=? n)%nat && Compare dh lc rc then rc else lc in
      (dh !! t, snd (shiftDown (truncate (Swap dh t n)) t))
  end.

(** ** PriorityQueue *)

Record PriorityQueue := mkPQ {
  deHeap : DeHeapT;
  identityFunc : Obj -> string;
  priorityFunc : Obj -> Z * option string
}.

Definition set_heap (pq : PriorityQueue) (dh : DeHeapT) : PriorityQueue :=
  mkPQ dh (identityFunc pq) (priorityFunc pq).

Definition NewPriorityQueue (idFunc : Obj -> string) (prio : Obj -> Z * option string) : PriorityQueue :=
  mkPQ NewDeHeap idFunc prio.

Definition Front (pq : PriorityQueue) : option Obj := ItemObj <$> GetMax (deHeap pq).
Definition Back (pq : PriorityQueue) : option Obj := ItemObj <$> GetMin (deHeap pq).

Definition PopFront (pq : PriorityQueue) : option Obj * PriorityQueue :=
  let '(x, dh) := PopMax (deHeap pq) in (ItemObj <$> x, set_heap pq dh).
Definition PopBack (pq : PriorityQueue) : option Obj * PriorityQueue :=
  let '(x, dh) := PopMin (deHeap pq) in (ItemObj <$> x, set_heap pq dh).

Definition PushBack (pq : PriorityQueue) (obj : Obj) : option queueError * PriorityQueue :=
  match priorityFunc pq obj with
  | (_, Some e) => (Some (ErrPriority e), pq)
  | (priority, None) =>
      (None, set_heap pq (Push (deHeap pq) (mkItem (identityFunc pq obj) obj priority)))
  end.

(** The first index with the given id; [None] is [keyNotFoundIndex]. *)
Definition getIndexAndItemByObjID (pq : PriorityQueue) (objID : string) : option (nat * Item) :=
  list_find (fun it => ObjID it = objID) (deHeap pq).

Definition GetByID (pq : PriorityQueue) (objID : string) : option Obj :=
  (fun '(_, it) => ItemObj it) <$> getIndexAndItemByObjID pq objID.

Definition DelByID (pq : PriorityQueue) (objID : string) : option queueError * PriorityQueue :=
  match getIndexAndItemByObjID pq objID with
  | Some (index, _) => (None, set_heap pq (RemoveAt (deHeap pq) index))
  | None => (Some ErrObjectNotFound, pq)
  end.

(** The item is updated in place, before the error of the priority function
    is looked at: a failing update still stores the object and the priority
    that came with the error, and leaves the heap unfixed. *)
Definition UpdateObjByID (pq : PriorityQueue) (objID : string) (obj : Obj)
    : option queueError * PriorityQueue :=
  match getIndexAndItemByObjID pq objID with
  | None => (Some ErrObjectNotFound, pq)
  | Some (index, it) =>
      let '(priority, err) := priorityFunc pq obj in
      let dh := <[index:=mkItem (ObjID it) obj priority]> (deHeap pq) in
      match err with
      | Some e => (Some (ErrPriority e), set_heap pq dh)
      | None => (None, set_heap pq (Fix dh index))
      end
  end.

Definition UpdatePriorityFunc (pq : PriorityQueue) (prio : Obj -> Z * option string) : PriorityQueue :=
  mkPQ (deHeap pq) (identityFunc pq) prio.

(** The callback acts on a state of its own and returns whether to go on. *)
Section Iteration.
Context {S : Type}.
Implicit Types (f : Obj -> S -> bool * S).

Fixpoint range_items f (items : list Item) (s : S) : bool * S :=
  match items with
  | [] => (true, s)
  | it :: rest =>
      let '(go_on, s) := f (ItemObj it) s in
      if go_on then range_items f rest s else (false, s)
  end.
Definition Range (pq : PriorityQueue) f (s : S) : bool * S := range_items f (deHeap pq) s.

Fixpoint sortedRange_loop (fuel : nat) (dh : list Item) f (s : S) : bool * S :=
  match fuel with
  | O => (true, s)
  | Datatypes.S fuel =>
      match PopMax dh with
      | (None, _) => (true, s)
      | (Some it, dh) =>
          let '(go_on, s) := f (ItemObj it) s in
          if go_on then sortedRange_loop fuel dh f s else (false, s)
      end
  end.
Definition SortedRange (pq : PriorityQueue) f (s : S) : bool * S :=
  let tmpHeap := Copy (deHeap pq) in
  sortedRange_loop (Datatypes.S (length tmpHeap)) tmpHeap f s.
End Iteration.

End DeHeap.
Arguments Item : clear implicits.
Arguments PriorityQueue : clear implicits.

(** ** The order a max-min heap keeps

    [heap_ok]: every node is at least as extreme, in the sense of its own
    level, as its children and grandchildren. *)
Section DeHeapOrder.
Context {Obj : Type}.
Implicit Types (dh : list (Item Obj)) (it : Item Obj).

Definition ext (isMax : bool) (a b : Z) : Prop := if isMax then b <= a else a <= b.

Definition edge (i j : nat) : Prop := (0 < j /\ i = parent j)%nat \/ grandparent j = Some i.

Definition heap_ok dh : Prop :=
  forall i j x y, edge i j -> dh !! i = Some x -> dh !! j = Some y ->
    ext (isMaxLevel i) (Priority x) (Priority y).

(** What holds while a node moves up: only the edge from its grandparent may
    fail, and that grandparent dominates the node's own descendants. *)
Definition up_inv dh (i : nat) : Prop :=
  (forall a b x y, edge a b -> (b <> i \/ grandparent i <> Some a) ->
     dh !! a = Some x -> dh !! b = Some y -> ext (isMaxLevel a) (Priority x) (Priority y)) /\
  (forall g c x y, grandparent i = Some g -> edge i c ->
     dh !! g = Some x -> dh !! c = Some y -> ext (isMaxLevel i) (Priority x) (Priority y)).

(** *** Levels and edges *)

Lemma isMaxLevel_parent (j : nat) : (0 < j)%nat -> isMaxLevel j = negb (isMaxLevel (parent j)).
Proof.
  intros Hj. unfold isMaxLevel, level, parent.
  assert (Nat.log2 (j + 1) = S (Nat.log2 ((j - 1) / 2 + 1))) as ->; [|by rewrite Nat.even_succ, <- Nat.negb_even].
  pose proof (Nat.div_mod_eq (j - 1) 2) as Hd. pose proof (Nat.mod_upper_bound (j - 1) 2 ltac:(lia)).
  set (q := ((j - 1) / 2)%nat) in *. assert ((j - 1) mod 2 = 0 \/ (j - 1) mod 2 = 1)%nat as [E|E] by lia.
  - replace (j + 1)%nat with (2 * (q + 1))%nat by lia. apply Nat.log2_double. lia.
  - replace (j + 1)%nat with (2 * (q + 1) + 1)%nat by lia. apply Nat.log2_succ_double. lia.
Qed.

Lemma parent_lt (j : nat) : (0 < j)%nat -> (parent j < j)%nat.
Proof. unfold parent. intros. pose proof (Nat.div_le_upper_bound (j-1) 2 (j-1)). lia. Qed.

Lemma grandparent_parent (j g : nat) :
  grandparent j = Some g <-> (3 <= j)%nat /\ g = parent (parent j).
Proof.
  unfold grandparent, parent.
  pose proof (Nat.div_mod_eq (j + 1) 4). pose proof (Nat.mod_upper_bound (j + 1) 4 ltac:(lia)).
  pose proof (Nat.div_mod_eq (j - 1) 2). pose proof (Nat.mod_upper_bound (j - 1) 2 ltac:(lia)).
  pose proof (Nat.div_mod_eq ((j - 1) / 2 - 1) 2).
  pose proof (Nat.mod_upper_bound ((j - 1) / 2 - 1) 2 ltac:(lia)).
  destruct ((j + 1) / 4)%nat as [|q]; split; [done|intros [? ?]; lia| |intros [? ->]; f_equal; lia].
  intros [= <-]. lia.
Qed.

Lemma parent_pos (j : nat) : (3 <= j)%nat -> (0 < parent j)%nat.
Proof.
  unfold parent. intros. pose proof (Nat.div_mod_eq (j - 1) 2).
  pose proof (Nat.mod_upper_bound (j - 1) 2 ltac:(lia)). lia.
Qed.

Lemma grandparent_lt (j g : nat) : grandparent j = Some g -> (g < parent j)%nat /\ (g < j)%nat.
Proof.
  intros [Hj ->]%grandparent_parent. pose proof (parent_pos j Hj).
  pose proof (parent_lt j ltac:(lia)). pose proof (parent_lt (parent j) ltac:(lia)). lia.
Qed.

Lemma isMaxLevel_grandparent (j g : nat) : grandparent j = Some g -> isMaxLevel g = isMaxLevel j.
Proof.
  intros [Hj ->]%grandparent_parent. pose proof (parent_pos j Hj).
  rewrite (isMaxLevel_parent j), (isMaxLevel_parent (parent j)) by lia.
  by rewrite negb_involutive.
Qed.

Lemma edge_lt (i j : nat) : edge i j -> (i < j)%nat.
Proof.
  intros [[? ->]|Hg]; [by apply parent_lt|]. apply (grandparent_lt _ _ Hg).
Qed.

Lemma edge_parent_of_grandparent (i g : nat) : grandparent i = Some g -> edge g (parent i).
Proof.
  intros [Hi ->]%grandparent_parent. left. split; [|done]. by apply parent_pos.
Qed.

Lemma ext_trans m a b c : ext m a b -> ext m b c -> ext m a c.
Proof. destruct m; simpl; lia. Qed.

Lemma ext_negb m a b : ext (negb m) a b <-> ext m b a.
Proof. destruct m; simpl; lia. Qed.

Lemma ext_refl m a : ext m a a.
Proof. destruct m; simpl; lia. Qed.

(** *** Swapping *)

Lemma Swap_lookup dh (i j k : nat) x y :
  dh !! i = Some x -> dh !! j = Some y ->
  Swap dh i j !! k = if decide (k = j) then Some x else if decide (k = i) then Some y else dh !! k.
Proof.
  intros Hi Hj. unfold Swap. rewrite Hi, Hj.
  pose proof (lookup_lt_Some _ _ _ Hi). pose proof (lookup_lt_Some _ _ _ Hj).
  destruct (decide (k = j)) as [->|]; [by rewrite list_lookup_insert_eq by (by rewrite length_insert)|].
  rewrite list_lookup_insert_ne by done.
  destruct (decide (k = i)) as [->|]; [by rewrite list_lookup_insert_eq|].
  by rewrite list_lookup_insert_ne.
Qed.

Lemma Swap_Permutation dh i j : Swap dh i j ≡ₚ dh.
Proof.
  unfold Swap. destruct (dh !! i) as [a|] eqn:Ha, (dh !! j) as [b|] eqn:Hb; try done.
  destruct (decide (i = j)) as [->|Hne].
  { simplify_eq. by rewrite list_insert_insert_eq, list_insert_id. }
  apply (Permutation_inj (<[j:=a]> (<[i:=b]> dh)) dh). split; [by rewrite !length_insert|].
  exists (fun k => if decide (k = i) then j else if decide (k = j) then i else k).
  pose proof (lookup_lt_Some _ _ _ Ha). pose proof (lookup_lt_Some _ _ _ Hb). split.
  - intros k l. repeat case_decide; congruence.
  - intros k. repeat case_decide; subst.
    + rewrite list_lookup_insert_ne, list_lookup_insert_eq; auto.
    + rewrite list_lookup_insert_eq; [done|by rewrite length_insert].
    + by rewrite !list_lookup_insert_ne.
Qed.

Lemma length_Swap dh i j : length (Swap dh i j) = length dh.
Proof. apply Permutation_length, Swap_Permutation. Qed.

Lemma Compare_ext dh (i j : nat) x y (m : bool) :
  dh !! i = Some x -> dh !! j = Some y ->
  (Bool.eqb (Compare dh i j) m = true -> ext m (Priority x) (Priority y)) /\
  (Bool.eqb (Compare dh i j) m = false -> ext m (Priority y) (Priority x)).
Proof.
  intros Hi Hj. unfold Compare. rewrite Hi, Hj.
  destruct m, (Z.ltb_spec (Priority y) (Priority x)); simpl; split; intros; try done; lia.
Qed.

(** *** Moving a node up *)

Lemma edge_target_cases (a i g : nat) :
  grandparent i = Some g -> edge a i -> a = g \/ (a = parent i /\ edge g a).
Proof.
  intros Hg [[Hi ->]|Ha]; [right|left; congruence].
  split; [done|]. by apply edge_parent_of_grandparent.
Qed.

Lemma up_inv_done dh i :
  up_inv dh i ->
  (forall g x y, grandparent i = Some g -> dh !! g = Some x -> dh !! i = Some y ->
     ext (isMaxLevel g) (Priority x) (Priority y)) ->
  heap_ok dh.
Proof.
  intros [H1 _] Hlast a b x y Hab Ha Hb.
  destruct (decide (b = i)) as [->|]; [|by eapply H1; eauto].
  destruct (decide (grandparent i = Some a)); [by eapply Hlast|by eapply H1; eauto].
Qed.

Lemma up_inv_swap dh (i g : nat) x y :
  up_inv dh i -> grandparent i = Some g -> dh !! g = Some x -> dh !! i = Some y ->
  ext (isMaxLevel i) (Priority y) (Priority x) ->
  up_inv (Swap dh g i) g.
Proof.
  intros [H1 H2] Hg Hx Hy Hyx. pose proof (isMaxLevel_grandparent _ _ Hg) as Hlev.
  pose proof (proj2 (grandparent_lt _ _ Hg)) as Hlt.
  assert (Hgx : forall c z, edge g c -> c <> i -> dh !! c = Some z ->
            ext (isMaxLevel g) (Priority x) (Priority z)).
  { intros c z Hc Hci Hz. eapply H1; eauto. }
  split.
  - intros a b u v Hab Hne. pose proof (edge_lt _ _ Hab). rewrite !(Swap_lookup dh g i _ x y Hx Hy).
    destruct (decide (a = i)) as [->|Hai]; intros Ha; [simplify_eq|].
    { rewrite decide_False, decide_False by lia. intros Hb. eapply H2; eauto. }
    destruct (decide (a = g)) as [->|Hag]; [simplify_eq|].
    { destruct (decide (b = i)) as [->|Hbi]; intros Hb; [simplify_eq; by rewrite Hlev|].
      rewrite decide_False in Hb by lia. eapply ext_trans; [rewrite Hlev; apply Hyx|].
      eauto. }
    destruct (decide (b = i)) as [->|Hbi]; intros Hb; [simplify_eq|].
    { destruct (edge_target_cases _ _ _ Hg Hab) as [->|[-> Hga]]; [done|].
      assert (0 < i)%nat as Hi by lia. pose proof (isMaxLevel_parent i Hi) as Hp.
      assert (isMaxLevel (parent i) = negb (isMaxLevel g)) as ->.
      { rewrite Hlev, Hp. by rewrite negb_involutive. }
      apply ext_negb. eapply Hgx; eauto. }
    destruct (decide (b = g)) as [->|Hbg]; [simplify_eq|eapply H1; eauto].
    destruct Hab as [[Hg0 ->]|Hgg]; [|by destruct Hne].
    assert (isMaxLevel (parent g) = negb (isMaxLevel g)) as Hpg.
    { by rewrite (isMaxLevel_parent g Hg0), negb_involutive. }
    rewrite Hpg. apply ext_negb. eapply ext_trans; [rewrite Hlev; apply Hyx|].
    apply ext_negb. rewrite <- Hpg. eapply H1; eauto. by left.
  - intros gg c u v Hgg Hc. pose proof (proj2 (grandparent_lt _ _ Hgg)).
    pose proof (edge_lt _ _ Hc).
    rewrite !(Swap_lookup dh g i _ x y Hx Hy), (decide_False (P := gg = i)),
      (decide_False (P := gg = g)) by lia. intros Hu Hv.
    assert (ext (isMaxLevel g) (Priority u) (Priority x)) as Hux.
    { rewrite <- (isMaxLevel_grandparent _ _ Hgg). eapply H1; [right; exact Hgg| |done|done]. lia. }
    destruct (decide (c = i)); [by simplify_eq|]. rewrite decide_False in Hv by lia.
    eapply ext_trans; eauto.
Qed.

Lemma shiftUp_loop_ok (fuel : nat) dh (i : nat) :
  (i < fuel)%nat -> (i < length dh)%nat -> up_inv dh i ->
  heap_ok (snd (shiftUp_loop fuel dh i (isMaxLevel i))).
Proof.
  revert dh i. induction fuel as [|fuel IH]; intros dh i Hf Hi Hinv; [lia|]. simpl.
  destruct (grandparent i) as [g|] eqn:Hg; simpl; [|by apply (up_inv_done dh i); rewrite ?Hg].
  pose proof (proj2 (grandparent_lt _ _ Hg)).
  destruct (lookup_lt_is_Some_2 dh i Hi) as [y Hy].
  destruct (lookup_lt_is_Some_2 dh g ltac:(lia)) as [x Hx].
  destruct (Compare_ext dh g i x y (isMaxLevel i) Hx Hy) as [Ht Hf'].
  pose proof (isMaxLevel_grandparent _ _ Hg) as Hlev.
  destruct (Bool.eqb _ _); simpl.
  - apply (up_inv_done dh i); [done|]. intros g' x' y' ???. simplify_eq. rewrite Hlev. auto.
  - rewrite <- Hlev. apply IH; [lia|rewrite length_Swap; lia|]. eapply up_inv_swap; eauto.
Qed.


Lemma snoc_edges dh it a b x y :
  heap_ok dh -> edge a b -> b <> length dh ->
  (dh ++ [it]) !! a = Some x -> (dh ++ [it]) !! b = Some y ->
  ext (isMaxLevel a) (Priority x) (Priority y).
Proof.
  intros Hok Hab Hb Hx Hy. pose proof (edge_lt _ _ Hab).
  pose proof (lookup_lt_Some _ _ _ Hy) as Hl. rewrite length_app in Hl. simpl in Hl.
  rewrite lookup_app_l in Hx, Hy by lia. eapply Hok; eauto.
Qed.

Lemma up_inv_snoc dh it :
  heap_ok dh ->
  (forall x, (0 < length dh)%nat -> dh !! parent (length dh) = Some x ->
     ext (isMaxLevel (parent (length dh))) (Priority x) (Priority it)) ->
  up_inv (dh ++ [it]) (length dh).
Proof.
  intros Hok Hp. split.
  - intros a b x y Hab Hne Hx Hy.
    destruct (decide (b = length dh)) as [->|]; [|by eapply snoc_edges].
    destruct Hab as [[H0 ->]|]; [|naive_solver]. pose proof (parent_lt _ H0).
    rewrite lookup_app_l in Hx by lia. rewrite list_lookup_middle in Hy by done. simplify_eq. eauto.
  - intros g c x y _ Hc _ Hy. apply edge_lt in Hc. apply lookup_lt_Some in Hy.
    rewrite length_app in Hy. simpl in Hy. lia.
Qed.

Lemma up_inv_snoc_swap dh it x :
  let n := length dh in
  heap_ok dh -> (0 < n)%nat -> dh !! parent n = Some x ->
  ext (isMaxLevel (parent n)) (Priority it) (Priority x) ->
  up_inv (Swap (dh ++ [it]) (parent n) n) (parent n).
Proof.
  intros n Hok Hn Hx Hit. pose proof (parent_lt _ Hn) as Hpn. set (p := parent n) in *.
  assert ((dh ++ [it]) !! p = Some x) as Hxp by (rewrite lookup_app_l; [done|subst n; lia]).
  assert ((dh ++ [it]) !! n = Some it) as Hin by (by rewrite list_lookup_middle).
  assert (Hpx : forall c z, edge p c -> c <> n -> (dh ++ [it]) !! c = Some z ->
            ext (isMaxLevel p) (Priority x) (Priority z)).
  { intros c z Hc Hcn Hz. by eapply snoc_edges. }
  split.
  - intros a b u v Hab Hne. pose proof (edge_lt _ _ Hab).
    rewrite !(Swap_lookup _ p n _ x it Hxp Hin).
    destruct (decide (a = n)) as [->|Han]; intros Ha Hb.
    { rewrite decide_False, decide_False in Hb by lia. apply lookup_lt_Some in Hb.
      rewrite length_app in Hb. simpl in Hb. lia. }
    destruct (decide (a = p)) as [->|Hap]; [simplify_eq|].
    { destruct (decide (b = n)); [by simplify_eq|]. rewrite decide_False in Hb by lia.
      eapply ext_trans; eauto. }
    destruct (decide (b = n)) as [->|Hbn]; [simplify_eq|].
    { destruct Hab as [[_ ->]|Hg]; [done|].
      eapply (snoc_edges dh it a p); [done| |lia|done|done]. by apply edge_parent_of_grandparent. }
    destruct (decide (b = p)) as [->|]; [simplify_eq|by eapply snoc_edges].
    destruct Hab as [[Hp0 ->]|Hg]; [|by destruct Hne].
    assert (isMaxLevel (parent p) = negb (isMaxLevel p)) as Hlev.
    { by rewrite (isMaxLevel_parent p Hp0), negb_involutive. }
    rewrite Hlev. apply ext_negb. eapply ext_trans; [done|]. apply ext_negb. rewrite <- Hlev.
    eapply snoc_edges; [done|by left|lia|done|done].
  - intros g c u v Hg Hc. pose proof (proj2 (grandparent_lt _ _ Hg)). pose proof (edge_lt _ _ Hc).
    rewrite !(Swap_lookup _ p n _ x it Hxp Hin), (decide_False (P := g = n)),
      (decide_False (P := g = p)) by lia. intros Hu Hv.
    assert (ext (isMaxLevel p) (Priority u) (Priority x)) as Hux.
    { rewrite <- (isMaxLevel_grandparent _ _ Hg).
      eapply (snoc_edges dh it g p); [done|by right|lia|done|done]. }
    destruct (decide (c = n)); [by simplify_eq|]. rewrite decide_False in Hv by lia.
    eapply ext_trans; eauto.
Qed.

Lemma Push_heap_ok dh it : heap_ok dh -> heap_ok (Push dh it).
Proof.
  intros Hok. unfold Push, shiftUp. rewrite length_app. simpl.
  replace (length dh + 1 - 1)%nat with (length dh) by lia. set (n := length dh).
  destruct (decide (n = 0%nat)) as [Hn|Hn].
  { apply nil_length_inv in Hn as Hd. subst n. rewrite Hd. simpl.
    cbv [Compare]. simpl. rewrite Z.ltb_irrefl. simpl. intros i j x y He Hi Hj. apply edge_lt in He.
    apply lookup_lt_Some in Hj. simpl in Hj. lia. }
  pose proof (parent_lt n ltac:(lia)) as Hp.
  destruct (lookup_lt_is_Some_2 dh (parent n) Hp) as [x Hx].
  assert ((dh ++ [it]) !! parent n = Some x) as Hx' by (by rewrite lookup_app_l).
  assert ((dh ++ [it]) !! n = Some it) as Hn' by (by rewrite list_lookup_middle).
  destruct (Compare_ext _ _ _ _ _ (isMaxLevel n) Hx' Hn') as [Ht Hf].
  pose proof (isMaxLevel_parent n ltac:(lia)) as Hlev.
  destruct (Bool.eqb _ _); simpl.
  - rewrite (f_equal negb Hlev), negb_involutive. apply shiftUp_loop_ok;
      rewrite ?length_Swap, ?length_app; simpl; try (subst n; lia).
    apply (up_inv_snoc_swap dh it x); [done|lia|done|].
    rewrite Hlev in Ht, Hf. apply (proj1 (ext_negb _ _ _)). first [by apply Ht|by apply Hf].
  - apply shiftUp_loop_ok; rewrite ?length_app; simpl; try (subst n; lia).
    apply up_inv_snoc; [done|]. intros x' _ Hx''. fold n in Hx''. simplify_eq.
    rewrite Hlev in Ht, Hf. apply (proj1 (ext_negb _ _ _)). first [by apply Ht|by apply Hf].
Qed.

(** *** The extremes of an ordered heap *)

Lemma heap_ok_max dh x y (j : nat) :
  heap_ok dh -> dh !! 0%nat = Some x -> dh !! j = Some y -> Priority y <= Priority x.
Proof.
  intros Hok Hx. revert y. induction j as [j IH] using lt_wf_ind. intros y Hy.
  destruct (decide (j = 0%nat)) as [->|Hj]; [by simplify_eq|].
  pose proof (parent_lt j ltac:(lia)) as Hp. pose proof (lookup_lt_Some _ _ _ Hy).
  destruct (lookup_lt_is_Some_2 dh (parent j) ltac:(lia)) as [z Hz].
  pose proof (isMaxLevel_parent j ltac:(lia)) as Hlev.
  destruct (isMaxLevel (parent j)) eqn:Hm.
  - pose proof (Hok (parent j) j z y ltac:(left; lia) Hz Hy) as He. rewrite Hm in He. simpl in He.
    specialize (IH _ Hp _ Hz). lia.
  - assert (3 <= j)%nat as H3 by (destruct j as [|[|[|j]]]; [done|done|done|lia]).
    assert (grandparent j = Some (parent (parent j))) as Hg by (apply grandparent_parent; lia).
    set (g := parent (parent j)) in *. destruct (grandparent_lt _ _ Hg) as [_ Hgj].
    destruct (lookup_lt_is_Some_2 dh g ltac:(lia)) as [u Hu].
    pose proof (Hok g j u y ltac:(by right) Hu Hy) as He.
    rewrite (isMaxLevel_grandparent _ _ Hg), Hlev in He. simpl in He. specialize (IH _ Hgj _ Hu). lia.
Qed.


Lemma heap_ok_min dh x y (j : nat) :
  heap_ok dh -> GetMin dh = Some x -> dh !! j = Some y -> Priority x <= Priority y.
Proof.
  intros Hok Hmin. revert y. induction j as [j IH] using lt_wf_ind. intros y Hy.
  pose proof (lookup_lt_Some _ _ _ Hy) as Hl. unfold GetMin in Hmin.
  destruct (length dh) as [|n] eqn:Hlen; [lia|].
  destruct (Nat.ltb_spec n 1) as [Hn|Hn].
  { assert (j = 0%nat) as -> by lia. by simplify_eq. }
  destruct (lookup_lt_is_Some_2 dh 1%nat ltac:(lia)) as [a Ha].
  assert (Hxa : Priority x <= Priority a).
  { destruct (Nat.leb_spec 2 n); simpl in Hmin; [|by simplify_eq].
    destruct (lookup_lt_is_Some_2 dh 2%nat ltac:(lia)) as [b Hb].
    unfold Compare in Hmin. rewrite Ha, Hb in Hmin.
    destruct (Z.ltb_spec (Priority b) (Priority a)); simplify_eq; lia. }
  destruct (decide (j = 0%nat)) as [->|Hj0].
  { pose proof (Hok 0%nat 1%nat y a ltac:(left; split; [lia|done]) Hy Ha). simpl in *. lia. }
  destruct (decide (j = 1%nat)) as [->|Hj1]; [by simplify_eq|].
  destruct (decide (j = 2%nat)) as [->|Hj2].
  { rewrite (leb_correct 2 n) in Hmin by lia. simpl in Hmin.
    unfold Compare in Hmin. rewrite Ha, Hy in Hmin.
    destruct (Z.ltb_spec (Priority y) (Priority a)); simplify_eq; lia. }
  pose proof (parent_pos j ltac:(lia)) as Hp0. pose proof (parent_lt j ltac:(lia)) as Hp.
  destruct (lookup_lt_is_Some_2 dh (parent j) ltac:(lia)) as [z Hz].
  pose proof (isMaxLevel_parent j ltac:(lia)) as Hlev.
  destruct (isMaxLevel (parent j)) eqn:Hm.
  - assert (grandparent j = Some (parent (parent j))) as Hg by (apply grandparent_parent; lia).
    set (g := parent (parent j)) in *. destruct (grandparent_lt _ _ Hg) as [_ Hgj].
    destruct (lookup_lt_is_Some_2 dh g ltac:(lia)) as [u Hu].
    pose proof (Hok g j u y ltac:(by right) Hu Hy) as He.
    rewrite (isMaxLevel_grandparent _ _ Hg), Hlev in He. simpl in He. specialize (IH _ Hgj _ Hu). lia.
  - pose proof (Hok (parent j) j z y ltac:(left; lia) Hz Hy) as He. rewrite Hm in He. simpl in He.
    specialize (IH _ Hp _ Hz). lia.
Qed.


(** ** What every operation keeps: the items *)

Lemma shiftUp_loop_Permutation fuel dh i m : snd (shiftUp_loop fuel dh i m) ≡ₚ dh.
Proof.
  revert dh i. induction fuel as [|fuel IH]; intros dh i; simpl; [done|].
  repeat case_match; simpl; try done. by rewrite IH, Swap_Permutation.
Qed.

Lemma shiftUp_Permutation dh i : snd (shiftUp dh i) ≡ₚ dh.
Proof.
  unfold shiftUp. destruct (Bool.eqb _ _); rewrite shiftUp_loop_Permutation; [apply Swap_Permutation|done].
Qed.

Lemma shiftDown_loop_Permutation fuel dh i : snd (shiftDown_loop fuel dh i) ≡ₚ dh.
Proof.
  revert dh i. induction fuel as [|fuel IH]; intros dh i; cbn [shiftDown_loop]; [done|].
  repeat case_match; simpl; rewrite ?IH, ?Swap_Permutation; done.
Qed.

Lemma shiftDown_Permutation dh i : snd (shiftDown dh i) ≡ₚ dh.
Proof. apply shiftDown_loop_Permutation. Qed.

Lemma Push_Permutation dh it : Push dh it ≡ₚ it :: dh.
Proof. unfold Push. rewrite shiftUp_Permutation. by rewrite Permutation_app_comm. Qed.

Lemma Fix_Permutation dh i : Fix dh i ≡ₚ dh.
Proof.
  unfold Fix. pose proof (shiftDown_Permutation dh i) as Hp. destruct (shiftDown dh i) as [j dh'].
  case_match; simpl in *; rewrite ?shiftUp_Permutation; done.
Qed.

(** Swapping node [i] to the end and cutting the end off takes node [i] out. *)
Lemma truncate_Swap dh (i : nat) it :
  dh !! i = Some it -> dh ≡ₚ it :: truncate (Swap dh i (length dh - 1)).
Proof.
  intros Hi. pose proof (lookup_lt_Some _ _ _ Hi) as Hl.
  destruct (lookup_lt_is_Some_2 dh (length dh - 1)%nat ltac:(lia)) as [z Hz].
  assert (Swap dh i (length dh - 1) !! (length dh - 1)%nat = Some it) as Hlast.
  { rewrite (Swap_lookup _ _ _ _ _ _ Hi Hz). by rewrite decide_True. }
  rewrite <- (Swap_Permutation dh i (length dh - 1)) at 1.
  unfold truncate. rewrite length_Swap. set (l := Swap dh i (length dh - 1)) in *.
  assert (length l = S (length dh - 1)) as Hll by (subst l; rewrite length_Swap; lia).
  rewrite <- (take_drop (length dh - 1) l) at 1.
  rewrite (drop_S _ _ _ Hlast), drop_ge by lia. by rewrite Permutation_app_comm.
Qed.

Lemma RemoveAt_Permutation dh (i : nat) it :
  dh !! i = Some it -> dh ≡ₚ it :: RemoveAt dh i.
Proof.
  intros Hi. pose proof (lookup_lt_Some _ _ _ Hi) as Hl. unfold RemoveAt.
  destruct (Nat.eqb_spec (length dh) 0); [lia|]. destruct (Nat.ltb_spec (length dh - 1) i); [lia|].
  simpl. rewrite shiftDown_Permutation. by apply truncate_Swap.
Qed.

Lemma PopMax_Permutation dh :
  dh = [] /\ PopMax dh = (None, []) \/
  exists it dh', PopMax dh = (Some it, dh') /\ dh !! 0%nat = Some it /\ dh ≡ₚ it :: dh'.
Proof.
  destruct dh as [|it dh]; [by left|]. right. exists it. unfold PopMax.
  cbn [length]. eexists. split_and!; [done|done|].
  rewrite shiftDown_Permutation. pose proof (truncate_Swap (it :: dh) 0 it eq_refl) as Ht.
  cbn [length] in Ht. by replace (S (length dh) - 1)%nat with (length dh) in Ht by lia.
Qed.

Lemma PopMin_Permutation dh :
  dh = [] /\ PopMin dh = (None, []) \/
  exists it dh', PopMin dh = (Some it, dh') /\ GetMin dh = Some it /\ dh ≡ₚ it :: dh'.
Proof.
  destruct dh as [|it dh]; [by left|]. right. unfold PopMin, GetMin. cbn [length].
  change (leftChild 0) with 1%nat. change (rightChild 0) with 2%nat. cbv zeta.
  destruct (Nat.ltb_spec (length dh) 1) as [Hl|Hl].
  { assert (dh = []) as -> by (apply nil_length_inv; lia). exists it, []. done. }
  set (t := if (2 <=? length dh)%nat && Compare (it :: dh) 1 2 then 2%nat else 1%nat).
  assert (t < length (it :: dh))%nat as Ht.
  { subst t. destruct (Nat.leb_spec 2 (length dh)); simpl; [case_match|]; lia. }
  destruct (lookup_lt_is_Some_2 _ _ Ht) as [x Hx]. exists x. eexists.
  split_and!; [apply (f_equal2 pair Hx eq_refl)|exact Hx|]. rewrite shiftDown_Permutation.
  pose proof (truncate_Swap _ _ _ Hx) as Hs. cbn [length] in Hs.
  by replace (S (length dh) - 1)%nat with (length dh) in Hs by lia.
Qed.

(** ** Termination of [shiftDown]: the index only grows *)

Lemma scan_grandchildren_ge k dh gc last t m i :
  (i <= t)%nat -> (i <= gc)%nat -> (i <= scan_grandchildren k dh gc last t m)%nat.
Proof.
  revert gc t. induction k as [|k IH]; intros gc t Ht Hg; simpl; [done|].
  case_match; [|done]. apply IH; [case_match; lia|lia].
Qed.





(** ** The queue *)

Implicit Types (pq : PriorityQueue Obj).

Definition objects pq : list Obj := ItemObj <$> deHeap pq.
Definition popped (r : option Obj * PriorityQueue Obj) : list Obj :=
  from_option (fun o => [o]) [] r.1 ++ objects r.2.

(** A queue whose heap was built by pushes from the priority function. *)
Definition pushed_ok pq : Prop :=
  heap_ok (deHeap pq) /\
  forall it, it ∈ deHeap pq -> priorityFunc pq (ItemObj it) = (Priority it, None).

Lemma PushBack_pushed_ok pq o : pushed_ok pq -> pushed_ok (PushBack pq o).2.
Proof.
  intros [Hh Hp]. unfold PushBack. destruct (priorityFunc pq o) as [p [e|]] eqn:Ho; [done|].
  split; simpl; [by apply Push_heap_ok|]. intros it. rewrite Push_Permutation.
  intros [->|Hin]%elem_of_cons; [done|auto].
Qed.

Lemma PushBack_objects pq o :
  objects (PushBack pq o).2 ≡ₚ
    (if decide ((priorityFunc pq o).2 = None) then [o] else []) ++ objects pq.
Proof.
  unfold PushBack, objects. destruct (priorityFunc pq o) as [p [e|]]; simpl; [done|].
  by rewrite Push_Permutation.
Qed.

Definition push_all (objs : list Obj) pq : PriorityQueue Obj :=
  fold_left (fun q o => (PushBack q o).2) objs pq.

Lemma PushBack_priorityFunc pq o : priorityFunc (PushBack pq o).2 = priorityFunc pq.
Proof. unfold PushBack. by destruct (priorityFunc pq o) as [? [?|]]. Qed.

Lemma push_all_ok objs pq :
  pushed_ok pq ->
  pushed_ok (push_all objs pq) /\ priorityFunc (push_all objs pq) = priorityFunc pq /\
  objects (push_all objs pq) ≡ₚ filter (fun o => (priorityFunc pq o).2 = None) objs ++ objects pq.
Proof.
  revert pq. induction objs as [|o objs IH]; intros pq Hok; [done|]. simpl.
  destruct (IH _ (PushBack_pushed_ok pq o Hok)) as (H1 & H2 & H3).
  rewrite PushBack_priorityFunc in H2, H3.
  split_and!; [done|done|]. etrans; [exact H3|]. rewrite PushBack_objects, filter_cons.
  case_decide; simpl; [|done]. by rewrite Permutation_middle.
Qed.

Lemma pushed_ok_extremes pq :
  pushed_ok pq ->
  match Front pq, Back pq with
  | Some a, Some b =>
      a ∈ objects pq /\ b ∈ objects pq /\
      forall o, o ∈ objects pq ->
        (priorityFunc pq b).1 <= (priorityFunc pq o).1 <= (priorityFunc pq a).1
  | None, None => objects pq = []
  | _, _ => False
  end.
Proof.
  intros [Hh Hp]. unfold Front, Back, GetMax, objects. destruct (deHeap pq) as [|x l] eqn:Hd; [done|].
  destruct (PopMin_Permutation (x :: l)) as [[? _]|(y & l' & _ & Hmin & Hperm)]; [done|].
  rewrite Hmin. simpl.
  assert (y ∈ x :: l) as Hy by (rewrite Hperm; left).
  split_and!; [left|by apply (list_elem_of_fmap_2 ItemObj) in Hy|].
  intros o [it [-> Hit]]%(list_elem_of_fmap ItemObj (x :: l)).
  rewrite (Hp it), (Hp x), (Hp y) by first [done|left]. simpl.
  apply list_elem_of_lookup in Hit as [j Hj].
  split; [by eapply heap_ok_min|by eapply heap_ok_max].
Qed.

Lemma PopFront_objects pq : objects pq ≡ₚ popped (PopFront pq).
Proof.
  unfold popped, PopFront, objects.
  destruct (PopMax_Permutation (deHeap pq)) as [[-> ->]|(it & dh' & -> & _ & Hp)]; [done|].
  simpl. by rewrite Hp.
Qed.

Lemma PopBack_objects pq : objects pq ≡ₚ popped (PopBack pq).
Proof.
  unfold popped, PopBack, objects.
  destruct (PopMin_Permutation (deHeap pq)) as [[-> ->]|(it & dh' & -> & _ & Hp)]; [done|].
  simpl. by rewrite Hp.
Qed.

Lemma sortedRange_loop_visits fuel (dh : list (Item Obj)) (seen : list Obj) :
  (length dh < fuel)%nat ->
  exists visited, sortedRange_loop fuel dh (fun o s => (true, s ++ [o])) seen
                    = (true, seen ++ visited) /\ visited ≡ₚ ItemObj <$> dh.
Proof.
  revert dh seen. induction fuel as [|fuel IH]; intros dh seen Hf; [lia|].
  cbn [sortedRange_loop].
  destruct (PopMax_Permutation dh) as [[-> ->]|(it & dh' & -> & _ & Hp)].
  { exists []. by rewrite app_nil_r. }
  pose proof (Permutation_length Hp) as Hl. simpl in Hl.
  destruct (IH dh' (seen ++ [ItemObj it]) ltac:(lia)) as (vs & -> & Hvs).
  exists (ItemObj it :: vs). rewrite <- app_assoc. split; [done|].
  by rewrite Hvs, Hp.
Qed.


End DeHeapOrder.

(** ** Properties *)

(** The front and the back of a queue.  After any sequence of [PushBack]s
    the queue holds exactly the objects whose priority could be computed;
    [Front] is one of maximal, [Back] one of minimal priority, and both are
    nil exactly when the queue is empty. *)
Theorem PushBack_extremes {Obj : Type} (idf : Obj -> string) (prio : Obj -> Z * option string)
    (objs : list Obj) :
  let pq := push_all objs (NewPriorityQueue idf prio) in
  let kept := filter (fun o => (prio o).2 = None) objs in
  objects pq ≡ₚ kept /\
  match Front pq, Back pq with
  | Some a, Some b =>
      a ∈ kept /\ b ∈ kept /\
      forall o, o ∈ kept -> (prio b).1 <= (prio o).1 <= (prio a).1
  | None, None => kept = []
  | _, _ => False
  end.
Proof.
  intros pq kept.
  destruct (push_all_ok objs (NewPriorityQueue idf prio)) as (Hok & Hpf & Hobj).
  { split; [intros ?????? Hx; done|intros it Hit; by apply elem_of_nil in Hit]. }
  fold pq in Hok, Hpf, Hobj. assert (objects pq ≡ₚ kept) as Hk.
  { etrans; [exact Hobj|]. unfold objects. simpl. by rewrite app_nil_r. }
  split; [done|]. pose proof (pushed_ok_extremes pq Hok) as He. rewrite Hpf in He.
  destruct (Front pq), (Back pq); try done.
  - destruct He as (Ha & Hb & Hall). rewrite Hk in Ha, Hb. split_and!; [done|done|].
    intros o' Ho'. apply Hall. by rewrite Hk.
  - rewrite He in Hk. by apply Permutation_nil_l in Hk.
Qed.

(** No operation of the queue loses or duplicates an object.  [PopFront]
    and [PopBack] remove exactly the object they return; [DelByID] removes
    exactly the first item with the id, or reports [ErrObjectNotFound] and
    changes nothing when there is none. *)
Theorem queue_ops_conserve {Obj : Type} (pq : PriorityQueue Obj) (objID : string) :
  objects pq ≡ₚ popped (PopFront pq) /\
  objects pq ≡ₚ popped (PopBack pq) /\
  match DelByID pq objID with
  | (None, pq') =>
      exists it, GetByID pq objID = Some (ItemObj it) /\ ObjID it = objID /\
                 deHeap pq ≡ₚ it :: deHeap pq'
  | (Some e, pq') =>
      e = ErrObjectNotFound /\ pq' = pq /\ objID ∉ (ObjID <$> deHeap pq)
  end.
Proof.
  split_and!; [apply PopFront_objects|apply PopBack_objects|]. unfold DelByID, GetByID.
  destruct (getIndexAndItemByObjID pq objID) as [[i it]|] eqn:Hf; simpl.
  - unfold getIndexAndItemByObjID in Hf. apply list_find_Some in Hf as (Hi & Hid & _).
    exists it. split_and!; [done|done|by apply RemoveAt_Permutation].
  - split_and!; [done|done|]. unfold getIndexAndItemByObjID in Hf. apply list_find_None in Hf.
    intros [it [Hid Hin]]%list_elem_of_fmap. rewrite Forall_forall in Hf. by eapply Hf.
Qed.

(** [SortedRange] visits every object of the queue exactly once and
    leaves the queue as it is (it pops a copy): with a callback that records
    the objects it is called with and never stops, it returns true and the
    record is a permutation of the queue's objects. *)
Theorem SortedRange_visits_all {Obj : Type} (pq : PriorityQueue Obj) :
  exists visited,
    SortedRange pq (fun o (seen : list Obj) => (true, seen ++ [o])) [] = (true, visited) /\
    visited ≡ₚ objects pq.
Proof.
  unfold SortedRange, Copy.
  destruct (sortedRange_loop_visits (S (length (deHeap pq))) (deHeap pq) [] ltac:(lia))
    as (vs & Hr & Hp). by exists vs.
Qed.

(** Popping does not keep the order.  There is a sequence of twelve pushes
    after which three [PopFront]s leave a queue whose [Front] has a smaller
    priority than another object still in it: after exchanging a node with a
    grandchild and then with that grandchild's parent, [shiftDown] goes on at
    the parent, not at the grandchild's place. *)
Theorem PopFront_breaks_order :
  exists prios : list Z,
    let prio (z : Z) := (z, None : option string) in
    let pq0 := push_all prios (NewPriorityQueue (fun _ => "id"%string) prio) in
    let pq3 := (PopFront (PopFront (PopFront pq0).2).2).2 in
    length prios = 12%nat /\
    exists x y : Z, Front pq3 = Some x /\ y ∈ objects pq3 /\ x < y.
Proof.
  exists [10; 9; 1; 14; 9; 10; 13; 11; 13; 10; 8; 0]. split; [done|].
  exists 10, 11. split_and!; [by vm_compute| |lia].
  apply (bool_decide_unpack _). by vm_compute.
Qed.


