(* ===== verification/FifoQueue.v ===== *)
(** * The FIFO queue of pkg/common/faas_common/queue

    [FifoQueue] (fifoqueue.go) is a doubly linked list with, when it is given an
    identity function, a record of the list's elements by id.  Elements are
    addresses into a heap of values: the record refers to elements, and an
    element keeps its value when it leaves the list. *)
From S2P Require Import Prelude DeHeap.

Section FifoQueue.
Context {Obj : Type} (identityFunc : option (Obj -> string)).

Record FifoQueue := mkFifo {
  fq_queue : list nat;
  fq_heap : list Obj;
  fq_elementRecord : gmap string nat
}.
Implicit Types (fq : FifoQueue).

Definition NewFifoQueue : FifoQueue := mkFifo [] [] ∅.

Definition FifoLen fq : nat := length (fq_queue fq).

Definition Front fq : option Obj := head (fq_queue fq) ≫= fun e => fq_heap fq !! e.
Definition Back fq : option Obj := last (fq_queue fq) ≫= fun e => fq_heap fq !! e.

(** [delete(fq.elementRecord, fq.identityFunc(obj))] *)
Definition drop_record (obj : Obj) (record : gmap string nat) : gmap string nat :=
  match identityFunc with Some idf => delete (idf obj) record | None => record end.

(** [list.Remove]: nothing happens for an element that is not in the list. *)
Definition list_Remove (e : nat) (l : list nat) : list nat := filter (fun e' => e' <> e) l.

Definition pop_element (e : nat) fq : option Obj * FifoQueue :=
  match fq_heap fq !! e with
  | None => (None, fq)
  | Some obj =>
      (Some obj, mkFifo (list_Remove e (fq_queue fq)) (fq_heap fq) (drop_record obj (fq_elementRecord fq)))
  end.

Definition FifoPopFront fq : option Obj * FifoQueue :=
  match head (fq_queue fq) with None => (None, fq) | Some e => pop_element e fq end.
Definition FifoPopBack fq : option Obj * FifoQueue :=
  match last (fq_queue fq) with None => (None, fq) | Some e => pop_element e fq end.

(** Never an error. *)
Definition FifoPushBack (obj : Obj) fq : FifoQueue :=
  let e := length (fq_heap fq) in
  mkFifo (fq_queue fq ++ [e]) (fq_heap fq ++ [obj])
    (match identityFunc with
     | Some idf => <[idf obj:=e]> (fq_elementRecord fq)
     | None => fq_elementRecord fq
     end).

Definition FifoGetByID (objID : string) fq : option Obj :=
  fq_elementRecord fq !! objID ≫= fun e => fq_heap fq !! e.

Definition FifoDelByID (objID : string) fq : option queueError * FifoQueue :=
  match fq_elementRecord fq !! objID with
  | None => (Some ErrObjectNotFound, fq)
  | Some e =>
      (None, mkFifo (list_Remove e (fq_queue fq)) (fq_heap fq) (delete objID (fq_elementRecord fq)))
  end.

Definition FifoUpdateObjByID (objID : string) (obj : Obj) fq : option queueError * FifoQueue :=
  (Some ErrMethodUnsupported, fq).

(** The callback gets the list's element, not the object in it. *)
Fixpoint range_elements {S : Type} (f : nat -> S -> bool * S) (l : list nat) (s : S) : S :=
  match l with
  | [] => s
  | item :: l => let '(more, s) := f item s in if more then range_elements f l s else s
  end.
Definition FifoRange {S : Type} (f : nat -> S -> bool * S) fq (s : S) : bool * S :=
  (true, range_elements f (fq_queue fq) s).
Definition FifoSortedRange {S : Type} (f : nat -> S -> bool * S) fq (s : S) : bool * S :=
  (true, range_elements f (fq_queue fq) s).

(** ** The queue against its list of objects *)

Definition fifo_contents fq : list Obj := omap (fun e => fq_heap fq !! e) (fq_queue fq).

Record fifo_wf fq : Prop := {
  ff_nodup : NoDup (fq_queue fq);
  ff_heap : forall e, e ∈ fq_queue fq -> (e < length (fq_heap fq))%nat;
  ff_record : forall id e, fq_elementRecord fq !! id = Some e ->
    e ∈ fq_queue fq /\ exists idf obj, identityFunc = Some idf /\ fq_heap fq !! e = Some obj /\ idf obj = id
}.

Lemma NewFifo_wf : fifo_wf NewFifoQueue.
Proof. split; simpl; [constructor|by intros e ?%elem_of_nil|done]. Qed.

Lemma omap_heap_app (h : list Obj) obj (l : list nat) :
  (forall e, e ∈ l -> (e < length h)%nat) -> omap (fun e => (h ++ [obj]) !! e) l = omap (fun e => h !! e) l.
Proof.
  intros Hl. apply list_omap_ext, Forall_Forall2_diag, Forall_forall. intros e He.
  by rewrite lookup_app_l by auto.
Qed.

Lemma FifoPushBack_spec obj fq :
  fifo_wf fq -> fifo_wf (FifoPushBack obj fq) /\ fifo_contents (FifoPushBack obj fq) = fifo_contents fq ++ [obj].
Proof.
  intros [F1 F2 F3]. split; [split|]; simpl.
  - apply NoDup_app. split_and!; [done| |apply NoDup_singleton].
    intros e He ->%list_elem_of_singleton. apply F2 in He. lia.
  - intros e. rewrite elem_of_app, list_elem_of_singleton, length_app. simpl. intros [He| ->]; [|lia].
    apply F2 in He. lia.
  - assert (forall id e, fq_elementRecord fq !! id = Some e ->
      e ∈ fq_queue fq ++ [length (fq_heap fq)] /\
      exists idf o, identityFunc = Some idf /\ (fq_heap fq ++ [obj]) !! e = Some o /\ idf o = id) as Hold.
    { intros id e He. destruct (F3 id e He) as (Hin & idf & o & ? & Ho & ?). split; [apply elem_of_app; by left|].
      exists idf, o. split_and!; try done. by apply lookup_app_l_Some. }
    destruct identityFunc as [idf|]; [|done]. intros id e [[<- <-]|[_ He]]%lookup_insert_Some; [|by apply Hold].
    split; [apply elem_of_app; right; by apply list_elem_of_singleton|].
    exists idf, obj. by rewrite list_lookup_middle.
  - unfold fifo_contents. simpl. rewrite omap_app. simpl. rewrite omap_heap_app by done.
    by rewrite list_lookup_middle.
Qed.

Lemma drop_record_wf e obj fq :
  fifo_wf fq -> fq_heap fq !! e = Some obj ->
  fifo_wf (mkFifo (list_Remove e (fq_queue fq)) (fq_heap fq) (drop_record obj (fq_elementRecord fq))).
Proof.
  intros [F1 F2 F3] He. split; simpl.
  - by apply NoDup_filter.
  - intros e' [_ He']%list_elem_of_filter. by apply F2.
  - unfold drop_record. intros id e' Hr.
    assert (fq_elementRecord fq !! id = Some e' /\ (forall idf, identityFunc = Some idf -> idf obj <> id)) as [H1 H2].
    { destruct identityFunc as [idf|] eqn:Hidf.
      - apply lookup_delete_Some in Hr as [Hne Hr]. split; [done|]. by intros idf' [= <-].
      - split; [done|]. by intros idf'. }
    destruct (F3 id e' H1) as (Hin & idf & o & Hidf & Ho & Hid). split; [|by exists idf, o].
    apply list_elem_of_filter. split; [|done]. intros ->. rewrite He in Ho. injection Ho as <-. by apply (H2 idf).
Qed.

Lemma list_Remove_notin e l : e ∉ l -> list_Remove e l = l.
Proof.
  unfold list_Remove. induction l as [|e' l IH]; intros Hn; [done|].
  apply not_elem_of_cons in Hn as [Hne Hn]. by rewrite filter_cons_True, IH by done.
Qed.

Lemma FifoPopFront_spec fq :
  fifo_wf fq ->
  match fifo_contents fq with
  | [] => FifoPopFront fq = (None, fq) /\ Front fq = None /\ FifoLen fq = 0%nat
  | obj :: rest =>
      Front fq = Some obj /\ exists fq', FifoPopFront fq = (Some obj, fq') /\ fifo_wf fq' /\ fifo_contents fq' = rest
  end.
Proof.
  intros Hwf. unfold fifo_contents, FifoPopFront, pop_element, Front, FifoLen.
  destruct (fq_queue fq) as [|e l] eqn:Hq; [done|]. simpl.
  destruct (lookup_lt_is_Some_2 (fq_heap fq) e) as [obj He]; [apply Hwf; rewrite Hq; left|].
  rewrite He. simpl. split; [done|]. eexists. split; [done|].
  pose proof (drop_record_wf e obj fq Hwf He) as Hd. rewrite Hq in Hd. split; [done|].
  unfold list_Remove. rewrite filter_cons_False by (by intros []).
  pose proof (ff_nodup fq Hwf) as Hnd. rewrite Hq in Hnd. apply NoDup_cons in Hnd as [Hnin _]. simpl.
  by fold (list_Remove e l); rewrite list_Remove_notin.
Qed.

Lemma FifoLen_contents fq : fifo_wf fq -> FifoLen fq = length (fifo_contents fq).
Proof.
  intros [_ F2 _]. unfold FifoLen, fifo_contents. induction (fq_queue fq) as [|e l IH]; [done|]. simpl.
  destruct (lookup_lt_is_Some_2 (fq_heap fq) e) as [obj He]; [apply F2; left|]. rewrite He. simpl.
  f_equal. apply IH. intros e' He'. apply F2. by right.
Qed.

Lemma FifoPopBack_spec fq :
  fifo_wf fq ->
  match last (fifo_contents fq) with
  | None => FifoPopBack fq = (None, fq) /\ Back fq = None
  | Some obj =>
      Back fq = Some obj /\ exists fq', FifoPopBack fq = (Some obj, fq') /\ fifo_wf fq' /\
                                        fifo_contents fq = fifo_contents fq' ++ [obj]
  end.
Proof.
  intros Hwf. unfold fifo_contents, FifoPopBack, pop_element, Back.
  destruct (fq_queue fq) as [|e l _] eqn:Hq using rev_ind; [done|].
  destruct (lookup_lt_is_Some_2 (fq_heap fq) e) as [obj He];
    [apply Hwf; rewrite Hq; apply elem_of_app; right; by apply list_elem_of_singleton|].
  rewrite omap_app. simpl. rewrite He, !last_snoc. simpl. rewrite He.
  split; [done|]. eexists. split; [done|].
  pose proof (drop_record_wf e obj fq Hwf He) as Hd. rewrite Hq in Hd. split; [done|].
  unfold list_Remove. rewrite filter_app, filter_cons_False, filter_nil, app_nil_r by (by intros []).
  pose proof (ff_nodup fq Hwf) as Hnd. rewrite Hq in Hnd. apply NoDup_app in Hnd as (_ & Hnin & _). simpl.
  fold (list_Remove e l). rewrite list_Remove_notin; [done|]. intros Hin. apply (Hnin e Hin).
  by apply list_elem_of_singleton.
Qed.

(** ** Queues with distinct ids *)

Section Identity.
Context (idf : Obj -> string) (Hidf : identityFunc = Some idf).

(** Every element of the list is on record under its id. *)
Definition fifo_recorded fq : Prop :=
  forall e obj, e ∈ fq_queue fq -> fq_heap fq !! e = Some obj -> fq_elementRecord fq !! idf obj = Some e.

Lemma in_contents fq obj : obj ∈ fifo_contents fq <-> exists e, e ∈ fq_queue fq /\ fq_heap fq !! e = Some obj.
Proof. apply list_elem_of_omap. Qed.

Lemma FifoGetByID_spec fq id obj :
  fifo_wf fq -> fifo_recorded fq ->
  FifoGetByID id fq = Some obj <-> obj ∈ fifo_contents fq /\ idf obj = id.
Proof.
  intros Hwf Hrec. unfold FifoGetByID. rewrite in_contents. split.
  - destruct (fq_elementRecord fq !! id) as [e|] eqn:He; [|done]. simpl. intros Ho.
    destruct (ff_record fq Hwf id e He) as (Hin & idf' & o & Hi & Ho' & Hid).
    rewrite Hidf in Hi. injection Hi as <-. rewrite Ho in Ho'. injection Ho' as <-. eauto.
  - intros [(e & He & Ho) <-]. by rewrite (Hrec e obj He Ho).
Qed.

Lemma PushBack_recorded obj fq :
  fifo_wf fq -> fifo_recorded fq -> Forall (fun o => idf o <> idf obj) (fifo_contents fq) ->
  fifo_recorded (FifoPushBack obj fq).
Proof.
  intros Hwf Hrec Hnew e o. unfold FifoPushBack. simpl. rewrite Hidf, elem_of_app, list_elem_of_singleton.
  intros [He| ->] Ho.
  - rewrite lookup_app_l in Ho by (by apply Hwf). rewrite lookup_insert_ne; [by apply Hrec|].
    rewrite Forall_forall in Hnew. intros Heq. apply (Hnew o); [apply in_contents; eauto|done].
  - rewrite list_lookup_middle in Ho by done. injection Ho as <-. apply lookup_insert_eq.
Qed.

Lemma drop_recorded e obj fq :
  fifo_wf fq -> fifo_recorded fq -> e ∈ fq_queue fq -> fq_heap fq !! e = Some obj ->
  fifo_recorded (mkFifo (list_Remove e (fq_queue fq)) (fq_heap fq) (drop_record obj (fq_elementRecord fq))).
Proof.
  intros Hwf Hrec He Ho e' o'. unfold drop_record. rewrite Hidf. simpl.
  intros [Hne He']%list_elem_of_filter Ho'. rewrite lookup_delete_ne; [by apply Hrec|].
  intros Heq. pose proof (Hrec e' o' He' Ho') as H1. pose proof (Hrec e obj He Ho) as H2.
  rewrite Heq, H1 in H2. by injection H2.
Qed.

Lemma omap_Remove (h : list Obj) e id (l : list nat) :
  (forall e' o', e' ∈ l -> h !! e' = Some o' -> e' = e <-> idf o' = id) ->
  omap (fun e' => h !! e') (list_Remove e l) = filter (fun o => idf o <> id) (omap (fun e' => h !! e') l).
Proof.
  unfold list_Remove. induction l as [|e' l IH]; intros Heq; [done|]. rewrite filter_cons.
  specialize (IH ltac:(intros; apply Heq; [by right|done])).
  specialize (Heq e'). simpl in *. destruct (h !! e') as [o'|] eqn:Ho'.
  - specialize (Heq o' ltac:(left) eq_refl). rewrite filter_cons. case_decide; case_decide; try tauto.
    simpl. rewrite Ho'. by f_equal.
  - case_decide; simpl; [by rewrite Ho'|done].
Qed.

(** Deleting by id takes that object out and leaves the rest in its order. *)
Lemma FifoDelByID_spec fq id :
  fifo_wf fq -> fifo_recorded fq ->
  let '(err, fq') := FifoDelByID id fq in
  fifo_wf fq' /\ fifo_recorded fq' /\
  fifo_contents fq' = filter (fun o => idf o <> id) (fifo_contents fq) /\
  (err = None <-> exists o, o ∈ fifo_contents fq /\ idf o = id).
Proof.
  intros Hwf Hrec. unfold FifoDelByID. destruct (fq_elementRecord fq !! id) as [e|] eqn:He.
  - destruct (ff_record fq Hwf id e He) as (Hin & idf' & o & Hi & Ho & Hid).
    rewrite Hidf in Hi. injection Hi as <-.
    pose proof (drop_record_wf e o fq Hwf Ho) as H1. pose proof (drop_recorded e o fq Hwf Hrec Hin Ho) as H2.
    unfold drop_record in H1, H2. rewrite Hidf, Hid in H1, H2. split_and!; try done.
    + unfold fifo_contents. simpl. clear H1 H2.
      apply omap_Remove. intros e' o' He' Ho'.
      split; [intros ->; rewrite Ho in Ho'; by injection Ho' as <-|].
      intros Hid'. pose proof (Hrec e' o' He' Ho') as H3. rewrite Hid', He in H3. by injection H3.
    + split; [|done]. intros _. exists o. split; [apply in_contents; eauto|done].
  - split_and!; try done.
    + symmetry. apply list_filter_all, Forall_forall. intros o (e & He' & Ho)%in_contents Hid.
      pose proof (Hrec e o He' Ho) as H1. by rewrite Hid, He in H1.
    + split; [done|]. intros (o & (e & He' & Ho)%in_contents & Hid).
      pose proof (Hrec e o He' Ho) as H1. by rewrite Hid, He in H1.
Qed.
End Identity.
End FifoQueue.
Arguments FifoQueue : clear implicits.
