(* ===== verification/CreateQueue.v ===== *)
(** * The queue of instances to create

    [InstanceCreateQueue] (pkg/functionscaler/instancequeue/create_request_queue.go)
    is a doubly linked list with two pointers into it: the worker that creates
    instances takes requests where [createHead] points, a scale-down cancels
    them where [cancelHead] points.  The elements of the list are addresses, as
    in FifoQueue. *)
From S2P Require Import Prelude DeHeap FifoQueue.

Section CreateQueue.
(** What a request carries: its callback and its trace. *)
Context {Req : Type}.

Record InstanceCreateQueue := mkCreateQueue {
  cq_heap : list Req;
  cq_queue : list nat;
  cq_createHead : option nat;
  cq_cancelHead : option nat;
  cq_stopped : bool
}.
Implicit Types (iq : InstanceCreateQueue).

Definition NewInstanceCreateQueue : InstanceCreateQueue := mkCreateQueue [] [] None None false.

(** [Element.Next] and [Element.Prev]. *)
Fixpoint elem_Next (e : nat) (l : list nat) : option nat :=
  match l with
  | x :: l => if decide (x = e) then head l else elem_Next e l
  | [] => None
  end.
Definition elem_Prev (e : nat) (l : list nat) : option nat := elem_Next e (reverse l).

Definition push (request : Req) iq : InstanceCreateQueue :=
  let newElem := length (cq_heap iq) in
  mkCreateQueue (cq_heap iq ++ [request]) (cq_queue iq ++ [newElem])
    (match cq_createHead iq with None => Some newElem | head => head end) (Some newElem) (cq_stopped iq).

(** What both getters do to the element they take. *)
Definition unlink (curElem : nat) iq : option Req * InstanceCreateQueue :=
  (cq_heap iq !! curElem,
   mkCreateQueue (cq_heap iq) (list_Remove curElem (cq_queue iq))
     (if decide (cq_createHead iq = Some curElem) then elem_Next curElem (cq_queue iq) else cq_createHead iq)
     (if decide (cq_cancelHead iq = Some curElem) then elem_Prev curElem (cq_queue iq) else cq_cancelHead iq)
     (cq_stopped iq)).

(** The part after the wait; the caller waits once when there is no [createHead]. *)
Definition getForCreate iq : option Req * InstanceCreateQueue :=
  if cq_stopped iq then (None, iq) else
  match cq_createHead iq with None => (None, iq) | Some curElem => unlink curElem iq end.
Definition getForCancel iq : option Req * InstanceCreateQueue :=
  if cq_stopped iq then (None, iq) else
  match cq_cancelHead iq with None => (None, iq) | Some curElem => unlink curElem iq end.

Definition getQueLen iq : nat := length (cq_queue iq).
Definition destroy iq : InstanceCreateQueue :=
  mkCreateQueue (cq_heap iq) (cq_queue iq) (cq_createHead iq) (cq_cancelHead iq) true.

(** ** The queue is a deque *)

(** What the queue stands for: the requests in order, and whether it is open. *)
Record deque := mkDeque { dq_items : list Req; dq_stopped : bool }.
Implicit Types (d : deque).

Definition deque_push (request : Req) d : deque := mkDeque (dq_items d ++ [request]) (dq_stopped d).
Definition deque_front d : option Req * deque :=
  match dq_stopped d, dq_items d with
  | false, x :: l => (Some x, mkDeque l false)
  | _, _ => (None, d)
  end.
Definition deque_back d : option Req * deque :=
  match dq_stopped d, last (dq_items d) with
  | false, Some x => (Some x, mkDeque (removelast (dq_items d)) false)
  | _, _ => (None, d)
  end.

Definition cq_items iq : list Req := omap (fun e => cq_heap iq !! e) (cq_queue iq).

Record cq_wf iq : Prop := {
  cw_nodup : NoDup (cq_queue iq);
  cw_valid : forall e, e ∈ cq_queue iq -> is_Some (cq_heap iq !! e);
  cw_create : cq_createHead iq = head (cq_queue iq);
  cw_cancel : cq_cancelHead iq = last (cq_queue iq) }.

Definition implements iq d : Prop := cq_wf iq /\ cq_items iq = dq_items d /\ cq_stopped iq = dq_stopped d.

Lemma removelast_snoc {A} (l : list A) x : removelast (l ++ [x]) = l.
Proof. apply removelast_last. Qed.

Lemma cq_items_length iq : cq_wf iq -> length (cq_items iq) = length (cq_queue iq).
Proof.
  intros [_ W _ _]. unfold cq_items. induction (cq_queue iq) as [|e l IH]; [done|]. csimpl.
  destruct (W e ltac:(set_solver)) as [x ->]. csimpl. rewrite IH; [done|]. set_solver.
Qed.

Lemma elem_Prev_last e l : elem_Prev e (l ++ [e]) = last l.
Proof. unfold elem_Prev. rewrite reverse_app. simpl. rewrite decide_True by done. by rewrite head_reverse. Qed.

Lemma list_Remove_head e l : e ∉ l -> list_Remove e (e :: l) = l.
Proof.
  intros Hn. unfold list_Remove. rewrite filter_cons_False by (by intros []). by apply list_Remove_notin.
Qed.
Lemma list_Remove_last e l : e ∉ l -> list_Remove e (l ++ [e]) = l.
Proof.
  intros Hn. unfold list_Remove. rewrite filter_app, filter_cons_False, filter_nil, app_nil_r by (by intros []).
  by apply list_Remove_notin.
Qed.

Lemma push_implements r iq d : implements iq d -> implements (push r iq) (deque_push r d).
Proof.
  intros ([W1 W2 W3 W4] & Hi & Hs). split; [|split; [|done]].
  - split; simpl.
    + apply NoDup_app. split_and!; [done| |apply NoDup_singleton].
      intros e He ->%list_elem_of_singleton. apply W2, lookup_lt_is_Some_1 in He. lia.
    + intros e [He|He%list_elem_of_singleton]%elem_of_app.
      * destruct (W2 e He) as [x Hx]. exists x. by apply lookup_app_l_Some.
      * subst. rewrite list_lookup_middle by done. by eexists.
    + rewrite W3. by destruct (cq_queue iq).
    + by rewrite last_snoc.
  - unfold cq_items in *. simpl. rewrite omap_app. simpl. rewrite list_lookup_middle by done. f_equal.
    rewrite <- Hi. apply list_omap_ext, Forall_Forall2_diag, Forall_forall. intros e He.
    apply lookup_app_l, lookup_lt_is_Some_1. auto.
Qed.

(** The element at the front, or at the back, leaves. *)
Lemma unlink_front e l iq :
  cq_wf iq -> cq_queue iq = e :: l ->
  exists x, cq_heap iq !! e = Some x /\ cq_items iq = x :: omap (fun e => cq_heap iq !! e) l /\
    (unlink e iq).1 = Some x /\ cq_wf (unlink e iq).2 /\ cq_items (unlink e iq).2 = omap (fun e => cq_heap iq !! e) l.
Proof.
  intros [W1 W2 W3 W4] Hq. rewrite Hq in *. destruct (W2 e ltac:(set_solver)) as [x Hx]. exists x.
  apply NoDup_cons in W1 as [Hni Hnd]. unfold cq_items. rewrite Hq. simpl. rewrite Hx. simpl. split_and!; try done.
  - split; simpl; rewrite Hq, list_Remove_head by done; [done|set_solver| |].
    + rewrite decide_True by done. simpl. by rewrite decide_True.
    + rewrite W4. destruct l as [|y l' _] using rev_ind.
      * rewrite decide_True by done. change [e] with ([] ++ [e]). by rewrite elem_Prev_last.
      * rewrite decide_False; [by rewrite app_comm_cons, !last_snoc|].
        rewrite app_comm_cons, last_snoc. intros [= ->]. set_solver.
  - by rewrite Hq, list_Remove_head.
Qed.

Lemma unlink_back e l iq :
  cq_wf iq -> cq_queue iq = l ++ [e] ->
  exists x, cq_heap iq !! e = Some x /\ cq_items iq = omap (fun e => cq_heap iq !! e) l ++ [x] /\
    (unlink e iq).1 = Some x /\ cq_wf (unlink e iq).2 /\ cq_items (unlink e iq).2 = omap (fun e => cq_heap iq !! e) l.
Proof.
  intros [W1 W2 W3 W4] Hq. rewrite Hq in *. destruct (W2 e ltac:(set_solver)) as [x Hx]. exists x.
  apply NoDup_app in W1 as (Hnd & Hni & _). specialize (fun H => Hni e H ltac:(set_solver)) as Hni'.
  unfold cq_items. rewrite Hq, omap_app. simpl. rewrite Hx. simpl. split_and!; try done.
  - split; simpl; rewrite Hq, list_Remove_last by done; [done|set_solver| |].
    + rewrite W3. destruct l as [|y l]; simpl.
      * by rewrite !decide_True.
      * rewrite decide_False; [done|]. intros [= ->]. set_solver.
    + rewrite last_snoc in W4. rewrite W4, decide_True by done. by rewrite elem_Prev_last.
  - by rewrite Hq, list_Remove_last.
Qed.

Lemma getForCreate_implements iq d :
  implements iq d -> (getForCreate iq).1 = (deque_front d).1 /\ implements (getForCreate iq).2 (deque_front d).2.
Proof.
  intros (W & Hi & Hs). destruct d as [l s]. simpl in *. subst. unfold getForCreate, deque_front. simpl.
  destruct (cq_stopped iq) eqn:Es; [done|]. rewrite (cw_create _ W).
  destruct (cq_queue iq) as [|e q] eqn:Eq.
  - unfold cq_items. rewrite Eq. simpl. split; [done|]. split; [done|]. unfold cq_items. by rewrite Eq.
  - destruct (unlink_front e q iq W Eq) as (x & Hx & Hit & H1 & H2 & H3). cbn [head]. rewrite H1, Hit. done.
Qed.

Lemma getForCancel_implements iq d :
  implements iq d -> (getForCancel iq).1 = (deque_back d).1 /\ implements (getForCancel iq).2 (deque_back d).2.
Proof.
  intros (W & Hi & Hs). destruct d as [l s]. simpl in *. subst. unfold getForCancel, deque_back. simpl.
  destruct (cq_stopped iq) eqn:Es; [done|]. rewrite (cw_cancel _ W).
  destruct (cq_queue iq) as [|e q _] eqn:Eq using rev_ind.
  - unfold cq_items. rewrite Eq. simpl. split; [done|]. split; [done|]. unfold cq_items. by rewrite Eq.
  - rewrite last_snoc. destruct (unlink_back e q iq W Eq) as (x & Hx & Hit & H1 & H2 & H3).
    rewrite H1, Hit, last_snoc, removelast_snoc. done.
Qed.

(** What the length does. *)
Lemma push_len r iq : cq_wf iq -> cq_wf (push r iq) /\ getQueLen (push r iq) = S (getQueLen iq).
Proof.
  intros W. split; [by apply (push_implements r iq (mkDeque (cq_items iq) (cq_stopped iq)))|].
  unfold getQueLen. simpl. rewrite length_app. simpl. lia.
Qed.

Definition took iq (r : option Req * InstanceCreateQueue) : Prop :=
  cq_wf r.2 /\ match r.1 with Some _ => getQueLen iq = S (getQueLen r.2) | None => r.2 = iq end.

Lemma took_unlink e iq : cq_wf iq -> e ∈ cq_queue iq ->
  cq_createHead iq = Some e \/ cq_cancelHead iq = Some e -> took iq (unlink e iq).
Proof.
  intros W He Hh. unfold took, getQueLen. destruct Hh as [Hh|Hh].
  - rewrite (cw_create _ W) in Hh. destruct (cq_queue iq) as [|e' l] eqn:Eq; [done|]. injection Hh as ->.
    destruct (unlink_front e l iq W Eq) as (x & Hx & Hit & H1 & H2 & H3). rewrite H1. split; [done|].
    pose proof (cq_items_length _ W) as L. pose proof (cq_items_length _ H2) as L2. rewrite Hit in L. rewrite H3 in L2.
    simpl in L. rewrite Eq in L. simpl in *. lia.
  - rewrite (cw_cancel _ W) in Hh. apply last_Some in Hh as [l Eq].
    destruct (unlink_back e l iq W Eq) as (x & Hx & Hit & H1 & H2 & H3). rewrite H1. split; [done|].
    pose proof (cq_items_length _ W) as L. pose proof (cq_items_length _ H2) as L2. rewrite Hit, length_app in L.
    rewrite H3 in L2. simpl in L. lia.
Qed.

Lemma getForCreate_took iq : cq_wf iq -> took iq (getForCreate iq).
Proof.
  intros W. unfold getForCreate. destruct (cq_stopped iq); [done|]. destruct (cq_createHead iq) as [e|] eqn:E; [|done].
  apply took_unlink; [done| |by left]. rewrite (cw_create _ W) in E. destruct (cq_queue iq); simplify_eq/=. left.
Qed.
Lemma getForCancel_took iq : cq_wf iq -> took iq (getForCancel iq).
Proof.
  intros W. unfold getForCancel. destruct (cq_stopped iq); [done|]. destruct (cq_cancelHead iq) as [e|] eqn:E; [|done].
  apply took_unlink; [done| |by right]. rewrite (cw_cancel _ W) in E. by apply last_Some_elem_of.
Qed.

(** ** Runs of the queue's operations *)

Inductive cq_op := OpPush (request : Req) | OpCreate | OpCancel | OpDestroy.
Definition cq_step (o : cq_op) iq : option Req * InstanceCreateQueue :=
  match o with
  | OpPush r => (None, push r iq)
  | OpCreate => getForCreate iq
  | OpCancel => getForCancel iq
  | OpDestroy => (None, destroy iq)
  end.
Definition deque_step (o : cq_op) d : option Req * deque :=
  match o with
  | OpPush r => (None, deque_push r d)
  | OpCreate => deque_front d
  | OpCancel => deque_back d
  | OpDestroy => (None, mkDeque (dq_items d) true)
  end.

Lemma step_implements o iq d :
  implements iq d -> (cq_step o iq).1 = (deque_step o d).1 /\ implements (cq_step o iq).2 (deque_step o d).2.
Proof.
  intros H. destruct o; simpl.
  - split; [done|]. by apply push_implements.
  - by apply getForCreate_implements.
  - by apply getForCancel_implements.
  - destruct H as ([] & Hi & Hs). done.
Qed.

Fixpoint run_ops {S} (step : cq_op -> S -> option Req * S) (os : list cq_op) (s : S) : list (option Req) * S :=
  match os with
  | [] => ([], s)
  | o :: os => let (r, s) := step o s in let (rs, s) := run_ops step os s in (r :: rs, s)
  end.

Lemma run_implements os iq d :
  implements iq d ->
  (run_ops cq_step os iq).1 = (run_ops deque_step os d).1 /\
  implements (run_ops cq_step os iq).2 (run_ops deque_step os d).2.
Proof.
  revert iq d. induction os as [|o os IH]; intros iq d H; [done|]. simpl.
  destruct (step_implements o iq d H) as [H1 H2]. destruct (cq_step o iq) as [r1 i1], (deque_step o d) as [r2 d2].
  simpl in *. subst. destruct (IH i1 d2 H2) as [H3 H4].
  destruct (run_ops cq_step os i1), (run_ops deque_step os d2). simpl in *. by subst.
Qed.

(** The two-pointer list is a deque: from an empty queue, under any
    sequence of pushes, takes, cancellations and a destroy, every operation
    answers what the deque answers (creation takes the oldest request,
    cancellation the newest, a stopped queue answers nothing) and the length is
    the deque's. *)
Theorem create_queue_is_deque os :
  let r := run_ops cq_step os NewInstanceCreateQueue in
  let s := run_ops deque_step os (mkDeque [] false) in
  r.1 = s.1 /\ getQueLen r.2 = length (dq_items s.2) /\ cq_stopped r.2 = dq_stopped s.2.
Proof.
  intros r s. destruct (run_implements os NewInstanceCreateQueue (mkDeque [] false)) as (H1 & W & Hi & Hs).
  { split; [|done]. split; simpl; [apply NoDup_nil_2|set_solver|done|done]. }
  split; [done|]. split; [|done]. unfold s. rewrite <- Hi. unfold getQueLen, cq_items. symmetry.
  apply cq_items_length, W.
Qed.
End CreateQueue.
