(* ===== verification/InsQueue.v ===== *)
(** * Instances and the queues that hold them

    pkg/functionscaler/scheduler/concurrencyscheduler: an [instanceElement] is an
    instance with the threads that are free on it
    (basic_concurrency_scheduler.go); elements are shared by pointer between the
    queues, the session records and the callers, so they are addresses into a
    heap of elements.  [InsQueue] is the interface [queue.Queue] as the schedulers
    use it; the priority queue of the reserved scheduler and the queue with a
    buffer of the scaled scheduler (scaled_concurrency_scheduler.go) implement
    it. *)
From S2P Require Import Prelude GoStrings DeHeap.

(** ** Elements *)

Notation KernelInstanceStatusRunning := (3)%Z (only parsing).
Notation KernelInstanceStatusEvicting := (9)%Z (only parsing).
Notation KernelInstanceStatusSubHealth := (11)%Z (only parsing).

(** The fields of [types.Instance] the schedulers read. *)
Record Instance := mkInstance {
  in_InstanceID : string;
  in_ConcurrentNum : Z;
  in_StatusCode : Z;
  in_FuncSig : string;
  in_AZ : string;
  in_SessionCtxID : option string;
  in_Permanent : bool;
  in_CreateSchedulerID : string
}.

Record instanceElement := mkElem {
  el_instance : Instance;
  el_threadIndex : Z;
  el_threadIDPrefix : string;
  el_isNewInstance : bool;
  el_isPriorityAZ : bool;
  el_threadMap : gset string
}.
Implicit Types (e : instanceElement) (a : nat).

Definition set_threads (index : Z) (threads : gset string) e : instanceElement :=
  mkElem (el_instance e) index (el_threadIDPrefix e) (el_isNewInstance e) (el_isPriorityAZ e) threads.

(** [len(insElem.threadMap)] *)
Definition threads e : Z := Z.of_nat (size (el_threadMap e)).

Definition getInstancePriorityBonus e : Z :=
  let bonus := if el_isNewInstance e && (0 <? threads e) then in_ConcurrentNum (el_instance e) else 0 in
  if el_isPriorityAZ e && (0 <? threads e) then bonus + in_ConcurrentNum (el_instance e) else bonus.

Definition checkInstancePriorityAZ (instance : Instance) (priorityAZ : string) : bool :=
  negb (String.eqb priorityAZ "") && String.eqb priorityAZ (in_AZ instance).

Definition threadName (instanceID prefix : string) (index : Z) : string :=
  instanceID ++ "-thread" ++ prefix ++ "-" ++ Itoa index.

Definition PutThreadToThreadMap (threadID : string) e : instanceElement :=
  if decide (threadID ∈ el_threadMap e) then e
  else if in_ConcurrentNum (el_instance e) <=? threads e then e
  else set_threads (el_threadIndex e + 1)
         ({[threadName (in_InstanceID (el_instance e)) (el_threadIDPrefix e) (el_threadIndex e)]} ∪ el_threadMap e) e.

(** The key the range over the map yields first is [pick]; an empty map yields
    none, and the empty key is deleted. *)
Definition GetThreadFromThreadMap (pick : gset string -> option string) e : string * instanceElement :=
  let threadID := default "" (pick (el_threadMap e)) in
  (threadID, set_threads (el_threadIndex e) (el_threadMap e ∖ {[threadID]}) e).

(** The loop of [initThreadMap], [n] threads from index [i] on. *)
Fixpoint init_threads (n : nat) (i : Z) (instanceID prefix : string) : gset string :=
  match n with
  | O => ∅
  | S n => {[threadName instanceID prefix i]} ∪ init_threads n (i + 1) instanceID prefix
  end.
Definition initThreadMap (prefix : string) e : instanceElement :=
  let n := in_ConcurrentNum (el_instance e) in
  mkElem (el_instance e) (1 + Z.max 0 n) prefix (el_isNewInstance e) (el_isPriorityAZ e)
    (init_threads (Z.to_nat n) 1 (in_InstanceID (el_instance e)) prefix).

(** ** The heap of elements *)

Notation elems := (list instanceElement).
Implicit Types (h : elems).

Definition getInstanceID h a : string :=
  match h !! a with Some e => in_InstanceID (el_instance e) | None => "" end.
Definition avail_at h a : Z := match h !! a with Some e => threads e | None => 0 end.

(** Iterating a list with a callback that says whether to go on. *)
Fixpoint range_list {S : Type} (f : nat -> S -> bool * S) (l : list nat) (s : S) : bool * S :=
  match l with
  | [] => (true, s)
  | a :: l => let '(more, s) := f a s in if more then range_list f l s else (false, s)
  end.

(** ** The interface *)

Class InsQueue (Q : Type) := {
  q_Front : Q -> option nat;
  q_Back : Q -> option nat;
  q_PopFront : Q -> option nat * Q;
  q_PopBack : Q -> option nat * Q;
  q_PushBack : elems -> nat -> Q -> option queueError * Q;
  q_GetByID : elems -> string -> Q -> option nat;
  q_DelByID : elems -> string -> Q -> option queueError * Q;
  q_UpdateObjByID : elems -> string -> nat -> Q -> option queueError * Q;
  q_Len : Q -> nat;
  q_Range : forall {S}, (nat -> S -> bool * S) -> Q -> S -> bool * S;
  q_SortedRange : forall {S}, (nat -> S -> bool * S) -> Q -> S -> bool * S
}.

(** Elements may change, but not where they are nor their ids. *)
Definition same_ids h h' : Prop :=
  forall a e, h !! a = Some e ->
    exists e', h' !! a = Some e' /\ in_InstanceID (el_instance e') = in_InstanceID (el_instance e).

(** What the schedulers rely on: [q_items] is what the queue holds, and [q_ok]
    that it can tell its elements apart by their ids. *)
Class InsQueueLaws (Q : Type) `{InsQueue Q} := {
  q_items : Q -> list nat;
  q_ok : elems -> Q -> Prop;
  q_nodup : forall h q, q_ok h q -> NoDup (getInstanceID h <$> q_items q);
  q_valid : forall h q a, q_ok h q -> a ∈ q_items q -> is_Some (h !! a);
  q_frame : forall h h' q, q_ok h q -> same_ids h h' -> q_ok h' q;
  q_get_ok : forall h q id a, q_ok h q -> q_GetByID h id q = Some a <-> a ∈ q_items q /\ getInstanceID h a = id;
  q_push_ok : forall h q a, q_ok h q -> is_Some (h !! a) -> getInstanceID h a ∉ getInstanceID h <$> q_items q ->
    exists q', q_PushBack h a q = (None, q') /\ q_ok h q' /\ q_items q' ≡ₚ a :: q_items q;
  q_del_ok : forall h q id, q_ok h q ->
    match q_GetByID h id q with
    | Some a => exists q', q_DelByID h id q = (None, q') /\ q_ok h q' /\ q_items q ≡ₚ a :: q_items q'
    | None => q_DelByID h id q = (Some ErrObjectNotFound, q)
    end;
  q_update_ok : forall h q id a, q_ok h q -> q_GetByID h id q = Some a ->
    exists q', q_UpdateObjByID h id a q = (None, q') /\ q_ok h q' /\ q_items q' ≡ₚ q_items q;
  q_popfront_ok : forall h q, q_ok h q ->
    match q_PopFront q with
    | (None, q') => q' = q /\ q_items q = [] /\ q_Front q = None
    | (Some a, q') => q_Front q = Some a /\ q_items q ≡ₚ a :: q_items q' /\ q_ok h q'
    end;
  q_popback_ok : forall h q, q_ok h q ->
    match q_PopBack q with
    | (None, q') => q' = q /\ q_items q = [] /\ q_Back q = None
    | (Some a, q') => q_Back q = Some a /\ q_items q ≡ₚ a :: q_items q' /\ q_ok h q'
    end;
  q_len_ok : forall q, q_Len q = length (q_items q);
  q_range_ok : forall q, exists l, l ≡ₚ q_items q /\
    forall S (f : nat -> S -> bool * S) s, q_Range f q s = range_list f l s;
  q_sorted_ok : forall q, exists l, l ≡ₚ q_items q /\
    forall S (f : nat -> S -> bool * S) s, q_SortedRange f q s = range_list f l s
}.

(** ** The priority queue of the reserved scheduler *)

Definition priorityFuncForReservedInstance h a : Z * option string :=
  match h !! a with
  | Some e => (threads e + getInstancePriorityBonus e, None)
  | None => (-1, Some "type convert failed")
  end.

(** [updating]: whether a rollout is going on. *)
Definition priorityFuncForScaledInstance (updating : bool) (concurrency : Z) h a : Z * option string :=
  match h !! a with
  | None => (-1, Some "type convert failed")
  | Some e =>
      let weight := concurrency - threads e in
      if updating then (if negb (el_isNewInstance e) then - concurrency - weight else weight, None)
      else (weight + getInstancePriorityBonus e, None)
  end.

Section PriorityQueue.
Context (prio : elems -> nat -> Z * option string).

(** The queue's functions look at the elements as they are when they are
    called. *)
Definition pq h (items : list (Item nat)) : PriorityQueue nat := mkPQ items (getInstanceID h) (prio h).
End PriorityQueue.

(** The queue's type carries the priority function. *)
Record PrioQueue (prio : elems -> nat -> Z * option string) := mkPrio { pq_heap : list (Item nat) }.
Arguments mkPrio {_} _.
Arguments pq_heap {_} _.

#[global] Instance prioQueue (prio : elems -> nat -> Z * option string) : InsQueue (PrioQueue prio) := {
  q_Front q := Front (pq prio [] (pq_heap q));
  q_Back q := Back (pq prio [] (pq_heap q));
  q_PopFront q := let '(x, pq) := PopFront (pq prio [] (pq_heap q)) in (x, mkPrio (deHeap pq));
  q_PopBack q := let '(x, pq) := PopBack (pq prio [] (pq_heap q)) in (x, mkPrio (deHeap pq));
  q_PushBack h a q := let '(err, pq) := PushBack (pq prio h (pq_heap q)) a in (err, mkPrio (deHeap pq));
  q_GetByID h id q := GetByID (pq prio h (pq_heap q)) id;
  q_DelByID h id q := let '(err, pq) := DelByID (pq prio h (pq_heap q)) id in (err, mkPrio (deHeap pq));
  q_UpdateObjByID h id a q := let '(err, pq) := UpdateObjByID (pq prio h (pq_heap q)) id a in (err, mkPrio (deHeap pq));
  q_Len q := Len (pq_heap q);
  q_Range S f q s := Range (pq prio [] (pq_heap q)) f s;
  q_SortedRange S f q s := SortedRange (pq prio [] (pq_heap q)) f s
}.

(** ** The queue with a buffer of the scaled scheduler

    Instances without a free thread are in the buffer. *)

Record instanceQueueWithBuffer (prio : elems -> nat -> Z * option string) := mkBuffered {
  bq_queue : PrioQueue prio;
  bq_buffer : list nat
}.
Arguments mkBuffered {_} _ _.
Arguments bq_queue {_} _.
Arguments bq_buffer {_} _.

Section Buffered.
Context {prio : elems -> nat -> Z * option string}.
Implicit Types (p : instanceQueueWithBuffer prio).

Definition buf_Front p : option nat :=
  if negb (q_Len (bq_queue p) =? 0)%nat then q_Front (bq_queue p) else head (bq_buffer p).
Definition buf_Back p : option nat :=
  if negb (q_Len (bq_queue p) =? 0)%nat then q_Back (bq_queue p) else last (bq_buffer p).

Definition buf_PopFront p : option nat * instanceQueueWithBuffer prio :=
  if negb (q_Len (bq_queue p) =? 0)%nat
  then let '(x, q) := q_PopFront (bq_queue p) in (x, mkBuffered q (bq_buffer p))
  else match bq_buffer p with
       | [] => (None, p)
       | item :: rest => (Some item, mkBuffered (bq_queue p) rest)
       end.
Definition buf_PopBack p : option nat * instanceQueueWithBuffer prio :=
  if negb (q_Len (bq_queue p) =? 0)%nat
  then let '(x, q) := q_PopBack (bq_queue p) in (x, mkBuffered q (bq_buffer p))
  else match last (bq_buffer p) with
       | None => (None, p)
       | Some item => (Some item, mkBuffered (bq_queue p) (take (length (bq_buffer p) - 1) (bq_buffer p)))
       end.

Definition buf_PushBack h a p : option queueError * instanceQueueWithBuffer prio :=
  if avail_at h a =? 0 then (None, mkBuffered (bq_queue p) (bq_buffer p ++ [a]))
  else let '(err, q) := q_PushBack h a (bq_queue p) in (err, mkBuffered q (bq_buffer p)).

(** The first index of the buffer with the id. *)
Definition buf_index h (id : string) (l : list nat) : option nat :=
  fst <$> list_find (fun item => getInstanceID h item = id) l.

Definition buf_GetByID h (id : string) p : option nat :=
  match q_GetByID h id (bq_queue p) with
  | Some get => Some get
  | None => snd <$> list_find (fun item => getInstanceID h item = id) (bq_buffer p)
  end.

Definition buf_DelByID h (id : string) p : option queueError * instanceQueueWithBuffer prio :=
  match q_DelByID h id (bq_queue p) with
  | (None, q) => (None, mkBuffered q (bq_buffer p))
  | (Some ErrObjectNotFound, q) =>
      match buf_index h id (bq_buffer p) with
      | None => (Some ErrObjectNotFound, mkBuffered q (bq_buffer p))
      | Some index => (None, mkBuffered q (delete index (bq_buffer p)))
      end
  | (Some err, q) => (Some err, mkBuffered q (bq_buffer p))
  end.

(** The loop over the buffer goes on past a match: the last one counts, and all
    are replaced. *)
Fixpoint buf_replace h (id : string) a (i : nat) (l : list nat) : option nat * list nat :=
  match l with
  | [] => (None, [])
  | item :: l =>
      let '(later, l) := buf_replace h id a (S i) l in
      if decide (getInstanceID h item = id)
      then (Some (default i later), a :: l)
      else (later, item :: l)
  end.

Definition buf_UpdateObjByID h (id : string) a p : option queueError * instanceQueueWithBuffer prio :=
  match q_UpdateObjByID h id a (bq_queue p) with
  | (None, q) =>
      if avail_at h a =? 0 then
        match q_DelByID h (getInstanceID h a) q with
        | (Some err, q) => (Some err, mkBuffered q (bq_buffer p))
        | (None, q) => (None, mkBuffered q (bq_buffer p ++ [a]))
        end
      else (None, mkBuffered q (bq_buffer p))
  | (Some ErrObjectNotFound, q) =>
      match buf_replace h id a 0 (bq_buffer p) with
      | (None, buffer) => (Some ErrObjectNotFound, mkBuffered q buffer)
      | (Some index, buffer) =>
          if avail_at h a =? 0 then (None, mkBuffered q buffer)
          else let '(err, q) := q_PushBack h a q in (err, mkBuffered q (delete index buffer))
      end
  | (Some err, q) => (Some err, mkBuffered q (bq_buffer p))
  end.

(** The queue's elements, then the buffer's. *)
Definition buf_Range {S} (f : nat -> S -> bool * S) p (s : S) : bool * S :=
  let '(more, s) := q_Range f (bq_queue p) s in
  if more then range_list f (bq_buffer p) s else (false, s).
Definition buf_SortedRange {S} (f : nat -> S -> bool * S) p (s : S) : bool * S :=
  let '(more, s) := q_SortedRange f (bq_queue p) s in
  if more then range_list f (bq_buffer p) s else (false, s).
End Buffered.

#[global] Instance bufferedQueue (prio : elems -> nat -> Z * option string) : InsQueue (instanceQueueWithBuffer prio) := {
  q_Front := buf_Front;
  q_Back := buf_Back;
  q_PopFront := buf_PopFront;
  q_PopBack := buf_PopBack;
  q_PushBack := buf_PushBack;
  q_GetByID := buf_GetByID;
  q_DelByID := buf_DelByID;
  q_UpdateObjByID := buf_UpdateObjByID;
  q_Len p := (q_Len (bq_queue p) + length (bq_buffer p))%nat;
  q_Range S f p s := buf_Range f p s;
  q_SortedRange S f p s := buf_SortedRange f p s
}.

(** ** Both implement the interface *)

Lemma same_ids_id h h' a : same_ids h h' -> is_Some (h !! a) -> is_Some (h' !! a) /\ getInstanceID h' a = getInstanceID h a.
Proof. intros Hs [e He]. destruct (Hs a e He) as (e' & He' & Hid). unfold getInstanceID. by rewrite He, He'. Qed.

Lemma same_ids_refl h : same_ids h h.
Proof. intros a e He. by exists e. Qed.

Lemma range_list_app {S} (f : nat -> S -> bool * S) l1 l2 s :
  range_list f (l1 ++ l2) s =
  let '(more, s) := range_list f l1 s in if more then range_list f l2 s else (false, s).
Proof.
  revert s. induction l1 as [|a l1 IH]; intros s; simpl; [by destruct (range_list f l2 s)|].
  destruct (f a s) as [[] s']; [apply IH|done].
Qed.

(** Objects whose stored id is their own, and ids that are distinct. *)
Definition items_ok h (dh : list (Item nat)) : Prop :=
  Forall (fun it => is_Some (h !! ItemObj it) /\ ObjID it = getInstanceID h (ItemObj it)) dh.

Lemma items_ids h (dh : list (Item nat)) : items_ok h dh -> ObjID <$> dh = getInstanceID h <$> (ItemObj <$> dh).
Proof. induction 1 as [|it dh [_ H1] _ IH]; [done|]. by rewrite !fmap_cons, H1, IH. Qed.

Lemma items_frame h h' (dh : list (Item nat)) : items_ok h dh -> same_ids h h' -> items_ok h' dh.
Proof.
  intros Hi Hs. eapply Forall_impl; [exact Hi|]. intros it [Hv Hid]. simpl.
  destruct (same_ids_id h h' _ Hs Hv) as [? ->]. done.
Qed.

#[global] Instance items_ok_perm h : Proper ((≡ₚ) ==> iff) (items_ok h).
Proof. intros dh dh' Hp. unfold items_ok. by rewrite Hp. Qed.

Lemma ids_frame h h' (l : list nat) :
  same_ids h h' -> (forall a, a ∈ l -> is_Some (h !! a)) -> getInstanceID h' <$> l = getInstanceID h <$> l.
Proof.
  intros Hs Hv. apply list_fmap_ext. intros i a Ha. apply (same_ids_id h h' a Hs), Hv. by eapply list_elem_of_lookup_2.
Qed.

(** Finding by id where ids are distinct. *)
Lemma find_id {A} (f : A -> string) (l : list A) id x :
  NoDup (f <$> l) -> (exists i, list_find (fun y => f y = id) l = Some (i, x)) <-> x ∈ l /\ f x = id.
Proof.
  intros Hnd. split.
  - intros [i (Hi & Hid & _)%list_find_Some]. split; [by eapply list_elem_of_lookup_2|done].
  - intros [Hx Hid]. destruct (list_find_elem_of (fun y => f y = id) l x Hx Hid) as [[i y] Hy].
    exists i. rewrite Hy. apply list_find_Some in Hy as (Hi & Hy & _).
    apply list_elem_of_lookup in Hx as [j Hj]. assert (i = j) as ->.
    { apply (NoDup_lookup (f <$> l) i j (f y)); [done|by rewrite list_lookup_fmap, Hi|].
      rewrite list_lookup_fmap, Hj. simpl. congruence. }
    rewrite Hi in Hj. by injection Hj as ->.
Qed.

Lemma find_id_some {A} (f : A -> string) (l : list A) id :
  is_Some (list_find (fun y => f y = id) l) <-> id ∈ f <$> l.
Proof.
  rewrite list_elem_of_fmap. split.
  - intros [[i x] (Hi & Hid & _)%list_find_Some]. exists x. split; [done|by eapply list_elem_of_lookup_2].
  - intros (x & -> & Hx). by apply (list_find_elem_of (fun y => f y = f x) l x).
Qed.

Class PrioTotal (prio : elems -> nat -> Z * option string) :=
  prio_total : forall h a, is_Some (h !! a) -> snd (prio h a) = None.
#[global] Instance reserved_total : PrioTotal priorityFuncForReservedInstance.
Proof. intros h a [e He]. unfold priorityFuncForReservedInstance. by rewrite He. Qed.
#[global] Instance scaled_total updating n : PrioTotal (priorityFuncForScaledInstance updating n).
Proof. intros h a [e He]. unfold priorityFuncForScaledInstance. rewrite He. by destruct updating. Qed.

Section PrioLaws.
Context {prio : elems -> nat -> Z * option string} `{!PrioTotal prio}.
Implicit Types (q : PrioQueue prio).

Definition prio_items q : list nat := ItemObj <$> pq_heap q.
Definition prio_ok h q : Prop := NoDup (ObjID <$> pq_heap q) /\ items_ok h (pq_heap q).

Lemma prio_nodup h q : prio_ok h q -> NoDup (getInstanceID h <$> prio_items q).
Proof. intros [Hnd Hi]. unfold prio_items. by rewrite <- items_ids. Qed.

Lemma prio_valid h q a : prio_ok h q -> a ∈ prio_items q -> is_Some (h !! a).
Proof.
  intros [_ Hi] (it & -> & Hit)%list_elem_of_fmap. unfold items_ok in Hi. rewrite Forall_forall in Hi.
  by apply Hi.
Qed.

Lemma prio_frame h h' q : prio_ok h q -> same_ids h h' -> prio_ok h' q.
Proof. intros [Hnd Hi] Hs. split; [done|by eapply items_frame]. Qed.

Lemma prio_index h q id it :
  prio_ok h q -> (exists i, getIndexAndItemByObjID (pq prio h (pq_heap q)) id = Some (i, it)) <->
                 it ∈ pq_heap q /\ ObjID it = id.
Proof. intros [Hnd _]. by apply find_id. Qed.

Lemma prio_get h q id a : prio_ok h q -> q_GetByID h id q = Some a <-> a ∈ prio_items q /\ getInstanceID h a = id.
Proof.
  intros Hok. pose proof Hok as [_ Hi]. unfold items_ok in Hi. rewrite Forall_forall in Hi. simpl. unfold GetByID.
  rewrite fmap_Some. split.
  - intros ([i it] & Hf & ->). destruct (proj1 (prio_index h q id it Hok) (ex_intro _ i Hf)) as [Hin <-].
    split; [by apply list_elem_of_fmap_2|]. symmetry. by apply Hi.
  - intros [(it & -> & Hin)%list_elem_of_fmap Hid].
    destruct (proj2 (prio_index h q id it Hok)) as [i Hf]; [split; [done|]; rewrite <- Hid; by apply Hi|].
    exists (i, it). done.
Qed.

Lemma prio_push h q a :
  prio_ok h q -> is_Some (h !! a) -> getInstanceID h a ∉ getInstanceID h <$> prio_items q ->
  exists q', q_PushBack h a q = (None, q') /\ prio_ok h q' /\ prio_items q' ≡ₚ a :: prio_items q.
Proof.
  intros [Hnd Hi] Ha Hnew. simpl. unfold PushBack. simpl.
  pose proof (prio_total h a Ha) as Hp. destruct (prio h a) as [pr err]. simpl in Hp. subst err. simpl.
  eexists. split; [done|]. unfold prio_ok, prio_items. simpl. rewrite Push_Permutation. simpl. split; [split|done].
  - constructor; [|done]. by rewrite (items_ids h).
  - by constructor.
Qed.

Lemma prio_del h q id :
  prio_ok h q ->
  match q_GetByID h id q with
  | Some a => exists q', q_DelByID h id q = (None, q') /\ prio_ok h q' /\ prio_items q ≡ₚ a :: prio_items q'
  | None => q_DelByID h id q = (Some ErrObjectNotFound, q)
  end.
Proof.
  intros [Hnd Hi]. simpl. unfold GetByID, DelByID, getIndexAndItemByObjID. simpl.
  destruct (list_find _ (pq_heap q)) as [[i it]|] eqn:Hf; simpl; [|by destruct q].
  apply list_find_Some in Hf as (Hl & _ & _). pose proof (RemoveAt_Permutation _ _ _ Hl) as Hp.
  eexists. split; [done|]. unfold prio_ok, prio_items. simpl. rewrite Hp in Hnd. apply NoDup_cons in Hnd as [_ Hnd].
  split; [|by rewrite Hp at 1]. split; [done|]. rewrite Hp in Hi.
  by apply Forall_cons in Hi as [_ ?].
Qed.

Lemma prio_update h q id a :
  prio_ok h q -> q_GetByID h id q = Some a ->
  exists q', q_UpdateObjByID h id a q = (None, q') /\ prio_ok h q' /\ prio_items q' ≡ₚ prio_items q.
Proof.
  intros [Hnd Hi] Hget. pose proof (prio_get h q id a (conj Hnd Hi)) as Hg. apply Hg in Hget as Hin.
  destruct Hin as [Hin Hid]. simpl in Hget |- *. unfold GetByID, UpdateObjByID, getIndexAndItemByObjID in *. simpl in *.
  destruct (list_find _ (pq_heap q)) as [[i it]|] eqn:Hf; [|done]. simpl in Hget. injection Hget as Hget.
  pose proof (prio_total h a (prio_valid h q a (conj Hnd Hi) Hin)) as Hp.
  destruct (prio h a) as [pr err]. simpl in Hp. subst err. simpl. eexists. split; [done|].
  apply list_find_Some in Hf as (Hl & Hido & _).
  assert (forall f : Item nat -> string, f (mkItem (ObjID it) a pr) = f it ->
    f <$> Fix (<[i:=mkItem (ObjID it) a pr]> (pq_heap q)) i ≡ₚ f <$> pq_heap q) as Hsame.
  { intros f Hff. rewrite Fix_Permutation, list_fmap_insert, Hff, list_insert_id; [done|].
    by rewrite list_lookup_fmap, Hl. }
  unfold prio_ok, prio_items. simpl. split_and!.
  - by rewrite (Hsame ObjID eq_refl).
  - rewrite Fix_Permutation. unfold items_ok in *.
    apply Forall_insert; [done|]. rewrite <- Hget. unfold items_ok in Hi. rewrite Forall_forall in Hi.
    apply (Hi it). by eapply list_elem_of_lookup_2.
  - rewrite Fix_Permutation, list_fmap_insert. simpl. rewrite list_insert_id; [done|].
    rewrite list_lookup_fmap, Hl. simpl. by rewrite Hget.
Qed.

Lemma prio_perm_ok h q a (it : Item nat) dh' :
  prio_ok h q -> pq_heap q ≡ₚ it :: dh' -> ItemObj it = a ->
  prio_items q ≡ₚ a :: prio_items (@mkPrio prio dh') /\ prio_ok h (@mkPrio prio dh').
Proof.
  intros [Hnd Hi] Hp <-. unfold prio_ok, prio_items. simpl. rewrite Hp in Hnd. apply NoDup_cons in Hnd as [_ Hnd].
  split; [by rewrite Hp|]. split; [done|]. rewrite Hp in Hi. by apply Forall_cons in Hi as [_ ?].
Qed.

Lemma prio_popfront h q :
  prio_ok h q ->
  match q_PopFront q with
  | (None, q') => q' = q /\ prio_items q = [] /\ q_Front q = None
  | (Some a, q') => q_Front q = Some a /\ prio_items q ≡ₚ a :: prio_items q' /\ prio_ok h q'
  end.
Proof.
  intros Hok. simpl. unfold PopFront, Front, GetMax. simpl.
  destruct (PopMax_Permutation (pq_heap q)) as [[Hd ->]|(it & dh' & -> & Hl & Hp)]; simpl.
  - destruct q as [dh]. simpl in *. by subst dh.
  - rewrite Hl. split; [done|]. by eapply prio_perm_ok.
Qed.

Lemma prio_popback h q :
  prio_ok h q ->
  match q_PopBack q with
  | (None, q') => q' = q /\ prio_items q = [] /\ q_Back q = None
  | (Some a, q') => q_Back q = Some a /\ prio_items q ≡ₚ a :: prio_items q' /\ prio_ok h q'
  end.
Proof.
  intros Hok. simpl. unfold PopBack, Back. simpl.
  destruct (PopMin_Permutation (pq_heap q)) as [[Hd ->]|(it & dh' & -> & Hl & Hp)]; simpl.
  - destruct q as [dh]. simpl in *. by subst dh.
  - rewrite Hl. split; [done|]. by eapply prio_perm_ok.
Qed.

Lemma prio_len q : q_Len q = length (prio_items q).
Proof. simpl. unfold Len, prio_items. by rewrite length_fmap. Qed.

Lemma range_items_list {S} (f : nat -> S -> bool * S) (l : list (Item nat)) s :
  range_items f l s = range_list f (ItemObj <$> l) s.
Proof. revert s. induction l as [|it l IH]; intros s; simpl; [done|]. destruct (f (ItemObj it) s) as [[] ?]; auto. Qed.

Lemma sortedRange_list (fuel : nat) : forall (dh : list (Item nat)), (length dh < fuel)%nat ->
  exists l, l ≡ₚ ItemObj <$> dh /\
    forall S (f : nat -> S -> bool * S) s, sortedRange_loop fuel dh f s = range_list f l s.
Proof.
  induction fuel as [|fuel IH]; intros dh Hlen; [lia|].
  destruct (PopMax_Permutation dh) as [[-> Hpop]|(it & dh' & Hpop & _ & Hp)].
  { exists []. split; [done|]. intros S f s. cbn [sortedRange_loop]. by rewrite Hpop. }
  pose proof (Permutation_length Hp) as Hl. simpl in Hl.
  destruct (IH dh' ltac:(lia)) as (l & Hlp & Hl2). exists (ItemObj it :: l). split; [by rewrite Hp, Hlp|].
  intros S f s. cbn [sortedRange_loop range_list]. rewrite Hpop. destruct (f (ItemObj it) s) as [[] ?]; auto.
Qed.

Lemma prio_range q : exists l, l ≡ₚ prio_items q /\
  forall S (f : nat -> S -> bool * S) s, q_Range f q s = range_list f l s.
Proof. exists (prio_items q). split; [done|]. intros S f s. apply range_items_list. Qed.

Lemma prio_sorted q : exists l, l ≡ₚ prio_items q /\
  forall S (f : nat -> S -> bool * S) s, q_SortedRange f q s = range_list f l s.
Proof.
  destruct (sortedRange_list (Datatypes.S (length (pq_heap q))) (pq_heap q) ltac:(lia)) as (l & Hl & Hs).
  exists l. split; [done|]. intros S f s. apply Hs.
Qed.
End PrioLaws.

#[global] Instance prioQueue_laws prio `{!PrioTotal prio} : InsQueueLaws (PrioQueue prio) := {
  q_items := prio_items;
  q_ok := prio_ok;
  q_nodup := prio_nodup;
  q_valid := prio_valid;
  q_frame := prio_frame;
  q_get_ok := prio_get;
  q_push_ok := prio_push;
  q_del_ok := prio_del;
  q_update_ok := prio_update;
  q_popfront_ok := prio_popfront;
  q_popback_ok := prio_popback;
  q_len_ok := prio_len;
  q_range_ok := prio_range;
  q_sorted_ok := prio_sorted
}.

Section BufferedLaws.
Context {prio : elems -> nat -> Z * option string} `{!PrioTotal prio}.
Implicit Types (p : instanceQueueWithBuffer prio).

Definition buf_items p : list nat := q_items (bq_queue p) ++ bq_buffer p.
Definition buf_ok h p : Prop :=
  q_ok h (bq_queue p) /\ NoDup (getInstanceID h <$> buf_items p) /\ Forall (fun a => is_Some (h !! a)) (bq_buffer p).

Lemma buf_nodup h p : buf_ok h p -> NoDup (getInstanceID h <$> buf_items p).
Proof. by intros (_ & ? & _). Qed.

Lemma buf_valid h p a : buf_ok h p -> a ∈ buf_items p -> is_Some (h !! a).
Proof.
  intros (Hq & _ & Hv) [Ha|Ha]%elem_of_app; [by apply (q_valid h (bq_queue p))|].
  rewrite Forall_forall in Hv. by apply Hv.
Qed.

Lemma buf_frame h h' p : buf_ok h p -> same_ids h h' -> buf_ok h' p.
Proof.
  intros Hok Hs. pose proof Hok as (Hq & Hnd & Hv). split_and!.
  - by apply (q_frame h).
  - rewrite (ids_frame h h'); [done|done|]. intros a. by apply buf_valid.
  - eapply Forall_impl; [exact Hv|]. intros a Ha. by apply (same_ids_id h h' a Hs).
Qed.

Lemma buf_split h p :
  buf_ok h p -> NoDup (getInstanceID h <$> bq_buffer p) /\
  (forall a b, a ∈ q_items (bq_queue p) -> b ∈ bq_buffer p -> getInstanceID h a <> getInstanceID h b).
Proof.
  intros (_ & Hnd & _). unfold buf_items in Hnd. rewrite fmap_app in Hnd. apply NoDup_app in Hnd as (_ & Hd & Hb).
  split; [done|]. intros a b Ha Hb' Heq. apply (Hd (getInstanceID h a)); [by apply list_elem_of_fmap_2|].
  rewrite Heq. by apply list_elem_of_fmap_2.
Qed.

Lemma buf_find h p id a :
  buf_ok h p -> snd <$> list_find (fun item => getInstanceID h item = id) (bq_buffer p) = Some a <->
                a ∈ bq_buffer p /\ getInstanceID h a = id.
Proof.
  intros Hok. destruct (buf_split h p Hok) as [Hnd _]. rewrite <- (find_id _ _ _ _ Hnd), fmap_Some. split.
  - intros ([i x] & Hf & ->). by exists i.
  - intros [i Hf]. by exists (i, a).
Qed.

Lemma buf_get h p id a : buf_ok h p -> buf_GetByID h id p = Some a <-> a ∈ buf_items p /\ getInstanceID h a = id.
Proof.
  intros Hok. destruct (buf_split h p Hok) as [_ Hd]. pose proof Hok as (Hq & _ & _).
  unfold buf_GetByID, buf_items. rewrite elem_of_app.
  destruct (q_GetByID h id (bq_queue p)) as [b|] eqn:Hg.
  - apply (q_get_ok h) in Hg as [Hb Hid]; [|done]. split.
    + intros [= ->]. auto.
    + intros [[Ha|Ha] Hida]; [|by destruct (Hd b a Hb Ha); congruence].
      f_equal. assert (q_GetByID h id (bq_queue p) = Some b) as H1 by (by apply (q_get_ok h)).
      assert (q_GetByID h id (bq_queue p) = Some a) as H2 by (by apply (q_get_ok h)). congruence.
  - rewrite (buf_find h p id a Hok). split; [intros [? ?]; auto|]. intros [[Ha|Ha] Hid]; [|done].
    assert (q_GetByID h id (bq_queue p) = Some a) as H2 by (by apply (q_get_ok h)). congruence.
Qed.

Lemma buf_push h p a :
  buf_ok h p -> is_Some (h !! a) -> getInstanceID h a ∉ getInstanceID h <$> buf_items p ->
  exists p', buf_PushBack h a p = (None, p') /\ buf_ok h p' /\ buf_items p' ≡ₚ a :: buf_items p.
Proof.
  intros (Hq & Hnd & Hv) Ha Hnew. unfold buf_PushBack.
  assert (forall p', buf_items p' ≡ₚ a :: buf_items p -> NoDup (getInstanceID h <$> buf_items p')) as Hnd'.
  { intros p' ->. rewrite fmap_cons. by constructor. }
  case_bool.
  - set (p' := mkBuffered _ _). exists p'. assert (buf_items p' ≡ₚ a :: buf_items p) as Hp.
    { unfold buf_items. simpl. by solve_Permutation. }
    split; [done|]. split; [|done]. split_and!; [done|by apply Hnd'|].
    apply Forall_app. split; [done|by apply Forall_singleton].
  - assert (getInstanceID h a ∉ getInstanceID h <$> q_items (bq_queue p)) as Hnew1.
    { intros Hin. apply Hnew. unfold buf_items. rewrite fmap_app. apply elem_of_app. by left. }
    destruct (q_push_ok h (bq_queue p) a Hq Ha Hnew1) as (q' & -> & Hq' & Hp).
    set (p' := mkBuffered _ _). exists p'. assert (buf_items p' ≡ₚ a :: buf_items p) as Hp'.
    { unfold buf_items. simpl in Hp |- *. rewrite Hp. by solve_Permutation. }
    split; [done|]. split; [|done]. split_and!; [done|by apply Hnd'|done].
Qed.

Lemma buf_nodup_cons h p p' a :
  buf_ok h p -> buf_items p ≡ₚ a :: buf_items p' -> NoDup (getInstanceID h <$> buf_items p').
Proof. intros (_ & Hnd & _) Hp. rewrite Hp, fmap_cons in Hnd. by apply NoDup_cons in Hnd as [_ ?]. Qed.

Lemma buf_del h p id :
  buf_ok h p ->
  match buf_GetByID h id p with
  | Some a => exists p', buf_DelByID h id p = (None, p') /\ buf_ok h p' /\ buf_items p ≡ₚ a :: buf_items p'
  | None => buf_DelByID h id p = (Some ErrObjectNotFound, p)
  end.
Proof.
  intros Hok. pose proof Hok as (Hq & Hnd & Hv). unfold buf_GetByID, buf_DelByID, buf_index.
  pose proof (q_del_ok h (bq_queue p) id Hq) as Hdel.
  destruct (q_GetByID h id (bq_queue p)) as [b|] eqn:Hg.
  - destruct Hdel as (q' & -> & Hq' & Hp). set (p' := mkBuffered _ _). exists p'.
    assert (buf_items p ≡ₚ b :: buf_items p') as Hp'.
    { unfold buf_items. simpl in Hp |- *. by rewrite Hp. }
    split; [done|]. split; [|done]. split_and!; [done|by eapply buf_nodup_cons|done].
  - rewrite Hdel. destruct (list_find _ (bq_buffer p)) as [[i b]|] eqn:Hf; simpl; [|by destruct p].
    apply list_find_Some in Hf as (Hl & _ & _). pose proof (delete_Permutation _ _ _ Hl) as Hp.
    set (p' := mkBuffered _ _). exists p'. assert (buf_items p ≡ₚ b :: buf_items p') as Hp'.
    { unfold buf_items. rewrite (Permutation_app_head _ Hp). simpl. by solve_Permutation. }
    split; [done|]. split; [|done]. split_and!; [done|by eapply buf_nodup_cons|].
    simpl. rewrite Hp in Hv. by apply Forall_cons in Hv as [_ ?].
Qed.

(** With distinct ids the replacing loop changes nothing and finds the index. *)
Lemma buf_replace_spec h id a (l : list nat) i :
  NoDup (getInstanceID h <$> l) -> a ∈ l -> getInstanceID h a = id ->
  exists j, buf_replace h id a i l = (Some (i + j)%nat, l) /\ l !! j = Some a.
Proof.
  intros Hnd Ha Hid. revert i. induction l as [|x l IH]; intros i; [by apply elem_of_nil in Ha|].
  rewrite fmap_cons in Hnd. apply NoDup_cons in Hnd as [Hx Hnd]. simpl.
  apply elem_of_cons in Ha as [<-|Ha].
  - assert (forall i l, getInstanceID h a ∉ getInstanceID h <$> l -> buf_replace h id a i l = (None, l)) as Hno.
    { clear -Hid. intros i l. revert i. induction l as [|y l IH]; intros i Hn; [done|]. rewrite fmap_cons in Hn.
      apply not_elem_of_cons in Hn as [Hy Hn]. simpl. rewrite (IH (S i) Hn).
      rewrite decide_False; [done|]. congruence. }
    rewrite (Hno (S i) l Hx), decide_True by done. exists 0%nat. simpl. by rewrite Nat.add_0_r.
  - destruct (IH Hnd Ha (S i)) as (j & -> & Hj). rewrite decide_False.
    + exists (S j). split; [|done]. do 2 f_equal. lia.
    + intros Heq. apply Hx. rewrite Heq, <- Hid. by apply list_elem_of_fmap_2.
Qed.

Lemma buf_update h p id a :
  buf_ok h p -> buf_GetByID h id p = Some a ->
  exists p', buf_UpdateObjByID h id a p = (None, p') /\ buf_ok h p' /\ buf_items p' ≡ₚ buf_items p.
Proof.
  intros Hok Hget. pose proof Hok as (Hq & Hnd & Hv). destruct (buf_split h p Hok) as [Hndb Hd].
  destruct (proj1 (buf_get h p id a Hok) Hget) as [Ha Hid].
  assert (forall p', buf_items p' ≡ₚ buf_items p -> q_ok h (bq_queue p') ->
            Forall (fun a => is_Some (h !! a)) (bq_buffer p') -> buf_ok h p' /\ buf_items p' ≡ₚ buf_items p) as Hfin.
  { intros p' Hp Hq' Hv'. split; [|done]. split_and!; [done|by rewrite Hp|done]. }
  unfold buf_UpdateObjByID. apply elem_of_app in Ha as [Ha|Ha].
  - assert (q_GetByID h id (bq_queue p) = Some a) as Hg by (by apply (q_get_ok h)).
    destruct (q_update_ok h _ id a Hq Hg) as (q1 & -> & Hq1 & Hp1). case_bool.
    + assert (q_GetByID h (getInstanceID h a) q1 = Some a) as Hg1.
      { apply (q_get_ok h); [done|]. split; [by rewrite Hp1|done]. }
      pose proof (q_del_ok h q1 (getInstanceID h a) Hq1) as Hdel. rewrite Hg1 in Hdel.
      destruct Hdel as (q2 & -> & Hq2 & Hp2). eexists. split; [done|]. apply Hfin; [|done|].
      * unfold buf_items. simpl in Hp1, Hp2 |- *. rewrite <- Hp1, Hp2. by solve_Permutation.
      * apply Forall_app. split; [done|]. apply Forall_singleton. by apply (q_valid h (bq_queue p)).
    + eexists. split; [done|]. apply Hfin; [|done|done]. unfold buf_items. simpl in Hp1 |- *. by rewrite Hp1.
  - assert (q_UpdateObjByID h id a (bq_queue p) = (Some ErrObjectNotFound, bq_queue p)) as ->.
    { simpl. unfold UpdateObjByID, getIndexAndItemByObjID. simpl.
      destruct (list_find _ (pq_heap (bq_queue p))) as [[i it]|] eqn:Hf; [|by destruct (bq_queue p)].
      apply list_find_Some in Hf as (Hl & Hido & _). destruct Hq as [_ Hi]. unfold items_ok in Hi.
      rewrite Forall_forall in Hi. pose proof (list_elem_of_lookup_2 _ _ _ Hl) as Hin.
      destruct (Hd (ItemObj it) a); [by apply list_elem_of_fmap_2|done|]. rewrite Hid, <- Hido. symmetry. by apply Hi. }
    destruct (buf_replace_spec h id a (bq_buffer p) 0 Hndb Ha Hid) as (j & -> & Hj). simpl. case_bool.
    + eexists. split; [done|]. by apply Hfin.
    + assert (getInstanceID h a ∉ getInstanceID h <$> q_items (bq_queue p)) as Hnew.
      { intros (b & Hb & Hin)%list_elem_of_fmap. by apply (Hd b a Hin Ha). }
      rewrite Forall_forall in Hv. destruct (q_push_ok h _ a Hq (Hv a Ha) Hnew) as (q' & Hpu & Hq' & Hp).
      simpl in Hpu. rewrite Hpu. eexists. split; [done|]. pose proof (delete_Permutation _ _ _ Hj) as Hdp.
      apply Hfin; [|done|].
      * unfold buf_items. rewrite (Permutation_app_head _ Hdp). simpl in Hp |- *. rewrite Hp. by solve_Permutation.
      * apply Forall_forall. intros x Hx. apply Hv. simpl in Hx. rewrite Hdp. by right.
Qed.

Lemma buf_popfront h p :
  buf_ok h p ->
  match buf_PopFront p with
  | (None, p') => p' = p /\ buf_items p = [] /\ buf_Front p = None
  | (Some a, p') => buf_Front p = Some a /\ buf_items p ≡ₚ a :: buf_items p' /\ buf_ok h p'
  end.
Proof.
  intros Hok. pose proof Hok as (Hq & Hnd & Hv). unfold buf_PopFront, buf_Front. rewrite q_len_ok.
  pose proof (q_popfront_ok h (bq_queue p) Hq) as Hpop. unfold buf_items.
  destruct (Nat.eqb_spec (length (q_items (bq_queue p))) 0) as [Hz|Hz]; simpl negb; cbn match.
  - apply nil_length_inv in Hz. rewrite Hz. destruct (bq_buffer p) as [|b l] eqn:Hb; [done|].
    set (p' := mkBuffered _ _). assert (buf_items p = b :: buf_items p') as Hp.
    { unfold buf_items. simpl. rewrite Hb. simpl in Hz |- *. by rewrite Hz. }
    simpl in Hz |- *. rewrite Hz. split_and!; try done.
    split; [done|]. split; [by eapply buf_nodup_cons; [|rewrite Hp]|]. by apply Forall_cons in Hv as [_ ?].
  - destruct (q_PopFront (bq_queue p)) as [[a|] q'] eqn:E; [|by destruct Hpop as (_ & H2 & _); rewrite H2 in Hz].
    destruct Hpop as (H1 & H2 & H3). set (p' := mkBuffered _ _).
    assert (buf_items p ≡ₚ a :: buf_items p') as Hp by (unfold buf_items; simpl in H2 |- *; by rewrite H2).
    split_and!; try done. split; [done|]. split; [by eapply buf_nodup_cons|done].
Qed.

Lemma buf_popback h p :
  buf_ok h p ->
  match buf_PopBack p with
  | (None, p') => p' = p /\ buf_items p = [] /\ buf_Back p = None
  | (Some a, p') => buf_Back p = Some a /\ buf_items p ≡ₚ a :: buf_items p' /\ buf_ok h p'
  end.
Proof.
  intros Hok. pose proof Hok as (Hq & Hnd & Hv). unfold buf_PopBack, buf_Back. rewrite q_len_ok.
  pose proof (q_popback_ok h (bq_queue p) Hq) as Hpop. unfold buf_items.
  destruct (Nat.eqb_spec (length (q_items (bq_queue p))) 0) as [Hz|Hz]; simpl negb; cbn match.
  - apply nil_length_inv in Hz. rewrite Hz. destruct (bq_buffer p) as [|b l _] eqn:Hb using rev_ind; [done|].
    rewrite last_snoc, length_app. simpl length. replace (length l + 1 - 1)%nat with (length l) by lia.
    rewrite take_app_length. set (p' := mkBuffered _ _). assert (buf_items p ≡ₚ b :: buf_items p') as Hp.
    { unfold buf_items. simpl. rewrite Hb. simpl in Hz |- *. rewrite Hz. by solve_Permutation. }
    simpl in Hz |- *. rewrite Hz. split_and!; try done; [by solve_Permutation|].
    split; [done|]. split; [by eapply buf_nodup_cons|]. by apply Forall_app in Hv as [? _].
  - destruct (q_PopBack (bq_queue p)) as [[a|] q'] eqn:E; [|by destruct Hpop as (_ & H2 & _); rewrite H2 in Hz].
    destruct Hpop as (H1 & H2 & H3). set (p' := mkBuffered _ _).
    assert (buf_items p ≡ₚ a :: buf_items p') as Hp by (unfold buf_items; simpl in H2 |- *; by rewrite H2).
    split_and!; try done. split; [done|]. split; [by eapply buf_nodup_cons|done].
Qed.

Lemma buf_len p : q_Len p = length (buf_items p).
Proof. unfold buf_items. rewrite length_app, <- q_len_ok. done. Qed.

Lemma buf_range p : exists l, l ≡ₚ buf_items p /\
  forall S (f : nat -> S -> bool * S) s, q_Range f p s = range_list f l s.
Proof.
  destruct (q_range_ok (bq_queue p)) as (l & Hl & Hr). exists (l ++ bq_buffer p). split; [by rewrite Hl|].
  intros S f s. rewrite range_list_app, <- Hr. done.
Qed.

Lemma buf_sorted p : exists l, l ≡ₚ buf_items p /\
  forall S (f : nat -> S -> bool * S) s, q_SortedRange f p s = range_list f l s.
Proof.
  destruct (q_sorted_ok (bq_queue p)) as (l & Hl & Hr). exists (l ++ bq_buffer p). split; [by rewrite Hl|].
  intros S f s. rewrite range_list_app, <- Hr. done.
Qed.
End BufferedLaws.

#[global] Instance bufferedQueue_laws prio `{!PrioTotal prio} : InsQueueLaws (instanceQueueWithBuffer prio) := {
  q_items := buf_items;
  q_ok := buf_ok;
  q_nodup := buf_nodup;
  q_valid := buf_valid;
  q_frame := buf_frame;
  q_get_ok := buf_get;
  q_push_ok := buf_push;
  q_del_ok := buf_del;
  q_update_ok := buf_update;
  q_popfront_ok := buf_popfront;
  q_popback_ok := buf_popback;
  q_len_ok := buf_len;
  q_range_ok := buf_range;
  q_sorted_ok := buf_sorted
}.
