(* ===== verification/ObsQueue.v ===== *)
(** * The schedulers' instance queues

    pkg/functionscaler/scheduler/concurrencyscheduler/basic_concurrency_scheduler.go:
    [instanceQueueWithSubHealthAndEvictingRecord] keeps running instances in a
    queue and the sub-healthy and evicting ones in maps beside it;
    [instanceQueueWithObserver] publishes, for a scheduler's own instances, every
    change of the number of free, used and total threads.  The theorems relate
    the sums of what was published to what the queue holds. *)
From S2P Require Import Prelude SchedErrors DeHeap InsQueue.

(** Errors of the inner queue, as errors. *)
Definition queue_error (err : queueError) : goError :=
  match err with
  | ErrObjectNotFound => PlainError "object not found"
  | ErrMethodUnsupported => PlainError "method unsupported"
  | ErrPriority msg => PlainError msg
  end.

Definition status_at (h : elems) (a : nat) : Z :=
  match h !! a with Some e => in_StatusCode (el_instance e) | None => -1 end.
Definition conc_at (h : elems) (a : nat) : Z :=
  match h !! a with Some e => in_ConcurrentNum (el_instance e) | None => 0 end.

(** The element of the record with the fewest free threads: of equal ones the
    last the range over the map yields. *)
Definition getSubHealthInstanceFromRecord (h : elems) (visited : list nat) : option nat :=
  fold_left (fun ins v =>
    match ins with
    | None => Some v
    | Some i => if avail_at h v <=? avail_at h i then Some v else Some i
    end) visited None.

Section Records.
Context {Q : Type} `{InsQueue Q}.

Record instanceQueueWithSubHealthAndEvictingRecord := mkRec {
  rec_instanceQueue : Q;
  rec_subHealthRecord : gmap string nat;
  rec_evictingRecord : gmap string nat
}.
Implicit Types (i : instanceQueueWithSubHealthAndEvictingRecord) (h : elems) (a : nat).

Definition rec_Front i : option nat := q_Front (rec_instanceQueue i).
Definition rec_Back i : option nat := q_Back (rec_instanceQueue i).
Definition rec_PopFront i : option nat * instanceQueueWithSubHealthAndEvictingRecord :=
  let '(x, q) := q_PopFront (rec_instanceQueue i) in
  (x, mkRec q (rec_subHealthRecord i) (rec_evictingRecord i)).
Definition rec_PopBack i : option nat * instanceQueueWithSubHealthAndEvictingRecord :=
  let '(x, q) := q_PopBack (rec_instanceQueue i) in
  (x, mkRec q (rec_subHealthRecord i) (rec_evictingRecord i)).

(** [order]: the order the range over the map takes. *)
Definition rec_PopSubHealth h (order : list string) i : option nat * instanceQueueWithSubHealthAndEvictingRecord :=
  match getSubHealthInstanceFromRecord h (omap (fun id => rec_subHealthRecord i !! id) order) with
  | None => (None, i)
  | Some a =>
      (Some a, mkRec (rec_instanceQueue i) (delete (getInstanceID h a) (rec_subHealthRecord i)) (rec_evictingRecord i))
  end.

(** The id is held somewhere. *)
Definition rec_exists h (id : string) i : bool :=
  bool_decide (is_Some (rec_subHealthRecord i !! id)) || bool_decide (is_Some (rec_evictingRecord i !! id)) ||
  bool_decide (is_Some (q_GetByID h id (rec_instanceQueue i))).

(** The switch on the status of an element that is put in. *)
Definition rec_place h (id : string) a i : option goError * instanceQueueWithSubHealthAndEvictingRecord :=
  if status_at h a =? KernelInstanceStatusRunning then
    let '(err, q) := q_PushBack h a (rec_instanceQueue i) in
    (queue_error <$> err, mkRec q (rec_subHealthRecord i) (rec_evictingRecord i))
  else if status_at h a =? KernelInstanceStatusSubHealth then
    (None, mkRec (rec_instanceQueue i) (<[id:=a]> (rec_subHealthRecord i)) (rec_evictingRecord i))
  else if status_at h a =? KernelInstanceStatusEvicting then
    (None, mkRec (rec_instanceQueue i) (rec_subHealthRecord i) (<[id:=a]> (rec_evictingRecord i)))
  else (Some (Sentinel ErrInternal), i).

Definition rec_PushBack h a i : option goError * instanceQueueWithSubHealthAndEvictingRecord :=
  if rec_exists h (getInstanceID h a) i then (Some (Sentinel ErrInsAlreadyExist), i)
  else rec_place h (getInstanceID h a) a i.

Definition rec_GetByID h (objID : string) i : option nat :=
  match rec_subHealthRecord i !! objID with
  | Some a => Some a
  | None =>
      match rec_evictingRecord i !! objID with
      | Some a => Some a
      | None => q_GetByID h objID (rec_instanceQueue i)
      end
  end.

Definition rec_remove h (objID : string) i : instanceQueueWithSubHealthAndEvictingRecord :=
  mkRec (snd (q_DelByID h objID (rec_instanceQueue i))) (delete objID (rec_subHealthRecord i))
    (delete objID (rec_evictingRecord i)).

Definition rec_DelByID h (objID : string) i : option goError * instanceQueueWithSubHealthAndEvictingRecord :=
  if negb (rec_exists h objID i) then (Some (Sentinel ErrInsNotExist), i)
  else (None, rec_remove h objID i).

Definition rec_UpdateObjByID h (objID : string) a i
    : option goError * instanceQueueWithSubHealthAndEvictingRecord :=
  if negb (rec_exists h objID i) then (Some (Sentinel ErrInsNotExist), i)
  else rec_place h objID a (rec_remove h objID i).

(** Evicting instances do not count. *)
Definition rec_Len i : nat := (q_Len (rec_instanceQueue i) + size (rec_subHealthRecord i))%nat.

(** [so] and [eo]: the orders of the ranges over the two maps. *)
Definition rec_Range {S} (so eo : list string) (f : nat -> S -> bool * S) i (s : S) : bool * S :=
  let '(more, s) := q_Range f (rec_instanceQueue i) s in
  if negb more then (false, s) else
  range_list f (omap (fun id => rec_subHealthRecord i !! id) so ++
                omap (fun id => rec_evictingRecord i !! id) eo) s.
Definition rec_SortedRange {S} (so eo : list string) (f : nat -> S -> bool * S) i (s : S) : bool * S :=
  let '(more, s) := q_SortedRange f (rec_instanceQueue i) s in
  if negb more then (false, s) else
  range_list f (omap (fun id => rec_subHealthRecord i !! id) so ++
                omap (fun id => rec_evictingRecord i !! id) eo) s.

(** ** The queue that publishes *)

Inductive InstanceTopic := AvailInsThdTopic | InUseInsThdTopic | TotalInsThdTopic.
Definition publication : Type := InstanceTopic * Z.

Record instanceQueueWithObserver := mkObs {
  obs_rec : instanceQueueWithSubHealthAndEvictingRecord;
  obs_insAvailThdCount : gmap string Z
}.
Implicit Types (o : instanceQueueWithObserver).

(** What leaves with a running instance. *)
Definition pub_gone h a : list publication :=
  [(AvailInsThdTopic, - avail_at h a); (InUseInsThdTopic, - (conc_at h a - avail_at h a));
   (TotalInsThdTopic, - conc_at h a)].
(** What leaves with a sub-healthy one, which has no available threads. *)
Definition pub_gone_sub h a : list publication :=
  [(InUseInsThdTopic, - (conc_at h a - avail_at h a)); (TotalInsThdTopic, - conc_at h a)].

Definition obs_pop h (pub : elems -> nat -> list publication)
    (r : option nat * instanceQueueWithSubHealthAndEvictingRecord) o
    : option nat * list publication * instanceQueueWithObserver :=
  match r with
  | (None, i) => (None, [], mkObs i (obs_insAvailThdCount o))
  | (Some a, i) => (Some a, pub h a, mkObs i (delete (getInstanceID h a) (obs_insAvailThdCount o)))
  end.
Definition obs_PopFront h o := obs_pop h pub_gone (rec_PopFront (obs_rec o)) o.
Definition obs_PopBack h o := obs_pop h pub_gone (rec_PopBack (obs_rec o)) o.
Definition obs_PopSubHealth h (order : list string) o :=
  obs_pop h pub_gone_sub (rec_PopSubHealth h order (obs_rec o)) o.

Definition obs_PushBack h a o : option goError * list publication * instanceQueueWithObserver :=
  match rec_PushBack h a (obs_rec o) with
  | (Some err, i) => (Some err, [], mkObs i (obs_insAvailThdCount o))
  | (None, i) =>
      (None,
       if status_at h a =? KernelInstanceStatusRunning
       then [(AvailInsThdTopic, avail_at h a); (TotalInsThdTopic, conc_at h a)]
       else if status_at h a =? KernelInstanceStatusSubHealth then [(TotalInsThdTopic, conc_at h a)]
       else [],
       mkObs i (<[getInstanceID h a:=avail_at h a]> (obs_insAvailThdCount o)))
  end.

Definition obs_DelByID h (objID : string) o : option goError * list publication * instanceQueueWithObserver :=
  let i := obs_rec o in
  if decide (is_Some (rec_evictingRecord i !! objID)) then
    (None, [], mkObs (mkRec (rec_instanceQueue i) (rec_subHealthRecord i) (delete objID (rec_evictingRecord i)))
                 (obs_insAvailThdCount o))
  else match rec_GetByID h objID i with
  | None => (Some (Sentinel ErrInsNotExist), [], o)
  | Some a =>
      match rec_DelByID h objID i with
      | (Some err, i) => (Some err, [], mkObs i (obs_insAvailThdCount o))
      | (None, i) =>
          (None,
           if status_at h a =? KernelInstanceStatusRunning then pub_gone h a
           else if status_at h a =? KernelInstanceStatusSubHealth then pub_gone_sub h a
           else [],
           mkObs i (delete (getInstanceID h a) (obs_insAvailThdCount o)))
      end
  end.

Definition handleHealthInstanceUpdateMetrics (oldInsAvailThdCount : Z) h a : list publication :=
  let availInsThdDiff := avail_at h a - oldInsAvailThdCount in
  if status_at h a =? KernelInstanceStatusRunning then
    [(InUseInsThdTopic, - availInsThdDiff); (AvailInsThdTopic, availInsThdDiff)]
  else if status_at h a =? KernelInstanceStatusSubHealth then [(AvailInsThdTopic, - avail_at h a)]
  else if status_at h a =? KernelInstanceStatusEvicting then
    [(TotalInsThdTopic, - conc_at h a); (AvailInsThdTopic, - avail_at h a);
     (InUseInsThdTopic, - (conc_at h a - avail_at h a))]
  else [].

Definition handleSubHealthInstanceUpdateMetrics (oldInsAvailThdCount : Z) h a : list publication :=
  let availInsThdDiff := avail_at h a - oldInsAvailThdCount in
  if status_at h a =? KernelInstanceStatusRunning then
    [(InUseInsThdTopic, - availInsThdDiff); (AvailInsThdTopic, avail_at h a)]
  else if status_at h a =? KernelInstanceStatusSubHealth then []
  else if status_at h a =? KernelInstanceStatusEvicting then
    [(TotalInsThdTopic, - conc_at h a); (InUseInsThdTopic, - (conc_at h a - avail_at h a))]
  else [].

(** The status an id had: by where it is recorded, before the update. *)
Definition old_status (objID : string) i : Z :=
  if decide (is_Some (rec_evictingRecord i !! objID)) then KernelInstanceStatusEvicting
  else if decide (is_Some (rec_subHealthRecord i !! objID)) then KernelInstanceStatusSubHealth
  else KernelInstanceStatusRunning.

Definition obs_UpdateObjByID h (objID : string) a o
    : option goError * list publication * instanceQueueWithObserver :=
  let oldInstanceStatus := old_status objID (obs_rec o) in
  match rec_UpdateObjByID h objID a (obs_rec o) with
  | (Some err, i) => (Some err, [], mkObs i (obs_insAvailThdCount o))
  | (None, i) =>
      match obs_insAvailThdCount o !! objID with
      | None => (Some (Sentinel ErrInternal), [], mkObs i (obs_insAvailThdCount o))
      | Some old =>
          (None,
           if oldInstanceStatus =? KernelInstanceStatusRunning then handleHealthInstanceUpdateMetrics old h a
           else if oldInstanceStatus =? KernelInstanceStatusSubHealth then handleSubHealthInstanceUpdateMetrics old h a
           else [],
           mkObs i (<[objID:=avail_at h a]> (obs_insAvailThdCount o)))
      end
  end.

(** ** The sums of what was published *)

Record gauges := mkGauges { g_avail : Z; g_inuse : Z; g_total : Z }.
Definition publish (g : gauges) (p : publication) : gauges :=
  match p with
  | (AvailInsThdTopic, d) => mkGauges (g_avail g + d) (g_inuse g) (g_total g)
  | (InUseInsThdTopic, d) => mkGauges (g_avail g) (g_inuse g + d) (g_total g)
  | (TotalInsThdTopic, d) => mkGauges (g_avail g) (g_inuse g) (g_total g + d)
  end.
Definition publish_all (g : gauges) (ps : list publication) : gauges := fold_left publish ps g.
End Records.
Arguments instanceQueueWithSubHealthAndEvictingRecord : clear implicits.
Arguments instanceQueueWithObserver : clear implicits.

(** ** Sums over lists *)

Definition lsum (f : nat -> Z) (l : list nat) : Z := foldr (fun a acc => f a + acc) 0 l.

#[global] Instance lsum_perm f : Proper ((≡ₚ) ==> (=)) (lsum f).
Proof. intros l l' Hp. induction Hp; simpl; lia. Qed.

Lemma lsum_ext f g l : (forall a, a ∈ l -> f a = g a) -> lsum f l = lsum g l.
Proof.
  induction l as [|a l IH]; intros Hfg; [done|]. simpl. rewrite (Hfg a) by left. f_equal.
  apply IH. intros b Hb. apply Hfg. by right.
Qed.

(** Sums of publications add up. *)
Definition gadd (g g' : gauges) : gauges :=
  mkGauges (g_avail g + g_avail g') (g_inuse g + g_inuse g') (g_total g + g_total g').
Definition no_gauges : gauges := mkGauges 0 0 0.
Definition gsum (ps : list publication) : gauges := publish_all no_gauges ps.

Lemma gauges_eq g g' :
  g_avail g = g_avail g' -> g_inuse g = g_inuse g' -> g_total g = g_total g' -> g = g'.
Proof. destruct g, g'. simpl. by intros -> -> ->. Qed.

Ltac gauges := apply gauges_eq; simpl in *; lia.

Lemma gadd_none g : gadd g no_gauges = g.
Proof. gauges. Qed.

Lemma publish_all_gsum g ps : publish_all g ps = gadd g (gsum ps).
Proof.
  revert g. unfold gsum, publish_all. induction ps as [|p ps IH] using rev_ind; intros g; [gauges|].
  rewrite !fold_left_app, IH. simpl. destruct p as [[] d]; gauges.
Qed.

Section RecordLaws.
Context {Q : Type} `{InsQueueLaws Q}.
Implicit Types (i : instanceQueueWithSubHealthAndEvictingRecord Q) (o : instanceQueueWithObserver Q)
  (h : elems) (a : nat) (id : string).

(** Each id is held at one place, under its element's id. *)
Record rec_ok h i : Prop := {
  ro_queue : q_ok h (rec_instanceQueue i);
  ro_sub : forall id a, rec_subHealthRecord i !! id = Some a -> is_Some (h !! a) /\ getInstanceID h a = id;
  ro_evict : forall id a, rec_evictingRecord i !! id = Some a -> is_Some (h !! a) /\ getInstanceID h a = id;
  ro_disj_q : forall id a, q_GetByID h id (rec_instanceQueue i) = Some a ->
    rec_subHealthRecord i !! id = None /\ rec_evictingRecord i !! id = None;
  ro_disj : forall id a, rec_subHealthRecord i !! id = Some a -> rec_evictingRecord i !! id = None
}.

Lemma q_get_frame h h' q id : q_ok h q -> same_ids h h' -> q_GetByID h' id q = q_GetByID h id q.
Proof.
  intros Hq Hs. pose proof (q_frame h h' q Hq Hs) as Hq'.
  assert (forall a, q_GetByID h' id q = Some a <-> q_GetByID h id q = Some a) as Heq.
  { intros a. rewrite (q_get_ok h' q id a Hq'), (q_get_ok h q id a Hq). split; intros [Ha Hid]; (split; [done|]).
    - rewrite <- Hid. symmetry. apply (same_ids_id h h' a Hs). by eapply q_valid.
    - rewrite <- Hid. apply (same_ids_id h h' a Hs). by eapply q_valid. }
  destruct (q_GetByID h' id q) as [a|], (q_GetByID h id q) as [b|]; try done.
  - by apply Heq.
  - by pose proof (proj1 (Heq a) eq_refl).
  - by pose proof (proj2 (Heq b) eq_refl).
Qed.

Lemma rec_frame h h' i : rec_ok h i -> same_ids h h' -> rec_ok h' i.
Proof.
  intros [R1 R2 R3 R4 R5] Hs. split.
  - by eapply q_frame.
  - intros id a Ha. destruct (R2 id a Ha) as [Hv <-]. by apply (same_ids_id h h' a Hs).
  - intros id a Ha. destruct (R3 id a Ha) as [Hv <-]. by apply (same_ids_id h h' a Hs).
  - intros id a. rewrite (q_get_frame h h') by done. apply R4.
  - done.
Qed.

Lemma rec_get_frame h h' i id : rec_ok h i -> same_ids h h' -> rec_GetByID h' id i = rec_GetByID h id i.
Proof. intros Hi Hs. unfold rec_GetByID. by rewrite (q_get_frame h h') by (done || apply Hi). Qed.

Lemma rec_get_id h i id a : rec_ok h i -> rec_GetByID h id i = Some a -> is_Some (h !! a) /\ getInstanceID h a = id.
Proof.
  intros [R1 R2 R3 R4 R5]. unfold rec_GetByID. destruct (rec_subHealthRecord i !! id) as [b|] eqn:E1.
  { intros [= ->]. by apply R2. }
  destruct (rec_evictingRecord i !! id) as [b|] eqn:E2; [intros [= ->]; by apply R3|].
  intros [Ha Hid]%(q_get_ok h); [|done]. split; [by eapply q_valid|done].
Qed.

Lemma rec_exists_get h i id : rec_exists h id i = bool_decide (is_Some (rec_GetByID h id i)).
Proof.
  unfold rec_exists, rec_GetByID. destruct (rec_subHealthRecord i !! id), (rec_evictingRecord i !! id); simpl;
    destruct (q_GetByID h id (rec_instanceQueue i)); done.
Qed.

(** What an element adds to the gauges, by its status. *)
Definition used_at h a : Z := conc_at h a - avail_at h a.
Definition contribution h (status : Z) a : gauges :=
  if status =? KernelInstanceStatusRunning then mkGauges (avail_at h a) (used_at h a) (conc_at h a)
  else if status =? KernelInstanceStatusSubHealth then mkGauges 0 (used_at h a) (conc_at h a)
  else no_gauges.

(** What the gauges should show: the free threads of running instances, the used
    and the total threads of running and sub-healthy ones. *)
Definition expected h i : gauges :=
  mkGauges (lsum (avail_at h) (q_items (rec_instanceQueue i)))
    (lsum (used_at h) (q_items (rec_instanceQueue i)) + msum (fun _ a => used_at h a) (rec_subHealthRecord i))
    (lsum (conc_at h) (q_items (rec_instanceQueue i)) + msum (fun _ a => conc_at h a) (rec_subHealthRecord i)).

Lemma old_status_cases h i id a :
  rec_ok h i -> rec_GetByID h id i = Some a ->
  (old_status id i = KernelInstanceStatusRunning /\ q_GetByID h id (rec_instanceQueue i) = Some a /\
     rec_subHealthRecord i !! id = None /\ rec_evictingRecord i !! id = None) \/
  (old_status id i = KernelInstanceStatusSubHealth /\ q_GetByID h id (rec_instanceQueue i) = None /\
     rec_subHealthRecord i !! id = Some a /\ rec_evictingRecord i !! id = None) \/
  (old_status id i = KernelInstanceStatusEvicting /\ q_GetByID h id (rec_instanceQueue i) = None /\
     rec_subHealthRecord i !! id = None /\ rec_evictingRecord i !! id = Some a).
Proof.
  intros [R1 R2 R3 R4 R5]. unfold rec_GetByID, old_status.
  destruct (rec_subHealthRecord i !! id) as [b|] eqn:E1.
  { intros [= ->]. rewrite (R5 id a E1), !decide_False, decide_True by (by eauto || by intros []).
    right. left. destruct (q_GetByID h id (rec_instanceQueue i)) eqn:E; [by apply R4 in E as [? _]; congruence|done]. }
  destruct (rec_evictingRecord i !! id) as [b|] eqn:E2.
  { intros [= ->]. rewrite decide_True by eauto. right. right.
    destruct (q_GetByID h id (rec_instanceQueue i)) eqn:E; [by apply R4 in E as [_ ?]; congruence|done]. }
  intros Ha. rewrite !decide_False by (by intros []). by left.
Qed.

(** A queue with one element less. *)
Lemma q_less h q q' a :
  q_ok h q -> q_ok h q' -> q_items q ≡ₚ a :: q_items q' ->
  q_GetByID h (getInstanceID h a) q' = None /\
  (forall id', id' <> getInstanceID h a -> q_GetByID h id' q' = q_GetByID h id' q).
Proof.
  intros Hq Hq' Hp. split.
  - destruct (q_GetByID h (getInstanceID h a) q') as [c|] eqn:Hc; [|done].
    apply (q_get_ok h) in Hc as [Hc Hidc]; [|done]. pose proof (q_nodup h _ Hq) as Hnd. rewrite Hp, fmap_cons in Hnd.
    apply NoDup_cons in Hnd as [Hnin _]. destruct Hnin. rewrite <- Hidc. by apply list_elem_of_fmap_2.
  - intros id' Hne.
    assert (forall c, q_GetByID h id' q' = Some c <-> q_GetByID h id' q = Some c) as Hiff.
    { intros c. rewrite !(q_get_ok h) by done. rewrite Hp, elem_of_cons. split; [tauto|].
      intros [[->|?] ?]; [congruence|done]. }
    destruct (q_GetByID h id' q') as [c|]; [symmetry; by apply Hiff|].
    destruct (q_GetByID h id' q) as [c|]; [by apply Hiff|done].
Qed.

Lemma q_push_get h q id a :
  q_ok h q -> q_GetByID h id q = None -> is_Some (h !! a) -> getInstanceID h a = id ->
  exists q', q_PushBack h a q = (None, q') /\ q_ok h q' /\ q_items q' ≡ₚ a :: q_items q /\
    q_GetByID h id q' = Some a /\ (forall id', id' <> id -> q_GetByID h id' q' = q_GetByID h id' q).
Proof.
  intros Hq Hn Hv Hid.
  assert (getInstanceID h a ∉ getInstanceID h <$> q_items q) as Hnew.
  { intros (b & Hb & Hin)%list_elem_of_fmap. assert (q_GetByID h id q = Some b); [|congruence].
    apply (q_get_ok h); [done|]. split; [done|congruence]. }
  destruct (q_push_ok h _ a Hq Hv Hnew) as (q' & -> & Hq' & Hp). exists q'. split_and!; try done.
  - apply (q_get_ok h); [done|]. split; [|done]. rewrite Hp. left.
  - intros id' Hne. assert (forall c, q_GetByID h id' q' = Some c <-> q_GetByID h id' q = Some c) as Hiff.
    { intros c. rewrite !(q_get_ok h) by done. rewrite Hp, elem_of_cons. split; [|tauto].
      intros [[->|?] ?]; [congruence|done]. }
    destruct (q_GetByID h id' q') as [c|]; [symmetry; by apply Hiff|].
    destruct (q_GetByID h id' q) as [c|]; [by apply Hiff|done].
Qed.

(** Taking an element out takes its contribution out. *)
Definition removed h id a i i' : Prop :=
  rec_ok h i' /\ rec_GetByID h id i' = None /\
  (forall id', id' <> id -> rec_GetByID h id' i' = rec_GetByID h id' i /\ old_status id' i' = old_status id' i) /\
  expected h i = gadd (expected h i') (contribution h (old_status id i) a).

Lemma removed_queue h i id a q' :
  rec_ok h i -> q_GetByID h id (rec_instanceQueue i) = Some a -> q_ok h q' ->
  q_items (rec_instanceQueue i) ≡ₚ a :: q_items q' ->
  removed h id a i (mkRec q' (rec_subHealthRecord i) (rec_evictingRecord i)).
Proof.
  intros Hok Hg Hq' Hp. pose proof Hok as [R1 R2 R3 R4 R5]. destruct (R4 id a Hg) as [Hs He].
  assert (old_status id i = KernelInstanceStatusRunning) as Hst.
  { unfold old_status. rewrite Hs, He, !decide_False by (by intros []). done. }
  apply (q_get_ok h) in Hg as [_ Hid]; [|done]. destruct (q_less h _ q' a R1 Hq' Hp) as [Hn Ho]. rewrite Hid in Hn, Ho.
  split_and!.
  - split; simpl; try done. intros id' b Hb. destruct (decide (id' = id)) as [->|Hne]; [congruence|].
    rewrite Ho in Hb by done. by eapply R4.
  - unfold rec_GetByID. simpl. by rewrite Hs, He.
  - intros id' Hne. split; [|done]. unfold rec_GetByID. simpl. by rewrite Ho.
  - rewrite Hst. unfold expected, contribution. simpl. rewrite Hp. gauges.
Qed.

Lemma removed_sub h i id a :
  rec_ok h i -> rec_subHealthRecord i !! id = Some a ->
  removed h id a i (mkRec (rec_instanceQueue i) (delete id (rec_subHealthRecord i)) (rec_evictingRecord i)).
Proof.
  intros Hok Hs. pose proof Hok as [R1 R2 R3 R4 R5]. pose proof (R5 id a Hs) as He.
  destruct (q_GetByID h id (rec_instanceQueue i)) as [b|] eqn:Hg; [apply R4 in Hg as [? _]; congruence|].
  split_and!.
  - split; simpl; [done| |done| |].
    + intros id' b [_ Hb]%lookup_delete_Some. by apply R2.
    + intros id' b Hb. destruct (decide (id' = id)) as [->|Hne]; [congruence|].
      rewrite lookup_delete_ne by done. by eapply R4.
    + intros id' b [_ Hb]%lookup_delete_Some. by eapply R5.
  - unfold rec_GetByID. simpl. by rewrite lookup_delete_eq, He.
  - intros id' Hne. unfold rec_GetByID, old_status. simpl. by rewrite lookup_delete_ne.
  - unfold old_status. rewrite He, Hs, decide_False, decide_True by (by eauto || by intros []).
    unfold expected, contribution. simpl. rewrite !(msum_delete _ _ _ _ Hs). gauges.
Qed.

Lemma removed_evicting h i id a :
  rec_ok h i -> rec_evictingRecord i !! id = Some a ->
  removed h id a i (mkRec (rec_instanceQueue i) (rec_subHealthRecord i) (delete id (rec_evictingRecord i))).
Proof.
  intros Hok He. pose proof Hok as [R1 R2 R3 R4 R5].
  destruct (q_GetByID h id (rec_instanceQueue i)) as [b|] eqn:Hg; [apply R4 in Hg as [_ ?]; congruence|].
  destruct (rec_subHealthRecord i !! id) as [b|] eqn:Hs; [apply R5 in Hs; congruence|].
  split_and!.
  - split; simpl; [done|done| | |].
    + intros id' b [_ Hb]%lookup_delete_Some. by apply R3.
    + intros id' b Hb. destruct (decide (id' = id)) as [->|Hne]; [congruence|].
      rewrite lookup_delete_ne by done. by eapply R4.
    + intros id' b Hb. destruct (decide (id' = id)) as [->|Hne]; [congruence|].
      rewrite lookup_delete_ne by done. by eapply R5.
  - unfold rec_GetByID. simpl. by rewrite lookup_delete_eq, Hs.
  - intros id' Hne. unfold rec_GetByID, old_status. simpl. by rewrite lookup_delete_ne.
  - unfold old_status. rewrite decide_True by eauto. unfold expected, contribution. simpl. gauges.
Qed.

Lemma rec_remove_spec h i id a :
  rec_ok h i -> rec_GetByID h id i = Some a -> removed h id a i (rec_remove h id i).
Proof.
  intros Hok Hget. unfold rec_remove. pose proof (q_del_ok h (rec_instanceQueue i) id (ro_queue h i Hok)) as Hdel.
  destruct (old_status_cases h i id a Hok Hget) as [(_ & Hg & Hs & He)|[(_ & Hg & Hs & He)|(_ & Hg & Hs & He)]];
    rewrite Hg in Hdel.
  - destruct Hdel as (q' & -> & Hq' & Hp). simpl. rewrite (delete_id _ id Hs), (delete_id _ id He).
    by apply removed_queue.
  - rewrite Hdel. simpl. rewrite (delete_id _ id He). by apply removed_sub.
  - rewrite Hdel. simpl. rewrite (delete_id _ id Hs). by apply removed_evicting.
Qed.

Definition known_status (s : Z) : Prop :=
  s = KernelInstanceStatusRunning \/ s = KernelInstanceStatusSubHealth \/ s = KernelInstanceStatusEvicting.

(** Putting an element in adds its contribution. *)
Definition placed h id a i i' : Prop :=
  rec_ok h i' /\ rec_GetByID h id i' = Some a /\ old_status id i' = status_at h a /\
  (forall id', id' <> id -> rec_GetByID h id' i' = rec_GetByID h id' i /\ old_status id' i' = old_status id' i) /\
  expected h i' = gadd (expected h i) (contribution h (status_at h a) a).

Lemma place_running h i id a :
  rec_ok h i -> rec_GetByID h id i = None -> is_Some (h !! a) -> getInstanceID h a = id ->
  status_at h a = KernelInstanceStatusRunning ->
  exists q', q_PushBack h a (rec_instanceQueue i) = (None, q') /\
    placed h id a i (mkRec q' (rec_subHealthRecord i) (rec_evictingRecord i)).
Proof.
  intros [R1 R2 R3 R4 R5] Hget Hv Hid Hst. unfold rec_GetByID in Hget.
  destruct (rec_subHealthRecord i !! id) eqn:Hs; [done|]. destruct (rec_evictingRecord i !! id) eqn:He; [done|].
  destruct (q_push_get h _ id a R1 Hget Hv Hid) as (q' & -> & Hq' & Hp & Hga & Hgo). exists q'. split; [done|].
  unfold placed. rewrite Hst. split_and!.
  - split; simpl; try done. intros id' b Hb. destruct (decide (id' = id)) as [->|Hne]; [done|].
    rewrite Hgo in Hb by done. by eapply R4.
  - unfold rec_GetByID. simpl. by rewrite Hs, He.
  - unfold old_status. simpl. rewrite Hs, He, !decide_False by (by intros []). done.
  - intros id' Hne. split; [|done]. unfold rec_GetByID. simpl. by rewrite Hgo.
  - unfold expected, contribution. simpl. rewrite Hp. gauges.
Qed.

Lemma place_sub h i id a :
  rec_ok h i -> rec_GetByID h id i = None -> is_Some (h !! a) -> getInstanceID h a = id ->
  status_at h a = KernelInstanceStatusSubHealth ->
  placed h id a i (mkRec (rec_instanceQueue i) (<[id:=a]> (rec_subHealthRecord i)) (rec_evictingRecord i)).
Proof.
  intros [R1 R2 R3 R4 R5] Hget Hv Hid Hst. unfold rec_GetByID in Hget.
  destruct (rec_subHealthRecord i !! id) eqn:Hs; [done|]. destruct (rec_evictingRecord i !! id) eqn:He; [done|].
  unfold placed. rewrite Hst. split_and!.
  - split; simpl; [done| |done| |].
    + intros id' b [[<- <-]|[_ Hb]]%lookup_insert_Some; [done|by apply R2].
    + intros id' b Hb. destruct (decide (id' = id)) as [->|Hne]; [congruence|].
      rewrite lookup_insert_ne by done. by eapply R4.
    + intros id' b [[<- <-]|[_ Hb]]%lookup_insert_Some; [done|by eapply R5].
  - unfold rec_GetByID. simpl. by rewrite lookup_insert_eq.
  - unfold old_status. simpl. rewrite He, lookup_insert_eq, decide_False, decide_True by (by eauto || by intros []). done.
  - intros id' Hne. unfold rec_GetByID, old_status. simpl. by rewrite lookup_insert_ne.
  - unfold expected, contribution. simpl. rewrite !msum_insert by done. gauges.
Qed.

Lemma place_evicting h i id a :
  rec_ok h i -> rec_GetByID h id i = None -> is_Some (h !! a) -> getInstanceID h a = id ->
  status_at h a = KernelInstanceStatusEvicting ->
  placed h id a i (mkRec (rec_instanceQueue i) (rec_subHealthRecord i) (<[id:=a]> (rec_evictingRecord i))).
Proof.
  intros [R1 R2 R3 R4 R5] Hget Hv Hid Hst. unfold rec_GetByID in Hget.
  destruct (rec_subHealthRecord i !! id) eqn:Hs; [done|]. destruct (rec_evictingRecord i !! id) eqn:He; [done|].
  unfold placed. rewrite Hst. split_and!.
  - split; simpl; [done|done| | |].
    + intros id' b [[<- <-]|[_ Hb]]%lookup_insert_Some; [done|by apply R3].
    + intros id' b Hb. destruct (decide (id' = id)) as [->|Hne]; [congruence|].
      rewrite lookup_insert_ne by done. by eapply R4.
    + intros id' b Hb. destruct (decide (id' = id)) as [->|Hne]; [congruence|].
      rewrite lookup_insert_ne by done. by eapply R5.
  - unfold rec_GetByID. simpl. by rewrite Hs, lookup_insert_eq.
  - unfold old_status. simpl. rewrite lookup_insert_eq, decide_True by eauto. done.
  - intros id' Hne. unfold rec_GetByID, old_status. simpl. by rewrite lookup_insert_ne.
  - unfold expected, contribution. simpl. gauges.
Qed.

Lemma rec_place_spec h i id a :
  rec_ok h i -> rec_GetByID h id i = None -> is_Some (h !! a) -> getInstanceID h a = id ->
  known_status (status_at h a) ->
  exists i', rec_place h id a i = (None, i') /\ placed h id a i i'.
Proof.
  intros Hok Hget Hv Hid Hst. unfold rec_place. destruct Hst as [Hst|[Hst|Hst]]; rewrite Hst; simpl.
  - destruct (place_running h i id a Hok Hget Hv Hid Hst) as (q' & -> & Hpl). by eexists.
  - eexists. split; [done|]. by apply place_sub.
  - eexists. split; [done|]. by apply place_evicting.
Qed.

(** ** Writing an element *)

(** The element at [a] becomes another of the same id. *)
Lemma same_ids_insert h a e e' :
  h !! a = Some e -> in_InstanceID (el_instance e') = in_InstanceID (el_instance e) -> same_ids h (<[a:=e']> h).
Proof.
  intros He Hid b x Hb. destruct (decide (a = b)) as [<-|Hne].
  - exists e'. rewrite He in Hb. injection Hb as <-. split; [|done].
    apply list_lookup_insert_eq. by eapply lookup_lt_Some.
  - exists x. by rewrite list_lookup_insert_ne.
Qed.

Lemma at_insert h a e e' :
  h !! a = Some e ->
  avail_at (<[a:=e']> h) a = threads e' /\ conc_at (<[a:=e']> h) a = in_ConcurrentNum (el_instance e') /\
  status_at (<[a:=e']> h) a = in_StatusCode (el_instance e').
Proof.
  intros He%lookup_lt_Some. unfold avail_at, conc_at, status_at. by rewrite list_lookup_insert_eq.
Qed.

Lemma at_insert_ne h a b e' :
  b <> a -> avail_at (<[a:=e']> h) b = avail_at h b /\ conc_at (<[a:=e']> h) b = conc_at h b /\
            used_at (<[a:=e']> h) b = used_at h b /\ status_at (<[a:=e']> h) b = status_at h b.
Proof. intros Hne. unfold used_at, avail_at, conc_at, status_at. by rewrite list_lookup_insert_ne. Qed.

Lemma sub_msum_write h i id a e' (f : elems -> nat -> Z) :
  rec_ok h i -> getInstanceID h a = id -> (forall b, b <> a -> f (<[a:=e']> h) b = f h b) ->
  msum (fun _ b => f (<[a:=e']> h) b) (rec_subHealthRecord i) =
  msum (fun _ b => f h b) (rec_subHealthRecord i) +
  (if decide (rec_subHealthRecord i !! id = Some a) then f (<[a:=e']> h) a - f h a else 0).
Proof.
  intros Hok Hid Hf. case_decide as Hd.
  - pose proof (msum_delete (fun _ b => f (<[a:=e']> h) b) _ _ _ Hd) as H1.
    pose proof (msum_delete (fun _ b => f h b) _ _ _ Hd) as H2. cbv beta in H1, H2.
    assert (msum (fun _ b => f (<[a:=e']> h) b) (delete id (rec_subHealthRecord i)) =
            msum (fun _ b => f h b) (delete id (rec_subHealthRecord i))) as H3; [|lia].
    apply msum_ext. intros id' b [Hne Hb]%lookup_delete_Some. apply Hf. intros ->.
    apply (ro_sub h i Hok) in Hb as [_ Hb]. congruence.
  - rewrite Z.add_0_r. apply msum_ext. intros id' b Hb. apply Hf. intros ->. apply Hd.
    pose proof (ro_sub h i Hok _ _ Hb) as [_ Hid']. congruence.
Qed.

Lemma queue_lsum_write h i id a e' (f : elems -> nat -> Z) :
  rec_ok h i -> getInstanceID h a = id -> (forall b, b <> a -> f (<[a:=e']> h) b = f h b) ->
  lsum (f (<[a:=e']> h)) (q_items (rec_instanceQueue i)) =
  lsum (f h) (q_items (rec_instanceQueue i)) +
  (if decide (q_GetByID h id (rec_instanceQueue i) = Some a) then f (<[a:=e']> h) a - f h a else 0).
Proof.
  intros Hok Hid Hf. pose proof (ro_queue h i Hok) as Hq. case_decide as Hd.
  - pose proof (q_del_ok h _ id Hq) as Hdel. rewrite Hd in Hdel. destruct Hdel as (q' & _ & _ & Hp).
    rewrite Hp. simpl. rewrite (lsum_ext (f (<[a:=e']> h)) (f h) (q_items q')); [lia|].
    intros b Hb. apply Hf. intros ->. pose proof (q_nodup h _ Hq) as Hnd. rewrite Hp, fmap_cons in Hnd.
    apply NoDup_cons in Hnd as [Hnd _]. apply Hnd. by apply list_elem_of_fmap_2.
  - rewrite Z.add_0_r. apply lsum_ext. intros b Hb. apply Hf. intros ->. apply Hd. by apply (q_get_ok h).
Qed.

Lemma expected_write h i id a e' :
  rec_ok h i -> rec_GetByID h id i = Some a ->
  gadd (expected (<[a:=e']> h) i) (contribution h (old_status id i) a) =
  gadd (expected h i) (contribution (<[a:=e']> h) (old_status id i) a).
Proof.
  intros Hok Hget. destruct (rec_get_id h i id a Hok Hget) as [_ Hid]. unfold expected.
  pose proof (fun b Hb => proj1 (at_insert_ne h a b e' Hb)) as H1.
  pose proof (fun b Hb => proj1 (proj2 (at_insert_ne h a b e' Hb))) as H2.
  pose proof (fun b Hb => proj1 (proj2 (proj2 (at_insert_ne h a b e' Hb)))) as H3.
  rewrite !(queue_lsum_write h i id a e' _ Hok Hid) by done.
  rewrite !(sub_msum_write h i id a e' _ Hok Hid) by done. unfold contribution.
  destruct (old_status_cases h i id a Hok Hget) as [(-> & Hg & Hs & _)|[(-> & Hg & Hs & _)|(-> & Hg & Hs & _)]];
    rewrite Hg, Hs; simpl; rewrite ?decide_True, ?decide_False by done; gauges.
Qed.

(** ** The publishing queue *)

(** The records match the statuses, and the counts the free threads. *)
Record obs_inv h o : Prop := {
  oi_ok : rec_ok h (obs_rec o);
  oi_status : forall id a, rec_GetByID h id (obs_rec o) = Some a -> old_status id (obs_rec o) = status_at h a;
  oi_count : forall id a, rec_GetByID h id (obs_rec o) = Some a ->
    obs_insAvailThdCount o !! id = Some (avail_at h a)
}.

Lemma oi_known h o id a : obs_inv h o -> rec_GetByID h id (obs_rec o) = Some a -> known_status (status_at h a).
Proof.
  intros Hinv Hg. rewrite <- (oi_status h o Hinv id a Hg). unfold old_status.
  by repeat case_decide; [right; right|right; left|left].
Qed.

(** How far the published sums are from the truth after an update of an element
    with [d] more free threads. *)
Definition update_drift h (old : Z) a (d : Z) : gauges :=
  let new := status_at h a in
  if old =? KernelInstanceStatusRunning then
    if new =? KernelInstanceStatusRunning then no_gauges else mkGauges (- d) d 0
  else if old =? KernelInstanceStatusSubHealth then
    if new =? KernelInstanceStatusRunning then no_gauges else mkGauges 0 d 0
  else
    let c := contribution h new a in mkGauges (- g_avail c) (- g_inuse c) (- g_total c).

Lemma obs_Update_spec h o id a e e' :
  obs_inv h o -> rec_GetByID h id (obs_rec o) = Some a -> h !! a = Some e ->
  in_InstanceID (el_instance e') = in_InstanceID (el_instance e) ->
  in_ConcurrentNum (el_instance e') = in_ConcurrentNum (el_instance e) ->
  known_status (in_StatusCode (el_instance e')) ->
  let h' := <[a:=e']> h in
  exists pubs o', obs_UpdateObjByID h' id a o = (None, pubs, o') /\ obs_inv h' o' /\
    gadd (expected h (obs_rec o)) (gsum pubs) =
    gadd (expected h' (obs_rec o')) (update_drift h' (status_at h a) a (threads e' - threads e)).
Proof.
  intros [Hok Hst Hct] Hget He Hid Hconc Hknown h'. pose proof (same_ids_insert h a e e' He Hid) as Hs.
  pose proof (rec_frame h h' _ Hok Hs) as Hok'. pose proof (rec_get_frame h h' _ id Hok Hs) as Hget'. rewrite Hget in Hget'.
  destruct (rec_get_id h' _ id a Hok' Hget') as [Hv Hid'].
  destruct (at_insert h a e e' He) as (Ha' & Hc' & Hs'). fold h' in Ha', Hc', Hs'.
  destruct (rec_remove_spec h' _ id a Hok' Hget') as (Hok1 & Hget1 & Hot1 & Hexp1).
  rewrite <- Hs' in Hknown.
  destruct (rec_place_spec h' _ id a Hok1 Hget1 Hv Hid' Hknown) as (i2 & Hpl & Hok2 & Hget2 & Hst2 & Hot2 & Hexp2).
  unfold obs_UpdateObjByID, rec_UpdateObjByID. rewrite rec_exists_get, Hget', bool_decide_eq_true_2 by eauto.
  simpl negb. cbn match. rewrite Hpl, (Hct id a Hget). eexists _, _. split; [done|]. split.
  - split; simpl; [done| |].
    + intros id' b Hb. destruct (decide (id' = id)) as [->|Hne]; [by rewrite Hget2 in Hb; injection Hb as <-|].
      destruct (Hot2 id' Hne) as [Hg2 ->]. destruct (Hot1 id' Hne) as [Hg1 ->]. rewrite Hg2, Hg1, (rec_get_frame h) in Hb by done.
      assert (b <> a) as Hba by (intros ->; destruct (rec_get_id h _ id' a Hok Hb); destruct (rec_get_id h _ id a Hok Hget); congruence).
      rewrite (Hst id' b Hb). symmetry. by apply at_insert_ne.
    + intros id' b Hb. destruct (decide (id' = id)) as [->|Hne]; [rewrite Hget2 in Hb; injection Hb as <-; apply lookup_insert_eq|].
      destruct (Hot2 id' Hne) as [Hg2 _]. destruct (Hot1 id' Hne) as [Hg1 _]. rewrite Hg2, Hg1, (rec_get_frame h) in Hb by done.
      assert (b <> a) as Hba by (intros ->; destruct (rec_get_id h _ id' a Hok Hb); destruct (rec_get_id h _ id a Hok Hget); congruence).
      rewrite lookup_insert_ne by done. rewrite (Hct id' b Hb). f_equal. symmetry. by apply at_insert_ne.
  - pose proof (expected_write h _ id a e' Hok Hget) as Hw. fold h' in Hw. simpl.
    assert (avail_at h a = threads e /\ conc_at h a = in_ConcurrentNum (el_instance e)) as [Ha Hc]
      by (unfold avail_at, conc_at; by rewrite He).
    rewrite Hexp2. rewrite Hexp1 in Hw. rewrite (Hst id a Hget) in Hw |- *.
    pose proof (oi_known h o id a (Build_obs_inv _ _ Hok Hst Hct) Hget) as Hkold.
    unfold update_drift, contribution, handleHealthInstanceUpdateMetrics, handleSubHealthInstanceUpdateMetrics, used_at in *.
    destruct Hkold as [Ho|[Ho|Ho]], Hknown as [Hn|[Hn|Hn]]; rewrite Ho, Hn in *; simpl in *; unfold gsum, used_at; simpl;
      injection Hw as W1 W2 W3; gauges.
Qed.

Lemma obs_removed h o id a i' count :
  obs_inv h o -> removed h id a (obs_rec o) i' ->
  (forall id', id' <> id -> count !! id' = obs_insAvailThdCount o !! id') -> obs_inv h (mkObs i' count).
Proof.
  intros [Hok Hst Hct] (Hok' & Hn & Ho & _) Hc. split; simpl; [done| |]; intros id' b Hb;
    (destruct (decide (id' = id)) as [->|Hne]; [congruence|]); destruct (Ho id' Hne) as [Hg Hs].
  - rewrite Hs. rewrite Hg in Hb. by apply Hst.
  - rewrite Hc by done. rewrite Hg in Hb. by apply Hct.
Qed.

Lemma gsum_gone h a : gsum (pub_gone h a) = mkGauges (- avail_at h a) (- used_at h a) (- conc_at h a).
Proof. done. Qed.

Lemma obs_Del_spec h o id a :
  obs_inv h o -> rec_GetByID h id (obs_rec o) = Some a ->
  exists pubs o', obs_DelByID h id o = (None, pubs, o') /\ obs_inv h o' /\
    gadd (expected h (obs_rec o)) (gsum pubs) = expected h (obs_rec o').
Proof.
  intros Hinv Hget. pose proof Hinv as [Hok Hst Hct]. unfold obs_DelByID. case_decide as Hd.
  - destruct Hd as [b Hb]. assert (b = a) as ->.
    { destruct (old_status_cases h _ id a Hok Hget) as [(_ & _ & _ & ?)|[(_ & _ & _ & ?)|(_ & _ & _ & ?)]]; congruence. }
    pose proof (removed_evicting h _ id a Hok Hb) as Hr. eexists _, _. split; [done|].
    split; [by eapply obs_removed|]. destruct Hr as (_ & _ & _ & ->). unfold old_status.
    rewrite decide_True by eauto. unfold contribution, gsum. simpl. gauges.
  - rewrite Hget. unfold rec_DelByID. rewrite rec_exists_get, Hget, bool_decide_eq_true_2 by eauto. simpl negb.
    cbn match. pose proof (rec_remove_spec h _ id a Hok Hget) as Hr. eexists _, _. split; [done|].
    destruct (rec_get_id h _ id a Hok Hget) as [_ Hid]. split.
    { eapply obs_removed; [done|exact Hr|]. intros id' Hne. rewrite Hid. by rewrite lookup_delete_ne. }
    destruct Hr as (_ & _ & _ & ->). rewrite (Hst id a Hget). unfold contribution, gsum, pub_gone, pub_gone_sub.
    repeat case_bool; unfold used_at; simpl; gauges.
Qed.

Lemma obs_pop_spec h o id a i' pub :
  obs_inv h o -> removed h id a (obs_rec o) i' -> getInstanceID h a = id ->
  gadd (contribution h (old_status id (obs_rec o)) a) (gsum (pub h a)) = no_gauges ->
  exists o', obs_pop h pub (Some a, i') o = (Some a, pub h a, o') /\ obs_inv h o' /\
    gadd (expected h (obs_rec o)) (gsum (pub h a)) = expected h (obs_rec o').
Proof.
  intros Hinv Hr Hid Hp. eexists. split; [done|]. split.
  - eapply obs_removed; [done|exact Hr|]. intros id' Hne. rewrite Hid. by rewrite lookup_delete_ne.
  - destruct Hr as (_ & _ & _ & ->). simpl. injection Hp as P1 P2 P3. gauges.
Qed.

Lemma obs_Push_spec h o a :
  obs_inv h o -> is_Some (h !! a) -> rec_GetByID h (getInstanceID h a) (obs_rec o) = None ->
  known_status (status_at h a) ->
  exists pubs o', obs_PushBack h a o = (None, pubs, o') /\ obs_inv h o' /\
    rec_GetByID h (getInstanceID h a) (obs_rec o') = Some a /\
    gadd (expected h (obs_rec o)) (gsum pubs) =
    gadd (expected h (obs_rec o'))
      (mkGauges 0 (if status_at h a =? KernelInstanceStatusEvicting then 0 else - used_at h a) 0).
Proof.
  intros [Hok Hst Hct] Hv Hn Hknown. unfold obs_PushBack, rec_PushBack.
  rewrite rec_exists_get, Hn, bool_decide_eq_false_2 by (by intros []). cbn match.
  destruct (rec_place_spec h _ (getInstanceID h a) a Hok Hn Hv eq_refl Hknown) as (i' & -> & Hok' & Hg & Hs & Ho & He).
  eexists _, _. split; [done|]. split; [|split; [done|]].
  - split; simpl; [done| |]; intros id b Hb; (destruct (decide (id = getInstanceID h a)) as [->|Hne];
      [rewrite Hg in Hb; injection Hb as <-|destruct (Ho id Hne) as [Hg' Hs']; rewrite Hg' in Hb]).
    + done.
    + rewrite Hs'. by apply Hst.
    + apply lookup_insert_eq.
    + rewrite lookup_insert_ne by done. by apply Hct.
  - simpl. rewrite He. unfold contribution, gsum.
    destruct Hknown as [Hk|[Hk|Hk]]; rewrite Hk; simpl; unfold used_at; gauges.
Qed.

(** ** Runs *)

(** What happens to a scheduler's own queue: an element is made and pushed, the
    front, the back or a sub-healthy one is popped, an id is deleted, an
    element is changed and updated. *)
Inductive obs_event :=
  | ObPush (e : instanceElement)
  | ObPopFront
  | ObPopBack
  | ObPopSubHealth (order : list string)
  | ObDel (objID : string)
  | ObUpdate (objID : string) (e : instanceElement).

Definition obs_step h o (ev : obs_event) : list publication * (elems * instanceQueueWithObserver Q) :=
  match ev with
  | ObPush e =>
      let h := h ++ [e] in
      let '(_, pubs, o) := obs_PushBack h (length h - 1) o in (pubs, (h, o))
  | ObPopFront => let '(_, pubs, o) := obs_PopFront h o in (pubs, (h, o))
  | ObPopBack => let '(_, pubs, o) := obs_PopBack h o in (pubs, (h, o))
  | ObPopSubHealth order => let '(_, pubs, o) := obs_PopSubHealth h order o in (pubs, (h, o))
  | ObDel id => let '(_, pubs, o) := obs_DelByID h id o in (pubs, (h, o))
  | ObUpdate id e =>
      match rec_GetByID h id (obs_rec o) with
      | None => ([], (h, o))
      | Some a =>
          let h := <[a:=e]> h in
          let '(_, pubs, o) := obs_UpdateObjByID h id a o in (pubs, (h, o))
      end
  end.
Fixpoint obs_run h o (evs : list obs_event) : list publication * (elems * instanceQueueWithObserver Q) :=
  match evs with
  | [] => ([], (h, o))
  | ev :: evs =>
      let '(p, (h, o)) := obs_step h o ev in
      let '(ps, ho) := obs_run h o evs in (p ++ ps, ho)
  end.

(** The free threads may change while an instance runs, stays evicting, or comes
    back from sub-health; an evicting instance stays so. *)
Definition orderly_change (e e' : instanceElement) : Prop :=
  let s := in_StatusCode (el_instance e) in
  let s' := in_StatusCode (el_instance e') in
  in_InstanceID (el_instance e') = in_InstanceID (el_instance e) /\
  in_ConcurrentNum (el_instance e') = in_ConcurrentNum (el_instance e) /\
  known_status s' /\
  (s = KernelInstanceStatusEvicting -> s' = KernelInstanceStatusEvicting) /\
  (threads e' = threads e \/ s' = KernelInstanceStatusRunning \/ s = KernelInstanceStatusEvicting).
Definition orderly_event h o (ev : obs_event) : Prop :=
  match ev with
  | ObPush e => known_status (in_StatusCode (el_instance e)) /\ threads e = in_ConcurrentNum (el_instance e)
  | ObUpdate id e' =>
      match rec_GetByID h id (obs_rec o) ≫= fun a => h !! a with Some e => orderly_change e e' | None => True end
  | _ => True
  end.
Fixpoint orderly h o (evs : list obs_event) : Prop :=
  match evs with
  | [] => True
  | ev :: evs => orderly_event h o ev /\ orderly (obs_step h o ev).2.1 (obs_step h o ev).2.2 evs
  end.

Lemma popped_sub h i order a :
  getSubHealthInstanceFromRecord h (omap (fun id => rec_subHealthRecord i !! id) order) = Some a ->
  exists id, rec_subHealthRecord i !! id = Some a.
Proof.
  intros Ha. assert (a ∈ omap (fun id => rec_subHealthRecord i !! id) order) as Hin.
  { unfold getSubHealthInstanceFromRecord in Ha. revert Ha.
    generalize (omap (fun id => rec_subHealthRecord i !! id) order) as l.
    induction l as [|v l IH] using rev_ind; [done|]. rewrite fold_left_app. simpl.
    rewrite elem_of_app, list_elem_of_singleton. destruct (fold_left _ l None) as [x|]; [|intros [= <-]; by right].
    case_bool; intros [= <-]; [by right|left; by apply IH]. }
  apply list_elem_of_omap in Hin as (id & _ & Hid). by exists id.
Qed.

Lemma rec_frame_app h i e : rec_ok h i -> rec_ok (h ++ [e]) i /\ same_ids h (h ++ [e]).
Proof.
  intros Hok. assert (same_ids h (h ++ [e])) as Hs.
  { intros a x Hx. exists x. split; [by apply lookup_app_l_Some|done]. }
  split; [by eapply rec_frame|done].
Qed.

Lemma at_app h e a : is_Some (h !! a) -> avail_at (h ++ [e]) a = avail_at h a /\ conc_at (h ++ [e]) a = conc_at h a /\
  status_at (h ++ [e]) a = status_at h a.
Proof. intros [x Hx]. unfold avail_at, conc_at, status_at. by rewrite (lookup_app_l_Some _ _ _ _ Hx), Hx. Qed.

Lemma expected_app h i e : rec_ok h i -> expected (h ++ [e]) i = expected h i.
Proof.
  intros Hok. unfold expected.
  assert (forall a, a ∈ q_items (rec_instanceQueue i) -> is_Some (h !! a)) as Hq by (intros; eapply q_valid; [apply Hok|done]).
  assert (forall id a, rec_subHealthRecord i !! id = Some a -> is_Some (h !! a)) as Hs by (intros id a ?; by eapply (ro_sub h i Hok)).
  unfold used_at. f_equal; [|f_equal|f_equal]; first [apply lsum_ext|apply msum_ext].
  - intros a Ha. apply (at_app h e a), Hq, Ha.
  - intros a Ha. by destruct (at_app h e a (Hq a Ha)) as (-> & -> & _).
  - intros k a Ha. by destruct (at_app h e a (Hs k a Ha)) as (-> & -> & _).
  - intros a Ha. by destruct (at_app h e a (Hq a Ha)) as (_ & -> & _).
  - intros k a Ha. by destruct (at_app h e a (Hs k a Ha)) as (_ & -> & _).
Qed.

Lemma obs_inv_app h o e : obs_inv h o -> obs_inv (h ++ [e]) o.
Proof.
  intros [Hok Hst Hct]. destruct (rec_frame_app h _ e Hok) as [Hok' Hs]. split; [done| |];
    intros id a Ha; rewrite (rec_get_frame h) in Ha by done;
    destruct (at_app h e a (proj1 (rec_get_id h _ id a Hok Ha))) as (Hav & _ & Hstat).
  - rewrite Hstat. by apply Hst.
  - rewrite Hav. by apply Hct.
Qed.

(** An element that is at the end of the heap. *)
Lemma at_end h e : (h ++ [e]) !! (length (h ++ [e]) - 1)%nat = Some e.
Proof. rewrite length_app. simpl. replace (length h + 1 - 1)%nat with (length h) by lia. by apply list_lookup_middle. Qed.

Definition step_exact h o (r : list publication * (elems * instanceQueueWithObserver Q)) : Prop :=
  obs_inv r.2.1 r.2.2 /\ gadd (expected h (obs_rec o)) (gsum r.1) = expected r.2.1 (obs_rec r.2.2).

Lemma step_exact_refl h o : obs_inv h o -> step_exact h o ([], (h, o)).
Proof. intros Hi. split; [done|]. gauges. Qed.

Lemma push_exact h o e :
  obs_inv h o -> orderly_event h o (ObPush e) -> step_exact h o (obs_step h o (ObPush e)).
Proof.
  intros Hinv [Hk Hidle]. simpl. set (a := (length (h ++ [e]) - 1)%nat). pose proof (at_end h e) as Hl. fold a in Hl.
  pose proof (obs_inv_app h o e Hinv) as Hi. pose proof (expected_app h _ e (oi_ok h o Hinv)) as He.
  assert (getInstanceID (h ++ [e]) a = in_InstanceID (el_instance e) /\ avail_at (h ++ [e]) a = threads e /\
          conc_at (h ++ [e]) a = in_ConcurrentNum (el_instance e) /\
          status_at (h ++ [e]) a = in_StatusCode (el_instance e)) as (Hid & Hav & Hc & Hs).
  { unfold getInstanceID, avail_at, conc_at, status_at. by rewrite Hl. }
  destruct (rec_GetByID (h ++ [e]) (getInstanceID (h ++ [e]) a) (obs_rec o)) as [b|] eqn:Hg.
  - unfold obs_PushBack, rec_PushBack. rewrite rec_exists_get, Hg, bool_decide_eq_true_2 by eauto.
    cbn match. destruct o as [i c]. simpl. split; [done|]. simpl in *. rewrite He. gauges.
  - rewrite <- Hs in Hk. destruct (obs_Push_spec (h ++ [e]) o a Hi ltac:(eauto) Hg Hk) as (pubs & o' & -> & Hi' & _ & Hx).
    split; [done|]. simpl. rewrite <- He, Hx. unfold used_at. rewrite Hav, Hc, Hidle. repeat case_bool; gauges.
Qed.

Lemma update_exact h o id e' :
  obs_inv h o -> orderly_event h o (ObUpdate id e') -> step_exact h o (obs_step h o (ObUpdate id e')).
Proof.
  intros Hinv Hord. simpl in *. destruct (rec_GetByID h id (obs_rec o)) as [a|] eqn:Hg; [|by apply step_exact_refl].
  destruct (rec_get_id h _ id a (oi_ok h o Hinv) Hg) as [[e He] _].
  simpl in Hord. rewrite He in Hord. destruct Hord as (H1 & H2 & H3 & H4 & H5). pose proof (oi_known h o id a Hinv Hg) as Hk.
  destruct (obs_Update_spec h o id a e e' Hinv Hg He H1 H2 H3) as (pubs & o' & -> & Hi' & Hx). split; [done|]. simpl.
  rewrite Hx. unfold update_drift, contribution. destruct (at_insert h a e e' He) as (_ & _ & ->).
  assert (status_at h a = in_StatusCode (el_instance e)) as Hst by (unfold status_at; by rewrite He).
  rewrite Hst in Hk |- *. unfold known_status in *.
  repeat case_bool; try lia; gauges.
Qed.

Lemma pop_exact h o (r : option nat * instanceQueueWithSubHealthAndEvictingRecord Q) pub :
  obs_inv h o ->
  match r with
  | (None, i) => i = obs_rec o
  | (Some a, i) =>
      removed h (getInstanceID h a) a (obs_rec o) i /\
      gadd (contribution h (old_status (getInstanceID h a) (obs_rec o)) a) (gsum (pub h a)) = no_gauges
  end ->
  step_exact h o (let '(_, pubs, o) := obs_pop h pub r o in (pubs, (h, o))).
Proof.
  intros Hinv. destruct r as [[a|] i].
  - intros [Hr Hp]. destruct (obs_pop_spec h o _ a i pub Hinv Hr eq_refl Hp) as (o' & -> & Hi & Hx). done.
  - intros ->. simpl. destruct o as [i c]. by apply step_exact_refl.
Qed.

Lemma contribution_gone h a :
  gadd (contribution h KernelInstanceStatusRunning a) (gsum (pub_gone h a)) = no_gauges /\
  gadd (contribution h KernelInstanceStatusSubHealth a) (gsum (pub_gone_sub h a)) = no_gauges.
Proof. unfold contribution, gsum, pub_gone, pub_gone_sub, used_at. split; gauges. Qed.

Lemma popped_queue_id h i a q' :
  rec_ok h i -> q_items (rec_instanceQueue i) ≡ₚ a :: q_items q' ->
  q_GetByID h (getInstanceID h a) (rec_instanceQueue i) = Some a /\
  old_status (getInstanceID h a) i = KernelInstanceStatusRunning.
Proof.
  intros Hok Hp. assert (q_GetByID h (getInstanceID h a) (rec_instanceQueue i) = Some a) as Hg.
  { apply (q_get_ok h); [apply Hok|]. split; [rewrite Hp; left|done]. }
  split; [done|]. destruct (ro_disj_q h i Hok _ _ Hg) as [Hs He]. unfold old_status.
  rewrite Hs, He, !decide_False by (by intros []). done.
Qed.

Lemma popped_queue_exact h o a q' :
  obs_inv h o -> q_ok h q' -> q_items (rec_instanceQueue (obs_rec o)) ≡ₚ a :: q_items q' ->
  removed h (getInstanceID h a) a (obs_rec o)
    (mkRec q' (rec_subHealthRecord (obs_rec o)) (rec_evictingRecord (obs_rec o))) /\
  gadd (contribution h (old_status (getInstanceID h a) (obs_rec o)) a) (gsum (pub_gone h a)) = no_gauges.
Proof.
  intros Hinv Hq' Hp. pose proof (oi_ok h o Hinv) as Hok. destruct (popped_queue_id h _ a q' Hok Hp) as [Hg Hst].
  split; [by apply removed_queue|]. rewrite Hst. apply contribution_gone.
Qed.

Lemma obs_step_exact h o ev : obs_inv h o -> orderly_event h o ev -> step_exact h o (obs_step h o ev).
Proof.
  intros Hinv Hord. pose proof (oi_ok h o Hinv) as Hok. pose proof (ro_queue h _ Hok) as Hq.
  destruct ev as [e| | |order|id|id e]; [by apply push_exact| | | | |by apply update_exact]; simpl.
  - unfold obs_PopFront, rec_PopFront. pose proof (q_popfront_ok h _ Hq) as Hpop. apply pop_exact; [done|].
    destruct (q_PopFront (rec_instanceQueue (obs_rec o))) as [[a|] q'].
    + destruct Hpop as (_ & Hp & Hq'). by apply popped_queue_exact.
    + destruct Hpop as (-> & _). by destruct (obs_rec o).
  - unfold obs_PopBack, rec_PopBack. pose proof (q_popback_ok h _ Hq) as Hpop. apply pop_exact; [done|].
    destruct (q_PopBack (rec_instanceQueue (obs_rec o))) as [[a|] q'].
    + destruct Hpop as (_ & Hp & Hq'). by apply popped_queue_exact.
    + destruct Hpop as (-> & _). by destruct (obs_rec o).
  - unfold obs_PopSubHealth, rec_PopSubHealth. apply pop_exact; [done|].
    destruct (getSubHealthInstanceFromRecord _ _) as [a|] eqn:Ha; [|done].
    destruct (popped_sub h _ order a Ha) as [id Hid]. destruct (ro_sub h _ Hok id a Hid) as [_ Heq]. rewrite Heq.
    split; [by apply removed_sub|]. unfold old_status.
    rewrite Hid, (ro_disj h _ Hok id a Hid), decide_False, decide_True by (by eauto || by intros []).
    apply contribution_gone.
  - destruct (rec_GetByID h id (obs_rec o)) as [a|] eqn:Hg.
    + destruct (obs_Del_spec h o id a Hinv Hg) as (pubs & o' & -> & Hi & Hx). done.
    + unfold obs_DelByID. rewrite Hg. rewrite decide_False; [by apply step_exact_refl|].
      intros [b Hb]. unfold rec_GetByID in Hg. rewrite Hb in Hg. by destruct (rec_subHealthRecord (obs_rec o) !! id).
Qed.

Lemma obs_run_exact evs : forall h o d,
  obs_inv h o -> orderly h o evs ->
  let '(pubs, (h', o')) := obs_run h o evs in
  obs_inv h' o' /\ publish_all (gadd (expected h (obs_rec o)) d) pubs = gadd (expected h' (obs_rec o')) d.
Proof.
  induction evs as [|ev evs IH]; intros h o d Hinv Hord; [done|]. destruct Hord as [Ho Hos].
  destruct (obs_step_exact h o ev Hinv Ho) as [Hi Hx]. simpl. destruct (obs_step h o ev) as [p [h1 o1]]. simpl in *.
  specialize (IH h1 o1 d Hi Hos). destruct (obs_run h1 o1 evs) as [ps [h2 o2]]. destruct IH as [Hi2 Hx2].
  split; [done|]. unfold publish_all in *. rewrite fold_left_app, <- Hx2. f_equal.
  fold (publish_all (gadd (expected h (obs_rec o)) d) p). rewrite publish_all_gsum, <- Hx. gauges.
Qed.

(** C14: the gauges show the queue.  Let the published numbers add up to what a
    scheduler's own queue holds: free threads to those of the running
    instances, used and total threads to those of the running and sub-healthy
    ones.  Then they do after any orderly sequence of pushes, pops, deletions and
    updates: instances come in idle, an evicting instance stays so, and the free
    threads of an instance change only while it runs (or is coming back from
    sub-health, or is evicting and not counted). *)
Theorem gauges_show_queue h o evs :
  obs_inv h o -> orderly h o evs ->
  let r := obs_run h o evs in
  obs_inv r.2.1 r.2.2 /\ publish_all (expected h (obs_rec o)) r.1 = expected r.2.1 (obs_rec r.2.2).
Proof.
  intros Hinv Hord. pose proof (obs_run_exact evs h o no_gauges Hinv Hord) as Hr.
  destruct (obs_run h o evs) as [pubs [h' o']]. rewrite !gadd_none in Hr. exact Hr.
Qed.

(** Threads that come back to a sub-healthy instance stay in use.  When the
    free threads of an instance that is sub-healthy, and stays so, grow by [d],
    nothing is published and the count is brought up to date: the published
    number of used threads is [d] above the truth from then on, and stays so
    through every orderly sequence that follows. *)
Theorem subhealthy_release_drifts h o id a e e' evs :
  obs_inv h o -> rec_GetByID h id (obs_rec o) = Some a -> h !! a = Some e ->
  in_InstanceID (el_instance e') = in_InstanceID (el_instance e) ->
  in_ConcurrentNum (el_instance e') = in_ConcurrentNum (el_instance e) ->
  in_StatusCode (el_instance e) = KernelInstanceStatusSubHealth ->
  in_StatusCode (el_instance e') = KernelInstanceStatusSubHealth ->
  orderly (obs_step h o (ObUpdate id e')).2.1 (obs_step h o (ObUpdate id e')).2.2 evs ->
  let r := obs_run h o (ObUpdate id e' :: evs) in
  publish_all (expected h (obs_rec o)) r.1 =
  gadd (expected r.2.1 (obs_rec r.2.2)) (mkGauges 0 (threads e' - threads e) 0).
Proof.
  intros Hinv Hg He H1 H2 Hs Hs' Hord r. subst r. simpl in *. rewrite Hg in *.
  destruct (obs_Update_spec h o id a e e' Hinv Hg He H1 H2) as (pubs & o1 & Hup & Hi & Hx); [rewrite Hs'; by right; left|].
  rewrite Hup in *. simpl in *.
  pose proof (obs_run_exact evs _ o1 (mkGauges 0 (threads e' - threads e) 0) Hi Hord) as Hr.
  destruct (obs_run (<[a:=e']> h) o1 evs) as [ps [h2 o2]]. simpl. destruct Hr as [_ <-]. unfold publish_all.
  rewrite fold_left_app. f_equal. fold (publish_all (expected h (obs_rec o)) pubs). rewrite publish_all_gsum, Hx.
  f_equal. unfold update_drift. destruct (at_insert h a e e' He) as (_ & _ & ->). rewrite Hs'.
  assert (status_at h a = KernelInstanceStatusSubHealth) as -> by (unfold status_at; by rewrite He). done.
Qed.

(** A busy instance that is pushed is missing from the used threads.  The
    push publishes its free and its total threads; the threads in use on it are
    never published, and every later pop, deletion or release takes off what
    was not put on. *)
Theorem busy_push_drifts h o a :
  obs_inv h o -> is_Some (h !! a) -> rec_GetByID h (getInstanceID h a) (obs_rec o) = None ->
  status_at h a = KernelInstanceStatusRunning ->
  exists pubs o', obs_PushBack h a o = (None, pubs, o') /\ obs_inv h o' /\
    publish_all (expected h (obs_rec o)) pubs = gadd (expected h (obs_rec o')) (mkGauges 0 (- used_at h a) 0).
Proof.
  intros Hinv Hv Hn Hs. destruct (obs_Push_spec h o a Hinv Hv Hn) as (pubs & o' & Hp & Hi & _ & Hx); [by left|].
  exists pubs, o'. split; [done|]. split; [done|]. rewrite publish_all_gsum, Hx, Hs. done.
Qed.
End RecordLaws.

(** ** Concrete runs *)

Definition demoInstance (id : string) (conc status : Z) : Instance :=
  mkInstance id conc status "sig" "az" None false "".
Definition demoElem (id : string) (conc status : Z) : instanceElement :=
  initThreadMap "p" (mkElem (demoInstance id conc status) 0 "" true false ∅).
(** With one thread taken. *)
Definition demoBusy (id : string) (conc status : Z) : instanceElement :=
  snd (GetThreadFromThreadMap (fun _ => Some (threadName id "p" 1)) (demoElem id conc status)).

Definition reservedQueue : Type := PrioQueue priorityFuncForReservedInstance.
Definition emptyReserved : instanceQueueWithObserver reservedQueue := mkObs (mkRec (mkPrio []) ∅ ∅) ∅.

Lemma emptyReserved_inv : obs_inv [] emptyReserved.
Proof. split; [|done|done]. split; try done. split; constructor. Qed.

(** Two instances come, one is used, turns sub-healthy and comes back, the other
    goes. *)
Definition gauge_demo : list obs_event :=
  [ObPush (demoElem "a" 3 KernelInstanceStatusRunning); ObPush (demoElem "b" 2 KernelInstanceStatusRunning);
   ObUpdate "a" (demoBusy "a" 3 KernelInstanceStatusRunning);
   ObUpdate "a" (demoBusy "a" 3 KernelInstanceStatusSubHealth);
   ObUpdate "a" (demoElem "a" 3 KernelInstanceStatusRunning); ObDel "b"].

Lemma gauges_show_queue_witness :
  let r := obs_run [] emptyReserved gauge_demo in
  expected r.2.1 (obs_rec r.2.2) = mkGauges 3 0 3 /\
  obs_inv r.2.1 r.2.2 /\ publish_all (expected [] (obs_rec emptyReserved)) r.1 = expected r.2.1 (obs_rec r.2.2).
Proof.
  split; [vm_compute; reflexivity|].
  apply (gauges_show_queue [] emptyReserved gauge_demo emptyReserved_inv).
  unfold gauge_demo. cbn [orderly]. repeat (split; [vm_compute; intuition (auto; discriminate)|]). exact I.
Defined.

(** A busy sub-healthy instance gets its thread back; then another comes. *)
Definition drift_demo : list obs_event :=
  [ObPush (demoElem "a" 3 KernelInstanceStatusRunning); ObUpdate "a" (demoBusy "a" 3 KernelInstanceStatusRunning);
   ObUpdate "a" (demoBusy "a" 3 KernelInstanceStatusSubHealth)].

Lemma drift_demo_inv :
  let r := obs_run [] emptyReserved drift_demo in obs_inv r.2.1 r.2.2.
Proof.
  assert (orderly [] emptyReserved drift_demo) as Ho.
  { unfold drift_demo. cbn [orderly]. repeat (split; [vm_compute; intuition (auto; discriminate)|]). exact I. }
  pose proof (obs_run_exact drift_demo [] emptyReserved no_gauges emptyReserved_inv Ho) as Hr.
  destruct (obs_run [] emptyReserved drift_demo) as [pubs [h' o']]. apply Hr.
Qed.

Lemma subhealthy_release_drifts_witness :
  let r0 := obs_run [] emptyReserved drift_demo in
  let evs := [ObPush (demoElem "b" 2 KernelInstanceStatusRunning)] in
  let r := obs_run r0.2.1 r0.2.2 (ObUpdate "a" (demoElem "a" 3 KernelInstanceStatusSubHealth) :: evs) in
  expected r.2.1 (obs_rec r.2.2) = mkGauges 2 0 5 /\
  publish_all (expected r0.2.1 (obs_rec r0.2.2)) r.1 = gadd (expected r.2.1 (obs_rec r.2.2)) (mkGauges 0 1 0).
Proof.
  split; [vm_compute; reflexivity|].
  apply (subhealthy_release_drifts (obs_run [] emptyReserved drift_demo).2.1 (obs_run [] emptyReserved drift_demo).2.2
    "a" 0 (demoBusy "a" 3 KernelInstanceStatusSubHealth) (demoElem "a" 3 KernelInstanceStatusSubHealth)
    [ObPush (demoElem "b" 2 KernelInstanceStatusRunning)] drift_demo_inv); try (vm_compute; reflexivity).
  cbn [orderly]. split; [|exact I]. vm_compute. auto.
Defined.

Lemma busy_push_drifts_witness :
  let h := [demoBusy "a" 3 KernelInstanceStatusRunning] in
  exists pubs o', obs_PushBack h 0 emptyReserved = (None, pubs, o') /\ obs_inv h o' /\
    publish_all (expected h (obs_rec emptyReserved)) pubs = gadd (expected h (obs_rec o')) (mkGauges 0 (-1) 0).
Proof.
  intros h. apply (busy_push_drifts h emptyReserved 0).
  - apply (obs_inv_app [] emptyReserved), emptyReserved_inv.
  - vm_compute. eauto.
  - vm_compute. reflexivity.
  - vm_compute. reflexivity.
Defined.
