(* ===== verification/ReqQueue.v ===== *)
(** * The queue of pending acquire requests

    pkg/functionscaler/requestqueue/instance_request_queue.go: requests that find
    no instance wait in an [InsAcqReqQueue].  Goroutines registered by the
    schedulers take them from the front and try again; one loop answers those
    that time out; a create error or the stop answers them all.

    Every locked region is one step, and so is every wait of a goroutine, so that
    runs interleave the goroutines, the loop and the callers as they please.  A
    result channel holds one response and is written without looking; answers are
    what a step returns. *)
From S2P Require Import Prelude SchedErrors DeHeap FifoQueue.
From Stdlib Require Import Sorting.Sorted.

Definition defaultTriggerChSize : nat := Z.to_nat 10000.
Notation timeoutAccuracy := (500 * Millisecond)%Z (only parsing).
Notation DefaultRequestTimeout := (30 * Second)%Z (only parsing).
Notation errInsThdReqReachMaxNum := (PlainError "instance thread request reach max number") (only parsing).

(** [Duration.Milliseconds] *)
Definition Milliseconds (d : Z) : Z := d /g 1000000.

Section ReqQueue.
Context {Req Alloc : Type}.
(** Whether the configured instance backend is FG. *)
Context (backendFG : bool).

(** [pr_ptr] is the pointer: requests are compared by it. *)
Record PendingInsAcqReq := mkPending {
  pr_ptr : nat;
  pr_CreatedTime : Z;
  pr_InsAcqReq : Req
}.
Record PendingInsAcqRsp := mkRsp {
  rsp_InsAlloc : option Alloc;
  rsp_Error : option goError
}.
Definition answer : Type := PendingInsAcqReq * PendingInsAcqRsp.

(** Where a registered goroutine stands: in its select, at the head of the loop
    of [realScheduleRequest], in the schedule function with a request in hand,
    or returned. *)
Inductive sch_pc := SchSelect | SchRunning | SchCalling (r : PendingInsAcqReq) | SchGone.
Record schGoroutine := mkSch { sg_scheCh : nat; sg_pc : sch_pc }.

(** [rq_stopCh]: closed.  [rq_loop]: [TimeoutReqHandleLoop] runs.  [rq_timer]: when
    the timer behind its [timeoutCh] fires, until it is received. *)
Record InsAcqReqQueue := mkReqQueue {
  rq_queue : FifoQueue PendingInsAcqReq;
  rq_maxQueueLen : Z;
  rq_insNum : Z;
  rq_recoverableError : option goError;
  rq_unrecoverableError : option goError;
  rq_requestTimeout : Z;
  rq_triggerCh : nat;
  rq_stopCh : bool;
  rq_schFuncMap : gmap string nat;
  rq_sch : list schGoroutine;
  rq_loop : bool;
  rq_timer : option Z
}.
Implicit Types (iq : InsAcqReqQueue) (r : PendingInsAcqReq).

Definition set_queue (q : FifoQueue PendingInsAcqReq) iq :=
  mkReqQueue q (rq_maxQueueLen iq) (rq_insNum iq) (rq_recoverableError iq) (rq_unrecoverableError iq)
    (rq_requestTimeout iq) (rq_triggerCh iq) (rq_stopCh iq) (rq_schFuncMap iq) (rq_sch iq) (rq_loop iq) (rq_timer iq).
Definition set_errors (recoverable unrecoverable : option goError) iq :=
  mkReqQueue (rq_queue iq) (rq_maxQueueLen iq) (rq_insNum iq) recoverable unrecoverable
    (rq_requestTimeout iq) (rq_triggerCh iq) (rq_stopCh iq) (rq_schFuncMap iq) (rq_sch iq) (rq_loop iq) (rq_timer iq).
Definition set_numbers (insNum requestTimeout : Z) iq :=
  mkReqQueue (rq_queue iq) (rq_maxQueueLen iq) insNum (rq_recoverableError iq) (rq_unrecoverableError iq)
    requestTimeout (rq_triggerCh iq) (rq_stopCh iq) (rq_schFuncMap iq) (rq_sch iq) (rq_loop iq) (rq_timer iq).
Definition set_loop (triggerCh : nat) (stopCh loop : bool) (timer : option Z) iq :=
  mkReqQueue (rq_queue iq) (rq_maxQueueLen iq) (rq_insNum iq) (rq_recoverableError iq) (rq_unrecoverableError iq)
    (rq_requestTimeout iq) triggerCh stopCh (rq_schFuncMap iq) (rq_sch iq) loop timer.
Definition set_sch (m : gmap string nat) (sch : list schGoroutine) iq :=
  mkReqQueue (rq_queue iq) (rq_maxQueueLen iq) (rq_insNum iq) (rq_recoverableError iq) (rq_unrecoverableError iq)
    (rq_requestTimeout iq) (rq_triggerCh iq) (rq_stopCh iq) m sch (rq_loop iq) (rq_timer iq).

Definition NewInsAcqReqQueue (BurstScaleNum requestTimeout : Z) : InsAcqReqQueue :=
  let requestTimeout := if requestTimeout <? DefaultRequestTimeout then DefaultRequestTimeout else requestTimeout in
  mkReqQueue NewFifoQueue BurstScaleNum 0 None None requestTimeout 0 false ∅ [] true None.

Definition HandleInsNumUpdate (InsNumDiff : Z) iq : InsAcqReqQueue :=
  set_numbers (rq_insNum iq + InsNumDiff) (rq_requestTimeout iq) iq.

Definition ReqLen iq : nat := FifoLen (rq_queue iq).

(** The select drops the token when the channel is full. *)
Definition TriggerSchedule iq : InsAcqReqQueue :=
  if (rq_triggerCh iq <? defaultTriggerChSize)%nat
  then set_loop (S (rq_triggerCh iq)) (rq_stopCh iq) (rq_loop iq) (rq_timer iq) iq
  else iq.

Definition AddRequest r iq : option goError * InsAcqReqQueue :=
  match rq_unrecoverableError iq with
  | Some err => (Some err, iq)
  | None =>
      let needTriggerSchedule := (ReqLen iq =? 0)%nat in
      if rq_maxQueueLen iq <=? Z.of_nat (ReqLen iq) then (Some errInsThdReqReachMaxNum, iq) else
      let iq := set_queue (FifoPushBack None r (rq_queue iq)) iq in
      (None, if needTriggerSchedule then TriggerSchedule iq else iq)
  end.

(** The queue is emptied from the front, keeping all but the first request that
    is the one to cancel, and filled again. *)
Fixpoint cancel_drain (fuel : nat) (ptr : nat) (removed : option PendingInsAcqReq)
    (remaining : list PendingInsAcqReq) (q : FifoQueue PendingInsAcqReq)
    : option PendingInsAcqReq * list PendingInsAcqReq * FifoQueue PendingInsAcqReq :=
  match fuel with
  | O => (removed, remaining, q)
  | S fuel =>
      match FifoPopFront None q with
      | (None, q) => (removed, remaining, q)
      | (Some obj, q) =>
          match removed with
          | None => if decide (pr_ptr obj = ptr) then cancel_drain fuel ptr (Some obj) remaining q
                    else cancel_drain fuel ptr None (remaining ++ [obj]) q
          | Some _ => cancel_drain fuel ptr removed (remaining ++ [obj]) q
          end
      end
  end.

(** The request it removed, when the source returns true. *)
Definition CancelRequest (insThdReq : option nat) iq : option PendingInsAcqReq * InsAcqReqQueue :=
  match insThdReq with
  | None => (None, iq)
  | Some ptr =>
      let '(removed, remaining, q) := cancel_drain (S (ReqLen iq)) ptr None [] (rq_queue iq) in
      (removed, set_queue (fold_left (fun q obj => FifoPushBack None obj q) remaining q) iq)
  end.

Definition RegisterSchFunc (schFuncKey : string) iq : InsAcqReqQueue :=
  set_sch (<[schFuncKey:=length (rq_sch iq)]> (rq_schFuncMap iq)) (rq_sch iq ++ [mkSch 0 SchSelect]) iq.

Definition ScheduleRequest (schFuncKey : string) iq : InsAcqReqQueue :=
  match rq_schFuncMap iq !! schFuncKey with
  | None => iq
  | Some g =>
      set_sch (rq_schFuncMap iq)
        (alter (fun s => if (sg_scheCh s =? 0)%nat then mkSch 1 (sg_pc s) else s) g (rq_sch iq)) iq
  end.

(** The two branches of a goroutine's select. *)
Definition sch_receive (g : nat) iq : option InsAcqReqQueue :=
  match rq_sch iq !! g with
  | Some (mkSch (S n) SchSelect) => Some (set_sch (rq_schFuncMap iq) (<[g:=mkSch n SchRunning]> (rq_sch iq)) iq)
  | _ => None
  end.
Definition sch_stopped (g : nat) iq : option InsAcqReqQueue :=
  match rq_sch iq !! g with
  | Some (mkSch n SchSelect) =>
      if rq_stopCh iq then Some (set_sch (rq_schFuncMap iq) (<[g:=mkSch n SchGone]> (rq_sch iq)) iq) else None
  | _ => None
  end.

(** [realScheduleRequest], up to the call of the schedule function and after it. *)
Definition schedule_pop (g : nat) iq : option InsAcqReqQueue :=
  match rq_sch iq !! g with
  | Some (mkSch n SchRunning) =>
      match FifoPopFront None (rq_queue iq) with
      | (None, _) => Some (set_sch (rq_schFuncMap iq) (<[g:=mkSch n SchSelect]> (rq_sch iq)) iq)
      | (Some r, q) =>
          Some (set_sch (rq_schFuncMap iq) (<[g:=mkSch n (SchCalling r)]> (rq_sch iq)) (set_queue q iq))
      end
  | _ => None
  end.
Definition schedule_return (g : nat) (res : Alloc + goError) iq : option (list answer * InsAcqReqQueue) :=
  match rq_sch iq !! g with
  | Some (mkSch n (SchCalling r)) =>
      match res with
      | inr _ =>
          Some ([], set_sch (rq_schFuncMap iq) (<[g:=mkSch n SchSelect]> (rq_sch iq))
                      (set_queue (FifoPushBack None r (rq_queue iq)) iq))
      | inl insAlloc =>
          Some ([(r, mkRsp (Some insAlloc) None)],
                set_sch (rq_schFuncMap iq) (<[g:=mkSch n SchRunning]> (rq_sch iq)) iq)
      end
  | _ => None
  end.

(** A request at the front has waited long enough. *)
Definition req_overdue (now requestTimeout : Z) r : bool :=
  Milliseconds requestTimeout <=? Milliseconds (now - pr_CreatedTime r + timeoutAccuracy).

(** The loop over the front of the queue; with the time to the next timeout. *)
Fixpoint timeout_scan (fuel : nat) (now : Z) iq : list answer * option Z * InsAcqReqQueue :=
  match fuel with
  | O => ([], None, iq)
  | S fuel =>
      match Front (rq_queue iq) with
      | None => ([], None, iq)
      | Some insThdReq =>
          let reqHasWaitTime := now - pr_CreatedTime insThdReq in
          if req_overdue now (rq_requestTimeout iq) insThdReq then
            let err := default (Sentinel ErrInsReqTimeout) (rq_recoverableError iq) in
            let iq := set_queue (snd (FifoPopFront None (rq_queue iq))) iq in
            let '(answers, next, iq) := timeout_scan fuel now iq in
            ((insThdReq, mkRsp None (Some err)) :: answers, next, iq)
          else ([], Some (rq_requestTimeout iq - reqHasWaitTime), iq)
      end
  end.

(** A turn of [TimeoutReqHandleLoop] after its select. *)
Definition timeout_turn (now : Z) iq : list answer * InsAcqReqQueue :=
  let '(answers, next, iq) := timeout_scan (S (ReqLen iq)) now iq in
  (answers,
   if (ReqLen iq =? 0)%nat then iq
   else set_loop (rq_triggerCh iq) (rq_stopCh iq) (rq_loop iq) (Some (now + default 0 next)) iq).

Fixpoint clear_loop (fuel : nat) (err : goError) iq : list answer * InsAcqReqQueue :=
  match fuel with
  | O => ([], iq)
  | S fuel =>
      match Front (rq_queue iq) with
      | None => ([], iq)
      | Some insThdReq =>
          let iq := set_queue (snd (FifoPopFront None (rq_queue iq))) iq in
          let '(answers, iq) := clear_loop fuel err iq in
          ((insThdReq, mkRsp None (Some err)) :: answers, iq)
      end
  end.
Definition ClearReqQueueWithError (err : goError) iq : list answer * InsAcqReqQueue :=
  clear_loop (S (ReqLen iq)) err iq.

(** The branches of the loop's select. *)
Definition loop_triggered (now : Z) iq : option (list answer * InsAcqReqQueue) :=
  if rq_loop iq then
    match rq_triggerCh iq with
    | O => None
    | S n => Some (timeout_turn now (set_loop n (rq_stopCh iq) true (rq_timer iq) iq))
    end
  else None.
Definition loop_timer (now : Z) iq : option (list answer * InsAcqReqQueue) :=
  if rq_loop iq then
    match rq_timer iq with
    | Some t => if t <=? now then Some (timeout_turn now (set_loop (rq_triggerCh iq) (rq_stopCh iq) true None iq))
                else None
    | None => None
    end
  else None.
Definition loop_stopped iq : option (list answer * InsAcqReqQueue) :=
  if rq_loop iq && rq_stopCh iq then
    Some (ClearReqQueueWithError (SNError 150424 "function metadata not found")
            (set_loop (rq_triggerCh iq) true false (rq_timer iq) iq))
  else None.

(** [currentInstanceNum] was read under the lock before. *)
Definition handlerWorkMangerError (currentInstanceNum : Z) (createError : goError) iq
    : list answer * InsAcqReqQueue :=
  if (currentInstanceNum =? 0) && negb (NeedTryError createError)
  then ClearReqQueueWithError createError iq
  else ([], set_errors (Some createError) (rq_unrecoverableError iq) iq).

Definition HandleCreateError (currentInstanceNum : Z) (createError : option goError) iq
    : list answer * InsAcqReqQueue :=
  if rq_stopCh iq then ([], iq) else
  match createError with
  | None => ([], set_errors None None iq)
  | Some err =>
      if backendFG then handlerWorkMangerError currentInstanceNum err iq
      else if IsUnrecoverableError err then
        let iq := set_errors (rq_recoverableError iq) (Some err) iq in
        if rq_insNum iq =? 0 then ClearReqQueueWithError err iq else ([], iq)
      else ([], set_errors (Some err) (rq_unrecoverableError iq) iq)
  end.

Definition UpdateRequestTimeout (requestTimeout : Z) iq : InsAcqReqQueue :=
  if requestTimeout =? rq_requestTimeout iq then iq else
  set_numbers (rq_insNum iq)
    (if requestTimeout <? DefaultRequestTimeout then DefaultRequestTimeout else requestTimeout) iq.

Definition ReqStop iq : InsAcqReqQueue := set_loop (rq_triggerCh iq) true (rq_loop iq) (rq_timer iq) iq.

(** ** Runs *)

Inductive rq_event :=
  | RqAdd (r : PendingInsAcqReq)
  | RqCancel (insThdReq : option nat)
  | RqRegister (schFuncKey : string)
  | RqSchedule (schFuncKey : string)
  | RqReceive (g : nat)
  | RqSchStopped (g : nat)
  | RqPop (g : nat)
  | RqReturn (g : nat) (res : Alloc + goError)
  | RqTriggered (now : Z)
  | RqTimer (now : Z)
  | RqLoopStopped
  | RqInsNum (diff : Z)
  | RqCreateError (currentInstanceNum : Z) (createError : option goError)
  | RqUpdateTimeout (requestTimeout : Z)
  | RqStop.

Inductive rq_log := LogAdded (r : PendingInsAcqReq) | LogAnswered (a : answer) | LogCancelled (r : PendingInsAcqReq).

Definition answering (iq : InsAcqReqQueue) (res : option (list answer * InsAcqReqQueue))
    : list rq_log * InsAcqReqQueue :=
  match res with Some (l, iq) => (LogAnswered <$> l, iq) | None => ([], iq) end.

(** A step that cannot be taken leaves the state. *)
Definition rq_step iq (e : rq_event) : list rq_log * InsAcqReqQueue :=
  match e with
  | RqAdd r => match AddRequest r iq with (None, iq) => ([LogAdded r], iq) | (Some _, iq) => ([], iq) end
  | RqCancel p => match CancelRequest p iq with (Some r, iq) => ([LogCancelled r], iq) | (None, iq) => ([], iq) end
  | RqRegister k => ([], RegisterSchFunc k iq)
  | RqSchedule k => ([], ScheduleRequest k iq)
  | RqReceive g => ([], default iq (sch_receive g iq))
  | RqSchStopped g => ([], default iq (sch_stopped g iq))
  | RqPop g => ([], default iq (schedule_pop g iq))
  | RqReturn g res => answering iq (schedule_return g res iq)
  | RqTriggered now => answering iq (loop_triggered now iq)
  | RqTimer now => answering iq (loop_timer now iq)
  | RqLoopStopped => answering iq (loop_stopped iq)
  | RqInsNum d => ([], HandleInsNumUpdate d iq)
  | RqCreateError n e => answering iq (Some (HandleCreateError n e iq))
  | RqUpdateTimeout t => ([], UpdateRequestTimeout t iq)
  | RqStop => ([], ReqStop iq)
  end.
Fixpoint rq_run iq (es : list rq_event) : list rq_log * InsAcqReqQueue :=
  match es with
  | [] => ([], iq)
  | e :: es => let '(l, iq) := rq_step iq e in let '(ls, iq) := rq_run iq es in (l ++ ls, iq)
  end.
(** ** What the operations do to the waiting requests *)

Definition waiting iq : list PendingInsAcqReq := fifo_contents (rq_queue iq).

Lemma front_cases (q : FifoQueue PendingInsAcqReq) :
  fifo_wf None q ->
  (fifo_contents q = [] /\ Front q = None /\ FifoPopFront None q = (None, q)) \/
  exists r rest q', fifo_contents q = r :: rest /\ Front q = Some r /\ FifoPopFront None q = (Some r, q') /\
    fifo_wf None q' /\ fifo_contents q' = rest.
Proof.
  intros Hwf. pose proof (FifoPopFront_spec None q Hwf) as H. destruct (fifo_contents q) as [|r rest].
  - left. by destruct H as (? & ? & _).
  - right. destruct H as (? & q' & ? & ? & ?). by exists r, rest, q'.
Qed.

Lemma timeout_scan_spec fuel now : forall iq,
  fifo_wf None (rq_queue iq) -> (length (waiting iq) < fuel)%nat ->
  exists answers next q', timeout_scan fuel now iq = (answers, next, set_queue q' iq) /\
    fifo_wf None q' /\ waiting iq = answers.*1 ++ fifo_contents q' /\
    Forall (fun a => req_overdue now (rq_requestTimeout iq) a.1 = true /\
                     a.2 = mkRsp None (Some (default (Sentinel ErrInsReqTimeout) (rq_recoverableError iq)))) answers /\
    match fifo_contents q' with
    | [] => next = None
    | r :: _ => req_overdue now (rq_requestTimeout iq) r = false /\
                next = Some (rq_requestTimeout iq - (now - pr_CreatedTime r))
    end.
Proof.
  induction fuel as [|fuel IH]; intros iq Hwf Hlen; [lia|]. simpl. unfold waiting in *.
  destruct (front_cases _ Hwf) as [(Hc & -> & _)|(r & rest & q' & Hc & -> & Hp & Hwf' & Hc')].
  { exists [], None, (rq_queue iq). rewrite Hc. split_and!; try done; by destruct iq. }
  rewrite Hc in Hlen. simpl in Hlen. destruct (req_overdue now (rq_requestTimeout iq) r) eqn:Ho.
  - rewrite Hp. simpl. destruct (IH (set_queue q' iq)) as (l & next & q2 & He & ? & Hcont & Hall & Hnext).
    { done. } { simpl. rewrite Hc'. lia. }
    rewrite He. eexists (_ :: l), next, q2. split_and!; try done.
    + simpl in *. by rewrite Hc, <- Hc', Hcont.
    + by constructor.
  - exists [], (Some (rq_requestTimeout iq - (now - pr_CreatedTime r))), (rq_queue iq).
    rewrite Hc. split_and!; try done; by destruct iq.
Qed.

Lemma clear_loop_spec fuel err : forall iq,
  fifo_wf None (rq_queue iq) -> (length (waiting iq) < fuel)%nat ->
  exists q', clear_loop fuel err iq = ((fun r => (r, mkRsp None (Some err))) <$> waiting iq, set_queue q' iq) /\
    fifo_wf None q' /\ fifo_contents q' = [].
Proof.
  induction fuel as [|fuel IH]; intros iq Hwf Hlen; [lia|]. simpl. unfold waiting in *.
  destruct (front_cases _ Hwf) as [(Hc & -> & _)|(r & rest & q' & Hc & -> & Hp & Hwf' & Hc')].
  { exists (rq_queue iq). rewrite Hc. split_and!; try done. by destruct iq. }
  rewrite Hc in Hlen |- *. simpl in Hlen. rewrite Hp. simpl.
  destruct (IH (set_queue q' iq)) as (q2 & He & ? & ?); [done|simpl; rewrite Hc'; lia|].
  rewrite He. exists q2. simpl. by rewrite Hc'.
Qed.

Lemma ReqLen_waiting iq : fifo_wf None (rq_queue iq) -> ReqLen iq = length (waiting iq).
Proof. apply FifoLen_contents. Qed.

Lemma Clear_spec err iq :
  fifo_wf None (rq_queue iq) ->
  exists q', ClearReqQueueWithError err iq =
      ((fun r => (r, mkRsp None (Some err))) <$> waiting iq, set_queue q' iq) /\
    fifo_wf None q' /\ fifo_contents q' = [].
Proof. intros Hwf. apply clear_loop_spec; [done|]. rewrite ReqLen_waiting by done. lia. Qed.

(** Cancelling takes the first request of that pointer out of the queue. *)
Fixpoint cancel_list (ptr : nat) (l : list PendingInsAcqReq) : option PendingInsAcqReq * list PendingInsAcqReq :=
  match l with
  | [] => (None, [])
  | r :: l => if decide (pr_ptr r = ptr) then (Some r, l) else let '(x, l) := cancel_list ptr l in (x, r :: l)
  end.

Lemma cancel_drain_spec ptr fuel : forall removed remaining q,
  fifo_wf None q -> (length (fifo_contents q) < fuel)%nat ->
  exists q', fifo_wf None q' /\ fifo_contents q' = [] /\
    cancel_drain fuel ptr removed remaining q =
    match removed with
    | Some x => (Some x, remaining ++ fifo_contents q, q')
    | None => ((cancel_list ptr (fifo_contents q)).1, remaining ++ (cancel_list ptr (fifo_contents q)).2, q')
    end.
Proof.
  induction fuel as [|fuel IH]; intros removed remaining q Hwf Hlen; [lia|]. simpl.
  destruct (front_cases _ Hwf) as [(Hc & _ & ->)|(r & rest & q' & Hc & _ & -> & Hwf' & Hc')].
  { exists q. rewrite Hc. simpl. by destruct removed; rewrite app_nil_r. }
  rewrite Hc in Hlen |- *. simpl in Hlen.
  assert (forall removed remaining, exists q2, fifo_wf None q2 /\ fifo_contents q2 = [] /\
    cancel_drain fuel ptr removed remaining q' = match removed with
    | Some x => (Some x, remaining ++ rest, q2)
    | None => ((cancel_list ptr rest).1, remaining ++ (cancel_list ptr rest).2, q2) end) as IH'.
  { intros rm rem. rewrite <- Hc'. apply IH; [done|]. rewrite Hc'. lia. }
  destruct removed as [x|]; [|simpl; case_decide].
  - destruct (IH' (Some x) (remaining ++ [r])) as (q2 & ? & ? & ->). exists q2. by rewrite <- (assoc_L (++)).
  - destruct (IH' (Some r) remaining) as (q2 & ? & ? & ->). by exists q2.
  - destruct (IH' None (remaining ++ [r])) as (q2 & ? & ? & ->). exists q2.
    destruct (cancel_list ptr rest) as [x l]. simpl. by rewrite <- (assoc_L (++)).
Qed.

Lemma push_all_spec (l : list PendingInsAcqReq) : forall q, fifo_wf None q ->
  fifo_wf None (fold_left (fun q obj => FifoPushBack None obj q) l q) /\
  fifo_contents (fold_left (fun q obj => FifoPushBack None obj q) l q) = fifo_contents q ++ l.
Proof.
  induction l as [|r l IH]; intros q Hwf; simpl; [by rewrite app_nil_r|].
  destruct (FifoPushBack_spec None r q Hwf) as [Hwf' Hc]. destruct (IH _ Hwf') as [? ->]. split; [done|].
  by rewrite Hc, <- (assoc_L (++)).
Qed.

Lemma CancelRequest_spec ptr iq :
  fifo_wf None (rq_queue iq) ->
  exists q', CancelRequest (Some ptr) iq = ((cancel_list ptr (waiting iq)).1, set_queue q' iq) /\
    fifo_wf None q' /\ fifo_contents q' = (cancel_list ptr (waiting iq)).2.
Proof.
  intros Hwf. unfold CancelRequest.
  destruct (cancel_drain_spec ptr (S (ReqLen iq)) None [] (rq_queue iq) Hwf) as (q' & Hwf' & Hc' & ->).
  { rewrite ReqLen_waiting by done. unfold waiting. lia. }
  destruct (push_all_spec ([] ++ (cancel_list ptr (fifo_contents (rq_queue iq))).2) q' Hwf') as [H1 H2].
  eexists. split; [done|]. split; [done|]. by rewrite H2, Hc'.
Qed.

Lemma cancel_list_perm ptr l : l ≡ₚ option_list (cancel_list ptr l).1 ++ (cancel_list ptr l).2.
Proof.
  induction l as [|r l IH]; [done|]. simpl. case_decide; [done|]. destruct (cancel_list ptr l) as [[x|] l'];
    simpl in *; rewrite IH; [apply Permutation_swap|done].
Qed.
(** ** No request is lost, and none is answered twice *)

(** The request a goroutine has in hand. *)
Definition calling (s : schGoroutine) : option PendingInsAcqReq :=
  match sg_pc s with SchCalling r => Some r | _ => None end.
Definition in_flight iq : list PendingInsAcqReq := omap calling (rq_sch iq).

Definition added (log : list rq_log) : list PendingInsAcqReq :=
  omap (fun l => match l with LogAdded r => Some r | _ => None end) log.
Definition answered (log : list rq_log) : list answer :=
  omap (fun l => match l with LogAnswered a => Some a | _ => None end) log.
Definition cancelled (log : list rq_log) : list PendingInsAcqReq :=
  omap (fun l => match l with LogCancelled r => Some r | _ => None end) log.

Lemma answered_fmap (l : list answer) :
  answered (LogAnswered <$> l) = l /\ added (LogAnswered <$> l) = [] /\ cancelled (LogAnswered <$> l) = [].
Proof.
  induction l as [|x l (IH1 & IH2 & IH3)]; [done|].
  split_and!; [exact (f_equal (cons x) IH1)|exact IH2|exact IH3].
Qed.

Lemma in_flight_insert g s s' (l : list schGoroutine) :
  l !! g = Some s ->
  option_list (calling s) ++ omap calling (<[g:=s']> l) ≡ₚ option_list (calling s') ++ omap calling l.
Proof.
  intros Hg. rewrite (insert_take_drop l g s') by (by eapply lookup_lt_Some).
  rewrite <- (take_drop_middle l g s Hg) at 3. rewrite !omap_app. simpl.
  destruct (calling s), (calling s'); simpl; by solve_Permutation.
Qed.

Lemma in_flight_alter (f : schGoroutine -> schGoroutine) g (l : list schGoroutine) :
  (forall s, sg_pc (f s) = sg_pc s) -> omap calling (alter f g l) = omap calling l.
Proof.
  intros Hf. apply list_omap_ext, Forall2_alter_l.
  - apply Forall_Forall2_diag. by apply Forall_forall.
  - intros x y _ _ Hxy. unfold calling in *. by rewrite Hf.
Qed.

Lemma length_in_flight iq : (length (in_flight iq) <= length (rq_sch iq))%nat.
Proof.
  unfold in_flight, omap. induction (rq_sch iq) as [|s l IH]; simpl; [done|].
  destruct (calling s); simpl; lia.
Qed.

(** What a step does to the requests: [l] is what it logs. *)
Record rq_moves iq (l : list rq_log) iq' : Prop := {
  rm_wf : fifo_wf None (rq_queue iq');
  rm_perm : added l ++ waiting iq ++ in_flight iq ≡ₚ
            waiting iq' ++ in_flight iq' ++ (answered l).*1 ++ cancelled l;
  rm_max : rq_maxQueueLen iq' = rq_maxQueueLen iq;
  rm_sch : (length (rq_sch iq) <= length (rq_sch iq'))%nat;
  rm_added : added l <> [] -> Z.of_nat (length (waiting iq)) < rq_maxQueueLen iq /\
             (length (waiting iq') <= S (length (waiting iq)))%nat;
  rm_trigger : (rq_triggerCh iq <= defaultTriggerChSize)%nat -> (rq_triggerCh iq' <= defaultTriggerChSize)%nat
}.

(** Steps that leave the requests where they are. *)
Lemma moves_same iq iq' :
  fifo_wf None (rq_queue iq) -> rq_queue iq' = rq_queue iq -> in_flight iq' = in_flight iq ->
  rq_maxQueueLen iq' = rq_maxQueueLen iq -> (length (rq_sch iq) <= length (rq_sch iq'))%nat ->
  ((rq_triggerCh iq <= defaultTriggerChSize)%nat -> (rq_triggerCh iq' <= defaultTriggerChSize)%nat) ->
  rq_moves iq [] iq'.
Proof.
  intros Hwf Hq Hf Hm Hs Ht. split; simpl; try done; [by rewrite Hq|].
  unfold waiting. by rewrite Hq, Hf, app_nil_r.
Qed.

Lemma moves_refl iq : fifo_wf None (rq_queue iq) -> rq_moves iq [] iq.
Proof. intros Hwf. by apply moves_same. Qed.

(** Steps that answer requests of the queue. *)
Lemma moves_answers iq iq' (l : list answer) :
  fifo_wf None (rq_queue iq') -> waiting iq = l.*1 ++ waiting iq' -> rq_sch iq' = rq_sch iq ->
  rq_maxQueueLen iq' = rq_maxQueueLen iq ->
  ((rq_triggerCh iq <= defaultTriggerChSize)%nat -> (rq_triggerCh iq' <= defaultTriggerChSize)%nat) ->
  rq_moves iq (LogAnswered <$> l) iq'.
Proof.
  intros Hwf Hw Hs Hm Ht. destruct (answered_fmap l) as (Ha & Hd & Hc).
  split; rewrite ?Ha, ?Hd, ?Hc; try done; [|by rewrite Hs].
  unfold in_flight. rewrite Hw, Hs, app_nil_r. simpl. by solve_Permutation.
Qed.

Lemma Add_moves r iq :
  fifo_wf None (rq_queue iq) -> rq_moves iq (rq_step iq (RqAdd r)).1 (rq_step iq (RqAdd r)).2.
Proof.
  intros Hwf. simpl. unfold AddRequest. destruct (rq_unrecoverableError iq); [by apply moves_refl|].
  destruct (Z.leb_spec (rq_maxQueueLen iq) (Z.of_nat (ReqLen iq))) as [|Hlt]; [by apply moves_refl|].
  rewrite ReqLen_waiting in Hlt by done. destruct (FifoPushBack_spec None r _ Hwf) as [Hwf' Hc].
  set (iq1 := set_queue _ iq). assert (rq_moves iq [LogAdded r] iq1) as Hm.
  { split; simpl; try done.
    - unfold waiting, in_flight. simpl. rewrite Hc, app_nil_r. by solve_Permutation.
    - intros _. split; [done|]. unfold waiting. simpl. rewrite Hc, length_app. simpl. lia. }
  destruct (ReqLen iq =? 0)%nat; [|done]. unfold TriggerSchedule.
  destruct (Nat.ltb_spec (rq_triggerCh iq1) defaultTriggerChSize); [|done]. by destruct Hm; split.
Qed.

Lemma turn_moves now iq :
  fifo_wf None (rq_queue iq) ->
  rq_moves iq (LogAnswered <$> (timeout_turn now iq).1) (timeout_turn now iq).2.
Proof.
  intros Hwf. unfold timeout_turn.
  destruct (timeout_scan_spec (S (ReqLen iq)) now iq Hwf) as (l & next & q' & -> & Hwf' & Hw & _).
  { rewrite ReqLen_waiting by done. lia. }
  simpl. apply moves_answers; by destruct (ReqLen _ =? 0)%nat.
Qed.

Lemma clear_moves err iq :
  fifo_wf None (rq_queue iq) ->
  rq_moves iq (LogAnswered <$> (ClearReqQueueWithError err iq).1) (ClearReqQueueWithError err iq).2.
Proof.
  intros Hwf. destruct (Clear_spec err iq Hwf) as (q' & -> & Hwf' & Hc). simpl. apply moves_answers; try done.
  rewrite (Hc : waiting (set_queue q' iq) = []), app_nil_r, <- list_fmap_compose. symmetry. apply list_fmap_id.
Qed.

(** A step before another that leaves the requests where they are. *)
Lemma moves_before iq iq1 iq' l :
  rq_queue iq1 = rq_queue iq -> rq_sch iq1 = rq_sch iq -> rq_maxQueueLen iq1 = rq_maxQueueLen iq ->
  (rq_triggerCh iq1 <= rq_triggerCh iq)%nat -> rq_moves iq1 l iq' -> rq_moves iq l iq'.
Proof.
  intros Hq Hs Hm Ht [M1 M2 M3 M4 M5 M6]. unfold waiting, in_flight in *. rewrite Hq, Hs, Hm in *.
  split; try done. intros ?. apply M6. lia.
Qed.

Lemma sch_moves g s s' iq :
  fifo_wf None (rq_queue iq) -> rq_sch iq !! g = Some s -> calling s = calling s' ->
  rq_moves iq [] (set_sch (rq_schFuncMap iq) (<[g:=s']> (rq_sch iq)) iq).
Proof.
  intros Hwf Hg Hc. split; try done; [|by simpl; rewrite length_insert].
  pose proof (in_flight_insert g s s' _ Hg) as H. rewrite Hc in H. apply Permutation_app_inv_l in H.
  unfold in_flight. simpl. by rewrite H, app_nil_r.
Qed.

Lemma pop_moves g iq :
  fifo_wf None (rq_queue iq) -> rq_moves iq [] (default iq (schedule_pop g iq)).
Proof.
  intros Hwf. unfold schedule_pop. destruct (rq_sch iq !! g) as [[n []]|] eqn:Hg; try by apply moves_refl.
  destruct (front_cases _ Hwf) as [(_ & _ & ->)|(r & rest & q' & Hc & _ & -> & Hwf' & Hc')]; simpl.
  - by eapply sch_moves.
  - split; try done; [|by simpl; rewrite length_insert].
    pose proof (in_flight_insert g _ (mkSch n (SchCalling r)) _ Hg) as H. simpl in H.
    unfold waiting, in_flight. simpl. rewrite Hc, Hc', H. by solve_Permutation.
Qed.

Lemma return_moves g res iq :
  fifo_wf None (rq_queue iq) ->
  rq_moves iq (answering iq (schedule_return g res iq)).1 (answering iq (schedule_return g res iq)).2.
Proof.
  intros Hwf. unfold schedule_return. destruct (rq_sch iq !! g) as [[n []]|] eqn:Hg; try by apply moves_refl.
  destruct res as [al|err]; simpl.
  - pose proof (in_flight_insert g _ (mkSch n SchRunning) _ Hg) as H. simpl in H.
    split; try done; [|by simpl; rewrite length_insert]. unfold in_flight. simpl. rewrite <- H.
    by solve_Permutation.
  - pose proof (in_flight_insert g _ (mkSch n SchSelect) _ Hg) as H. simpl in H.
    destruct (FifoPushBack_spec None r _ Hwf) as [Hwf' Hc].
    split; try done; [|by simpl; rewrite length_insert]. unfold waiting, in_flight. simpl.
    rewrite Hc, <- H. by solve_Permutation.
Qed.

Lemma cancel_moves p iq :
  fifo_wf None (rq_queue iq) ->
  rq_moves iq (rq_step iq (RqCancel p)).1 (rq_step iq (RqCancel p)).2.
Proof.
  intros Hwf. simpl. destruct p as [ptr|]; [|by apply moves_refl].
  destruct (CancelRequest_spec ptr iq Hwf) as (q' & -> & Hwf' & Hc).
  pose proof (cancel_list_perm ptr (waiting iq)) as Hp.
  destruct (cancel_list ptr (waiting iq)) as [[r|] l]; simpl in *; split; try done;
    unfold waiting in *; unfold in_flight; simpl; rewrite Hc, Hp; by solve_Permutation.
Qed.
Lemma rq_step_moves iq e : fifo_wf None (rq_queue iq) -> rq_moves iq (rq_step iq e).1 (rq_step iq e).2.
Proof.
  intros Hwf. destruct e as [r|p|k|k|g|g|g|g res|now|now| |d|n [err|]|t|]; try by apply moves_same.
  - by apply Add_moves.
  - by apply cancel_moves.
  - apply moves_same; try done; simpl; [|rewrite length_app; lia].
    unfold in_flight. simpl. by rewrite omap_app, app_nil_r.
  - simpl. unfold ScheduleRequest. destruct (rq_schFuncMap iq !! k) as [g|]; [|by apply moves_refl].
    apply moves_same; try done; [|by simpl; rewrite length_alter].
    apply in_flight_alter. intros s. by destruct (sg_scheCh s =? 0)%nat.
  - simpl. unfold sch_receive. destruct (rq_sch iq !! g) as [[[|n] []]|] eqn:Hg; try by apply moves_refl.
    by eapply sch_moves.
  - simpl. unfold sch_stopped. destruct (rq_sch iq !! g) as [[n []]|] eqn:Hg; try by apply moves_refl.
    destruct (rq_stopCh iq); [by eapply sch_moves|by apply moves_refl].
  - by apply pop_moves.
  - by apply return_moves.
  - simpl. unfold loop_triggered. destruct (rq_loop iq); [|by apply moves_refl].
    destruct (rq_triggerCh iq) as [|n] eqn:Ht; [by apply moves_refl|]. simpl.
    destruct (timeout_turn now _) as [l iq'] eqn:E. simpl.
    apply (moves_before iq (set_loop n (rq_stopCh iq) true (rq_timer iq) iq)); try done; [simpl; lia|].
    pose proof (turn_moves now (set_loop n (rq_stopCh iq) true (rq_timer iq) iq) Hwf) as H. by rewrite E in H.
  - simpl. unfold loop_timer. destruct (rq_loop iq); [|by apply moves_refl].
    destruct (rq_timer iq) as [t|]; [|by apply moves_refl]. destruct (t <=? now); [|by apply moves_refl]. simpl.
    destruct (timeout_turn now _) as [l iq'] eqn:E. simpl.
    apply (moves_before iq (set_loop (rq_triggerCh iq) (rq_stopCh iq) true None iq)); try done.
    pose proof (turn_moves now (set_loop (rq_triggerCh iq) (rq_stopCh iq) true None iq) Hwf) as H. by rewrite E in H.
  - simpl. unfold loop_stopped. destruct (rq_loop iq && rq_stopCh iq); [|by apply moves_refl]. simpl.
    set (iq1 := set_loop _ _ _ _ iq). pose proof (clear_moves (SNError 150424 "function metadata not found") iq1 Hwf) as H.
    destruct (ClearReqQueueWithError _ iq1) as [l iq']. by apply (moves_before iq iq1).
  - simpl. unfold HandleCreateError, handlerWorkMangerError. destruct (rq_stopCh iq); [by apply moves_refl|].
    destruct backendFG.
    + destruct ((n =? 0) && negb (NeedTryError err)); [|by apply moves_same].
      pose proof (clear_moves err iq Hwf) as H. by destruct (ClearReqQueueWithError err iq).
    + destruct (IsUnrecoverableError err); [|by apply moves_same]. simpl.
      destruct (rq_insNum iq =? 0); [|by apply moves_same].
      set (iq1 := set_errors _ _ iq). pose proof (clear_moves err iq1 Hwf) as H.
      destruct (ClearReqQueueWithError err iq1) as [l iq']. by apply (moves_before iq iq1).
  - simpl. unfold HandleCreateError. destruct (rq_stopCh iq); by apply moves_same.
  - simpl. unfold UpdateRequestTimeout. destruct (t =? rq_requestTimeout iq); by apply moves_same.
Qed.

(** A queue and its bound. *)
Definition rq_bounded iq : Prop :=
  fifo_wf None (rq_queue iq) /\ (rq_triggerCh iq <= defaultTriggerChSize)%nat /\
  Z.of_nat (length (waiting iq) + length (in_flight iq)) <= Z.max 0 (rq_maxQueueLen iq) + Z.of_nat (length (rq_sch iq)).

Lemma rq_step_bounded iq e : rq_bounded iq -> rq_bounded (rq_step iq e).2.
Proof.
  intros (Hwf & Ht & Hb). destruct (rq_step_moves iq e Hwf) as [M1 M2 M3 M4 M5 M6].
  destruct (rq_step iq e) as [l iq']. simpl in *. split_and!; [done|by apply M6|].
  apply Permutation_length in M2. rewrite !length_app in M2. pose proof (length_in_flight iq').
  destruct (added l) as [|r rs]; simpl in M2; [lia|]. destruct (M5 ltac:(done)) as [M7 M8]. lia.
Qed.

Lemma rq_run_spec es : forall iq, rq_bounded iq ->
  let log := (rq_run iq es).1 in let iq' := (rq_run iq es).2 in
  rq_bounded iq' /\ rq_maxQueueLen iq' = rq_maxQueueLen iq /\
  added log ++ waiting iq ++ in_flight iq ≡ₚ waiting iq' ++ in_flight iq' ++ (answered log).*1 ++ cancelled log.
Proof.
  induction es as [|e es IH]; intros iq Hb; simpl; [by rewrite app_nil_r|].
  pose proof (rq_step_bounded iq e Hb) as Hb1. destruct (rq_step_moves iq e (proj1 Hb)) as [_ M2 M3 _ _ _].
  destruct (rq_step iq e) as [l iq1]. simpl in *. destruct (IH iq1 Hb1) as (Hb2 & Hm & Hp). clear IH.
  destruct (rq_run iq1 es) as [ls iq2]. simpl in *. split_and!; [done|congruence|].
  unfold added, answered, cancelled in *. rewrite !omap_app, fmap_app.
  rewrite <- (assoc_L (++)). rewrite (Permutation_app_comm (omap _ l)), <- (assoc_L (++)).
  rewrite (Permutation_app_comm (waiting iq ++ in_flight iq)), M2.
  rewrite (assoc_L (++) (waiting iq1)), (assoc_L (++)), Hp. by solve_Permutation.
Qed.

Lemma New_bounded BurstScaleNum requestTimeout : rq_bounded (NewInsAcqReqQueue BurstScaleNum requestTimeout).
Proof. split_and!; [apply NewFifo_wf|simpl; lia|simpl; lia]. Qed.
(** C7: no request is lost and none is answered twice.  Whatever the callers,
    the scheduling goroutines and the timeout loop do, in any interleaving: the
    requests that were accepted are exactly those that wait, those a goroutine
    has in hand, those answered and those cancelled.  So if every request was
    added once, each gets at most one answer, and writing it into the result
    channel's one slot never blocks the loop that holds the queue's lock. *)
Theorem requests_conserved BurstScaleNum requestTimeout es :
  let log := (rq_run (NewInsAcqReqQueue BurstScaleNum requestTimeout) es).1 in
  let iq := (rq_run (NewInsAcqReqQueue BurstScaleNum requestTimeout) es).2 in
  added log ≡ₚ waiting iq ++ in_flight iq ++ (answered log).*1 ++ cancelled log /\
  (NoDup (pr_ptr <$> added log) -> NoDup ((fun a => pr_ptr a.1) <$> answered log)).
Proof.
  intros log iq.
  destruct (rq_run_spec es _ (New_bounded BurstScaleNum requestTimeout)) as (_ & _ & Hp). fold log iq in Hp.
  simpl in Hp. rewrite app_nil_r in Hp. split; [done|]. rewrite Hp, !fmap_app.
  intros (_ & _ & (_ & _ & (Hnd & _)%NoDup_app)%NoDup_app)%NoDup_app. by rewrite <- list_fmap_compose in Hnd.
Qed.

(** The queue is bounded.  The requests that wait or are in a goroutine's
    hand are never more than the configured burst number and one for every
    registered goroutine: a request is only accepted while the queue is below
    the burst number, but one that fails to be scheduled goes back without a
    check.  The trigger channel stays within its capacity. *)
Theorem requests_bounded BurstScaleNum requestTimeout es :
  let iq := (rq_run (NewInsAcqReqQueue BurstScaleNum requestTimeout) es).2 in
  Z.of_nat (ReqLen iq + length (in_flight iq)) <= Z.max 0 BurstScaleNum + Z.of_nat (length (rq_sch iq)) /\
  (rq_triggerCh iq <= defaultTriggerChSize)%nat.
Proof.
  intros iq. destruct (rq_run_spec es _ (New_bounded BurstScaleNum requestTimeout)) as ((Hwf & Ht & Hb) & Hm & _).
  fold iq in Hwf, Ht, Hb, Hm. rewrite Hm in Hb. split; [|done]. by rewrite ReqLen_waiting.
Qed.

(** ** Timeouts *)

(** The requests are in the order they were created in. *)
Definition in_order (l : list PendingInsAcqReq) : Prop :=
  StronglySorted (fun r1 r2 => pr_CreatedTime r1 <= pr_CreatedTime r2) l.

Lemma in_order_app l1 l2 : in_order (l1 ++ l2) -> in_order l2.
Proof. induction l1 as [|r l1 IH]; [done|]. intros [H _]%StronglySorted_inv. by apply IH. Qed.
Lemma in_order_snoc l r :
  in_order l -> (forall r', r' ∈ l -> pr_CreatedTime r' <= pr_CreatedTime r) -> in_order (l ++ [r]).
Proof.
  induction l as [|x l IH]; intros H Hr; simpl; [by repeat constructor|]. apply StronglySorted_inv in H as [H Hx].
  constructor; [apply IH; [done|]; intros r' Hr'; apply Hr; by right|].
  apply Forall_app. split; [done|]. apply Forall_singleton. apply Hr. left.
Qed.
Lemma in_order_head r l r' : in_order (r :: l) -> r' ∈ r :: l -> pr_CreatedTime r <= pr_CreatedTime r'.
Proof.
  intros [_ H]%StronglySorted_inv [->|Hin]%elem_of_cons; [done|]. rewrite Forall_forall in H. by apply H.
Qed.
Lemma cancel_list_subset ptr l r : r ∈ (cancel_list ptr l).2 -> r ∈ l.
Proof. rewrite (cancel_list_perm ptr l) at 2. intros H. apply elem_of_app. by right. Qed.
Lemma cancel_list_order ptr l : in_order l -> in_order (cancel_list ptr l).2.
Proof.
  induction l as [|x l IH]; [done|]. intros [H Hx]%StronglySorted_inv. simpl. case_decide; [done|].
  pose proof (cancel_list_subset ptr l) as Hs. specialize (IH H).
  destruct (cancel_list ptr l) as [y l']. simpl in *. constructor; [done|].
  rewrite Forall_forall in *. auto.
Qed.

(** A younger request is not overdue before an older one. *)
Lemma overdue_mono now t r1 r2 :
  pr_CreatedTime r1 <= pr_CreatedTime r2 -> req_overdue now t r2 = true -> req_overdue now t r1 = true.
Proof.
  unfold req_overdue, Milliseconds. rewrite !Z.leb_le. intros Hc H.
  etransitivity; [exact H|]. apply Z.quot_le_mono; lia.
Qed.

Lemma turn_spec now iq :
  fifo_wf None (rq_queue iq) ->
  let answers := (timeout_turn now iq).1 in
  let iq' := (timeout_turn now iq).2 in
  waiting iq = answers.*1 ++ waiting iq' /\
  Forall (fun a => req_overdue now (rq_requestTimeout iq) a.1 = true /\
                   a.2 = mkRsp None (Some (default (Sentinel ErrInsReqTimeout) (rq_recoverableError iq)))) answers /\
  (forall r rest, waiting iq' = r :: rest ->
     req_overdue now (rq_requestTimeout iq) r = false /\
     rq_timer iq' = Some (pr_CreatedTime r + rq_requestTimeout iq)) /\
  rq_requestTimeout iq' = rq_requestTimeout iq /\ rq_loop iq' = rq_loop iq.
Proof.
  intros Hwf answers iq'. subst answers iq'. unfold timeout_turn.
  destruct (timeout_scan_spec (S (ReqLen iq)) now iq Hwf) as (l & next & q' & -> & Hwf' & Hw & Hall & Hnext).
  { rewrite ReqLen_waiting by done. lia. }
  simpl. set (iq1 := if (_ =? _)%nat then _ else _).
  assert (waiting iq1 = fifo_contents q' /\ rq_requestTimeout iq1 = rq_requestTimeout iq /\ rq_loop iq1 = rq_loop iq)
    as (Hw1 & Ht1 & Hl1) by (subst iq1; by destruct (_ =? _)%nat).
  rewrite Hw1. split_and!; try done.
  intros r rest Hc. rewrite Hc in Hnext. destruct Hnext as [Ho ->]. split; [done|]. subst iq1.
  assert (ReqLen (set_queue q' iq) <> 0%nat) as Hne.
  { rewrite ReqLen_waiting by done. unfold waiting. simpl. by rewrite Hc. }
  apply Nat.eqb_neq in Hne. rewrite Hne. simpl. f_equal. lia.
Qed.

(** What a turn of the timeout loop does.  It answers requests from the
    front, each overdue, with the last recoverable create error or else the
    timeout error; the first request it leaves is not overdue and the timer is
    set to the moment that request's timeout ends.  When the requests wait in
    the order they were created in, none of those left is overdue. *)
Theorem timeout_turn_spec now iq :
  fifo_wf None (rq_queue iq) ->
  let answers := (timeout_turn now iq).1 in
  let iq' := (timeout_turn now iq).2 in
  waiting iq = answers.*1 ++ waiting iq' /\
  Forall (fun a => req_overdue now (rq_requestTimeout iq) a.1 = true /\
                   a.2 = mkRsp None (Some (default (Sentinel ErrInsReqTimeout) (rq_recoverableError iq)))) answers /\
  (forall r rest, waiting iq' = r :: rest ->
     req_overdue now (rq_requestTimeout iq) r = false /\
     rq_timer iq' = Some (pr_CreatedTime r + rq_requestTimeout iq)) /\
  (in_order (waiting iq) -> Forall (fun r => req_overdue now (rq_requestTimeout iq) r = false) (waiting iq')).
Proof.
  intros Hwf answers iq'. destruct (turn_spec now iq Hwf) as (Hw & Hall & Hnext & _).
  fold answers iq' in Hw, Hall, Hnext. split_and!; try done. intros Hord. rewrite Hw in Hord.
  apply in_order_app in Hord. destruct (waiting iq') as [|r rest]; [done|].
  destruct (Hnext r rest eq_refl) as [Ho _]. apply Forall_forall. intros r' Hin.
  destruct (req_overdue now (rq_requestTimeout iq) r') eqn:E; [|done].
  by rewrite (overdue_mono now _ r r' (in_order_head r rest r' Hord Hin) E) in Ho.
Qed.
(** The loop is going to look at the queue again, and in time: a trigger waits for
    it, or its timer fires no later than the first request's timeout. *)
Definition watched iq : Prop :=
  in_order (waiting iq) /\
  (rq_loop iq = true -> forall r rest, waiting iq = r :: rest ->
     (0 < rq_triggerCh iq)%nat \/
     exists t, rq_timer iq = Some t /\ t <= pr_CreatedTime r + rq_requestTimeout iq).

(** An event of a calm run: no schedule function fails, the timeout stays, and
    requests are added in the order they are created in. *)
Definition calm_event iq (e : rq_event) : Prop :=
  match e with
  | RqReturn _ (inr _) | RqUpdateTimeout _ => False
  | RqAdd r => forall r', r' ∈ waiting iq -> pr_CreatedTime r' <= pr_CreatedTime r
  | _ => True
  end.
Fixpoint calm iq (es : list rq_event) : Prop :=
  match es with [] => True | e :: es => calm_event iq e /\ calm (rq_step iq e).2 es end.

(** Requests leave and the loop's channels stay. *)
Lemma watched_less iq iq' :
  watched iq -> in_order (waiting iq') -> (forall r, r ∈ waiting iq' -> r ∈ waiting iq) ->
  (rq_loop iq' = true -> rq_loop iq = true) -> rq_triggerCh iq' = rq_triggerCh iq ->
  rq_timer iq' = rq_timer iq -> rq_requestTimeout iq' = rq_requestTimeout iq -> watched iq'.
Proof.
  intros [Hord Hw] Hord' Hsub Hl Ht Hti Hto. split; [done|]. intros Hl'%Hl r rest Hc.
  rewrite Ht, Hti, Hto. destruct (waiting iq) as [|r0 rest0].
  { assert (r ∈ waiting iq') as Hin by (rewrite Hc; left). by apply Hsub, elem_of_nil in Hin. }
  destruct (Hw Hl' r0 rest0 eq_refl) as [?|(t & ? & ?)]; [by left|right]. exists t. split; [done|].
  assert (pr_CreatedTime r0 <= pr_CreatedTime r); [|lia]. apply (in_order_head r0 rest0); [done|].
  apply Hsub. rewrite Hc. left.
Qed.

Lemma watched_turn now iq iq1 :
  fifo_wf None (rq_queue iq) -> watched iq -> waiting iq1 = waiting iq -> rq_queue iq1 = rq_queue iq ->
  watched (timeout_turn now iq1).2.
Proof.
  intros Hwf [Hord _] Hw Hq. rewrite <- Hq in Hwf.
  destruct (turn_spec now iq1 Hwf) as (Hw1 & _ & Hnext & Hto & _). split.
  - rewrite <- Hw, Hw1 in Hord. by apply in_order_app in Hord.
  - intros _ r rest Hc. right. destruct (Hnext r rest Hc) as [_ ->]. eexists. split; [done|]. rewrite Hto. lia.
Qed.

Lemma watched_clear err iq iq1 :
  fifo_wf None (rq_queue iq1) -> watched iq -> watched (ClearReqQueueWithError err iq1).2.
Proof.
  intros Hwf _. destruct (Clear_spec err iq1 Hwf) as (q' & -> & _ & Hc).
  assert (waiting (set_queue q' iq1) = []) as Hw by done.
  split; simpl; rewrite Hw; [constructor|done].
Qed.

Lemma watched_same iq iq' :
  watched iq -> rq_queue iq' = rq_queue iq -> rq_loop iq' = rq_loop iq -> rq_triggerCh iq' = rq_triggerCh iq ->
  rq_timer iq' = rq_timer iq -> rq_requestTimeout iq' = rq_requestTimeout iq -> watched iq'.
Proof.
  intros Hw Hq Hl. assert (waiting iq' = waiting iq) as Hwt by (unfold waiting; by rewrite Hq).
  apply watched_less; rewrite ?Hwt, ?Hl; try done. apply Hw.
Qed.

Lemma watched_add iq r :
  fifo_wf None (rq_queue iq) -> watched iq -> calm_event iq (RqAdd r) -> watched (AddRequest r iq).2.
Proof.
  intros Hwf Hw Hcalm. unfold AddRequest. destruct (rq_unrecoverableError iq); [done|]. case_bool; [done|].
  simpl. destruct (FifoPushBack_spec None r _ Hwf) as [_ Hc]. rewrite (ReqLen_waiting iq Hwf).
  set (iq1 := set_queue _ iq). assert (waiting iq1 = waiting iq ++ [r]) as Hw1 by done.
  assert (in_order (waiting iq1)) as Ho by (rewrite Hw1; by apply in_order_snoc; [apply Hw|]).
  destruct (Nat.eqb_spec (length (waiting iq)) 0) as [He|He].
  - unfold TriggerSchedule. destruct (Nat.ltb_spec (rq_triggerCh iq1) defaultTriggerChSize) as [Hlt|Hlt].
    + split; [done|]. intros _ r0 rest _. left. simpl. lia.
    + split; [done|]. intros _ r0 rest _. left. unfold defaultTriggerChSize in Hlt. lia.
  - split; [done|]. intros Hl r0 rest Hc0. rewrite Hw1 in Hc0. destruct Hw as [_ Hw].
    destruct (waiting iq) as [|r1 rest1]; [done|]. injection Hc0 as -> _. by apply (Hw Hl r0 rest1).
Qed.

Lemma watched_step iq e :
  fifo_wf None (rq_queue iq) -> watched iq -> calm_event iq e -> watched (rq_step iq e).2.
Proof.
  intros Hwf Hw Hcalm. destruct e as [r|p|k|k|g|g|g|g res|now|now| |d|n [err|]|t|]; simpl; try by apply watched_same with iq.
  - pose proof (watched_add iq r Hwf Hw Hcalm). by destruct (AddRequest r iq) as [[]].
  - destruct p as [ptr|]; [|done]. destruct (CancelRequest_spec ptr iq Hwf) as (q' & -> & _ & Hc).
    assert (watched (set_queue q' iq)); [|by destruct (cancel_list ptr (waiting iq)).1].
    assert (waiting (set_queue q' iq) = (cancel_list ptr (waiting iq)).2) as Hwt by done.
    apply watched_less with iq; rewrite ?Hwt; try done; [by apply cancel_list_order, Hw|apply cancel_list_subset].
  - unfold ScheduleRequest. by destruct (rq_schFuncMap iq !! k).
  - unfold sch_receive. by destruct (rq_sch iq !! g) as [[[|n] []]|].
  - unfold sch_stopped. destruct (rq_sch iq !! g) as [[n []]|]; try done. by destruct (rq_stopCh iq).
  - unfold schedule_pop. destruct (rq_sch iq !! g) as [[n []]|]; try done.
    destruct (front_cases _ Hwf) as [(_ & _ & ->)|(r & rest & q' & Hc & _ & -> & Hwf' & Hc')]; [done|].
    simpl. apply watched_less with iq; try done; unfold waiting; simpl; rewrite Hc'.
    + destruct Hw as [Hw _]. unfold waiting in Hw. rewrite Hc in Hw. by apply StronglySorted_inv in Hw as [? _].
    + intros r' Hr'. rewrite Hc. by right.
  - unfold schedule_return. destruct (rq_sch iq !! g) as [[n []]|]; try done. by destruct res.
  - unfold loop_triggered. destruct (rq_loop iq); [|done]. destruct (rq_triggerCh iq) as [|n]; [done|]. simpl.
    set (iq1 := set_loop _ _ _ _ iq). pose proof (watched_turn now iq iq1 Hwf Hw eq_refl eq_refl) as H.
    by destruct (timeout_turn now iq1).
  - unfold loop_timer. destruct (rq_loop iq); [|done]. destruct (rq_timer iq) as [t|]; [|done].
    destruct (t <=? now); [|done]. simpl. set (iq1 := set_loop _ _ _ _ iq).
    pose proof (watched_turn now iq iq1 Hwf Hw eq_refl eq_refl) as H. by destruct (timeout_turn now iq1).
  - unfold loop_stopped. destruct (rq_loop iq && rq_stopCh iq); [|done]. simpl. set (iq1 := set_loop _ _ _ _ iq).
    pose proof (watched_clear (SNError 150424 "function metadata not found") iq iq1 Hwf Hw) as H.
    by destruct (ClearReqQueueWithError _ iq1).
  - unfold HandleCreateError, handlerWorkMangerError. destruct (rq_stopCh iq); [done|]. destruct backendFG.
    + destruct ((n =? 0) && negb (NeedTryError err)); [|done].
      pose proof (watched_clear err iq iq Hwf Hw) as H. by destruct (ClearReqQueueWithError err iq).
    + destruct (IsUnrecoverableError err); [|done]. simpl. destruct (rq_insNum iq =? 0); [|done].
      set (iq1 := set_errors _ _ iq). pose proof (watched_clear err iq iq1 Hwf Hw) as H.
      by destruct (ClearReqQueueWithError err iq1).
  - unfold HandleCreateError. by destruct (rq_stopCh iq).
Qed.

(** In a calm run every request is watched.  As long as no schedule
    function fails, requests come in the order they were created in and the
    timeout is not changed: the requests stay in that order, and while the loop
    runs and requests wait, a trigger is there for it or its timer fires no later
    than the first request's timeout ends. *)
Theorem requests_watched BurstScaleNum requestTimeout es :
  calm (NewInsAcqReqQueue BurstScaleNum requestTimeout) es ->
  watched (rq_run (NewInsAcqReqQueue BurstScaleNum requestTimeout) es).2.
Proof.
  assert (watched (NewInsAcqReqQueue BurstScaleNum requestTimeout)) as Hw by (split; [constructor|done]).
  revert Hw. generalize (New_bounded BurstScaleNum requestTimeout).
  generalize (NewInsAcqReqQueue BurstScaleNum requestTimeout) as iq.
  induction es as [|e es IH]; intros iq Hb Hw Hcalm; [done|]. destruct Hcalm as [Hc Hcs].
  pose proof (watched_step iq e (proj1 Hb) Hw Hc) as H1. pose proof (rq_step_bounded iq e Hb) as Hb1.
  simpl. destruct (rq_step iq e) as [l iq1]. simpl in *. specialize (IH iq1 Hb1 H1 Hcs).
  by destruct (rq_run iq1 es).
Qed.
(** Requests wait and nothing will make the loop look at them. *)
Definition unwatched iq : Prop :=
  rq_triggerCh iq = 0%nat /\ rq_timer iq = None /\ rq_stopCh iq = false.

(** The events of ordinary operation: no stop and no create error. *)
Definition ordinary (e : rq_event) : Prop :=
  match e with RqStop | RqCreateError _ _ => False | _ => True end.
Fixpoint never_empty iq (es : list rq_event) : Prop :=
  waiting iq <> [] /\ match es with [] => True | e :: es => never_empty (rq_step iq e).2 es end.

Lemma unwatched_step iq e :
  fifo_wf None (rq_queue iq) -> unwatched iq -> waiting iq <> [] -> ordinary e ->
  unwatched (rq_step iq e).2 /\
  Forall (fun a => rsp_Error a.2 = None) (answered (rq_step iq e).1).
Proof.
  intros Hwf Hu Hne Hord. pose proof Hu as (Ht & Hti & Hs).
  destruct e as [r|p|k|k|g|g|g|g res|now|now| |d|n o|t|]; simpl in *; try done.
  - unfold AddRequest. destruct (rq_unrecoverableError iq); [done|]. case_bool; [done|].
    rewrite ReqLen_waiting by done. destruct (waiting iq); [done|]. done.
  - destruct p as [ptr|]; [|done]. destruct (CancelRequest_spec ptr iq Hwf) as (q' & -> & _).
    by destruct (cancel_list ptr (waiting iq)).1.
  - unfold ScheduleRequest. by destruct (rq_schFuncMap iq !! k).
  - unfold sch_receive. by destruct (rq_sch iq !! g) as [[[|n] []]|].
  - unfold sch_stopped. destruct (rq_sch iq !! g) as [[n []]|]; try done. by rewrite Hs.
  - unfold schedule_pop. destruct (rq_sch iq !! g) as [[n []]|]; try done.
    by destruct (FifoPopFront None (rq_queue iq)) as [[]].
  - unfold schedule_return. destruct (rq_sch iq !! g) as [[n []]|]; try done. destruct res; simpl; [|done].
    split; [done|]. by constructor.
  - unfold loop_triggered. rewrite Ht. by destruct (rq_loop iq).
  - unfold loop_timer. rewrite Hti. by destruct (rq_loop iq).
  - unfold loop_stopped. rewrite Hs, andb_false_r. done.
  - unfold UpdateRequestTimeout. by destruct (t =? rq_requestTimeout iq).
Qed.

Lemma unwatched_run es : forall iq,
  rq_bounded iq -> unwatched iq -> Forall ordinary es -> never_empty iq es ->
  unwatched (rq_run iq es).2 /\ Forall (fun a => rsp_Error a.2 = None) (answered (rq_run iq es).1).
Proof.
  induction es as [|e es IH]; intros iq Hb Hu Ho Hne; [done|]. apply Forall_cons in Ho as [Ho Hos].
  destruct Hne as [Hn Hne]. destruct (unwatched_step iq e (proj1 Hb) Hu Hn Ho) as [Hu1 Ha].
  pose proof (rq_step_bounded iq e Hb) as Hb1. simpl. destruct (rq_step iq e) as [l iq1]. simpl in *.
  destruct (IH iq1 Hb1 Hu1 Hos Hne) as [Hu2 Ha2]. destruct (rq_run iq1 es) as [ls iq2]. simpl in *.
  split; [done|]. unfold answered in *. rewrite omap_app. by apply Forall_app.
Qed.

(** A request that goes back into an empty queue is not timed out.  Only
    the first request of an empty queue wakes the timeout loop, and only the loop
    sets its timer.  Let a goroutine have the only request in hand when the loop
    has taken its trigger and no timer runs.  When the schedule function then
    fails, the request goes back without a trigger; and from there on, as long as
    the queue does not run empty, whatever else is added and however much time
    goes by, the loop never takes a turn: no request gets a timeout error, the
    only answers are allocations. *)
Theorem pushback_loses_timeout iq g n r err es :
  rq_bounded iq -> rq_sch iq !! g = Some (mkSch n (SchCalling r)) ->
  rq_triggerCh iq = 0%nat -> rq_timer iq = None -> rq_stopCh iq = false ->
  let iq1 := (rq_step iq (RqReturn g (inr err))).2 in
  Forall ordinary es -> never_empty iq1 es ->
  r ∈ waiting iq1 /\
  rq_timer (rq_run iq1 es).2 = None /\
  Forall (fun a => rsp_Error a.2 = None) (answered (rq_run iq1 es).1).
Proof.
  intros Hb Hg Ht Hti Hs iq1 Ho Hne. pose proof (rq_step_bounded iq (RqReturn g (inr err)) Hb) as Hb1.
  fold iq1 in Hb1. destruct (FifoPushBack_spec None r _ (proj1 Hb)) as [_ Hc].
  assert (unwatched iq1 /\ waiting iq1 = waiting iq ++ [r]) as [Hu Hw].
  { subst iq1. simpl. unfold schedule_return. by rewrite Hg. }
  destruct (unwatched_run es iq1 Hb1 Hu Ho Hne) as [(_ & Hti' & _) Ha]. split_and!; [|done|done].
  rewrite Hw. apply elem_of_app. right. by apply list_elem_of_singleton.
Qed.

(** Nothing will answer: the queue is stopped, and all its goroutines are gone. *)
Definition dead iq : Prop :=
  rq_stopCh iq = true /\ rq_loop iq = false /\ Forall (fun s => sg_pc s = SchGone) (rq_sch iq).

Lemma dead_sch iq g s : dead iq -> rq_sch iq !! g = Some s -> sg_pc s = SchGone.
Proof.
  intros (_ & _ & Hf) Hg. rewrite Forall_forall in Hf. apply Hf. by eapply list_elem_of_lookup_2.
Qed.

Lemma dead_step iq e :
  fifo_wf None (rq_queue iq) -> dead iq -> (forall k, e <> RqRegister k) ->
  dead (rq_step iq e).2 /\ answered (rq_step iq e).1 = [].
Proof.
  intros Hwf Hd Hr. pose proof Hd as (Hs & Hl & Hf). pose proof (dead_sch iq) as Hgone.
  destruct e as [r|p|k|k|g|g|g|g res|now|now| |d|n o|t|]; simpl in *; try done.
  - unfold AddRequest, TriggerSchedule. by repeat case_match; simplify_eq.
  - destruct p as [ptr|]; [|done]. destruct (CancelRequest_spec ptr iq Hwf) as (q' & -> & _).
    by destruct (cancel_list ptr (waiting iq)).1.
  - by destruct (Hr k).
  - unfold ScheduleRequest. destruct (rq_schFuncMap iq !! k) as [g|]; [|done]. split; [|done].
    split_and!; try done. simpl. apply Forall_alter; [done|]. intros s Hg Hp. by destruct (sg_scheCh s =? 0)%nat.
  - unfold sch_receive. destruct (rq_sch iq !! g) as [[[|n] []]|] eqn:Hg; try done. by apply Hgone in Hg.
  - unfold sch_stopped. destruct (rq_sch iq !! g) as [[n []]|] eqn:Hg; try done. by apply Hgone in Hg.
  - unfold schedule_pop. destruct (rq_sch iq !! g) as [[n []]|] eqn:Hg; try done. by apply Hgone in Hg.
  - unfold schedule_return. destruct (rq_sch iq !! g) as [[n []]|] eqn:Hg; try done. by apply Hgone in Hg.
  - unfold loop_triggered. by rewrite Hl.
  - unfold loop_timer. by rewrite Hl.
  - unfold loop_stopped. by rewrite Hl.
  - unfold HandleCreateError. by rewrite Hs.
  - unfold UpdateRequestTimeout. by destruct (t =? rq_requestTimeout iq).
Qed.

Lemma dead_run es : forall iq, rq_bounded iq -> dead iq -> (forall k, RqRegister k ∉ es) ->
  dead (rq_run iq es).2 /\ answered (rq_run iq es).1 = [].
Proof.
  induction es as [|e es IH]; intros iq Hb Hd Hes; [done|].
  destruct (dead_step iq e (proj1 Hb) Hd) as [Hd1 Ha].
  { intros k ->. apply (Hes k). left. }
  pose proof (rq_step_bounded iq e Hb) as Hb1. simpl. destruct (rq_step iq e) as [l iq1]. simpl in *.
  destruct (IH iq1 Hb1 Hd1) as [Hd2 Ha2]; [intros k Hk; apply (Hes k); by right|].
  destruct (rq_run iq1 es) as [ls iq2]. simpl in *. split; [done|]. unfold answered in *.
  by rewrite omap_app, Ha, Ha2.
Qed.

Lemma dead_in_flight iq : dead iq -> in_flight iq = [].
Proof.
  intros (_ & _ & Hg). unfold in_flight. induction Hg as [|s l Hs _ IH]; [done|]. simpl.
  unfold calling at 1. by rewrite Hs.
Qed.

(** A stopped queue still takes requests, and does not answer them.  Once
    the queue is stopped and its goroutines have returned, [AddRequest] accepts a
    request as before, and nothing that happens afterwards answers it: its
    caller waits on the result channel. *)
Theorem added_after_stop_unanswered iq r es :
  rq_bounded iq -> dead iq -> rq_unrecoverableError iq = None ->
  Z.of_nat (ReqLen iq) < rq_maxQueueLen iq -> (forall k, RqRegister k ∉ es) ->
  (AddRequest r iq).1 = None /\
  answered (rq_run iq (RqAdd r :: es)).1 = [] /\
  (r ∈ waiting (rq_run iq (RqAdd r :: es)).2 \/ r ∈ cancelled (rq_run iq (RqAdd r :: es)).1).
Proof.
  intros Hb Hd Hu Hlen Hes.
  assert ((AddRequest r iq).1 = None /\ (rq_step iq (RqAdd r)).1 = [LogAdded r]) as [Hadd Hlog].
  { simpl. unfold AddRequest. rewrite Hu. destruct (Z.leb_spec (rq_maxQueueLen iq) (Z.of_nat (ReqLen iq))); [lia|done]. }
  assert (r ∈ added (rq_run iq (RqAdd r :: es)).1) as Hin.
  { cbn [rq_run]. destruct (rq_step iq (RqAdd r)) as [l iq1]. simpl in Hlog. subst l.
    destruct (rq_run iq1 es) as [ls iq2]. left. }
  assert (forall k, RqRegister k ∉ RqAdd r :: es) as Hes1 by (intros k [?|Hk]%elem_of_cons; [done|by apply (Hes k)]).
  split; [done|]. clear Hadd Hlog Hlen Hu Hes. revert Hin Hes1. generalize (RqAdd r :: es) as es1. intros es1 Hin Hes.
  destruct (dead_run es1 iq Hb Hd Hes) as [Hd1 Ha]. split; [done|].
  destruct (rq_run_spec es1 iq Hb) as (_ & _ & Hp). rewrite Ha, (dead_in_flight _ Hd1) in Hp. simpl in Hp.
  assert (r ∈ added (rq_run iq es1).1 ++ waiting iq ++ in_flight iq) as Hin2 by (apply elem_of_app; by left).
  rewrite Hp in Hin2. by apply elem_of_app in Hin2.
Qed.

(** A cancellation misses a request that is being scheduled.  While a
    goroutine has the request in hand it is not in the queue: [CancelRequest]
    finds nothing and returns false, whatever its caller does then; and when the
    schedule function succeeds, the allocation goes into the result channel of
    the request that was given up. *)
Theorem cancel_misses_in_flight iq g n r al :
  rq_bounded iq -> rq_sch iq !! g = Some (mkSch n (SchCalling r)) ->
  pr_ptr r ∉ pr_ptr <$> waiting iq ->
  exists iq1, CancelRequest (Some (pr_ptr r)) iq = (None, iq1) /\ waiting iq1 = waiting iq /\
    (rq_step iq1 (RqReturn g (inl al))).1 = [LogAnswered (r, mkRsp (Some al) None)].
Proof.
  intros Hb Hg Hnin. destruct (CancelRequest_spec (pr_ptr r) iq (proj1 Hb)) as (q' & Hc & _ & Hw).
  assert (cancel_list (pr_ptr r) (waiting iq) = (None, waiting iq)) as Hl.
  { revert Hnin. generalize (waiting iq). induction l as [|x l IH]; intros Hn; [done|]. simpl.
    apply not_elem_of_cons in Hn as [Hx Hn]. rewrite decide_False by done. by rewrite IH. }
  rewrite Hl in Hc, Hw. eexists. split; [done|]. split; [done|]. simpl. unfold schedule_return. simpl. by rewrite Hg.
Qed.
End ReqQueue.
Arguments PendingInsAcqReq : clear implicits.
Arguments PendingInsAcqRsp : clear implicits.
Arguments InsAcqReqQueue : clear implicits.
Arguments rq_event : clear implicits.
Arguments rq_log : clear implicits.

(** ** Concrete runs *)

Definition demo_req (p : nat) (created : Z) : PendingInsAcqReq unit := mkPending p created tt.
Definition demo_queue : InsAcqReqQueue unit := NewInsAcqReqQueue 4 0.
Definition demo_run (es : list (rq_event unit string)) := rq_run false demo_queue es.

Lemma demo_bounded es : rq_bounded (demo_run es).2.
Proof. apply rq_run_spec, New_bounded. Qed.

Lemma timeout_turn_spec_witness :
  let iq := (demo_run [RqAdd (demo_req 1 0); RqAdd (demo_req 2 (20 * Second))]).2 in
  let now := 30 * Second in
  (timeout_turn (Alloc:=string) now iq).1 = [(demo_req 1 0, mkRsp None (Some (Sentinel ErrInsReqTimeout)))] /\
  waiting (timeout_turn (Alloc:=string) now iq).2 = [demo_req 2 (20 * Second)] /\
  Forall (fun r => req_overdue now (rq_requestTimeout iq) r = false) (waiting (timeout_turn (Alloc:=string) now iq).2).
Proof.
  intros iq now. split_and!; [vm_compute; reflexivity..|].
  refine (proj2 (proj2 (proj2 (timeout_turn_spec (Alloc:=string) now iq _))) _).
  - apply demo_bounded.
  - vm_compute. repeat constructor; discriminate.
Defined.

Definition calm_demo : list (rq_event unit string) :=
  [RqRegister "s"; RqAdd (demo_req 1 0); RqTriggered 0; RqAdd (demo_req 2 (5 * Second)); RqSchedule "s"; RqReceive 0;
   RqPop 0; RqReturn 0 (inl "i")].

Lemma requests_watched_witness :
  waiting (demo_run calm_demo).2 = [demo_req 2 (5 * Second)] /\ rq_timer (demo_run calm_demo).2 = Some (30 * Second) /\
  watched (demo_run calm_demo).2.
Proof.
  split_and!; [vm_compute; reflexivity..|]. apply (requests_watched false 4 0 calm_demo).
  unfold calm_demo. cbn [calm]. split_and!; try exact I; intros r'.
  - match goal with |- r' ∈ ?l -> _ => assert (l = []) as -> by (vm_compute; reflexivity) end.
    by intros Hr'%elem_of_nil.
  - match goal with |- r' ∈ ?l -> _ => assert (l = [demo_req 1 0]) as -> by (vm_compute; reflexivity) end.
    intros ->%list_elem_of_singleton. vm_compute. discriminate.
Defined.

(** A goroutine has the only request in hand while the loop takes its trigger. *)
Definition race_demo : list (rq_event unit string) :=
  [RqRegister "s"; RqAdd (demo_req 1 0); RqSchedule "s"; RqReceive 0; RqPop 0; RqTriggered 1].
Definition late_demo : list (rq_event unit string) :=
  [RqAdd (demo_req 2 Second); RqTriggered (3600 * Second); RqTimer (3600 * Second)].

Lemma pushback_loses_timeout_witness :
  let iq1 := (rq_step (Alloc:=string) false (demo_run race_demo).2 (RqReturn 0 (inr (PlainError "no instance")))).2 in
  demo_req 1 0 ∈ waiting iq1 /\
  rq_timer (rq_run false iq1 late_demo).2 = None /\
  Forall (fun a => rsp_Error a.2 = None) (answered (rq_run false iq1 late_demo).1).
Proof.
  intros iq1. apply (pushback_loses_timeout false _ 0 0).
  - apply demo_bounded.
  - vm_compute. reflexivity.
  - vm_compute. reflexivity.
  - vm_compute. reflexivity.
  - vm_compute. reflexivity.
  - repeat constructor.
  - unfold late_demo. cbn [never_empty]. split_and!; try exact I; vm_compute; discriminate.
Defined.

Lemma added_after_stop_unanswered_witness :
  let iq := (demo_run [RqRegister "s"; RqStop; RqSchStopped 0; RqLoopStopped]).2 in
  (AddRequest (demo_req 1 0) iq).1 = None /\
  answered (rq_run (Alloc:=string) false iq [RqAdd (demo_req 1 0); RqTriggered (3600 * Second)]).1 = [] /\
  (demo_req 1 0 ∈ waiting (rq_run (Alloc:=string) false iq [RqAdd (demo_req 1 0); RqTriggered (3600 * Second)]).2 \/
   demo_req 1 0 ∈ cancelled (rq_run (Alloc:=string) false iq [RqAdd (demo_req 1 0); RqTriggered (3600 * Second)]).1).
Proof.
  intros iq. apply (added_after_stop_unanswered (Alloc:=string) false iq (demo_req 1 0) [RqTriggered (3600 * Second)]).
  - apply demo_bounded.
  - split_and!; [vm_compute; reflexivity..|]. vm_compute. repeat constructor.
  - vm_compute. reflexivity.
  - vm_compute. reflexivity.
  - intros k Hk. by apply list_elem_of_singleton in Hk.
Defined.

Lemma cancel_misses_in_flight_witness :
  let iq := (demo_run race_demo).2 in
  exists iq1, CancelRequest (Some 1%nat) iq = (None, iq1) /\ waiting iq1 = waiting iq /\
    (rq_step false iq1 (RqReturn 0 (inl "i"))).1 = [LogAnswered (demo_req 1 0, mkRsp (Some "i") None)].
Proof.
  intros iq. apply (cancel_misses_in_flight false iq 0 0 (demo_req 1 0) "i").
  - apply demo_bounded.
  - vm_compute. reflexivity.
  - vm_compute. apply not_elem_of_nil.
Defined.
