(* ===== verification/SessionStore.v ===== *)
(** * The external session store and its coordinator

    Package pkg/functionscaler/session: the [Store] interface and its Redis,
    DataSystem and no-op implementations (sessionstore.go, factory.go), the
    coordinator with its bounded asynchronous write queue (coord.go) and the
    single-flight read group (singleflight.go).

    The goroutines of the coordinator are steps: the worker takes an operation
    off the queue ([worker_take]) and later completes it ([worker_done]);
    callers enqueue in between. *)
From S2P Require Import Prelude GoStrings.
From stdpp Require Import pretty.

#[local] Open Scope string_scope.
#[local] Open Scope Z_scope.

Notation BackendNoop := ("noop")%string (only parsing).
Notation BackendDataSystem := ("datasystem")%string (only parsing).
Notation BackendRedis := ("redis")%string (only parsing).
Notation defaultRecoveryWindowSeconds := (86400)%Z (only parsing).
Definition hashMaxLength : nat := 16.
Definition asyncQueueSize : nat := 1024.

Record StoreRecord := mkRecord {
  sr_InstanceID : string;
  sr_SchedulerID : string;
  sr_SessionID : string;
  sr_SessionCtxID : string;
  sr_SessionTTL : Z;
  sr_Concurrency : Z;
  sr_UpdatedAtUnixNs : Z
}.

(** The fields of the configuration that reach the stores' behaviour; the
    DataSystem options are handed to the client unchanged. *)
Record Config := mkConfig {
  sc_Backend : string;
  sc_Cluster : string;
  sc_FuncCacheKey : string;
  sc_SchedulerIDConf : string;
  sc_BackendTTLSeconds : Z;
  sc_DSTTLSecond : Z
}.

(** ** The interface

    [None] in an error position is success.  [now] is the clock the
    implementation stamps the record with. *)
Class Store (S : Type) := {
  st_Save : S -> Z -> string -> StoreRecord -> option string * S;
  st_Get : S -> string -> option StoreRecord * option string;
  st_Delete : S -> string -> option string * S;
  st_Backend : S -> string
}.

(** What the callers rely on: successful operations change the record of the
    key and of no other. [st_same] says that two keys name the same record. *)
Class StoreLaws (S : Type) `{Store S} := {
  st_same : S -> string -> string -> Prop;
  st_same_dec s k k' : Decision (st_same s k k');
  st_same_refl s k : st_same s k k;
  st_save_get s now k k' r s' :
    st_Save s now k r = (None, s') -> st_same s k k' ->
    exists r', st_Get s' k' = (Some r', None) /\ sr_InstanceID r' = sr_InstanceID r;
  st_save_other s now k k' r e s' :
    st_Save s now k r = (e, s') -> ~ st_same s k k' -> st_Get s' k' = st_Get s k';
  st_delete_get s k k' s' :
    st_Delete s k = (None, s') -> st_same s k k' -> st_Get s' k' = (None, None);
  st_delete_other s k k' e s' :
    st_Delete s k = (e, s') -> ~ st_same s k k' -> st_Get s' k' = st_Get s k';
  st_save_same s now k r e s' k1 k2 :
    st_Save s now k r = (e, s') -> st_same s' k1 k2 <-> st_same s k1 k2;
  st_delete_same s k e s' k1 k2 :
    st_Delete s k = (e, s') -> st_same s' k1 k2 <-> st_same s k1 k2
}.

(** ** NoopStore *)
Definition NoopStore : Type := unit.
#[global] Instance NoopStore_Store : Store NoopStore := {
  st_Save s _ _ _ := (None, s);
  st_Get _ _ := (None, None);
  st_Delete s _ := (None, s);
  st_Backend _ := BackendNoop
}.

(** ** The physical key *)

Definition hash16 (s : string) : string :=
  String.substring 0 hashMaxLength (EncodeToString (SHA256.Sum256 (bytes_of s))).

Definition physicalKey (cfg : Config) (sessionKey : string) : string :=
  "faasscheduler:session:" ++ hash16 (sc_FuncCacheKey cfg) ++ ":" ++ hash16 (sc_Cluster cfg)
  ++ ":" ++ hash16 sessionKey.

Definition fillRecord (cfg : Config) (now : Z) (r : StoreRecord) : StoreRecord :=
  mkRecord (sr_InstanceID r)
    (if String.eqb (sr_SchedulerID r) "" then sc_SchedulerIDConf cfg else sr_SchedulerID r)
    (sr_SessionID r) (sr_SessionCtxID r) (sr_SessionTTL r) (sr_Concurrency r) now.

(** ** The key-value clients

    redisclient/v6 and datasystemclient wrap external services: a client is a
    parameter, with the calls the stores make.  [kc_get] answers [inl None]
    for a missing key. *)
Class KVClient (C : Type) := {
  kc_set : C -> string -> string -> Z -> option string * C;
  kc_get : C -> string -> option string + string;
  kc_del : C -> string -> option string * C
}.

(** The documented behaviour of a key-value service: a successful SET or DEL
    changes what GET answers for that key, a failed one may or may not have. *)
Class KVClientLaws (C : Type) `{KVClient C} := {
  kc_set_get c k v ttl c' : kc_set c k v ttl = (None, c') -> kc_get c' k = inl (Some v);
  kc_set_other c k k' v ttl e c' : kc_set c k v ttl = (e, c') -> k <> k' -> kc_get c' k' = kc_get c k';
  kc_del_get c k c' : kc_del c k = (None, c') -> kc_get c' k = inl None;
  kc_del_other c k k' e c' : kc_del c k = (e, c') -> k <> k' -> kc_get c' k' = kc_get c k'
}.

Section KVStores.
Context {C : Type} `{KVClient C}.
(** [encoding/json] on a [StoreRecord]; marshalling this struct cannot fail. *)
Context (marshal : StoreRecord -> string) (unmarshal : string -> option StoreRecord).

Notation errStoreDisabled := ("session store disabled")%string (only parsing).
Definition errEmptyKey : string := "sessionKey is empty".

(** [rd_cli] is the process-wide client [v6.GetRedisCmd()] returns. *)
Record redisStore := mkRedis { rd_cfg : Config; rd_ttl : Z; rd_cli : option C }.

Definition redis_Save (s : redisStore) (now : Z) (sessionKey : string) (record : StoreRecord)
    : option string * redisStore :=
  match rd_cli s with
  | None => (Some errStoreDisabled, s)
  | Some cli =>
      if String.eqb sessionKey "" then (Some errEmptyKey, s) else
      let value := marshal (fillRecord (rd_cfg s) now record) in
      let key := physicalKey (rd_cfg s) sessionKey in
      let '(err, cli) := kc_set cli key value (rd_ttl s) in
      (err, mkRedis (rd_cfg s) (rd_ttl s) (Some cli))
  end.

(** A record that does not decode counts as a miss. *)
Definition redis_Get (s : redisStore) (sessionKey : string)
    : option StoreRecord * option string :=
  match rd_cli s with
  | None => (None, Some errStoreDisabled)
  | Some cli =>
      if String.eqb sessionKey "" then (None, Some errEmptyKey) else
      match kc_get cli (physicalKey (rd_cfg s) sessionKey) with
      | inr err => (None, Some err)
      | inl None => (None, None)
      | inl (Some value) => (unmarshal value, None)
      end
  end.

Definition redis_Delete (s : redisStore) (sessionKey : string) : option string * redisStore :=
  match rd_cli s with
  | None => (Some errStoreDisabled, s)
  | Some cli =>
      if String.eqb sessionKey "" then (Some errEmptyKey, s) else
      let '(err, cli) := kc_del cli (physicalKey (rd_cfg s) sessionKey) in
      (err, mkRedis (rd_cfg s) (rd_ttl s) (Some cli))
  end.

#[global] Instance redisStore_Store : Store redisStore := {
  st_Save := redis_Save; st_Get := redis_Get; st_Delete := redis_Delete;
  st_Backend _ := BackendRedis
}.

(** An empty answer of the DataSystem is a miss. *)
Record dataSystemStore := mkDS { ds_cfg : Config; ds_cli : C }.

Definition ds_Save (s : dataSystemStore) (now : Z) (sessionKey : string) (record : StoreRecord)
    : option string * dataSystemStore :=
  if String.eqb sessionKey "" then (Some errEmptyKey, s) else
  let value := marshal (fillRecord (ds_cfg s) now record) in
  let '(err, cli) := kc_set (ds_cli s) (physicalKey (ds_cfg s) sessionKey) value
                       (sc_DSTTLSecond (ds_cfg s)) in
  (err, mkDS (ds_cfg s) cli).

Definition ds_Get (s : dataSystemStore) (sessionKey : string)
    : option StoreRecord * option string :=
  if String.eqb sessionKey "" then (None, Some errEmptyKey) else
  match kc_get (ds_cli s) (physicalKey (ds_cfg s) sessionKey) with
  | inr err => (None, Some err)
  | inl resp =>
      let resp := default "" resp in
      if (String.length resp =? 0)%nat then (None, None) else (unmarshal resp, None)
  end.

Definition ds_Delete (s : dataSystemStore) (sessionKey : string)
    : option string * dataSystemStore :=
  if String.eqb sessionKey "" then (Some errEmptyKey, s) else
  let '(err, cli) := kc_del (ds_cli s) (physicalKey (ds_cfg s) sessionKey) in
  (err, mkDS (ds_cfg s) cli).

#[global] Instance dataSystemStore_Store : Store dataSystemStore := {
  st_Save := ds_Save; st_Get := ds_Get; st_Delete := ds_Delete;
  st_Backend _ := BackendDataSystem
}.

(** [New]: which store a configuration gives. *)
Inductive AnyStore := ARedis (s : redisStore) | ADataSystem (s : dataSystemStore) | ANoop.

Definition New (cfg : Config) (redisCli : option C) (dsCli : C) : AnyStore + string :=
  if String.eqb (sc_Backend cfg) BackendDataSystem then
    let ttl := if sc_DSTTLSecond cfg <=? 0 then defaultRecoveryWindowSeconds
               else sc_DSTTLSecond cfg in
    inl (ADataSystem (mkDS (mkConfig (sc_Backend cfg) (sc_Cluster cfg) (sc_FuncCacheKey cfg)
                              (sc_SchedulerIDConf cfg) (sc_BackendTTLSeconds cfg) ttl) dsCli))
  else if String.eqb (sc_Backend cfg) BackendRedis then
    let ttl := if sc_BackendTTLSeconds cfg <=? 0 then defaultRecoveryWindowSeconds
               else sc_BackendTTLSeconds cfg in
    inl (ARedis (mkRedis cfg (ttl * Second) redisCli))
  else inr ("invalid session store backend: " ++ sc_Backend cfg).

Definition IsRedisBackend (backend : string) : option bool :=
  if String.eqb backend BackendDataSystem then Some false
  else if String.eqb backend BackendRedis then Some true
  else None.

(** [MakeStore] builds the configuration from the global one and falls back
    to the no-op store; [uint32] of the TTL wraps. *)
Definition MakeStore (backend cluster podIP : string) (ttl : Z) (redisCli : option C) (dsCli : C)
    (funcCacheKey : string) : AnyStore :=
  match New (mkConfig backend cluster funcCacheKey podIP ttl (wrap32 ttl)) redisCli dsCli with
  | inl s => s
  | inr _ => ANoop
  end.

End KVStores.
Arguments redisStore : clear implicits.
Arguments dataSystemStore : clear implicits.
Arguments AnyStore : clear implicits.

(** ** The coordinator *)

Record asyncStoreOp := mkOp { op_isDelete : bool; op_key : string; op_record : StoreRecord }.

Definition zeroRecord : StoreRecord := mkRecord "" "" "" "" 0 0 0.

Section Coordinator.
Context {S : Type} `{Store S}.

(** [co_inflight]: the operation the worker has received and not completed;
    [co_cancelled]: the context; [co_done]: the worker has returned. *)
Record Coordinator := mkCoord {
  co_store : S;
  co_queue : list asyncStoreOp;
  co_inflight : option asyncStoreOp;
  co_started : bool;
  co_cancelled : bool;
  co_done : bool;
  co_enqueued : Z;
  co_processed : Z;
  co_dropped : Z
}.

Definition NewCoordinator (store : S) : Coordinator :=
  mkCoord store [] None false false false 0 0 0.

(** The first enqueue starts the worker; a cancelled context rejects
    silently; a full queue drops and counts the drop. *)
Definition enqueue (c : Coordinator) (op : asyncStoreOp) : Coordinator :=
  let c := mkCoord (co_store c) (co_queue c) (co_inflight c) true (co_cancelled c) (co_done c)
             (co_enqueued c) (co_processed c) (co_dropped c) in
  if co_cancelled c then c
  else if (length (co_queue c) <? asyncQueueSize)%nat then
    mkCoord (co_store c) (co_queue c ++ [op])%list (co_inflight c) true (co_cancelled c) (co_done c)
      (co_enqueued c + 1) (co_processed c) (co_dropped c)
  else
    mkCoord (co_store c) (co_queue c) (co_inflight c) true (co_cancelled c) (co_done c)
      (co_enqueued c) (co_processed c) (co_dropped c + 1).

Definition SaveRecord (c : Coordinator) (key : string) (record : StoreRecord) : Coordinator :=
  if String.eqb key "" then c else enqueue c (mkOp false key record).

Definition DeleteRecord (c : Coordinator) (key : string) : Coordinator :=
  if String.eqb key "" then c else enqueue c (mkOp true key zeroRecord).

(** [process]: the store call, whose error is only logged. *)
Definition process (now : Z) (s : S) (op : asyncStoreOp) : S :=
  if op_isDelete op then snd (st_Delete s (op_key op))
  else snd (st_Save s now (op_key op) (op_record op)).

(** The worker receives an operation: in the loop, or while draining. *)
Definition worker_take (c : Coordinator) : option Coordinator :=
  if negb (co_started c) || co_done c then None else
  match co_inflight c, co_queue c with
  | None, op :: rest =>
      Some (mkCoord (co_store c) rest (Some op) true (co_cancelled c) false
              (co_enqueued c) (co_processed c) (co_dropped c))
  | _, _ => None
  end.

Definition worker_done (now : Z) (c : Coordinator) : option Coordinator :=
  match co_inflight c with
  | Some op =>
      Some (mkCoord (process now (co_store c) op) (co_queue c) None (co_started c)
              (co_cancelled c) (co_done c) (co_enqueued c) (co_processed c + 1) (co_dropped c))
  | None => None
  end.

(** After cancellation, with the queue empty, the worker returns. *)
Definition worker_exit (c : Coordinator) : option Coordinator :=
  match co_inflight c, co_queue c with
  | None, [] =>
      if co_started c && co_cancelled c && negb (co_done c) then
        Some (mkCoord (co_store c) [] None true true true
                (co_enqueued c) (co_processed c) (co_dropped c))
      else None
  | _, _ => None
  end.

(** [drainRemaining]: every operation still buffered, in order. *)
Fixpoint drainRemaining (now : Z) (s : S) (q : list asyncStoreOp) : S :=
  match q with
  | [] => s
  | op :: q => drainRemaining now (process now s op) q
  end.

(** [stop] cancels and waits for [done]: the operation in flight completes,
    the queue is drained, the worker exits. *)
Definition Stop (now : Z) (c : Coordinator) : Coordinator :=
  if co_started c && negb (co_done c) then
    let s := match co_inflight c with Some op => process now (co_store c) op | None => co_store c end in
    let k := Z.of_nat (length (co_queue c)) + (if co_inflight c then 1 else 0) in
    mkCoord (drainRemaining now s (co_queue c)) [] None true true true
      (co_enqueued c) (co_processed c + k) (co_dropped c)
  else mkCoord (co_store c) (co_queue c) (co_inflight c) (co_started c) true (co_done c)
         (co_enqueued c) (co_processed c) (co_dropped c).

(** Synchronous deletes; errors are logged. *)
Definition CleanRecords (c : Coordinator) (keys : list string) : Coordinator :=
  mkCoord (fold_left (fun s k => snd (st_Delete s k)) keys (co_store c)) (co_queue c)
    (co_inflight c) (co_started c) (co_cancelled c) (co_done c) (co_enqueued c) (co_processed c)
    (co_dropped c).

(** One read of [Drain]'s wait condition. *)
Definition drained (target : Z) (c : Coordinator) : bool := target <=? co_processed c.

Definition Backend (c : Coordinator) : string := st_Backend (co_store c).

(** ** Steps *)

Inductive coord_event :=
  | CSave (key : string) (record : StoreRecord)
  | CDelete (key : string)
  | CTake
  | CDone (now : Z)
  | CExit.

Definition coord_step (c : Coordinator) (e : coord_event) : Coordinator :=
  match e with
  | CSave k r => SaveRecord c k r
  | CDelete k => DeleteRecord c k
  | CTake => default c (worker_take c)
  | CDone now => default c (worker_done now c)
  | CExit => default c (worker_exit c)
  end.

Definition coord_run (c : Coordinator) (es : list coord_event) : Coordinator :=
  fold_left coord_step es c.
End Coordinator.
Arguments Coordinator : clear implicits.

(** ** Single-flight reads

    Goroutines calling [Do]: the first for a key creates the call and runs the
    function, later ones wait for it.  A call is addressed by its position in
    [cg_heap]; [None] there means the function has not returned yet. *)
Section StoreCallGroup.
Context {R : Type}.

Record StoreCallGroup := mkGroup {
  cg_calls : gmap string nat;
  cg_heap : list (string * option R)
}.

Definition NewStoreCallGroup : StoreCallGroup := mkGroup ∅ [].

(** [Do] up to the point where the caller runs [fn] ([true]) or waits
    ([false]) on the returned call. *)
Definition do_enter (g : StoreCallGroup) (key : string) : nat * bool * StoreCallGroup :=
  match cg_calls g !! key with
  | Some c => (c, false, g)
  | None =>
      let c := length (cg_heap g) in
      (c, true, mkGroup (<[key:=c]> (cg_calls g)) (cg_heap g ++ [(key, None)])%list)
  end.

(** [fn] has returned [r]: the result is stored and [done] closed. *)
Definition do_complete (g : StoreCallGroup) (c : nat) (r : R) : StoreCallGroup :=
  mkGroup (cg_calls g) (alter (fun '(k, _) => (k, Some r)) c (cg_heap g)).

(** The leader removes the call. *)
Definition do_forget (g : StoreCallGroup) (key : string) : StoreCallGroup :=
  mkGroup (delete key (cg_calls g)) (cg_heap g).

(** What a caller returns; [None] while it has to wait. *)
Definition do_return (g : StoreCallGroup) (c : nat) : option R :=
  cg_heap g !! c ≫= snd.

(** Where a goroutine in [Do] stands, with its key and its call. *)
Inductive do_pc :=
  | DoRun (key : string) (c : nat)
  | DoForget (key : string) (c : nat)
  | DoWait (key : string) (c : nat)
  | DoReturned (key : string) (c : nat) (r : R).

(** Goroutines that call [Do] in any interleaving; [fn] may return anything. *)
Inductive do_step : StoreCallGroup * gmap nat do_pc -> StoreCallGroup * gmap nat do_pc -> Prop :=
  | step_enter g ts t key c lead g' :
      ts !! t = None -> do_enter g key = (c, lead, g') ->
      do_step (g, ts) (g', <[t := if lead : bool then DoRun key c else DoWait key c]> ts)
  | step_complete g ts t key c r :
      ts !! t = Some (DoRun key c) ->
      do_step (g, ts) (do_complete g c r, <[t := DoForget key c]> ts)
  | step_forget g ts t key c r :
      ts !! t = Some (DoForget key c) -> do_return g c = Some r ->
      do_step (g, ts) (do_forget g key, <[t := DoReturned key c r]> ts)
  | step_return g ts t key c r :
      ts !! t = Some (DoWait key c) -> do_return g c = Some r ->
      do_step (g, ts) (g, <[t := DoReturned key c r]> ts).
End StoreCallGroup.
Arguments StoreCallGroup : clear implicits.
Arguments do_pc : clear implicits.

(** ** The Redis store keeps the laws *)
Section RedisLaws.
Context {C : Type} `{KVClientLaws C}.
Context (marshal : StoreRecord -> string) (unmarshal : string -> option StoreRecord).
Hypothesis json_roundtrip : forall r, unmarshal (marshal r) = Some r.

#[local] Existing Instance redisStore_Store.

Definition redis_same (s : redisStore C) (k k' : string) : Prop :=
  k = k' \/ (k <> "" /\ k' <> "" /\ physicalKey (rd_cfg s) k = physicalKey (rd_cfg s) k').

#[local] Instance redis_same_dec s k k' : Decision (redis_same s k k').
Proof. unfold redis_same. apply _. Defined.

Lemma redis_same_pk s k k' :
  k <> "" -> redis_same s k k' ->
  k' <> "" /\ physicalKey (rd_cfg s) k = physicalKey (rd_cfg s) k'.
Proof. intros Hk [->|(? & ? & ?)]; auto. Qed.

Lemma redis_not_same_pk s k k' :
  k <> "" -> k' <> "" -> ~ redis_same s k k' ->
  physicalKey (rd_cfg s) k <> physicalKey (rd_cfg s) k'.
Proof. intros Hk Hk' Hn Hpk. apply Hn. by right. Qed.

Lemma redis_Save_Some s now k r e s' :
  redis_Save marshal s now k r = (e, s') ->
  (s' = s /\ e <> None) \/
  exists cli cli', rd_cli s = Some cli /\ k <> "" /\ s' = mkRedis (rd_cfg s) (rd_ttl s) (Some cli') /\
    kc_set cli (physicalKey (rd_cfg s) k) (marshal (fillRecord (rd_cfg s) now r)) (rd_ttl s) = (e, cli').
Proof.
  unfold redis_Save. destruct (rd_cli s) as [cli|] eqn:Hc; [|intros [= <- <-]; by left].
  destruct (String.eqb_spec k "") as [->|Hk]; [intros [= <- <-]; by left|].
  destruct (kc_set _ _ _ _) as [err cli'] eqn:Hs. intros [= <- <-]. right. eauto 10.
Qed.

Lemma redis_Delete_Some s k e s' :
  redis_Delete s k = (e, s') ->
  (s' = s /\ e <> None) \/
  exists cli cli', rd_cli s = Some cli /\ k <> "" /\ s' = mkRedis (rd_cfg s) (rd_ttl s) (Some cli') /\
    kc_del cli (physicalKey (rd_cfg s) k) = (e, cli').
Proof.
  unfold redis_Delete. destruct (rd_cli s) as [cli|] eqn:Hc; [|intros [= <- <-]; by left].
  destruct (String.eqb_spec k "") as [->|Hk]; [intros [= <- <-]; by left|].
  destruct (kc_del _ _) as [err cli'] eqn:Hs. intros [= <- <-]. right. eauto 10.
Qed.

(** GET of a key whose physical key the client did not touch. *)
Lemma redis_Get_other s cli cli' k' :
  rd_cli s = Some cli ->
  (k' <> "" -> kc_get cli' (physicalKey (rd_cfg s) k') = kc_get cli (physicalKey (rd_cfg s) k')) ->
  redis_Get unmarshal (mkRedis (rd_cfg s) (rd_ttl s) (Some cli')) k' = redis_Get unmarshal s k'.
Proof.
  intros Hc Hg. unfold redis_Get. rewrite Hc. simpl.
  destruct (String.eqb_spec k' ""); [done|]. by rewrite Hg.
Qed.

Lemma redis_save_get s now k k' r s' :
  redis_Save marshal s now k r = (None, s') -> redis_same s k k' ->
  exists r', redis_Get unmarshal s' k' = (Some r', None) /\ sr_InstanceID r' = sr_InstanceID r.
Proof.
  intros [[_ ?]|(cli & cli' & Hc & Hk & -> & Hset)]%redis_Save_Some Hsame; [done|].
  destruct (redis_same_pk _ _ _ Hk Hsame) as [Hk' Hpk].
  unfold redis_Get. simpl. destruct (String.eqb_spec k' ""); [done|].
  rewrite <- Hpk. rewrite (kc_set_get _ _ _ _ _ Hset), json_roundtrip. eauto.
Qed.

Lemma redis_delete_get s k k' s' :
  redis_Delete s k = (None, s') -> redis_same s k k' ->
  redis_Get unmarshal s' k' = (None, None).
Proof.
  intros [[_ ?]|(cli & cli' & Hc & Hk & -> & Hdel)]%redis_Delete_Some Hsame; [done|].
  destruct (redis_same_pk _ _ _ Hk Hsame) as [Hk' Hpk].
  unfold redis_Get. simpl. destruct (String.eqb_spec k' ""); [done|].
  rewrite <- Hpk. by rewrite (kc_del_get _ _ _ Hdel).
Qed.

Lemma redis_save_other s now k k' r e s' :
  redis_Save marshal s now k r = (e, s') -> ~ redis_same s k k' ->
  redis_Get unmarshal s' k' = redis_Get unmarshal s k'.
Proof.
  intros [[-> _]|(cli & cli' & Hc & Hk & -> & Hset)]%redis_Save_Some Hn; [done|].
  eapply redis_Get_other; [done|]. intros Hk'.
  eapply kc_set_other; [done|]. by apply redis_not_same_pk.
Qed.

Lemma redis_delete_other s k k' e s' :
  redis_Delete s k = (e, s') -> ~ redis_same s k k' ->
  redis_Get unmarshal s' k' = redis_Get unmarshal s k'.
Proof.
  intros [[-> _]|(cli & cli' & Hc & Hk & -> & Hdel)]%redis_Delete_Some Hn; [done|].
  eapply redis_Get_other; [done|]. intros Hk'.
  eapply kc_del_other; [done|]. by apply redis_not_same_pk.
Qed.

Lemma redis_Save_cfg s now k r e s' :
  redis_Save marshal s now k r = (e, s') -> rd_cfg s' = rd_cfg s.
Proof. by intros [[-> _]|(? & ? & _ & _ & -> & _)]%redis_Save_Some. Qed.

Lemma redis_Delete_cfg s k e s' : redis_Delete s k = (e, s') -> rd_cfg s' = rd_cfg s.
Proof. by intros [[-> _]|(? & ? & _ & _ & -> & _)]%redis_Delete_Some. Qed.

#[global] Program Instance redisStore_laws :
  @StoreLaws (redisStore C) (redisStore_Store marshal unmarshal) := {
  st_same := redis_same;
  st_same_dec := redis_same_dec
}.
Next Obligation. by left. Qed.
Next Obligation. exact redis_save_get. Qed.
Next Obligation. exact redis_save_other. Qed.
Next Obligation. exact redis_delete_get. Qed.
Next Obligation. exact redis_delete_other. Qed.
Next Obligation. intros * Hs. unfold redis_same. by rewrite (redis_Save_cfg _ _ _ _ _ _ Hs). Qed.
Next Obligation. intros * Hs. unfold redis_same. by rewrite (redis_Delete_cfg _ _ _ _ Hs). Qed.
End RedisLaws.

(** ** The queue: exactly once, in order *)
Section CoordinatorFacts.
Context {S : Type} `{Store S}.
Implicit Types (c : Coordinator S) (es : list coord_event).

(** The worker exists once something was enqueued, and returns only after
    cancellation with nothing left. *)
Definition coord_wf c : Prop :=
  (co_started c = false -> co_queue c = [] /\ co_inflight c = None) /\
  (co_done c = true -> co_queue c = [] /\ co_inflight c = None /\ co_cancelled c = true).

(** The operation an event gets accepted into the queue. *)
Definition event_op (e : coord_event) : option asyncStoreOp :=
  match e with
  | CSave k r => if String.eqb k "" then None else Some (mkOp false k r)
  | CDelete k => if String.eqb k "" then None else Some (mkOp true k zeroRecord)
  | _ => None
  end.

Definition has_room c : bool :=
  negb (co_cancelled c) && (length (co_queue c) <? asyncQueueSize)%nat.



Definition apply_op (s : S) (top : Z * asyncStoreOp) : S := process (fst top) s (snd top).


Lemma enqueue_cases c op :
  enqueue c op =
  (if has_room c then
     mkCoord (co_store c) (co_queue c ++ [op])%list (co_inflight c) true (co_cancelled c) (co_done c)
       (co_enqueued c + 1) (co_processed c) (co_dropped c)
   else mkCoord (co_store c) (co_queue c) (co_inflight c) true (co_cancelled c) (co_done c)
          (co_enqueued c) (co_processed c)
          (if co_cancelled c then co_dropped c else co_dropped c + 1)).
Proof. unfold enqueue, has_room. simpl. destruct (co_cancelled c) eqn:E; simpl; [done|]. by case_match. Qed.

Lemma coord_step_submit c e op :
  event_op e = Some op -> coord_step c e = enqueue c op.
Proof.
  destruct e as [k r|k| | |]; simpl; try done; unfold SaveRecord, DeleteRecord;
    destruct (String.eqb k ""); naive_solver.
Qed.

Lemma coord_step_empty_key c e :
  event_op e = None -> match e with CSave _ _ | CDelete _ => coord_step c e = c | _ => True end.
Proof.
  destruct e as [k r|k| | |]; simpl; try done; unfold SaveRecord, DeleteRecord;
    by destruct (String.eqb k "").
Qed.

Lemma coord_step_wf c e : coord_wf c -> coord_wf (coord_step c e).
Proof.
  intros [Hs Hd]. destruct (event_op e) as [op|] eqn:He.
  { rewrite (coord_step_submit _ _ _ He), enqueue_cases. unfold has_room, coord_wf.
    destruct (co_done c) eqn:E.
    - destruct Hd as (Hq & Hi & Hc); [done|]. rewrite Hc. simpl. naive_solver.
    - case_match; simpl; naive_solver. }
  pose proof (coord_step_empty_key c e He) as Hk. destruct e; simpl; simpl in Hk; rewrite ?Hk; try done.
  - unfold worker_take. destruct (co_started c) eqn:E1, (co_done c) eqn:E2; simpl; try done;
    repeat case_match; split; simpl; naive_solver.
  - unfold worker_done. case_match; split; simpl; naive_solver.
  - unfold worker_exit. repeat case_match; split; simpl; naive_solver.
Qed.





Lemma coord_run_wf s0 es : coord_wf (coord_run (NewCoordinator s0) es).
Proof.
  induction es as [|e es IH] using rev_ind; [by split|].
  unfold coord_run. rewrite fold_left_app. by apply coord_step_wf.
Qed.

(** *** After [Stop] *)

(** Nothing is left that could write to the store, now or later. *)
Definition quiesced c : Prop :=
  co_queue c = [] /\ co_inflight c = None /\ co_cancelled c = true.

Lemma Stop_quiesced now c : coord_wf c -> quiesced (Stop now c).
Proof.
  intros [Hs Hd]. unfold Stop, quiesced. destruct (co_started c) eqn:E; simpl.
  - destruct (co_done c) eqn:E2; simpl; naive_solver.
  - destruct (Hs eq_refl). done.
Qed.

Lemma quiesced_step c e :
  quiesced c -> quiesced (coord_step c e) /\ co_store (coord_step c e) = co_store c.
Proof.
  intros (Hq & Hi & Hc). destruct (event_op e) as [op|] eqn:He.
  { rewrite (coord_step_submit _ _ _ He), enqueue_cases. unfold has_room, quiesced.
    rewrite Hc. simpl. by rewrite Hq, Hi. }
  pose proof (coord_step_empty_key c e He) as Hk. unfold quiesced in *.
  destruct e; simpl; simpl in Hk; rewrite ?Hk; try done.
  - unfold worker_take. rewrite Hi, Hq. by case_match.
  - unfold worker_done. by rewrite Hi.
  - unfold worker_exit. rewrite Hi, Hq. case_match; simpl; rewrite ?Hq, ?Hi, ?Hc; done.
Qed.

Lemma quiesced_run c es :
  quiesced c -> quiesced (coord_run c es) /\ co_store (coord_run c es) = co_store c.
Proof.
  revert c. induction es as [|e es IH]; intros c Hc; [done|]. simpl.
  destruct (quiesced_step c e Hc) as [Hc' Hs]. destruct (IH _ Hc') as [? Hs']. split; [done|congruence].
Qed.

(** Every delete of [CleanRecords] was answered without error. *)
Fixpoint deletes_ok (s : S) (keys : list string) : Prop :=
  match keys with
  | [] => True
  | k :: keys => fst (st_Delete s k) = None /\ deletes_ok (snd (st_Delete s k)) keys
  end.

Context `{!StoreLaws S}.

Lemma deletes_same s keys k1 k2 :
  st_same (fold_left (fun s k => snd (st_Delete s k)) keys s) k1 k2 <-> st_same s k1 k2.
Proof.
  revert s. induction keys as [|k keys IH]; intros s; simpl; [done|].
  rewrite IH. destruct (st_Delete s k) as [e s'] eqn:E. by eapply st_delete_same.
Qed.

Lemma deletes_keep_gone s keys k :
  deletes_ok s keys -> st_Get s k = (None, None) ->
  st_Get (fold_left (fun s k => snd (st_Delete s k)) keys s) k = (None, None).
Proof.
  revert s. induction keys as [|k' keys IH]; intros s; simpl; [done|].
  intros [Hok Hoks] Hg. apply IH; [done|]. destruct (st_Delete s k') as [e s'] eqn:E. simpl in *.
  destruct (st_same_dec s k' k) as [Hs|Hs]; subst.
  - by eapply st_delete_get.
  - by rewrite (st_delete_other _ _ _ _ _ E Hs).
Qed.
Lemma deletes_gone s keys k :
  deletes_ok s keys -> k ∈ keys ->
  st_Get (fold_left (fun s k => snd (st_Delete s k)) keys s) k = (None, None).
Proof.
  revert s. induction keys as [|k' keys IH]; intros s Hok Hk; [by apply elem_of_nil in Hk|].
  simpl in *. destruct Hok as [Ho Hos]. apply elem_of_cons in Hk as [->|Hk]; [|by apply IH].
  apply deletes_keep_gone; [done|]. destruct (st_Delete s k') as [e s'] eqn:E. simpl in *. subst e.
  eapply st_delete_get; [done|apply st_same_refl].
Qed.

(** *** What a sequence of operations leaves in the store *)

Definition replay_step (m : gmap string string) (op : asyncStoreOp) : gmap string string :=
  if op_isDelete op then delete (op_key op) m
  else <[op_key op := sr_InstanceID (op_record op)]> m.
Definition replay (m : gmap string string) (ops : list asyncStoreOp) : gmap string string :=
  fold_left replay_step ops m.

Definition op_error (now : Z) (s : S) (op : asyncStoreOp) : option string :=
  if op_isDelete op then fst (st_Delete s (op_key op))
  else fst (st_Save s now (op_key op) (op_record op)).

Fixpoint ops_ok (s : S) (tops : list (Z * asyncStoreOp)) : Prop :=
  match tops with
  | [] => True
  | (now, op) :: tops => op_error now s op = None /\ ops_ok (process now s op) tops
  end.

(** The store answers for [k] as the map does. *)
Definition agrees (s : S) (m : gmap string string) (k : string) : Prop :=
  match m !! k with
  | Some i => exists r, st_Get s k = (Some r, None) /\ sr_InstanceID r = i
  | None => st_Get s k = (None, None)
  end.

Lemma process_same now s op k1 k2 : st_same (process now s op) k1 k2 <-> st_same s k1 k2.
Proof.
  unfold process. case_match.
  - destruct (st_Delete _ _) eqn:E. by eapply st_delete_same.
  - destruct (st_Save _ _ _ _) eqn:E. by eapply st_save_same.
Qed.

Lemma process_agrees now s m op k :
  op_error now s op = None -> (st_same s (op_key op) k -> op_key op = k) ->
  (k = op_key op \/ agrees s m k) ->
  agrees (process now s op) (replay_step m op) k.
Proof.
  unfold op_error, process, replay_step, agrees. intros Hok Hinj Hk.
  destruct (st_same_dec s (op_key op) k) as [Hs|Hs].
  - rewrite <- (Hinj Hs) in *. destruct (op_isDelete op).
    + rewrite lookup_delete_eq. destruct (st_Delete _ _) as [e s'] eqn:E. simpl in *. subst e.
      eapply st_delete_get; [done|apply st_same_refl].
    + rewrite lookup_insert_eq. destruct (st_Save _ _ _ _) as [e s'] eqn:E. simpl in *. subst e.
      eapply st_save_get; [done|apply st_same_refl].
  - destruct Hk as [->|Hk]; [destruct Hs; apply st_same_refl|].
    assert (op_key op <> k) as Hne by (intros <-; apply Hs, st_same_refl).
    destruct (op_isDelete op).
    + rewrite lookup_delete_ne by done. destruct (st_Delete _ _) as [e s'] eqn:E. simpl.
      by rewrite (st_delete_other _ _ _ _ _ E Hs).
    + rewrite lookup_insert_ne by done. destruct (st_Save _ _ _ _) as [e s'] eqn:E. simpl.
      by rewrite (st_save_other _ _ _ _ _ _ _ E Hs).
Qed.

Lemma replay_agrees tops s m k :
  ops_ok s tops ->
  (forall op, op ∈ tops.*2 -> st_same s (op_key op) k -> op_key op = k) ->
  (k ∈ op_key <$> tops.*2 \/ agrees s m k) ->
  agrees (fold_left apply_op tops s) (replay m tops.*2) k.
Proof.
  revert s m. induction tops as [|[now op] tops IH]; intros s m Hok Hinj Hk.
  { destruct Hk as [Hk|Hk]; [by apply elem_of_nil in Hk|done]. }
  destruct Hok as [Ho Hos]. simpl. apply IH; [done| |].
  - intros op' Hop' Hs%process_same. apply Hinj; [by right|done].
  - destruct (decide (k ∈ op_key <$> tops.*2)) as [|Hn]; [by left|right].
    apply process_agrees; [done|apply Hinj; left|].
    destruct Hk as [Hk|Hk]; [|by right]. apply elem_of_cons in Hk as [->|]; [by left|done].
Qed.

End CoordinatorFacts.

(** ** Instances for the witnesses

    A store that is a map of records, a key-value client that is a map of
    values, and an invertible encoding of records. *)
#[local] Notation mapStore := (gmap string StoreRecord).
#[local] Instance mapStore_Store : Store mapStore := {
  st_Save s now k r := (None, <[k:=r]> s);
  st_Get s k := (s !! k, None);
  st_Delete s k := (None, delete k s);
  st_Backend _ := "map"
}.
#[local] Instance mapStore_laws : StoreLaws mapStore.
Proof.
  refine {| st_same := fun _ k k' => k = k' |}; simpl; try done.
  - intros s _ k k' r s' [= <-] <-. rewrite lookup_insert_eq. eauto.
  - intros s _ k k' r e s' [= _ <-] Hk. by rewrite lookup_insert_ne.
  - intros s k k' s' [= <-] <-. by rewrite lookup_delete_eq.
  - intros s k k' e s' [= _ <-] Hk. by rewrite lookup_delete_ne.
Defined.

#[local] Instance mapKV : KVClient (gmap string string) := {
  kc_set c k v _ := (None, <[k:=v]> c);
  kc_get c k := inl (c !! k);
  kc_del c k := (None, delete k c)
}.
#[local] Instance mapKV_laws : KVClientLaws (gmap string string).
Proof.
  split; simpl.
  - intros c k v _ c' [= <-]. by rewrite lookup_insert_eq.
  - intros c k k' v _ e c' [= _ <-] Hk. by rewrite lookup_insert_ne.
  - intros c k c' [= <-]. by rewrite lookup_delete_eq.
  - intros c k k' e c' [= _ <-] Hk. by rewrite lookup_delete_ne.
Qed.

Definition record_tuple (r : StoreRecord) :=
  (sr_InstanceID r, sr_SchedulerID r, sr_SessionID r, sr_SessionCtxID r, sr_SessionTTL r,
   sr_Concurrency r, sr_UpdatedAtUnixNs r).
Definition demo_marshal (r : StoreRecord) : string := pretty (N.pos (encode (record_tuple r))).
Definition demo_unmarshal (v : string) : option StoreRecord :=
  match ParseDigits v with
  | Some (N.pos p) =>
      match (decode p : option (string * string * string * string * Z * Z * Z)) with
      | Some (a, b, c, d, e, f, g) => Some (mkRecord a b c d e f g)
      | None => None
      end
  | _ => None
  end.
Lemma demo_roundtrip r : demo_unmarshal (demo_marshal r) = Some r.
Proof.
  unfold demo_unmarshal, demo_marshal. rewrite ParseDigits_pretty, decode_encode. by destruct r.
Qed.

(** ** Properties *)


(** After [Stop] and [CleanRecords] no record comes back.  Whatever was
    submitted or in flight before, the cleaned keys have no record, and no
    later submission or worker step writes one, provided the store answered
    the deletes without error. *)
Theorem stop_clean_final {S : Type} `{StoreLaws S} (s0 : S) (es es' : list coord_event)
    (now : Z) (keys : list string) (k : string) :
  let stopped := Stop now (coord_run (NewCoordinator s0) es) in
  forall (Hok : deletes_ok (co_store stopped) keys) (Hk : k ∈ keys),
  st_Get (co_store (coord_run (CleanRecords stopped keys) es')) k = (None, None).
Proof.
  intros stopped Hok Hk.
  pose proof (Stop_quiesced now _ (coord_run_wf s0 es)) as Hq. fold stopped in Hq.
  assert (quiesced (CleanRecords stopped keys)) as Hq' by done.
  destruct (quiesced_run _ es' Hq') as [_ ->]. simpl. by apply deletes_gone.
Qed.

Lemma stop_clean_final_witness :
  let r1 := mkRecord "i1" "" "" "" 0 0 0 in
  let r2 := mkRecord "i2" "" "" "" 0 0 0 in
  let c := coord_run (NewCoordinator (∅ : mapStore)) [CSave "k" r1; CTake; CSave "k" r2] in
  st_Get (co_store (coord_run (CleanRecords (Stop 5 c) ["k"]) [CSave "k" r1; CTake; CDone 7])) "k"
  = (None, None).
Proof. intros r1 r2 c. apply stop_clean_final; [by split|left]. Defined.

(** The last operation on a key decides what the store answers for it.
    For operations that succeed, on keys that do not name one record, the
    answer for every key written or deleted is the instance of the last save
    if a save came last, a miss if a delete did. *)
Theorem store_last_write_wins {S : Type} `{StoreLaws S} (s : S) (tops : list (Z * asyncStoreOp))
    (k : string) (Hok : ops_ok s tops)
    (Hinj : forall op, op ∈ tops.*2 -> st_same s (op_key op) k -> op_key op = k)
    (Hk : k ∈ op_key <$> tops.*2) :
  agrees (fold_left apply_op tops s) (replay ∅ tops.*2) k.
Proof. apply replay_agrees; auto. Qed.

Lemma store_last_write_wins_witness :
  let r1 := mkRecord "i1" "" "" "" 0 0 0 in
  let r2 := mkRecord "i2" "" "" "" 0 0 0 in
  let tops := [(1, mkOp false "k" r1); (2, mkOp true "k" zeroRecord); (3, mkOp false "k" r2)] in
  agrees (fold_left apply_op tops (∅ : mapStore)) (replay ∅ tops.*2) "k".
Proof. intros r1 r2 tops. apply store_last_write_wins; [done|done|left]. Defined.

(** The Redis store implements the contract: over any client whose
    successful SET and DEL are seen by GET, a saved record is read back with
    its instance until it is overwritten or deleted, and keys with different
    physical keys do not disturb each other. *)
Theorem redisStore_contract {C : Type} `{KVClientLaws C}
    (marshal : StoreRecord -> string) (unmarshal : string -> option StoreRecord)
    (Hjson : forall r, unmarshal (marshal r) = Some r)
    (s : redisStore C) (now : Z) (k k' : string) (r : StoreRecord) :
  (forall s', redis_Save marshal s now k r = (None, s') ->
     exists r', redis_Get unmarshal s' k = (Some r', None) /\ sr_InstanceID r' = sr_InstanceID r) /\
  (forall s', redis_Delete s k = (None, s') -> redis_Get unmarshal s' k = (None, None)) /\
  (forall e s', redis_Save marshal s now k r = (e, s') ->
     physicalKey (rd_cfg s) k <> physicalKey (rd_cfg s) k' ->
     redis_Get unmarshal s' k' = redis_Get unmarshal s k').
Proof.
  split_and!.
  - intros s' Hs. eapply redis_save_get; [done|done|by left].
  - intros s' Hs. eapply redis_delete_get; [done|by left].
  - intros e s' Hs Hk. eapply redis_save_other; [done|]. intros [->|(_ & _ & ?)]; done.
Qed.

Lemma redisStore_contract_witness :
  let s := mkRedis (mkConfig "redis" "c" "f" "sched" 0 0) 1 (Some (∅ : gmap string string)) in
  let r := mkRecord "i1" "" "" "" 0 0 0 in
  (forall v, demo_unmarshal (demo_marshal v) = Some v) /\
  exists r', redis_Get demo_unmarshal (redis_Save demo_marshal s 9 "k" r).2 "k" = (Some r', None) /\
             sr_InstanceID r' = "i1".
Proof.
  intros s r. split; [exact demo_roundtrip|].
  apply (proj1 (redisStore_contract demo_marshal demo_unmarshal demo_roundtrip s 9 "k" "k2" r)).
  reflexivity.
Defined.

(** ** Shared lookups *)
Section SingleFlight.
Context {R : Type}.
Implicit Types (g : StoreCallGroup R) (ts : gmap nat (do_pc R)).

Definition leads (pc : do_pc R) (key : string) (c : nat) : Prop :=
  pc = DoRun key c \/ pc = DoForget key c.

Definition pc_ok g (pc : do_pc R) : Prop :=
  match pc with
  | DoRun key c => cg_calls g !! key = Some c /\ cg_heap g !! c = Some (key, None)
  | DoForget key c => cg_calls g !! key = Some c /\ exists r, cg_heap g !! c = Some (key, Some r)
  | DoWait key c => exists o, cg_heap g !! c = Some (key, o)
  | DoReturned key c r => cg_heap g !! c = Some (key, Some r)
  end.

Record flight_inv (s : StoreCallGroup R * gmap nat (do_pc R)) : Prop := {
  fi_pc : forall t pc, s.2 !! t = Some pc -> pc_ok s.1 pc;
  fi_one : forall t1 t2 key c1 c2 pc1 pc2, s.2 !! t1 = Some pc1 -> s.2 !! t2 = Some pc2 ->
    leads pc1 key c1 -> leads pc2 key c2 -> t1 = t2;
  fi_calls : forall key c, cg_calls s.1 !! key = Some c ->
    exists t pc, s.2 !! t = Some pc /\ leads pc key c;
  fi_open : forall c key, cg_heap s.1 !! c = Some (key, None) ->
    exists t, s.2 !! t = Some (DoRun key c)
}.

Lemma leads_calls g pc key c : pc_ok g pc -> leads pc key c -> cg_calls g !! key = Some c.
Proof. by intros Hpc [->| ->]; destruct Hpc. Qed.

Lemma flight_enter g ts t key c lead g' :
  flight_inv (g, ts) -> ts !! t = None -> do_enter g key = (c, lead, g') ->
  flight_inv (g', <[t := if lead : bool then DoRun key c else DoWait key c]> ts).
Proof.
  intros [H1 H2 H3 H4] Ht He. unfold do_enter in He. simpl in *.
  destruct (cg_calls g !! key) as [c0|] eqn:Hk; injection He as <- <- <-.
  - destruct (H3 key c0 Hk) as (tl & pcl & Htl & Hl). split; simpl.
    + intros t' pc [[_ <-]|[_ Hp]]%lookup_insert_Some; [|eauto].
      pose proof (H1 _ _ Htl) as Hok. destruct Hl as [->| ->]; destruct Hok as [_ Hc]; simpl; naive_solver.
    + intros t1 t2 k c1 c2 p1 p2 [[<- <-]|[_ Hp1]]%lookup_insert_Some
        [[<- <-]|[_ Hp2]]%lookup_insert_Some L1 L2;
        first [done | by destruct L1 | by destruct L2 | by eapply H2].
    + intros k c Hc. destruct (H3 k c Hc) as (t' & pc & Hp & Hlp). exists t', pc.
      rewrite lookup_insert_ne; [done|congruence].
    + intros c k Hc. destruct (H4 c k Hc) as [t' Hp]. exists t'. rewrite lookup_insert_ne; [done|congruence].
  - assert (forall t' pc k c, ts !! t' = Some pc -> leads pc k c -> k <> key) as Hno.
    { intros t' pc k c Hp Hl ->. rewrite (leads_calls _ _ _ _ (H1 _ _ Hp) Hl) in Hk. done. }
    assert (forall c x, cg_heap g !! c = Some x -> (cg_heap g ++ [(key, None)])%list !! c = Some x) as Hold.
    { intros c x Hx. by apply lookup_app_l_Some. }
    split; simpl.
    + intros t' pc [[_ <-]|[_ Hp]]%lookup_insert_Some.
      * simpl. rewrite lookup_insert_eq. split; [done|].
        rewrite lookup_app_r by lia. by rewrite Nat.sub_diag.
      * pose proof (H1 _ _ Hp) as Hok. destruct pc as [k c|k c|k c|k c r]; simpl in *.
        -- rewrite lookup_insert_ne; [naive_solver|]. intros <-. eapply Hno; [done| |done]. by left.
        -- rewrite lookup_insert_ne; [naive_solver|]. intros <-. eapply Hno; [done| |done]. by right.
        -- naive_solver.
        -- naive_solver.
    + intros t1 t2 k c1 c2 p1 p2 [[<- <-]|[_ Hp1]]%lookup_insert_Some
        [[<- <-]|[_ Hp2]]%lookup_insert_Some L1 L2; try done.
      * destruct L1 as [[= <- <-]|?]; [|done]. exfalso. by eapply Hno.
      * destruct L2 as [[= <- <-]|?]; [|done]. exfalso. by eapply Hno.
      * by eapply H2.
    + intros k c [[<- <-]|[_ Hc]]%lookup_insert_Some.
      * exists t, (DoRun key (length (cg_heap g))). rewrite lookup_insert_eq. split; [done|by left].
      * destruct (H3 k c Hc) as (t' & pc & Hp & Hlp). exists t', pc.
        rewrite lookup_insert_ne; [done|congruence].
    + intros c k Hc. apply lookup_app_Some in Hc as [Hc|[Hle Hc]].
      * destruct (H4 c k Hc) as [t' Hp]. exists t'. rewrite lookup_insert_ne; [done|congruence].
      * exists t. rewrite lookup_insert_eq.
        destruct (c - length (cg_heap g))%nat as [|n] eqn:E; [|done]. injection Hc as <-.
        by replace c with (length (cg_heap g)) by lia.
Qed.

(** The steps of one goroutine [t] change its own program counter; the others
    are looked up as before. *)
Lemma flight_complete g ts t key c r :
  flight_inv (g, ts) -> ts !! t = Some (DoRun key c) ->
  flight_inv (do_complete g c r, <[t := DoForget key c]> ts).
Proof.
  intros [H1 H2 H3 H4] Ht. simpl in *. destruct (H1 _ _ Ht) as [Hcall Hheap].
  assert (forall c', c' <> c -> cg_heap (do_complete g c r) !! c' = cg_heap g !! c') as Hother.
  { intros c' Hne. simpl. by rewrite list_lookup_alter_ne. }
  assert (cg_heap (do_complete g c r) !! c = Some (key, Some r)) as Hnew.
  { simpl. by rewrite list_lookup_alter_eq, Hheap. }
  split; cbn [fst snd].
  - intros t' pc [[_ <-]|[Hne Hp]]%lookup_insert_Some; [split; [done|]; eauto|].
    pose proof (H1 _ _ Hp) as Hok. destruct pc as [k c'|k c'|k c'|k c' r']; cbn [pc_ok] in Hok |- *;
      destruct (decide (c' = c)) as [->|Hc].
    + exfalso. apply Hne. destruct Hok as [_ Hk]. rewrite Hheap in Hk. injection Hk as <-.
      eapply H2; [exact Ht|exact Hp|by left|by left].
    + by rewrite (Hother c' Hc).
    + destruct Hok as [_ [r' Hk]]. by rewrite Hheap in Hk.
    + by rewrite (Hother c' Hc).
    + destruct Hok as [o Hk]. rewrite Hheap in Hk. injection Hk as <- _. eauto.
    + by rewrite (Hother c' Hc).
    + by rewrite Hheap in Hok.
    + by rewrite (Hother c' Hc).
  - intros t1 t2 k c1 c2 p1 p2 [[<- <-]|[_ Hp1]]%lookup_insert_Some
      [[<- <-]|[_ Hp2]]%lookup_insert_Some L1 L2; [done|..].
    + destruct L1 as [|[= <- <-]]; [done|]. eapply H2; [exact Ht|exact Hp2|by left|done].
    + destruct L2 as [|[= <- <-]]; [done|]. eapply H2; [exact Hp1|exact Ht|done|by left].
    + by eapply H2.
  - intros k c' Hc. destruct (H3 k c' Hc) as (t' & pc & Hp & Hl). destruct (decide (t = t')) as [<-|].
    + rewrite Ht in Hp. injection Hp as <-. destruct Hl as [[= <- <-]|]; [|done].
      exists t, (DoForget key c). rewrite lookup_insert_eq. split; [done|by right].
    + exists t', pc. by rewrite lookup_insert_ne.
  - intros c' k Hc. destruct (decide (c' = c)) as [->|Hne].
    + rewrite Hnew in Hc. done.
    + rewrite (Hother c' Hne) in Hc. destruct (H4 c' k Hc) as [t' Hp].
      exists t'. rewrite lookup_insert_ne; [done|]. intros <-. congruence.
Qed.

Lemma flight_forget g ts t key c r :
  flight_inv (g, ts) -> ts !! t = Some (DoForget key c) -> do_return g c = Some r ->
  flight_inv (do_forget g key, <[t := DoReturned key c r]> ts).
Proof.
  intros [H1 H2 H3 H4] Ht Hr. simpl in *. destruct (H1 _ _ Ht) as [Hcall [r' Hheap]].
  assert (r' = r) as ->. { unfold do_return in Hr. rewrite Hheap in Hr. by injection Hr. }
  assert (forall t' pc k c', t' <> t -> ts !! t' = Some pc -> leads pc k c' -> k <> key) as Hno.
  { intros t' pc k c' Hne Hp Hl ->. apply Hne. eapply H2; [exact Hp|exact Ht|done|by right]. }
  split; simpl.
  - intros t' pc [[_ <-]|[Hne Hp]]%lookup_insert_Some; [done|].
    pose proof (H1 _ _ Hp) as Hok. destruct pc as [k c'|k c'|k c'|k c' r']; simpl in Hok |- *; try done.
    + rewrite lookup_delete_ne; [done|]. intros <-. by eapply (Hno t'); [|exact Hp|left|].
    + rewrite lookup_delete_ne; [done|]. intros <-. by eapply (Hno t'); [|exact Hp|right|].
  - intros t1 t2 k c1 c2 p1 p2 [[<- <-]|[_ Hp1]]%lookup_insert_Some
      [[<- <-]|[_ Hp2]]%lookup_insert_Some L1 L2;
      first [done | by destruct L1 | by destruct L2 | by eapply H2].
  - intros k c' [Hne Hc]%lookup_delete_Some. destruct (H3 k c' Hc) as (t' & pc & Hp & Hl).
    exists t', pc. rewrite lookup_insert_ne; [done|]. intros <-.
    rewrite Ht in Hp. injection Hp as <-. destruct Hl as [|[= <- <-]]; done.
  - intros c' k Hc. destruct (H4 c' k Hc) as [t' Hp]. exists t'.
    rewrite lookup_insert_ne; [done|]. intros <-. congruence.
Qed.

Lemma flight_return g ts t key c r :
  flight_inv (g, ts) -> ts !! t = Some (DoWait key c) -> do_return g c = Some r ->
  flight_inv (g, <[t := DoReturned key c r]> ts).
Proof.
  intros [H1 H2 H3 H4] Ht Hr. simpl in *. destruct (H1 _ _ Ht) as [o Hheap].
  assert (o = Some r) as ->. { unfold do_return in Hr. by rewrite Hheap in Hr. }
  split; simpl.
  - intros t' pc [[_ <-]|[Hne Hp]]%lookup_insert_Some; [done|eauto].
  - intros t1 t2 k c1 c2 p1 p2 [[<- <-]|[_ Hp1]]%lookup_insert_Some
      [[<- <-]|[_ Hp2]]%lookup_insert_Some L1 L2;
      first [done | by destruct L1 | by destruct L2 | by eapply H2].
  - intros k c' Hc. destruct (H3 k c' Hc) as (t' & pc & Hp & Hl). exists t', pc.
    rewrite lookup_insert_ne; [done|]. intros <-. rewrite Ht in Hp. injection Hp as <-. by destruct Hl.
  - intros c' k Hc. destruct (H4 c' k Hc) as [t' Hp]. exists t'.
    rewrite lookup_insert_ne; [done|]. intros <-. congruence.
Qed.

Lemma flight_steps s : rtc do_step (NewStoreCallGroup, ∅) s -> flight_inv s.
Proof.
  revert s. apply (rtc_ind_r (R := do_step) flight_inv (NewStoreCallGroup, ∅)).
  - split; simpl; intros *; rewrite ?lookup_empty, ?lookup_nil; done.
  - intros x y _ Hstep Hx. destruct Hstep as [g ts t key c lead g' Ht He|g ts t key c r Ht
      |g ts t key c r Ht Hr|g ts t key c r Ht Hr].
    + by eapply flight_enter.
    + by apply flight_complete.
    + by eapply flight_forget.
    + by eapply flight_return.
Qed.

(** C22: single flight.  Whatever goroutines call [Do] and however they
    interleave: at most one of them at a time runs the lookup of a key; all
    that joined a call return the same result; and one that waits can return,
    or the lookup it waits for is still running. *)
Theorem single_flight g ts :
  rtc do_step (NewStoreCallGroup, ∅) (g, ts) ->
  (forall t1 t2 key c1 c2, ts !! t1 = Some (DoRun key c1) -> ts !! t2 = Some (DoRun key c2) -> t1 = t2) /\
  (forall t1 t2 k1 k2 c r1 r2, ts !! t1 = Some (DoReturned k1 c r1) ->
     ts !! t2 = Some (DoReturned k2 c r2) -> k1 = k2 /\ r1 = r2) /\
  (forall t key c, ts !! t = Some (DoWait key c) ->
     is_Some (do_return g c) \/ exists t', ts !! t' = Some (DoRun key c)).
Proof.
  intros [H1 H2 H3 H4]%flight_steps. simpl in *. split_and!.
  - intros t1 t2 key c1 c2 Hp1 Hp2. eapply H2; [exact Hp1|exact Hp2|by left|by left].
  - intros t1 t2 k1 k2 c r1 r2 Hp1%H1 Hp2%H1. simpl in *. rewrite Hp1 in Hp2. by injection Hp2.
  - intros t key c [o Hheap]%H1. unfold do_return. rewrite Hheap. destruct o as [r|]; [left; eauto|right].
    by apply H4.
Qed.
End SingleFlight.

(** Two goroutines look up the same key; the second one joins the first. *)
Lemma single_flight_witness :
  exists g ts, rtc (do_step (R := Z)) (NewStoreCallGroup, ∅) (g, ts) /\
    ts !! 1%nat = Some (DoWait "k" 0) /\
    (is_Some (do_return g 0) \/ exists t', ts !! t' = Some (DoRun "k" 0)).
Proof.
  set (g1 := (do_enter (R := Z) NewStoreCallGroup "k").2).
  set (ts := <[1%nat := DoWait "k" 0]> (<[0%nat := DoRun "k" 0]> (∅ : gmap nat (do_pc Z)))).
  assert (rtc (do_step (R := Z)) (NewStoreCallGroup, ∅) (g1, ts)) as Hrun.
  { eapply rtc_l; [by apply (step_enter _ _ 0 "k" 0 true g1)|].
    eapply rtc_l; [by apply (step_enter g1 _ 1 "k" 0 false g1)|]. apply rtc_refl. }
  exists g1, ts. split; [done|]. split; [done|].
  destruct (single_flight g1 ts Hrun) as (_ & _ & H). by apply (H 1%nat "k" 0%nat).
Defined.
