(* ===== verification/LiteAlloc.v ===== *)
(** * Allocation identifiers and request parsing of the lite scheduler

    allocation.go, request.go and the key helpers of litescheduler.go (package
    pkg/functionscaler/litescheduler): the identifier a lease is known by, the
    whitelist, the keys ownership is hashed on, and the decision whether a
    request enters the lite branch. *)
From S2P Require Import Prelude GoStrings.
From Stdlib Require Import Ascii.

#[local] Open Scope string_scope.
#[local] Open Scope Z_scope.

Notation liteAllocPrefix := ("lite")%string (only parsing).

(** Times are nanoseconds; the field [Lease] is never written. *)
Record Allocation := mkAlloc {
  al_AllocationID : string;
  al_SessionID : string;
  al_SessionCtxID : string;
  al_SessionTTL : Z;
  al_TenantID : string;
  al_InstanceID : string;
  al_FuncKey : string;
  al_ExpireAt : Z;
  al_CreatedAt : Z
}.

Definition sessionHash (sessionID : string) : string :=
  String.substring 0 16 (EncodeToString (SHA256.Sum256 (bytes_of sessionID))).

Definition allocationSessionID (sessionID sessionCtxID : string) : string :=
  if negb (String.eqb sessionID "") then sessionID else sessionCtxID.

Definition genAllocationID (sessionID instanceID : string) (seq : Z) : string :=
  liteAllocPrefix ++ ":" ++ sessionHash sessionID ++ ":" ++ instanceID ++ ":thread:" ++ Itoa seq.

(** [None] is [isLite = false]. *)
Definition parseLiteAllocationID (allocID : string) : option (string * string * Z) :=
  if negb (HasPrefix allocID (liteAllocPrefix ++ ":")) then None else
  let rest := TrimPrefix allocID (liteAllocPrefix ++ ":") in
  match SplitN ":"%char 3 rest with
  | [sessHash; instanceID; threadPart] =>
      if negb (HasPrefix threadPart "thread:") then None else
      let seqStr := TrimPrefix threadPart "thread:" in
      match Atoi seqStr with
      | Some n => Some (sessHash, instanceID, n)
      | None => None
      end
  | _ => None
  end.

Definition IsLiteAllocationID (allocID : string) : bool :=
  match parseLiteAllocationID allocID with Some _ => true | None => false end.

(** ** Keys *)

Record funcKeyParts := mkParts { fk_tenantID : string; fk_funcName : string; fk_version : string }.

(** [SplitN] with a positive bound never returns an empty list. *)
Definition splitFuncKey (funcKey : string) : funcKeyParts :=
  let parts := SplitN "/"%char 3 funcKey in
  mkParts (default "" (parts !! 0%nat)) (default "" (parts !! 1%nat)) (default "" (parts !! 2%nat)).

Definition tenantOf (funcKey : string) : string := fk_tenantID (splitFuncKey funcKey).

Definition schedulerOwnerKey (tenantID funcKey sessionID sessionCtxID : string) : string :=
  if negb (String.eqb sessionCtxID "") then tenantID ++ "/" ++ funcKey ++ "/" ++ sessionCtxID
  else if negb (String.eqb sessionID "") then tenantID ++ "/" ++ sessionID
  else funcKey.

Definition sessionContextRoutingKey (funcKey sessionCtxID : string) : string :=
  schedulerOwnerKey (tenantOf funcKey) funcKey "" sessionCtxID.

(** types.JoinKey; the separator is the zero byte. *)
Definition sessionContextKeySeparator : string := String Ascii.zero "".
Definition JoinKey (parts : list string) : string := Join sessionContextKeySeparator parts.

(** ** Configuration *)

Record LiteSchedulerConfig := mkLiteConfig {
  cf_Enable : bool;
  cf_EnableAllTenants : bool;
  cf_EnabledTenants : list string;
  cf_EnabledFunctions : list string;
  cf_AcquireWaitTimeoutMs : Z;
  cf_LeaseSpan : Z
}.

Fixpoint contains (slice : list string) (s : string) : bool :=
  match slice with
  | [] => false
  | x :: rest => if String.eqb x s then true else contains rest s
  end.

Definition isFuncEnabled (cfg : LiteSchedulerConfig) (funcKey : string) : bool :=
  if negb (cf_Enable cfg) then false
  else if cf_EnableAllTenants cfg then true
  else if contains (cf_EnabledTenants cfg) (tenantOf funcKey) then true
  else if contains (cf_EnabledFunctions cfg) funcKey then true
  else false.

(** ** Requests *)

Record LiteRequest := mkReq {
  rq_Op : string;
  rq_FuncKey : string;
  rq_TenantID : string;
  rq_SessionID : string;
  rq_SessionCtxID : string;
  rq_SessionTTL : Z;
  rq_Concurrency : Z;
  rq_AllocationIDs : list string;
  rq_ExtraData : string;
  rq_MetricsData : string;
  rq_TraceID : string;
  rq_NeedReverseLookup : bool;
  rq_bindingKey : string
}.

Record InstanceSessionConfig := mkSessConf {
  sc_SessionID : string; sc_SessionTTL : Z; sc_Concurrency : Z
}.

(** The fields of a function specification the lite scheduler reads. *)
Record FunctionSpecification := mkFuncSpec {
  fs_FuncKey : string;
  fs_ConcurrentNum : Z;
  fs_SchedulePolicy : string;
  fs_EnableSessionCtx : bool
}.

Section Parse.
(** [encoding/json] into [map[string][]byte] and into the session config;
    [None] is a decoding error. *)
Context (json_bytes_map : string -> option (gmap string string)).
Context (json_session : string -> option InstanceSessionConfig).

Definition extractSessionDetails (extraData : string) : string * string * Z * Z :=
  if (String.length extraData =? 0)%nat then ("", "", 0, 0) else
  match json_bytes_map extraData with
  | None => ("", "", 0, 0)
  | Some m =>
      let sessionCtxID := default "" (m !! "sessionCtxID") in
      match m !! "instanceSessionConfig" with
      | None => ("", sessionCtxID, 0, 0)
      | Some raw =>
          match json_session raw with
          | None => ("", sessionCtxID, 0, 0)
          | Some sess => (sc_SessionID sess, sessionCtxID, sc_SessionTTL sess, sc_Concurrency sess)
          end
      end
  end.

(** [ls.funcSpecGetter]; [None] for a nil getter or a nil specification. *)
Context (funcSpecGetter : string -> option FunctionSpecification).

(** [None] sends the request to the legacy scheduler. *)
Definition ParseRequest (cfg : LiteSchedulerConfig) (op targetName extraData traceID : string)
    : option LiteRequest :=
  if negb (contains ["acquire"; "release"; "retain"; "batchRetain"] op) then None
  else if negb (cf_Enable cfg) then None
  else if String.eqb op "acquire" then
    let '(sessionID, sessionCtxID, sessionTTL, concurrency) := extractSessionDetails extraData in
    let funcKey := targetName in
    if negb (isFuncEnabled cfg funcKey) then None else
    let sessionCtxEnabled :=
      if negb (String.eqb sessionCtxID "") then
        match funcSpecGetter funcKey with
        | Some funcSpec => fs_EnableSessionCtx funcSpec
        | None => false
        end
      else false in
    if String.eqb sessionID "" && negb sessionCtxEnabled then None else
    Some (mkReq op funcKey (tenantOf funcKey) sessionID sessionCtxID sessionTTL concurrency []
            extraData "" traceID false "")
  else if contains ["release"; "retain"] op then
    if negb (IsLiteAllocationID targetName) then None else
    Some (mkReq op "" "" "" "" 0 0 [targetName] extraData extraData traceID true "")
  else
    let ids := Split ","%char targetName in
    let liteCount := length (filter (fun id => IsLiteAllocationID id = true) ids) in
    if (liteCount =? 0)%nat then None
    else if negb (liteCount =? length ids)%nat then None
    else Some (mkReq op "" "" "" "" 0 0 ids "" extraData traceID true "").

End Parse.

(** ** Properties *)

#[local] Arguments String.append : simpl nomatch.

Lemma sessionHash_no_colon s : free_of ":"%char (sessionHash s).
Proof. apply free_of_substring, EncodeToString_no_colon, Sum256_range. Qed.

Lemma SplitN_3 c a b r :
  free_of c a -> free_of c b -> SplitN c 3 (a ++ String c (b ++ String c r)) = [a; b; r].
Proof. intros Ha Hb. simpl. by rewrite cut_app, cut_app. Qed.

Lemma parse_gen (sessionID instanceID : string) (seq : Z)
    (Hid : free_of ":"%char instanceID) (Hseq : 0 <= seq < 2 ^ 63) :
  parseLiteAllocationID (genAllocationID sessionID instanceID seq)
  = Some (sessionHash sessionID, instanceID, seq).
Proof.
  unfold genAllocationID, parseLiteAllocationID.
  rewrite string_app_assoc, HasPrefix_app, TrimPrefix_app. cbn [negb].
  change (":" ++ instanceID ++ ":thread:" ++ Itoa seq)
    with (String ":"%char (instanceID ++ String ":"%char ("thread:" ++ Itoa seq))).
  rewrite SplitN_3 by (done || apply sessionHash_no_colon).
  rewrite HasPrefix_app, TrimPrefix_app. cbn [negb]. by rewrite Atoi_Itoa.
Qed.

(** The identifier of an allocation reads back.  For an instance id
    without a colon and a sequence number in [int] range, parsing the
    generated identifier gives the session hash, the instance and the
    sequence number it was built from. *)
Theorem parse_genAllocationID (sessionID instanceID : string) (seq : Z)
    (Hid : free_of ":"%char instanceID) (Hseq : 0 <= seq < 2 ^ 63) :
  parseLiteAllocationID (genAllocationID sessionID instanceID seq)
  = Some (sessionHash sessionID, instanceID, seq).
Proof. by apply parse_gen. Qed.

Lemma parse_genAllocationID_witness :
  parseLiteAllocationID (genAllocationID "s" "inst-1" 7) = Some (sessionHash "s", "inst-1", 7).
Proof. apply parse_genAllocationID; [by vm_compute|lia]. Defined.

Lemma JoinKey_pair a b : JoinKey [a; b] = a ++ String Ascii.zero b.
Proof. done. Qed.

(** The key of a session within a session context determines both, as
    long as the session id does not contain the separator (a zero byte). *)
Theorem JoinKey_injective (a b c d : string)
    (Ha : free_of Ascii.zero a) (Hc : free_of Ascii.zero c) :
  JoinKey [a; b] = JoinKey [c; d] -> a = c /\ b = d.
Proof.
  rewrite !JoinKey_pair. intros E. pose proof (cut_app _ a b Ha) as H1. rewrite E, cut_app in H1 by done.
  by injection H1.
Qed.

Lemma JoinKey_injective_witness :
  let key := JoinKey ["s1"; "c1"] in key = "s1" ++ String Ascii.zero "c1" /\ ("s1" = "s1" /\ "c1" = "c1").
Proof.
  split; [reflexivity|]. apply (JoinKey_injective "s1" "c1" "s1" "c1"); [by vm_compute|by vm_compute|].
  reflexivity.
Defined.

(** Without that restriction keys are ambiguous: two different pairs of
    session and context share one binding key. *)
Theorem JoinKey_ambiguous :
  exists a b c d, (a, b) <> (c, d) /\ JoinKey [a; b] = JoinKey [c; d].
Proof.
  exists ("s" ++ String Ascii.zero "x"), "y", "s", ("x" ++ String Ascii.zero "y"). by split.
Qed.

(** A batch retain enters the lite branch with exactly the ids it was sent,
    if every one of them is a lite id, and leaves it to the legacy path if one
    of them is not. *)
Theorem ParseRequest_batch json_map json_sess getter cfg ids extraData traceID :
  cf_Enable cfg = true -> ids <> [] -> Forall (free_of ","%char) ids ->
  ParseRequest json_map json_sess getter cfg "batchRetain" (Join "," ids) extraData traceID
  = if forallb IsLiteAllocationID ids
    then Some (mkReq "batchRetain" "" "" "" "" 0 0 ids "" extraData traceID true "") else None.
Proof.
  intros He Hne HF. unfold ParseRequest. rewrite He. cbn [contains String.eqb Ascii.eqb Bool.eqb negb].
  simpl. rewrite Split_Join by done. set (k := length (filter _ ids)).
  assert (k <= length ids)%nat as Hle by apply length_filter.
  destruct (forallb IsLiteAllocationID ids) eqn:Hall.
  - assert (k = length ids) as ->.
    { subst k. f_equal. clear -Hall. induction ids as [|x l IH]; [done|].
      apply andb_prop in Hall as [Hx Hl]. by rewrite filter_cons_True, IH. }
    destruct ids; [done|]. simpl. by rewrite Nat.eqb_refl.
  - assert (k <> length ids) as Hk.
    { intros Hk. enough (forallb IsLiteAllocationID ids = true) by congruence.
      apply forallb_forall. intros x Hx. subst k.
      destruct (IsLiteAllocationID x) eqn:E; [done|]. exfalso.
      pose proof (length_filter_lt (fun id => IsLiteAllocationID id = true) ids x) as Hlt.
      apply list_elem_of_In in Hx. specialize (Hlt Hx ltac:(simpl; congruence)). lia. }
    destruct (Nat.eqb_spec k 0); [done|]. destruct (Nat.eqb_spec k (length ids)); done.
Qed.

Lemma ParseRequest_batch_witness :
  let cfg := mkLiteConfig true true [] [] 1000 1000 in
  let ids := [genAllocationID "s" "i1" 1; genAllocationID "s" "i2" 2] in
  ParseRequest (fun _ => None) (fun _ => None) (fun _ => None) cfg "batchRetain" (Join "," ids) "" ""
  = Some (mkReq "batchRetain" "" "" "" "" 0 0 ids "" "" "" true "").
Proof.
  intros cfg ids.
  rewrite (ParseRequest_batch (fun _ => None) (fun _ => None) (fun _ => None) cfg ids "" "" eq_refl).
  - vm_compute. reflexivity.
  - done.
  - repeat constructor.
Defined.
