(* ===== verification/ConcSched.v ===== *)
(** * The concurrency schedulers

    pkg/functionscaler/scheduler/concurrencyscheduler: sessions and the threads
    bound to them (sessionmanager.go), acquiring and releasing threads of
    instances, instance events and ownership (basic_concurrency_scheduler.go),
    and what the reserved and the scaled scheduler add.

    A scheduler is a record that its operations pass along; what it publishes to
    its observers and writes to the session store is appended to [bc_out].  One
    operation is what the source does under the scheduler's lock; the goroutines
    that unbind idle sessions are steps of their own.  Lease creation is an
    argument (LeaseMgr has the manager), as are the choices of map iterations.
    An instance update asks whose instance it is before it takes the lock; that
    is one step here.  An unbinding goroutine that was started before the scaled
    scheduler replaced its queues keeps the old queue, here it sees the new one. *)
From S2P Require Import Prelude GoStrings SchedErrors SessionStore LiteAlloc DeHeap InsQueue ObsQueue.

Notation ErrInsThdNotExist := (PlainError "instance thread not exist") (only parsing).
Notation ErrNoInsThdAvail := (PlainError "no instance thread available") (only parsing).
Definition maxColdStartTraceQueue : nat := 1024.

(** The [n]-th element of a set, going round: what a range over a map yields
    first is some element of it. *)
Definition pick (n : nat) (s : gset string) : option string := elements s !! (n mod size s)%nat.

(** ** Sessions *)

(** [se_expireCancelCh]: the tokens in the channel of capacity one.  [se_ctxDone]:
    the record's context is cancelled. *)
Record sessionRecord := mkSession {
  se_availThdMap : gset string;
  se_allocThdMap : gset string;
  se_overAcqThdMap : gset string;
  se_expiring : bool;
  se_ttl : Z;
  se_concurrency : Z;
  se_sessionID : string;
  se_sessionCtxID : string;
  se_expireCancelCh : nat;
  se_ctxDone : bool;
  se_insElem : nat
}.
Implicit Types (r : sessionRecord).

Definition set_thds (avail alloc over : gset string) r : sessionRecord :=
  mkSession avail alloc over (se_expiring r) (se_ttl r) (se_concurrency r) (se_sessionID r) (se_sessionCtxID r)
    (se_expireCancelCh r) (se_ctxDone r) (se_insElem r).
Definition set_expire (expiring : bool) (tokens : nat) (done : bool) r : sessionRecord :=
  mkSession (se_availThdMap r) (se_allocThdMap r) (se_overAcqThdMap r) expiring (se_ttl r) (se_concurrency r)
    (se_sessionID r) (se_sessionCtxID r) tokens done (se_insElem r).
Definition set_ttl (ttl : Z) r : sessionRecord :=
  mkSession (se_availThdMap r) (se_allocThdMap r) (se_overAcqThdMap r) (se_expiring r) ttl (se_concurrency r)
    (se_sessionID r) (se_sessionCtxID r) (se_expireCancelCh r) (se_ctxDone r) (se_insElem r).

(** [None]: the thread does not belong to the session. *)
Definition MarkThreadAsAvailable (threadID : string) r : option sessionRecord :=
  if decide (threadID ∈ se_allocThdMap r)
  then Some (set_thds ({[threadID]} ∪ se_availThdMap r) (se_allocThdMap r) (se_overAcqThdMap r) r)
  else None.
Definition PutThreadToAllocThdMap (threadID : string) r : sessionRecord :=
  set_thds (se_availThdMap r) ({[threadID]} ∪ se_allocThdMap r) (se_overAcqThdMap r) r.
Definition GetThreadFromAvailThdMap (choice : nat) r : string * sessionRecord :=
  let threadID := default "" (pick choice (se_availThdMap r)) in
  (threadID, set_thds (se_availThdMap r ∖ {[threadID]}) (se_allocThdMap r) (se_overAcqThdMap r) r).

(** [None]: the designated thread has been acquired. *)
Definition GetOrReplaceDesignateThreadFromAvailThdMap (choice : nat) (designateThreadID : string) r
    : option (string * sessionRecord) :=
  if String.eqb designateThreadID "" then Some (GetThreadFromAvailThdMap choice r)
  else if decide (designateThreadID ∈ se_availThdMap r) then
    Some (designateThreadID,
          set_thds (se_availThdMap r ∖ {[designateThreadID]}) (se_allocThdMap r) (se_overAcqThdMap r) r)
  else if decide (designateThreadID ∈ se_allocThdMap r) then None
  else
    let '(threadID, r) := GetThreadFromAvailThdMap choice r in
    Some (designateThreadID,
          set_thds (se_availThdMap r) ({[designateThreadID]} ∪ (se_allocThdMap r ∖ {[threadID]})) (se_overAcqThdMap r) r).

(** No thread of the session is out. *)
Definition session_idle r : bool :=
  bool_decide (se_overAcqThdMap r = ∅) && (size (se_availThdMap r) =? size (se_allocThdMap r))%nat.

(** ** The scheduler *)

(** The fields of the function's specification that are read. *)
Record funcSpec := mkSpec {
  fs_EnableSessionCtx : bool;
  fs_EnableAgentSession : bool;
  fs_PriorityAZ : string;
  fs_FuncMetaSignature : string
}.

Record InstanceAcquireRequest := mkAcquire {
  aq_DesignateInstanceID : string;
  aq_DesignateThreadID : string;
  aq_SessionID : string;
  aq_SessionTTL : Z;
  aq_Concurrency : Z;
  aq_SessionCtxID : string;
  aq_TrafficLimited : bool
}.
Definition set_designate (id : string) (q : InstanceAcquireRequest) : InstanceAcquireRequest :=
  mkAcquire id (aq_DesignateThreadID q) (aq_SessionID q) (aq_SessionTTL q) (aq_Concurrency q) (aq_SessionCtxID q)
    (aq_TrafficLimited q).
Definition set_session (sessionID : string) (ttl concurrency : Z) (q : InstanceAcquireRequest) : InstanceAcquireRequest :=
  mkAcquire (aq_DesignateInstanceID q) (aq_DesignateThreadID q) sessionID ttl concurrency (aq_SessionCtxID q)
    (aq_TrafficLimited q).

Record InstanceAllocation := mkAllocation {
  al_Instance : Instance;
  al_AllocationID : string;
  al_SessionID : string
}.

Inductive sched_out :=
  | OutPub (p : publication)
  | OutSave (key : string) (record : StoreRecord)
  | OutDelete (key : string).

(** Where the goroutine of [unbindInstanceSession] stands: in its select, woken by
    the timer and waiting for the lock, woken by the cancellation, returned. *)
Inductive unbind_pc := UbSelect | UbFired | UbCancelled | UbDone.
Record unbinder := mkUnbinder { ub_self : bool; ub_record : nat; ub_pc : unbind_pc }.

Record coldStartTraceContext := mkTrace { ct_TraceID : string; ct_TraceParent : string; ct_createdAt : Z }.

Section Scheduler.
Context {Q : Type} `{InsQueue Q}.
(** This scheduler's name, and whether another is known. *)
Context (proxyName : string) (proxyContains : string -> bool) (schedulerID : string).

(** [bc_pubCopy]: the self queue publishes through the copy of the scheduler that
    its constructor returned a copy of. *)
Record scheduler := mkScheduler {
  bc_funcSpec : funcSpec;
  bc_elems : elems;
  bc_self : instanceQueueWithObserver Q;
  bc_other : instanceQueueWithSubHealthAndEvictingRecord Q;
  bc_records : list sessionRecord;
  bc_sessionMap : gmap string nat;
  bc_unbinders : list unbinder;
  bc_concurrentNum : Z;
  bc_isFuncOwner : bool;
  bc_stopped : bool;
  bc_pubCopy : bool;
  bc_coldStartTraceQueue : list coldStartTraceContext;
  bc_leaseInterval : Z;
  bc_out : list sched_out
}.
Implicit Types (s : scheduler) (q : InstanceAcquireRequest).

Definition set_elems (es : elems) s : scheduler :=
  mkScheduler (bc_funcSpec s) es (bc_self s) (bc_other s) (bc_records s) (bc_sessionMap s) (bc_unbinders s)
    (bc_concurrentNum s) (bc_isFuncOwner s) (bc_stopped s) (bc_pubCopy s) (bc_coldStartTraceQueue s)
    (bc_leaseInterval s) (bc_out s).
Definition set_queues (self : instanceQueueWithObserver Q) (other : instanceQueueWithSubHealthAndEvictingRecord Q)
    (pubCopy : bool) s : scheduler :=
  mkScheduler (bc_funcSpec s) (bc_elems s) self other (bc_records s) (bc_sessionMap s) (bc_unbinders s)
    (bc_concurrentNum s) (bc_isFuncOwner s) (bc_stopped s) pubCopy (bc_coldStartTraceQueue s)
    (bc_leaseInterval s) (bc_out s).
Definition set_records (records : list sessionRecord) (m : gmap string nat) (ubs : list unbinder) s : scheduler :=
  mkScheduler (bc_funcSpec s) (bc_elems s) (bc_self s) (bc_other s) records m ubs
    (bc_concurrentNum s) (bc_isFuncOwner s) (bc_stopped s) (bc_pubCopy s) (bc_coldStartTraceQueue s)
    (bc_leaseInterval s) (bc_out s).
Definition set_config (fs : funcSpec) (concurrentNum : Z) (isFuncOwner stopped : bool) s : scheduler :=
  mkScheduler fs (bc_elems s) (bc_self s) (bc_other s) (bc_records s) (bc_sessionMap s) (bc_unbinders s)
    concurrentNum isFuncOwner stopped (bc_pubCopy s) (bc_coldStartTraceQueue s) (bc_leaseInterval s) (bc_out s).
Definition set_traces (l : list coldStartTraceContext) s : scheduler :=
  mkScheduler (bc_funcSpec s) (bc_elems s) (bc_self s) (bc_other s) (bc_records s) (bc_sessionMap s) (bc_unbinders s)
    (bc_concurrentNum s) (bc_isFuncOwner s) (bc_stopped s) (bc_pubCopy s) l (bc_leaseInterval s) (bc_out s).
Definition emit (out : list sched_out) s : scheduler :=
  mkScheduler (bc_funcSpec s) (bc_elems s) (bc_self s) (bc_other s) (bc_records s) (bc_sessionMap s) (bc_unbinders s)
    (bc_concurrentNum s) (bc_isFuncOwner s) (bc_stopped s) (bc_pubCopy s) (bc_coldStartTraceQueue s)
    (bc_leaseInterval s) (bc_out s ++ out).

Definition set_elem (a : nat) (e : instanceElement) s : scheduler := set_elems (<[a:=e]> (bc_elems s)) s.
Definition set_record (ra : nat) (r : sessionRecord) s : scheduler :=
  set_records (<[ra:=r]> (bc_records s)) (bc_sessionMap s) (bc_unbinders s) s.

(** *** Publishing *)

(** [stopped] as the self queue's publishing functions see it. *)
Definition pub_stopped s : bool := if bc_pubCopy s then false else bc_stopped s.
Definition publishInsThdEvents (pubs : list publication) s : scheduler :=
  if pub_stopped s then s else emit (OutPub <$> pubs) s.

(** *** The two queues *)

Definition iq_rec (self : bool) s : instanceQueueWithSubHealthAndEvictingRecord Q :=
  if self then obs_rec (bc_self s) else bc_other s.
Definition iq_GetByID (self : bool) (id : string) s : option nat := rec_GetByID (bc_elems s) id (iq_rec self s).
Definition iq_Front (self : bool) s : option nat := rec_Front (iq_rec self s).

Definition iq_PushBack (self : bool) (a : nat) s : option goError * scheduler :=
  if self then
    let '(err, pubs, o) := obs_PushBack (bc_elems s) a (bc_self s) in
    (err, publishInsThdEvents pubs (set_queues o (bc_other s) (bc_pubCopy s) s))
  else
    let '(err, i) := rec_PushBack (bc_elems s) a (bc_other s) in
    (err, set_queues (bc_self s) i (bc_pubCopy s) s).
Definition iq_DelByID (self : bool) (id : string) s : option goError * scheduler :=
  if self then
    let '(err, pubs, o) := obs_DelByID (bc_elems s) id (bc_self s) in
    (err, publishInsThdEvents pubs (set_queues o (bc_other s) (bc_pubCopy s) s))
  else
    let '(err, i) := rec_DelByID (bc_elems s) id (bc_other s) in
    (err, set_queues (bc_self s) i (bc_pubCopy s) s).
Definition iq_UpdateObjByID (self : bool) (id : string) (a : nat) s : option goError * scheduler :=
  if self then
    let '(err, pubs, o) := obs_UpdateObjByID (bc_elems s) id a (bc_self s) in
    (err, publishInsThdEvents pubs (set_queues o (bc_other s) (bc_pubCopy s) s))
  else
    let '(err, i) := rec_UpdateObjByID (bc_elems s) id a (bc_other s) in
    (err, set_queues (bc_self s) i (bc_pubCopy s) s).

(** *** Cold start traces *)

Definition popColdStartTraceLocked s : option coldStartTraceContext * scheduler :=
  match bc_coldStartTraceQueue s with
  | [] => (None, s)
  | traceCtx :: rest => (Some traceCtx, set_traces rest s)
  end.

Definition recordColdStartTrace (now : Z) (traceID traceParent : string) s : scheduler :=
  if String.eqb traceID "" && String.eqb traceParent "" then s else
  let s := if (maxColdStartTraceQueue <=? length (bc_coldStartTraceQueue s))%nat
           then snd (popColdStartTraceLocked s) else s in
  set_traces (bc_coldStartTraceQueue s ++ [mkTrace traceID traceParent now]) s.

Fixpoint pop_fresh (expireBefore : Z) (l : list coldStartTraceContext)
    : option coldStartTraceContext * list coldStartTraceContext :=
  match l with
  | [] => (None, [])
  | traceCtx :: rest =>
      if ct_createdAt traceCtx <? expireBefore then pop_fresh expireBefore rest else (Some traceCtx, rest)
  end.
Definition PopColdStartTrace (now : Z) s : option coldStartTraceContext * scheduler :=
  let '(x, l) := pop_fresh (now - bc_leaseInterval s) (bc_coldStartTraceQueue s) in (x, set_traces l s).

(** *** Session records *)

Definition getSessionCacheKey (sessionID sessionCtxID : string) s : string :=
  if negb (fs_EnableSessionCtx (bc_funcSpec s)) then sessionID else JoinKey [sessionID; sessionCtxID].
Definition getRecordCacheKey (r : sessionRecord) s : string :=
  getSessionCacheKey (se_sessionID r) (se_sessionCtxID r) s.

(** The record's address and the record. *)
Definition getSession (key : string) s : option (nat * sessionRecord) :=
  bc_sessionMap s !! key ≫= fun ra => (ra,.) <$> bc_records s !! ra.

Definition saveSessionToStore (key : string) (r : sessionRecord) s : scheduler :=
  emit [OutSave key (mkRecord (getInstanceID (bc_elems s) (se_insElem r)) schedulerID (se_sessionID r)
                       (se_sessionCtxID r) (se_ttl r /g Second) (se_concurrency r) 0)] s.
Definition addSession (key : string) (ra : nat) (r : sessionRecord) s : scheduler :=
  saveSessionToStore key r (set_records (bc_records s) (<[key:=ra]> (bc_sessionMap s)) (bc_unbinders s) s).
Definition deleteLocalSession (key : string) s : scheduler :=
  set_records (bc_records s) (delete key (bc_sessionMap s)) (bc_unbinders s) s.
Definition delSession (key : string) s : scheduler := emit [OutDelete key] (deleteLocalSession key s).

Definition isAgentSession q s : bool :=
  fs_EnableAgentSession (bc_funcSpec s) && negb (String.eqb (aq_SessionID q) "").

(** *** Threads of instances *)

Definition acquireInstanceThread (choice : nat) (designateThreadID : string) (self : bool) (a : nat) s
    : (InstanceAllocation + goError) * scheduler :=
  match bc_elems s !! a with
  | None => (inr (Sentinel ErrTypeConvertFail), s)
  | Some insElem =>
      if (threads insElem =? 0) && String.eqb designateThreadID "" then (inr (Sentinel ErrNoInsAvailable), s) else
      let '(threadID, insElem) := GetThreadFromThreadMap (pick choice) insElem in
      let threadID := if negb (String.eqb designateThreadID "") then designateThreadID else threadID in
      let '(err, s) := iq_UpdateObjByID self (in_InstanceID (el_instance insElem)) a (set_elem a insElem s) in
      match err with
      | Some err => (inr err, s)
      | None => (inl (mkAllocation (el_instance insElem) threadID ""), s)
      end
  end.

(** The loop that moves [n] threads of the instance into the record. *)
Fixpoint bind_loop (choices : nat -> nat) (n : nat) (e : instanceElement) (r : sessionRecord)
    : instanceElement * sessionRecord :=
  match n with
  | O => (e, r)
  | S n =>
      let '(threadID, e) := GetThreadFromThreadMap (pick (choices n)) e in
      let r := PutThreadToAllocThdMap threadID r in
      bind_loop choices n e (default r (MarkThreadAsAvailable threadID r))
  end.

Definition bindThdWithSession (choices : nat -> nat) (self : bool) (a : nat) (sessionID : string)
    (sessionTTL concurrency : Z) s : (nat * sessionRecord + goError) * scheduler :=
  match bc_elems s !! a with
  | None => (inr (Sentinel ErrTypeConvertFail), s)
  | Some insElem =>
      let full := in_ConcurrentNum (el_instance insElem) in
      if (concurrency =? -1) && negb (threads insElem =? full) then (inr (Sentinel ErrNoInsAvailable), s) else
      let concurrency := if concurrency =? -1 then full else concurrency in
      if threads insElem <? concurrency then (inr (Sentinel ErrNoInsAvailable), s) else
      let sessionCtxID :=
        if fs_EnableSessionCtx (bc_funcSpec s) then default "" (in_SessionCtxID (el_instance insElem)) else "" in
      let record := mkSession ∅ ∅ ∅ false (sessionTTL * Second) concurrency sessionID sessionCtxID 0 false a in
      let '(insElem, record) := bind_loop choices (Z.to_nat concurrency) insElem record in
      let '(err, s) := iq_UpdateObjByID self (in_InstanceID (el_instance insElem)) a (set_elem a insElem s) in
      match err with
      | Some err => (inr err, s)
      | None =>
          let ra := length (bc_records s) in
          (inl (ra, record), set_records (bc_records s ++ [record]) (bc_sessionMap s) (bc_unbinders s) s)
      end
  end.

Definition acquireSessionThread (choice : nat) (designateThreadID sessionID : string) (sessionTTL : Z)
    (sessionCtxID : string) s : (InstanceAllocation + goError) * scheduler :=
  match getSession (getSessionCacheKey sessionID sessionCtxID s) s with
  | None => (inr (Sentinel ErrInternal), s)
  | Some (ra, record) =>
      let record := if se_expiring record then set_expire true 1 (se_ctxDone record) record else record in
      let oldTTL := se_ttl record in
      let record := set_ttl (sessionTTL * Second) record in
      let s := set_record ra record s in
      let s := if negb (se_ttl record =? oldTTL) then saveSessionToStore (getRecordCacheKey record s) record s else s in
      if decide (se_availThdMap record = ∅) then (inr ErrNoInsThdAvail, s) else
      match GetOrReplaceDesignateThreadFromAvailThdMap choice designateThreadID record with
      | None => (inr (Sentinel ErrInternal), s)
      | Some (threadID, record) =>
          match bc_elems s !! se_insElem record with
          | None => (inr (Sentinel ErrInternal), s)
          | Some insElem =>
              (inl (mkAllocation (el_instance insElem) threadID sessionID), set_record ra record s)
          end
      end
  end.

(** [now] in nanoseconds. *)
Definition createOverAcqThread (now : Z) (ra : nat) (record : sessionRecord) q s
    : (InstanceAllocation + goError) * scheduler :=
  let threadID := ("overacq-" ++ se_sessionID record ++ "-" ++ Itoa now)%string in
  let record := set_thds (se_availThdMap record) (se_allocThdMap record) ({[threadID]} ∪ se_overAcqThdMap record) record in
  match bc_elems s !! se_insElem record with
  | None => (inr (Sentinel ErrInternal), s)
  | Some insElem => (inl (mkAllocation (el_instance insElem) threadID (aq_SessionID q)), set_record ra record s)
  end.

Definition acquireInstanceWithOverAcqSession (now : Z) (choice : nat) (self : bool) (ra : nat) q s
    : (InstanceAllocation + goError) * scheduler :=
  match bc_records s !! ra with
  | None => (inr (Sentinel ErrInternal), s)
  | Some record =>
      if isAgentSession q s then
        if (1 <=? size (se_overAcqThdMap record))%nat then (inr (Sentinel ErrOverAcqLimitExceeded), s)
        else createOverAcqThread now ra record q s
      else
        match acquireInstanceThread choice (aq_DesignateThreadID q) self (se_insElem record) s with
        | (inr err, s) => (inr err, s)
        | (inl insAlloc, s) =>
            (inl (mkAllocation (al_Instance insAlloc) (al_AllocationID insAlloc) (aq_SessionID q)),
             set_record ra (set_thds (se_availThdMap record) (se_allocThdMap record)
                              ({[al_AllocationID insAlloc]} ∪ se_overAcqThdMap record) record) s)
        end
  end.

(** Whether an instance can take a session: running, of the same session
    context, and with enough free threads. *)
Definition session_fits q (a : nat) s : bool :=
  match bc_elems s !! a with
  | None => false
  | Some insElem =>
      if negb (in_StatusCode (el_instance insElem) =? KernelInstanceStatusRunning) then false
      else if fs_EnableSessionCtx (bc_funcSpec s) && negb (String.eqb (aq_SessionCtxID q) "") &&
              negb (String.eqb (default "" (in_SessionCtxID (el_instance insElem))) (aq_SessionCtxID q)) then false
      else if aq_Concurrency q =? -1 then threads insElem =? in_ConcurrentNum (el_instance insElem)
      else aq_Concurrency q <=? threads insElem
  end.

(** The first instance of the sorted range that fits. *)
Definition select_session_instance (so eo : list string) (self : bool) q s : option nat :=
  let '(all, found) :=
    rec_SortedRange so eo (fun a _ => if session_fits q a s then (false, Some a) else (true, None)) (iq_rec self s) None in
  if all then None else found.

Definition isSessionExist (self : bool) q s : bool * scheduler :=
  let cacheKey := getSessionCacheKey (aq_SessionID q) (aq_SessionCtxID q) s in
  match getSession cacheKey s with
  | None => (false, s)
  | Some (_, record) =>
      match iq_GetByID self (getInstanceID (bc_elems s) (se_insElem record)) s with
      | None => (false, deleteLocalSession cacheKey s)
      | Some _ => (true, s)
      end
  end.

(** The choices of one acquire: [so], [eo] the orders of the ranges over the
    queue's maps, [ch] the threads picked, [now] the clock. *)
Record choices := mkChoices { ch_so : list string; ch_eo : list string; ch_pick : nat -> nat; ch_now : Z }.

Definition acquireSessionInstance (c : choices) (self : bool) q s : (InstanceAllocation + goError) * scheduler :=
  let q := if isAgentSession q s then set_session (aq_SessionID q) 0 1 q else q in
  if bc_concurrentNum s <? aq_Concurrency q then (inr (Sentinel ErrInvalidSession), s) else
  let '(bound, s) := isSessionExist self q s in
  let '(err, s) :=
    if bound then (None, s) else
    match select_session_instance (ch_so c) (ch_eo c) self q s with
    | None => (Some (Sentinel ErrNoInsAvailable), s)
    | Some a =>
        match bindThdWithSession (ch_pick c) self a (aq_SessionID q) (aq_SessionTTL q) (aq_Concurrency q) s with
        | (inr err, s) => (Some err, s)
        | (inl (ra, record), s) => (None, addSession (getRecordCacheKey record s) ra record s)
        end
    end in
  match err with
  | Some err => (inr err, s)
  | None =>
      match acquireSessionThread (ch_pick c 0%nat) (aq_DesignateThreadID q) (aq_SessionID q) (aq_SessionTTL q)
              (aq_SessionCtxID q) s with
      | (inr acqErr, s) =>
          if decide (acqErr = ErrNoInsThdAvail) then
            match getSession (getSessionCacheKey (aq_SessionID q) (aq_SessionCtxID q) s) s with
            | None => (inr acqErr, s)
            | Some (ra, _) => acquireInstanceWithOverAcqSession (ch_now c) (ch_pick c 0%nat) self ra q s
            end
          else (inr acqErr, s)
      | ok => ok
      end
  end.

(** The request, as the designated instance leaves it, is returned too: the
    caller acquires a session with it when the instance does not exist. *)
Definition acquireDesignateInstance (c : choices) (self : bool) q s
    : (InstanceAllocation + goError) * InstanceAcquireRequest * scheduler :=
  match iq_GetByID self (aq_DesignateInstanceID q) s with
  | None => (inr (Sentinel ErrInsNotExist), q, s)
  | Some a =>
      match bc_elems s !! a with
      | None => (inr (Sentinel ErrTypeConvertFail), q, s)
      | Some insElem =>
          if in_StatusCode (el_instance insElem) =? KernelInstanceStatusSubHealth
          then (inr (Sentinel ErrInsSubHealthy), q, s)
          else if negb (String.eqb (aq_SessionID q) "") then
            let key := getSessionCacheKey (aq_SessionID q) (aq_SessionCtxID q) s in
            if fs_EnableSessionCtx (bc_funcSpec s) && negb (String.eqb (aq_SessionCtxID q) "") &&
               negb (String.eqb (default "" (in_SessionCtxID (el_instance insElem))) (aq_SessionCtxID q))
            then (inr (Sentinel ErrInsNotExist), q, delSession key s)
            else
            (* the session's record, bound now if there is none *)
            let '(res, q, s) :=
              match getSession key s with
              | Some (ra, record) =>
                  (inl ra,
                   if String.eqb (getInstanceID (bc_elems s) (se_insElem record)) (aq_DesignateInstanceID q) then q
                   else set_session "" (aq_SessionTTL q) (aq_Concurrency q) q, s)
              | None =>
                  match bindThdWithSession (ch_pick c) self a (aq_SessionID q) (aq_SessionTTL q) (aq_Concurrency q) s with
                  | (inr _, s) => (inr (Sentinel ErrInternal), q, s)
                  | (inl (ra, record), s) => (inl ra, q, addSession (getRecordCacheKey record s) ra record s)
                  end
              end in
            match res with
            | inr err => (inr err, q, s)
            | inl ra =>
                match acquireSessionThread (ch_pick c 0%nat) (aq_DesignateThreadID q) (aq_SessionID q) (aq_SessionTTL q)
                        (aq_SessionCtxID q) s with
                | (inr acqErr, s) =>
                    if decide (acqErr = ErrNoInsThdAvail) then
                      let '(res, s) := acquireInstanceWithOverAcqSession (ch_now c) (ch_pick c 0%nat) self ra q s in (res, q, s)
                    else (inr acqErr, q, s)
                | (res, s) => (res, q, s)
                end
            end
          else if negb (in_StatusCode (el_instance insElem) =? KernelInstanceStatusRunning)
          then (inr (Sentinel ErrDesignateInsNotAvailable), q, s)
          else
            let '(res, s) := acquireInstanceThread (ch_pick c 0%nat) (aq_DesignateThreadID q) self a s in (res, q, s)
      end
  end.

Definition acquireDefaultInstance (c : choices) (self : bool) q s : (InstanceAllocation + goError) * scheduler :=
  match iq_Front self s with
  | None => (inr (Sentinel ErrNoInsAvailable), s)
  | Some a => acquireInstanceThread (ch_pick c 0%nat) (aq_DesignateThreadID q) self a s
  end.
(** *** Releasing *)

Definition checkSelfInstance (instance : Instance) s : bool :=
  if in_Permanent instance then
    if String.eqb (in_CreateSchedulerID instance) proxyName then true
    else negb (proxyContains (in_CreateSchedulerID instance)) && bc_isFuncOwner s
  else bc_isFuncOwner s.

(** The timer and the goroutine are started when no thread of the session is out
    and they do not run already. *)
Definition startUnbindInstanceSession (self : bool) (ra : nat) s : scheduler :=
  match bc_records s !! ra with
  | None => s
  | Some record =>
      if session_idle record && negb (se_expiring record) then
        set_records (<[ra:=set_expire true (se_expireCancelCh record) (se_ctxDone record) record]> (bc_records s))
          (bc_sessionMap s) (bc_unbinders s ++ [mkUnbinder self ra UbSelect]) s
      else s
  end.

Definition releaseInstanceThreadWithSession (self : bool) (insAlloc : InstanceAllocation) s
    : option goError * scheduler :=
  let sessionCtxID :=
    if fs_EnableSessionCtx (bc_funcSpec s) then default "" (in_SessionCtxID (al_Instance insAlloc)) else "" in
  match getSession (getSessionCacheKey (al_SessionID insAlloc) sessionCtxID s) s with
  | None => (Some (Sentinel ErrInternal), s)
  | Some (ra, record) =>
      if decide (al_AllocationID insAlloc ∈ se_overAcqThdMap record) then
        let record := set_thds (se_availThdMap record) (se_allocThdMap record)
                        (se_overAcqThdMap record ∖ {[al_AllocationID insAlloc]}) record in
        let s := startUnbindInstanceSession self ra (set_record ra record s) in
        (if negb (fs_EnableAgentSession (bc_funcSpec s)) then Some ErrInsThdNotExist else None, s)
      else
        match MarkThreadAsAvailable (al_AllocationID insAlloc) record with
        | None => (Some ErrInsThdNotExist, s)
        | Some record => (None, startUnbindInstanceSession self ra (set_record ra record s))
        end
  end.

Definition releaseInstanceInternal (self : bool) (insAlloc : InstanceAllocation) s : option goError * scheduler :=
  match iq_GetByID self (in_InstanceID (al_Instance insAlloc)) s with
  | None => (Some (Sentinel ErrInsNotExist), s)
  | Some a =>
      let '(err, releaseInSession, s) :=
        if negb (String.eqb (al_SessionID insAlloc) "") then
          match releaseInstanceThreadWithSession self insAlloc s with
          | (None, s) => (None, true, s)
          | (Some err, s) => (if decide (err = ErrInsThdNotExist) then None else Some err, false, s)
          end
        else (None, false, s) in
      match err with
      | Some err => (Some err, s)
      | None =>
          let s := if releaseInSession then s
                   else set_elems (alter (PutThreadToThreadMap (al_AllocationID insAlloc)) a (bc_elems s)) s in
          iq_UpdateObjByID self (in_InstanceID (al_Instance insAlloc)) a s
      end
  end.

Definition ReleaseInstance (insAlloc : InstanceAllocation) s : option goError * scheduler :=
  releaseInstanceInternal (checkSelfInstance (al_Instance insAlloc) s) insAlloc s.

(** *** Acquiring *)

(** [leaseErr]: what [CreateInstanceLease] returns for the allocation. *)
Definition acquireInstanceInternal (c : choices) (leaseErr : option goError) (self : bool) q s
    : (InstanceAllocation + goError) * scheduler :=
  let '(res, s) :=
    if negb (String.eqb (aq_DesignateInstanceID q) "") then
      let '(res, q, s) := acquireDesignateInstance c self q s in
      match res with
      | inr err =>
          if bool_decide (err = Sentinel ErrInsNotExist) && negb (String.eqb (aq_SessionID q) "")
          then acquireSessionInstance c self (set_designate "" q) s
          else (inr err, s)
      | ok => (ok, s)
      end
    else if negb (String.eqb (aq_SessionID q) "") then acquireSessionInstance c self q s
    else acquireDefaultInstance c self q s in
  match res with
  | inr err => (inr err, s)
  | inl insAlloc =>
      match leaseErr with
      | Some err => (inr err, snd (releaseInstanceInternal self insAlloc s))
      | None => (inl insAlloc, s)
      end
  end.

Definition noNeedQuerySession q : bool :=
  negb (String.eqb (aq_DesignateInstanceID q) "") || String.eqb (aq_SessionID q) "".

Definition peekLocalSession (sessionKey : string) q s : bool * InstanceAcquireRequest :=
  match getSession sessionKey s with
  | Some (_, record) => (true, set_designate (getInstanceID (bc_elems s) (se_insElem record)) q)
  | None => (false, q)
  end.

Definition applyStoreDesignate (sessionKey : string) (storeRecord : option StoreRecord) q s : InstanceAcquireRequest :=
  let '(hit, q) := peekLocalSession sessionKey q s in
  if hit then q else
  match storeRecord with
  | None => q
  | Some record =>
      set_session (aq_SessionID q) (aq_SessionTTL q) (sr_Concurrency record) (set_designate (sr_InstanceID record) q)
  end.

Definition routeDesignateInstance (useSelfInstance : bool) q s : bool :=
  if String.eqb (aq_DesignateInstanceID q) "" then useSelfInstance
  else if decide (is_Some (iq_GetByID true (aq_DesignateInstanceID q) s)) then true
  else if decide (is_Some (iq_GetByID false (aq_DesignateInstanceID q) s)) then false
  else useSelfInstance.

(** The phase under the lock before the store is asked: whether the local map
    has the session, and the request with its instance designated. *)
Definition resolve_peek q s : bool * InstanceAcquireRequest :=
  if noNeedQuerySession q then (false, q)
  else peekLocalSession (getSessionCacheKey (aq_SessionID q) (aq_SessionCtxID q) s) q s.

(** The phase under the lock after it: [q0] the request that came, [q] as the
    first phase left it, [sessionKey] the key computed there. *)
Definition resolve_acquire (c : choices) (leaseErr : option goError) (sessionKey : string)
    (storeRecord : option StoreRecord) (q0 : InstanceAcquireRequest) (localHit : bool) q s
    : (InstanceAllocation + goError) * scheduler :=
  let q := if negb (noNeedQuerySession q0) && negb localHit then applyStoreDesignate sessionKey storeRecord q s else q in
  let useSelfInstance := routeDesignateInstance (bc_isFuncOwner s || aq_TrafficLimited q) q s in
  acquireInstanceInternal c leaseErr useSelfInstance q s.

(** Both, with nothing between them. *)
Definition AcquireInstance (c : choices) (leaseErr : option goError) (storeRecord : option StoreRecord) q s
    : (InstanceAllocation + goError) * scheduler :=
  let '(localHit, q') := resolve_peek q s in
  resolve_acquire c leaseErr (getSessionCacheKey (aq_SessionID q) (aq_SessionCtxID q) s) storeRecord q localHit q' s.

(** *** Unbinding idle sessions *)

(** The two branches of the goroutine's select. *)
Definition unbind_fired (g : nat) s : option scheduler :=
  match bc_unbinders s !! g with
  | Some (mkUnbinder self ra UbSelect) =>
      Some (set_records (bc_records s) (bc_sessionMap s) (<[g:=mkUnbinder self ra UbFired]> (bc_unbinders s)) s)
  | _ => None
  end.
Definition unbind_cancelled (g : nat) s : option scheduler :=
  match bc_unbinders s !! g with
  | Some (mkUnbinder self ra UbSelect) =>
      match bc_records s !! ra with
      | Some record =>
          match se_expireCancelCh record with
          | O => None
          | S n =>
              Some (set_records (<[ra:=set_expire (se_expiring record) n (se_ctxDone record) record]> (bc_records s))
                      (bc_sessionMap s) (<[g:=mkUnbinder self ra UbCancelled]> (bc_unbinders s)) s)
          end
      | None => None
      end
  | _ => None
  end.
(** Without the lock. *)
Definition unbind_reset (g : nat) s : option scheduler :=
  match bc_unbinders s !! g with
  | Some (mkUnbinder self ra UbCancelled) =>
      match bc_records s !! ra with
      | Some record =>
          Some (set_records (<[ra:=set_expire false (se_expireCancelCh record) (se_ctxDone record) record]> (bc_records s))
                  (bc_sessionMap s) (<[g:=mkUnbinder self ra UbDone]> (bc_unbinders s)) s)
      | None => None
      end
  | _ => None
  end.

(** The threads of the record go back to the instance. *)
Definition give_back (order : list string) (e : instanceElement) : instanceElement :=
  fold_left (fun e threadID => PutThreadToThreadMap threadID e) order e.

(** With the lock, after the timer: what it does, or that it blocks on the
    channel with the lock in its hand. *)
Inductive unbind_result := UnbindBlocked | UnbindNext (s : scheduler).
Definition unbind_locked (order : list string) (g : nat) s : option unbind_result :=
  match bc_unbinders s !! g with
  | Some (mkUnbinder self ra UbFired) =>
      match bc_records s !! ra with
      | Some record =>
          let finished := <[g:=mkUnbinder self ra UbDone]> (bc_unbinders s) in
          if negb (session_idle record) then
            match se_expireCancelCh record with
            | O => Some UnbindBlocked
            | S n =>
                Some (UnbindNext (set_records (<[ra:=set_expire false n (se_ctxDone record) record]> (bc_records s))
                                    (bc_sessionMap s) finished s))
            end
          else
            let record := set_expire (se_expiring record) (se_expireCancelCh record) true record in
            let a := se_insElem record in
            let id := getInstanceID (bc_elems s) a in
            let s := set_records (<[ra:=record]> (bc_records s)) (bc_sessionMap s) finished s in
            let s := match iq_GetByID self id s with
                     | Some _ => set_elems (alter (give_back order) a (bc_elems s)) s
                     | None => s
                     end in
            let s := delSession (getRecordCacheKey record s) s in
            Some (UnbindNext (snd (iq_UpdateObjByID self id a s)))
      | None => None
      end
  | _ => None
  end.

(** *** Instances *)

(** [forward] pops at the front; the caller's [wait] is over when this runs. *)
Definition popInstanceElement (order : list string) (forward : bool) (shouldPop : option (instanceElement -> bool)) s
    : option nat * scheduler :=
  match obs_PopSubHealth (bc_elems s) order (bc_self s) with
  | (Some a, pubs, o) => (Some a, publishInsThdEvents pubs (set_queues o (bc_other s) (bc_pubCopy s) s))
  | (None, _, _) =>
      match (if forward then rec_Front (obs_rec (bc_self s)) else rec_Back (obs_rec (bc_self s))) with
      | None => (None, s)
      | Some a =>
          let go := match shouldPop, bc_elems s !! a with Some f, Some e => f e | _, _ => true end in
          if negb go then (None, s) else
          let '(_, pubs, o) := if forward then obs_PopFront (bc_elems s) (bc_self s)
                               else obs_PopBack (bc_elems s) (bc_self s) in
          (Some a, publishInsThdEvents pubs (set_queues o (bc_other s) (bc_pubCopy s) s))
      end
  end.

Definition shouldPopScaledInstance (e : instanceElement) : bool := threads e =? in_ConcurrentNum (el_instance e).
Definition reserved_PopInstance (order : list string) s : option nat * scheduler := popInstanceElement order true None s.
Definition scaled_PopInstance (order : list string) (force : bool) s : option nat * scheduler :=
  popInstanceElement order false (if force then None else Some shouldPopScaledInstance) s.

Definition newElem (prefix : string) (instance : Instance) s : instanceElement :=
  initThreadMap prefix
    (mkElem instance 0 "" (String.eqb (in_FuncSig instance) (fs_FuncMetaSignature (bc_funcSpec s)))
       (checkInstancePriorityAZ instance (fs_PriorityAZ (bc_funcSpec s))) ∅).

Definition push_new (prefix : string) (self : bool) (instance : Instance) s : option goError * scheduler :=
  let a := length (bc_elems s) in
  iq_PushBack self a (set_elems (bc_elems s ++ [newElem prefix instance s]) s).

Definition AddInstance (prefix : string) (instance : Instance) s : option goError * scheduler :=
  push_new prefix (checkSelfInstance instance s) instance s.

(** The instance's leases are dropped by the lease manager. *)
Definition DelInstance (instance : Instance) s : option goError * scheduler :=
  iq_DelByID (checkSelfInstance instance s) (in_InstanceID instance) s.

Definition HandleInstanceUpdate (prefix : string) (instance : Instance) s : scheduler :=
  let self := checkSelfInstance instance s in
  match iq_GetByID self (in_InstanceID instance) s with
  | None => snd (push_new prefix self instance s)
  | Some a =>
      match bc_elems s !! a with
      | None => s
      | Some e =>
          let e := mkElem instance (el_threadIndex e) (el_threadIDPrefix e)
                     (String.eqb (in_FuncSig instance) (fs_FuncMetaSignature (bc_funcSpec s)))
                     (checkInstancePriorityAZ instance (fs_PriorityAZ (bc_funcSpec s))) (el_threadMap e) in
          snd (iq_UpdateObjByID self (in_InstanceID instance) a (set_elem a e s))
      end
  end.

Definition GetInstanceNumber (onlySelf : bool) s : nat :=
  let insNum := rec_Len (obs_rec (bc_self s)) in
  if negb onlySelf then (insNum + rec_Len (bc_other s))%nat else insNum.

(** *** The function's specification *)

(** The element as the specification wants it, if that is a change. *)
Definition refresh_elem (fs : funcSpec) (e : instanceElement) : option instanceElement :=
  let isNew := String.eqb (in_FuncSig (el_instance e)) (fs_FuncMetaSignature fs) in
  let isAZ := checkInstancePriorityAZ (el_instance e) (fs_PriorityAZ fs) in
  if Bool.eqb (el_isNewInstance e) isNew && Bool.eqb (el_isPriorityAZ e) isAZ then None
  else Some (mkElem (el_instance e) (el_threadIndex e) (el_threadIDPrefix e) isNew isAZ (el_threadMap e)).

(** The range marks the elements, then the changed ones are updated, in the
    order [order] of a map. *)
Definition handleFuncSpecUpdate (so eo order : list string) (self : bool) (fs : funcSpec) s : scheduler :=
  let '(_, (es, needUpdate)) :=
    rec_Range so eo (fun a '(es, need) =>
      match es !! a with
      | Some e => match refresh_elem fs e with
                  | Some e => (true, (<[a:=e]> es, <[in_InstanceID (el_instance e):=a]> need))
                  | None => (true, (es, need))
                  end
      | None => (true, (es, need))
      end) (iq_rec self s) (bc_elems s, (∅ : gmap string nat)) in
  fold_left (fun s id => match needUpdate !! id with
                         | Some a => snd (iq_UpdateObjByID self id a s)
                         | None => s
                         end) order (set_elems es s).

(** The orders of the two queues. *)
Definition HandleFuncSpecUpdate (o1 o2 : list string * list string * list string) (fs : funcSpec) s : scheduler :=
  let s := set_config fs (bc_concurrentNum s) (bc_isFuncOwner s) (bc_stopped s) s in
  let '(so, eo, order) := o1 in
  let s := handleFuncSpecUpdate so eo order true fs s in
  let '(so, eo, order) := o2 in
  handleFuncSpecUpdate so eo order false fs s.

Definition GetConcurrentNum (concurrentNum : Z) : Z := if concurrentNum =? 0 then 1 else concurrentNum.

Definition reserved_HandleFuncSpecUpdate o1 o2 (fs : funcSpec) (concurrentNum : Z) s : scheduler :=
  HandleFuncSpecUpdate o1 o2 fs
    (set_config (bc_funcSpec s) (GetConcurrentNum concurrentNum) (bc_isFuncOwner s) (bc_stopped s) s).

(** [q0]: a new queue for the new concurrency. *)
Definition scaled_HandleFuncSpecUpdate (q0 : Q) o1 o2 (fs : funcSpec) (concurrentNum : Z) s : scheduler :=
  let concurrentNum := GetConcurrentNum concurrentNum in
  let s :=
    if negb (bc_concurrentNum s =? concurrentNum) then
      set_queues (mkObs (mkRec q0 ∅ ∅) ∅) (mkRec q0 ∅ ∅) false
        (set_config (bc_funcSpec s) concurrentNum (bc_isFuncOwner s) (bc_stopped s) s)
    else s in
  HandleFuncSpecUpdate o1 o2 fs s.

(** *** Ownership *)

(** The range of [reassignQueues]: pushes into the other queue and remembers what
    is to leave. *)
Definition reassignQueues (so eo : list string) (srcSelf : bool) s : scheduler :=
  let '(_, (s', reassignList)) :=
    rec_Range so eo (fun a '(s, l) =>
      match bc_elems s !! a with
      | None => (true, (s, l))
      | Some e =>
          if in_StatusCode (el_instance e) =? KernelInstanceStatusEvicting
          then (true, (snd (iq_PushBack (negb srcSelf) a s), l))
          else if Bool.eqb (checkSelfInstance (el_instance e) s) srcSelf then (true, (s, l))
          else (true, (snd (iq_PushBack (negb srcSelf) a s), l ++ [in_InstanceID (el_instance e)]))
      end) (iq_rec srcSelf s) (s, []) in
  fold_left (fun s id => snd (iq_DelByID srcSelf id s)) reassignList s'.

Definition HandleFuncOwnerUpdate (so eo : list string) (isFuncOwner : bool) s : scheduler :=
  let isOwnerBefore := bc_isFuncOwner s in
  let s := set_config (bc_funcSpec s) (bc_concurrentNum s) isFuncOwner (bc_stopped s) s in
  if Bool.eqb isOwnerBefore isFuncOwner then s
  else reassignQueues so eo isOwnerBefore s.

(** *** The end *)

(** The session store's worker and the leases are stopped with it. *)
Definition Destroy s : scheduler :=
  set_config (bc_funcSpec s) (bc_concurrentNum s) (bc_isFuncOwner s) true s.

Definition newBasicConcurrencyScheduler (q0 : Q) (fs : funcSpec) (concurrentNum leaseSpan : Z) (isFuncOwner : bool)
    : scheduler :=
  let leaseInterval := leaseSpan * Millisecond in
  let leaseInterval := if leaseInterval <? 500 * Millisecond then 500 * Millisecond else leaseInterval in
  mkScheduler fs [] (mkObs (mkRec q0 ∅ ∅) ∅) (mkRec q0 ∅ ∅) [] ∅ [] (GetConcurrentNum concurrentNum) isFuncOwner
    false true [] leaseInterval [].
End Scheduler.
Arguments scheduler : clear implicits.
