(* ===== verification/ConcInv.v ===== *)
(** * Sessions and the goroutines that unbind them

    A session that no thread is out of is given back after its time to live, by a
    goroutine that waits for a timer or for a token in the session's channel of
    capacity one.  When the timer fires and the session is in use again, the
    goroutine takes that token with the scheduler's lock in its hand.  This file
    shows that the token is always there. *)
From S2P Require Import Prelude GoStrings SchedErrors SessionStore LiteAlloc DeHeap InsQueue ObsQueue ConcSched.

(** ** Session keys *)

(** Not empty, and not beginning with the separator. *)
Definition plain (key : string) : Prop := match key with EmptyString => False | String c _ => c <> Ascii.zero end.

(** The hypothesis and the goal speak of the parts of the same triple. *)
Ltac open_triple Ht := revert Ht; match goal with |- match ?X with _ => _ end -> _ => destruct X as [[? ?] ?] end.

Section Inv.
Context {Q : Type} `{InsQueueLaws Q}.
Notation sched := (scheduler Q).
Implicit Types (s : sched) (r : sessionRecord).

Lemma plain_key id ctx s : plain id -> plain (getSessionCacheKey id ctx s).
Proof.
  unfold getSessionCacheKey. destruct (negb _); [done|]. destruct id as [|c id]; [done|]. done.
Qed.

Lemma plain_empty ctx s : ~ plain (getSessionCacheKey "" ctx s).
Proof. unfold getSessionCacheKey. destruct (negb _); simpl; [tauto|]. intros Hc. by apply Hc. Qed.

(** ** What an operation does to the records *)

(** What is done to a record while its goroutine may wait: threads go out only
    with a token sent. *)
Record quiet r r' : Prop := {
  qu_expiring : se_expiring r' = se_expiring r;
  qu_token : (1 <= se_expireCancelCh r -> 1 <= se_expireCancelCh r')%nat;
  qu_idle : se_expiring r = true -> session_idle r = true ->
            session_idle r' = true \/ (1 <= se_expireCancelCh r')%nat;
  qu_avail : se_availThdMap r ⊆ se_allocThdMap r -> se_availThdMap r' ⊆ se_allocThdMap r' }.

Lemma quiet_refl r : quiet r r.
Proof. split; auto. Qed.
Lemma quiet_trans r r' r'' : quiet r r' -> quiet r' r'' -> quiet r r''.
Proof.
  intros [H1 H2 H3 H4] [H1' H2' H3' H4']. split; [congruence|auto| |auto].
  intros He Hi. destruct (H3 He Hi) as [Hi'|Ht]; [apply H3'; [congruence|done]|auto].
Qed.

(** The goroutines are left alone, the records change quietly, and new ones are
    not expiring. *)
Record evolve s s' : Prop := {
  ev_unbinders : bc_unbinders s' = bc_unbinders s;
  ev_old : forall ra r, bc_records s !! ra = Some r -> exists r', bc_records s' !! ra = Some r' /\ quiet r r';
  ev_new : forall ra r', bc_records s' !! ra = Some r' -> bc_records s !! ra = None ->
           se_availThdMap r' ⊆ se_allocThdMap r';
  ev_keys : forall k ra, bc_sessionMap s' !! k = Some ra -> bc_sessionMap s !! k = Some ra \/ plain k }.

Lemma evolve_refl s : evolve s s.
Proof.
  split; [done| |congruence|auto]. intros ra r Hr. exists r. split; [done|apply quiet_refl].
Qed.
Lemma evolve_trans s s' s'' : evolve s s' -> evolve s' s'' -> evolve s s''.
Proof.
  intros [H1 H2 H3 H4] [H1' H2' H3' H4']. split; [congruence| | |].
  - intros ra r Hr. destruct (H2 ra r Hr) as (r' & Hr' & Hq). destruct (H2' ra r' Hr') as (r'' & Hr'' & Hq').
    exists r''. split; [done|]. by eapply quiet_trans.
  - intros ra r'' Hr'' Hn. destruct (bc_records s' !! ra) as [r'|] eqn:Hr'.
    + destruct (H2' ra r' Hr') as (x & Hx & Hq). simplify_eq. apply Hq. by apply (H3 ra).
    + by apply (H3' ra).
  - intros k ra Hk. destruct (H4' k ra Hk) as [Hk'|]; auto.
Qed.

(** Nothing changes for the sessions. *)
Definition same_sessions s s' : Prop :=
  (bc_records s', bc_sessionMap s', bc_unbinders s') = (bc_records s, bc_sessionMap s, bc_unbinders s).

Lemma same_evolve s s' : same_sessions s s' -> evolve s s'.
Proof.
  intros [= Hr Hm Hu]. split; [done| | |]; intros *; rewrite ?Hr, ?Hm; [|congruence|auto].
  intros Hl. eexists. split; [done|apply quiet_refl].
Qed.
Lemma same_trans s s' s'' : same_sessions s s' -> same_sessions s' s'' -> same_sessions s s''.
Proof. unfold same_sessions. congruence. Qed.

(** *** The queues do not touch the sessions *)

Lemma publish_same pubs s : same_sessions s (publishInsThdEvents pubs s).
Proof. unfold publishInsThdEvents. by destruct (pub_stopped s). Qed.

Lemma PushBack_same self a s : same_sessions s (snd (iq_PushBack self a s)).
Proof.
  unfold iq_PushBack. destruct self.
  - destruct (obs_PushBack _ _ _) as [[err pubs] o]. simpl. by eapply same_trans, publish_same.
  - by destruct (rec_PushBack _ _ _) as [err i].
Qed.
Lemma DelByID_same self id s : same_sessions s (snd (iq_DelByID self id s)).
Proof.
  unfold iq_DelByID. destruct self.
  - destruct (obs_DelByID _ _ _) as [[err pubs] o]. simpl. by eapply same_trans, publish_same.
  - by destruct (rec_DelByID _ _ _) as [err i].
Qed.
Lemma Update_same self id a s : same_sessions s (snd (iq_UpdateObjByID self id a s)).
Proof.
  unfold iq_UpdateObjByID. destruct self.
  - destruct (obs_UpdateObjByID _ _ _ _) as [[err pubs] o]. simpl. by eapply same_trans, publish_same.
  - by destruct (rec_UpdateObjByID _ _ _ _) as [err i].
Qed.
Lemma Update_spec self id a s : bc_funcSpec (snd (iq_UpdateObjByID self id a s)) = bc_funcSpec s.
Proof.
  unfold iq_UpdateObjByID, publishInsThdEvents. destruct self.
  - destruct (obs_UpdateObjByID _ _ _ _) as [[err pubs] o]. simpl. by destruct (pub_stopped _).
  - by destruct (rec_UpdateObjByID _ _ _ _) as [err i].
Qed.

Lemma push_new_same prefix self instance s : same_sessions s (snd (push_new prefix self instance s)).
Proof. unfold push_new. eapply same_trans, PushBack_same. done. Qed.

Lemma HandleInstanceUpdate_same proxyName proxyContains prefix instance s :
  same_sessions s (HandleInstanceUpdate proxyName proxyContains prefix instance s).
Proof.
  unfold HandleInstanceUpdate. destruct (iq_GetByID _ _ s) as [a|]; [|apply push_new_same].
  destruct (bc_elems s !! a); [|done]. eapply same_trans, Update_same. done.
Qed.

Lemma popInstanceElement_same order forward shouldPop s :
  same_sessions s (snd (popInstanceElement order forward shouldPop s)).
Proof.
  unfold popInstanceElement. destruct (obs_PopSubHealth _ _ _) as [[[a|] pubs] o]; simpl.
  { by eapply same_trans, publish_same. }
  destruct (if forward then _ else _) as [a|]; [|done].
  destruct (negb _); [done|]. destruct (if forward then _ else _) as [[x pubs'] o']. simpl.
  by eapply same_trans, publish_same.
Qed.

Lemma fold_same {A} (f : sched -> A -> sched) l s :
  (forall s x, same_sessions s (f s x)) -> same_sessions s (fold_left f l s).
Proof. intros Hf. revert s. induction l as [|x l IH]; intros s; [done|]. eapply same_trans, IH. apply Hf. Qed.

(** A property that the function keeps holds after the range. *)
Lemma range_list_inv {S} (P : S -> Prop) (f : nat -> S -> bool * S) l st :
  (forall a st, P st -> P (snd (f a st))) -> P st -> P (snd (range_list f l st)).
Proof.
  intros Hf. revert st. induction l as [|a l IH]; intros st Hst; simpl; [done|].
  pose proof (Hf a st Hst) as Hst'. destruct (f a st) as [[] st']; [by apply IH|done].
Qed.
Lemma rec_Range_inv {S} (P : S -> Prop) so eo (f : nat -> S -> bool * S) i st :
  (forall a st, P st -> P (snd (f a st))) -> P st -> P (snd (rec_Range so eo f i st)).
Proof.
  intros Hf Hst. unfold rec_Range. destruct (q_range_ok (rec_instanceQueue i)) as (l & _ & Hl). rewrite Hl.
  pose proof (range_list_inv P f l st Hf Hst) as Hst'. destruct (range_list f l st) as [[] st']; simpl; [|done].
  by apply range_list_inv.
Qed.

Lemma handleFuncSpecUpdate_same so eo order self fs s :
  same_sessions s (handleFuncSpecUpdate so eo order self fs s).
Proof.
  unfold handleFuncSpecUpdate. destruct (rec_Range _ _ _ _ _) as [? [es need]].
  eapply same_trans; [|apply fold_same]; [done|]. intros s' id. destruct (need !! id); [apply Update_same|done].
Qed.
Lemma HandleFuncSpecUpdate_same o1 o2 fs s : same_sessions s (HandleFuncSpecUpdate o1 o2 fs s).
Proof.
  unfold HandleFuncSpecUpdate. destruct o1 as [[? ?] ?], o2 as [[? ?] ?].
  eapply same_trans, handleFuncSpecUpdate_same. eapply same_trans, handleFuncSpecUpdate_same. done.
Qed.
Lemma scaled_HandleFuncSpecUpdate_same q0 o1 o2 fs n s :
  same_sessions s (scaled_HandleFuncSpecUpdate q0 o1 o2 fs n s).
Proof. unfold scaled_HandleFuncSpecUpdate. eapply same_trans, HandleFuncSpecUpdate_same. by destruct (negb _). Qed.

Lemma reassignQueues_same proxyName proxyContains so eo src s : same_sessions s (reassignQueues proxyName proxyContains so eo src s).
Proof.
  unfold reassignQueues.
  match goal with |- context [rec_Range so eo ?f ?i ?st] =>
    pose proof (rec_Range_inv (fun p => same_sessions s p.1) so eo f i st) as Hr;
    destruct (rec_Range so eo f i st) as [? [s' l]] end.
  simpl in Hr. eapply same_trans; [apply Hr; [|done]|apply fold_same; intros; apply DelByID_same].
  clear. intros a [st l] Hst. simpl in *. destruct (bc_elems st !! a) as [e|]; [|done].
  repeat case_match; simpl; try done; eapply same_trans; by eauto using PushBack_same.
Qed.

(** ** Acquiring is quiet *)

Lemma getSession_Some key s ra r :
  getSession key s = Some (ra, r) -> bc_sessionMap s !! key = Some ra /\ bc_records s !! ra = Some r.
Proof.
  unfold getSession. destruct (bc_sessionMap s !! key) as [ra'|]; [|done]. simpl.
  destruct (bc_records s !! ra') as [r'|] eqn:Hr; [|done]. intros [= -> ->]. done.
Qed.

Lemma set_record_evolve ra r r' s : bc_records s !! ra = Some r -> quiet r r' -> evolve s (set_record ra r' s).
Proof.
  intros Hr Hq. split; simpl; [done| | |auto].
  - intros ra0 r0 Hr0. destruct (decide (ra0 = ra)) as [->|Hne].
    + simplify_eq. exists r'. rewrite list_lookup_insert_eq by (by eapply lookup_lt_Some). done.
    + exists r0. rewrite list_lookup_insert_ne by done. split; [done|apply quiet_refl].
  - intros ra0 r0 Hr0 Hn. apply lookup_lt_Some in Hr0. rewrite length_insert in Hr0.
    apply lookup_ge_None in Hn. lia.
Qed.
Lemma set_record_lookup ra r r' s : bc_records s !! ra = Some r -> bc_records (set_record ra r' s) !! ra = Some r'.
Proof. intros Hr. apply list_lookup_insert_eq. by eapply lookup_lt_Some. Qed.

Lemma addSession_evolve schedulerID key ra r s : plain key -> evolve s (addSession schedulerID key ra r s).
Proof.
  intros Hk. split; simpl; [done| |congruence|].
  - intros ra0 r0 Hr0. exists r0. split; [done|apply quiet_refl].
  - intros k ra' [[<- <-]|[_ Hk']]%lookup_insert_Some; auto.
Qed.
Lemma delete_evolve key s : evolve s (deleteLocalSession key s).
Proof.
  split; simpl; [done| |congruence|].
  - intros ra0 r0 Hr0. exists r0. split; [done|apply quiet_refl].
  - intros k ra [_ Hk]%lookup_delete_Some. auto.
Qed.

(** A token has been sent if there is someone to take it. *)
Definition sent r : Prop := se_expiring r = true -> (1 <= se_expireCancelCh r)%nat.

Lemma sent_quiet r avail alloc over :
  sent r -> (se_availThdMap r ⊆ se_allocThdMap r -> avail ⊆ alloc) -> quiet r (set_thds avail alloc over r).
Proof. intros Hs Ha. split; simpl; auto. Qed.

Lemma GetOrReplace_quiet choice d r t r' :
  GetOrReplaceDesignateThreadFromAvailThdMap choice d r = Some (t, r') -> sent r -> quiet r r'.
Proof.
  unfold GetOrReplaceDesignateThreadFromAvailThdMap, GetThreadFromAvailThdMap. intros Hg Hs.
  repeat case_match; simplify_eq; (split; simpl; [done|done|auto|set_solver]).
Qed.

Lemma acquireSessionThread_ok schedulerID choice d sid ttl ctx s res s' :
  acquireSessionThread schedulerID choice d sid ttl ctx s = (res, s') ->
  evolve s s' /\ bc_funcSpec s' = bc_funcSpec s /\ bc_sessionMap s' = bc_sessionMap s /\
  (forall ra r', bc_sessionMap s !! getSessionCacheKey sid ctx s = Some ra -> bc_records s' !! ra = Some r' -> sent r').
Proof.
  unfold acquireSessionThread. destruct (getSession _ s) as [[ra r]|] eqn:Hg.
  2: { intros [= <- <-]. split_and!; try done; [apply evolve_refl|]. unfold getSession in Hg. intros ra r' Hm Hr.
       rewrite Hm in Hg. simpl in Hg. by rewrite Hr in Hg. }
  apply getSession_Some in Hg as [Hm Hr]. rewrite Hm. set (r1 := if se_expiring r then _ else r).
  set (r2 := set_ttl _ r1). set (s1 := if negb _ then _ else _).
  assert (sent r2 /\ quiet r r2) as [Hsent Hq].
  { subst r2 r1. unfold sent. destruct (se_expiring r) eqn:He; simpl; (split; [auto with lia || congruence|]);
      split; simpl; auto with lia. }
  assert (evolve s s1 /\ bc_funcSpec s1 = bc_funcSpec s /\ bc_sessionMap s1 = bc_sessionMap s /\
          bc_records s1 !! ra = Some r2) as (Hev & Hfs & Hsm & Hr2).
  { assert (same_sessions (set_record ra r2 s) s1 /\ bc_funcSpec s1 = bc_funcSpec s) as [Hsame H4]
      by (subst s1; by destruct (negb _)).
    pose proof Hsame as [= H1 H2 _]. rewrite H1, H2. split_and!; try done; [|by eapply set_record_lookup].
    eapply evolve_trans; [by eapply set_record_evolve|]. by apply same_evolve. }
  intros Hres. destruct (decide (se_availThdMap r2 = ∅)).
  { simplify_eq. split_and!; try done. intros ra' r' [= <-] Hr'. by simplify_eq. }
  destruct (GetOrReplaceDesignateThreadFromAvailThdMap choice d r2) as [[t r3]|] eqn:Hget.
  2: { simplify_eq. split_and!; try done. intros ra' r' [= <-] Hr'. by simplify_eq. }
  destruct (bc_elems s1 !! se_insElem r3); simplify_eq.
  2: { split_and!; try done. intros ra' r' [= <-] Hr'. by simplify_eq. }
  pose proof (GetOrReplace_quiet _ _ _ _ _ Hget Hsent) as Hq3.
  split_and!; try done; [eapply evolve_trans; [done|by eapply set_record_evolve]|].
  intros ra' r' [= <-]. erewrite set_record_lookup by done. intros [= <-] He. apply Hq3, Hsent. by rewrite <- (qu_expiring _ _ Hq3).
Qed.

Lemma acquireInstanceThread_same choice d self a s :
  same_sessions s (snd (acquireInstanceThread choice d self a s)).
Proof.
  unfold acquireInstanceThread. destruct (bc_elems s !! a) as [e|]; [|done]. destruct (_ && _); [done|].
  destruct (GetThreadFromThreadMap _ e) as [t e'].
  pose proof (Update_same self (in_InstanceID (el_instance e')) a (set_elem a e' s)) as Hu.
  destruct (iq_UpdateObjByID _ _ _ _) as [[err|] s']; simpl in *; by eapply same_trans.
Qed.

Lemma bind_loop_record choices n e r :
  let r' := (bind_loop choices n e r).2 in
  (se_availThdMap r = se_allocThdMap r -> se_availThdMap r' = se_allocThdMap r') /\
  r' = set_thds (se_availThdMap r') (se_allocThdMap r') (se_overAcqThdMap r) r.
Proof.
  revert e r. induction n as [|n IH]; intros e r; [by destruct r|]. cbn [bind_loop].
  destruct (GetThreadFromThreadMap _ e) as [t e']. cbv zeta. set (r1 := default _ _).
  assert (r1 = set_thds ({[t]} ∪ se_availThdMap r) ({[t]} ∪ se_allocThdMap r) (se_overAcqThdMap r) r) as ->.
  { subst r1. unfold MarkThreadAsAvailable. rewrite decide_True by (simpl; set_solver). done. }
  destruct (IH e' (set_thds ({[t]} ∪ se_availThdMap r) ({[t]} ∪ se_allocThdMap r) (se_overAcqThdMap r) r)) as [Ha Heq].
  split; [intros Hav; apply Ha; simpl; congruence|]. exact Heq.
Qed.

(** The record is new, all its threads are there and it has no goroutine; it has
    the context of the instance where contexts are used. *)
Definition fresh_record sid (a : nat) s r : Prop :=
  se_availThdMap r = se_allocThdMap r /\ se_overAcqThdMap r = ∅ /\ se_expiring r = false /\ se_sessionID r = sid /\
  se_sessionCtxID r = if fs_EnableSessionCtx (bc_funcSpec s)
                      then default "" (e ← bc_elems s !! a; in_SessionCtxID (el_instance e)) else "".

Lemma bindThdWithSession_ok ch self a sid ttl conc s res s' :
  bindThdWithSession ch self a sid ttl conc s = (res, s') ->
  evolve s s' /\ bc_sessionMap s' = bc_sessionMap s /\ bc_funcSpec s' = bc_funcSpec s /\
  match res with
  | inl (ra, r) => bc_records s' !! ra = Some r /\ fresh_record sid a s r
  | inr _ => bc_records s' = bc_records s
  end.
Proof.
  unfold bindThdWithSession, fresh_record. destruct (bc_elems s !! a) as [e|].
  2: { intros [= <- <-]. split_and!; try done. apply evolve_refl. }
  destruct (_ && _). { intros [= <- <-]. split_and!; try done. apply evolve_refl. }
  destruct (threads e <? _). { intros [= <- <-]. split_and!; try done. apply evolve_refl. }
  set (ctx := if fs_EnableSessionCtx _ then _ else _). set (n := if conc =? -1 then _ else conc).
  set (r0 := mkSession _ _ _ _ _ _ _ _ _ _ _). pose proof (bind_loop_record ch (Z.to_nat n) e r0) as (Ha & Heq).
  destruct (bind_loop ch (Z.to_nat n) e r0) as [e' r]. cbn [snd] in *. specialize (Ha eq_refl).
  pose proof (Update_same self (in_InstanceID (el_instance e')) a (set_elem a e' s)) as Hu.
  pose proof (Update_spec self (in_InstanceID (el_instance e')) a (set_elem a e' s)) as Hfs.
  destruct (iq_UpdateObjByID _ _ _ _) as [err s1]. cbn [snd] in *. injection Hu as Hrec Hmap Hub.
  destruct err as [err|]; intros [= <- <-].
  { split_and!; try done. by apply same_evolve; unfold same_sessions; rewrite Hrec, Hmap, Hub. }
  cbn [bc_records bc_sessionMap bc_funcSpec set_records]. rewrite Hrec.
  split_and!; try done; [|by rewrite lookup_app_r, Nat.sub_diag|by rewrite Heq..].
  split; cbn [bc_unbinders bc_records bc_sessionMap set_records]; rewrite ?Hrec, ?Hmap; [done| | |auto].
  - intros ra r1 Hr1. exists r1. split; [by apply lookup_app_l_Some|apply quiet_refl].
  - intros ra r1 [Hr1|[Hge Hr1]]%lookup_app_Some Hn; [congruence|].
    apply list_lookup_singleton_Some in Hr1 as [_ <-]. by rewrite Ha.
Qed.

Lemma createOverAcqThread_evolve now ra r q s :
  bc_records s !! ra = Some r -> sent r -> evolve s (snd (createOverAcqThread now ra r q s)).
Proof.
  intros Hr Hs. unfold createOverAcqThread. destruct (bc_elems s !! _); [|apply evolve_refl].
  eapply set_record_evolve; [done|]. by apply sent_quiet.
Qed.

Lemma overAcq_evolve now choice self ra r q s :
  bc_records s !! ra = Some r -> sent r -> evolve s (snd (acquireInstanceWithOverAcqSession now choice self ra q s)).
Proof.
  intros Hr Hs. unfold acquireInstanceWithOverAcqSession. rewrite Hr. destruct (isAgentSession q s).
  { destruct (1 <=? _)%nat; [apply evolve_refl|by apply createOverAcqThread_evolve]. }
  pose proof (acquireInstanceThread_same choice (aq_DesignateThreadID q) self (se_insElem r) s) as Hsame.
  destruct (acquireInstanceThread _ _ _ _ s) as [[al|err] s']; simpl in *; [|by apply same_evolve].
  eapply evolve_trans; [by apply same_evolve|]. injection Hsame as Hrec _ _.
  eapply set_record_evolve; [by rewrite Hrec|]. by apply sent_quiet.
Qed.

Lemma isSessionExist_evolve self q s : evolve s (snd (isSessionExist self q s)).
Proof. unfold isSessionExist. repeat case_match; simpl; auto using evolve_refl, delete_evolve. Qed.

Lemma isAgent_id q s : aq_SessionID (if isAgentSession q s then set_session (aq_SessionID q) 0 1 q else q) = aq_SessionID q.
Proof. by destruct (isAgentSession q s). Qed.

Lemma bind_add_evolve schedulerID ch self a q s ra r s' :
  plain (aq_SessionID q) ->
  bindThdWithSession ch self a (aq_SessionID q) (aq_SessionTTL q) (aq_Concurrency q) s = (inl (ra, r), s') ->
  evolve s (addSession schedulerID (getRecordCacheKey r s') ra r s').
Proof.
  intros Hp Hb. apply bindThdWithSession_ok in Hb as (Hev & _ & _ & _ & _ & _ & _ & Hid & _).
  eapply evolve_trans; [exact Hev|]. apply addSession_evolve. apply plain_key. by rewrite Hid.
Qed.

Lemma acquireSessionInstance_evolve schedulerID c self q s :
  plain (aq_SessionID q) -> evolve s (snd (acquireSessionInstance schedulerID c self q s)).
Proof.
  intros Hp. unfold acquireSessionInstance. rewrite <- (isAgent_id q s) in Hp.
  set (q1 := if isAgentSession q s then _ else q) in *. clearbody q1. clear q.
  destruct (_ <? _); [apply evolve_refl|].
  pose proof (isSessionExist_evolve self q1 s) as H1. destruct (isSessionExist self q1 s) as [bound s1]. simpl in H1.
  set (x := if bound then _ else _). assert (evolve s1 (snd x)) as H2.
  { subst x. destruct bound; [apply evolve_refl|]. destruct (select_session_instance _ _ _ _ _) as [a|]; [|apply evolve_refl].
    destruct (bindThdWithSession _ _ _ _ _ _ _) as [[[ra r]|err] s2] eqn:Hb; simpl.
    - by eapply bind_add_evolve.
    - by apply bindThdWithSession_ok in Hb as (? & _). }
  destruct x as [[err|] s2]; simpl in *; [by eapply evolve_trans|].
  eapply evolve_trans; [exact H1|]. eapply evolve_trans; [exact H2|].
  destruct (acquireSessionThread _ _ _ _ _ _ s2) as [[al|err] s3] eqn:Ha;
    apply acquireSessionThread_ok in Ha as (Hev & Hfs & Hsm & Hs); [done|].
  case_decide; [|done]. destruct (getSession _ s3) as [[ra r]|] eqn:Hg; [|done].
  apply getSession_Some in Hg as [Hm Hr]. eapply evolve_trans; [exact Hev|].
  eapply overAcq_evolve; [done|]. apply (Hs ra); [|done]. unfold getSessionCacheKey in *. by rewrite <- Hsm, <- Hfs.
Qed.

(** A session bound to another instance is not looked for by its id: the id is
    cleared. *)
Lemma empty_session_unknown schedulerID choice d ttl ctx s :
  (forall k ra, bc_sessionMap s !! k = Some ra -> plain k) ->
  acquireSessionThread schedulerID choice d "" ttl ctx s = (inr (Sentinel ErrInternal), s).
Proof.
  intros Hk. unfold acquireSessionThread, getSession.
  destruct (bc_sessionMap s !! _) as [ra|] eqn:Hm; [|done]. exfalso. by eapply plain_empty, Hk.
Qed.

(** The thread of the session, or one more than it has. *)
Lemma session_tail_evolve schedulerID c self q ra r s :
  bc_records s !! ra = Some r ->
  (bc_sessionMap s !! getSessionCacheKey (aq_SessionID q) (aq_SessionCtxID q) s = Some ra \/ se_expiring r = false) ->
  let '(_, q', s') :=
    match acquireSessionThread schedulerID (ch_pick c 0%nat) (aq_DesignateThreadID q) (aq_SessionID q)
            (aq_SessionTTL q) (aq_SessionCtxID q) s with
    | (inr acqErr, s) =>
        if decide (acqErr = ErrNoInsThdAvail) then
          let '(res, s) := acquireInstanceWithOverAcqSession (ch_now c) (ch_pick c 0%nat) self ra q s in (res, q, s)
        else (inr acqErr, q, s)
    | (res, s) => (res, q, s)
    end in evolve s s' /\ q' = q.
Proof.
  intros Hr Hk. destruct (acquireSessionThread _ _ _ _ _ _ s) as [[al|err] s'] eqn:Ha;
    apply acquireSessionThread_ok in Ha as (Hev & _ & _ & Hs); [done|].
  case_decide; [|done]. destruct (ev_old _ _ Hev ra r Hr) as (r' & Hr' & Hq).
  assert (sent r') as Hsent.
  { destruct Hk as [Hk|Hx]; [by eapply Hs|]. intros He. rewrite (qu_expiring _ _ Hq) in He. congruence. }
  pose proof (overAcq_evolve (ch_now c) (ch_pick c 0%nat) self ra r' q s' Hr' Hsent) as Ho.
  destruct (acquireInstanceWithOverAcqSession _ _ _ _ _ _) as [res s'']. split; [by eapply evolve_trans|done].
Qed.

Lemma acquireDesignateInstance_evolve schedulerID c self q s :
  (forall k ra, bc_sessionMap s !! k = Some ra -> plain k) -> aq_SessionID q = "" \/ plain (aq_SessionID q) ->
  let '(_, q', s') := acquireDesignateInstance schedulerID c self q s in
  evolve s s' /\ (aq_SessionID q' = "" \/ aq_SessionID q' = aq_SessionID q).
Proof.
  intros Hkeys Hp. unfold acquireDesignateInstance. pose proof (evolve_refl s) as Hrefl.
  destruct (iq_GetByID _ _ s) as [a|]; [|auto]. destruct (bc_elems s !! a) as [e|]; [|auto].
  destruct (_ =? KernelInstanceStatusSubHealth); [auto|]. destruct (String.eqb_spec (aq_SessionID q) "") as [Hn|Hn]; cbn [negb].
  { destruct (negb _); [auto|]. pose proof (acquireInstanceThread_same (ch_pick c 0%nat) (aq_DesignateThreadID q) self a s) as Hs.
    destruct (acquireInstanceThread _ _ _ _ s) as [res s']. split; [by apply same_evolve|auto]. }
  destruct Hp as [?|Hp]; [done|]. destruct (_ && _).
  { split; [|auto]. eapply evolve_trans; [apply delete_evolve|]. by apply same_evolve. }
  destruct (getSession _ s) as [[ra r]|] eqn:Hg.
  - apply getSession_Some in Hg as [Hm Hr]. destruct (String.eqb_spec (getInstanceID (bc_elems s) (se_insElem r)) (aq_DesignateInstanceID q)).
    + pose proof (session_tail_evolve schedulerID c self q ra r s Hr (or_introl Hm)) as Ht. cbv beta iota.
      open_triple Ht. intros [? ->]. auto.
    + cbv beta iota. cbn [aq_SessionID aq_DesignateThreadID aq_SessionTTL aq_SessionCtxID set_session].
      rewrite empty_session_unknown by done. rewrite decide_False by done. auto.
  - destruct (bindThdWithSession _ _ _ _ _ _ s) as [[[ra r]|err] s1] eqn:Hb; cbv beta iota.
    2: { apply bindThdWithSession_ok in Hb as (Hev & _). auto. }
    pose proof (bind_add_evolve schedulerID _ _ _ _ _ _ _ _ Hp Hb) as Hev.
    apply bindThdWithSession_ok in Hb as (_ & _ & _ & Hr & _ & _ & Hx & _).
    pose proof (session_tail_evolve schedulerID c self q ra r (addSession schedulerID (getRecordCacheKey r s1) ra r s1) Hr (or_intror Hx)) as Ht.
    open_triple Ht. intros [Ht ->].
    split; [by eapply evolve_trans|auto].
Qed.

(** ** The invariant *)

Definition active (u : unbinder) : Prop := ub_pc u <> UbDone.
(** Before it has taken a token. *)
Definition waiting (u : unbinder) : Prop := ub_pc u = UbSelect \/ ub_pc u = UbFired.

(** A record has one goroutine at most and is marked while it has one; while the
    goroutine has not taken a token, either no thread is out or there is one. *)
Record sess_inv s : Prop := {
  si_valid : forall g u, bc_unbinders s !! g = Some u -> is_Some (bc_records s !! ub_record u);
  si_one : forall g1 g2 u1 u2, bc_unbinders s !! g1 = Some u1 -> bc_unbinders s !! g2 = Some u2 ->
           active u1 -> active u2 -> ub_record u1 = ub_record u2 -> g1 = g2;
  si_expiring : forall g u r, bc_unbinders s !! g = Some u -> active u -> bc_records s !! ub_record u = Some r ->
           se_expiring r = true;
  si_token : forall g u r, bc_unbinders s !! g = Some u -> waiting u -> bc_records s !! ub_record u = Some r ->
           session_idle r = true \/ (1 <= se_expireCancelCh r)%nat;
  si_avail : forall ra r, bc_records s !! ra = Some r -> se_availThdMap r ⊆ se_allocThdMap r;
  si_keys : forall k ra, bc_sessionMap s !! k = Some ra -> plain k }.

Lemma waiting_active u : waiting u -> active u.
Proof. unfold waiting, active. intros [->| ->]; done. Qed.

Lemma evolve_inv s s' : evolve s s' -> sess_inv s -> sess_inv s'.
Proof.
  intros [Hu Ho Hn Hk] [I1 I2 I3 I4 I5 I6].
  assert (forall g u r', bc_unbinders s !! g = Some u -> bc_records s' !! ub_record u = Some r' ->
            exists r, bc_records s !! ub_record u = Some r /\ quiet r r') as Hback.
  { intros g u r' Hg Hr'. destruct (I1 g u Hg) as [r Hr]. destruct (Ho _ _ Hr) as (x & Hx & Hq). simplify_eq. eauto. }
  split; rewrite ?Hu.
  - intros g u Hg. destruct (I1 g u Hg) as [r Hr]. destruct (Ho _ _ Hr) as (x & Hx & Hq). eauto.
  - done.
  - intros g u r' Hg Ha Hr'. destruct (Hback g u r' Hg Hr') as (r & Hr & Hq). rewrite (qu_expiring _ _ Hq). eauto.
  - intros g u r' Hg Ha Hr'. destruct (Hback g u r' Hg Hr') as (r & Hr & Hq).
    destruct (I4 g u r Hg Ha Hr) as [Hi|Ht]; [|right; by apply Hq].
    apply Hq; [|done]. eapply I3; eauto using waiting_active.
  - intros ra r' Hr'. destruct (bc_records s !! ra) as [r|] eqn:Hr; [|eauto].
    destruct (Ho _ _ Hr) as (x & Hx & Hq). simplify_eq. apply Hq. eauto.
  - intros k ra Hm. destruct (Hk k ra Hm); eauto.
Qed.

(** One goroutine [g0] of the record [ra] starts or makes a step. *)
Lemma turn_inv s s' ra r r' g0 :
  sess_inv s -> bc_records s !! ra = Some r -> bc_records s' = <[ra:=r']> (bc_records s) ->
  (forall k a, bc_sessionMap s' !! k = Some a -> bc_sessionMap s !! k = Some a) ->
  (forall g u, bc_unbinders s' !! g = Some u -> g <> g0 ->
     bc_unbinders s !! g = Some u /\ (active u -> ub_record u <> ra)) ->
  (forall u, bc_unbinders s' !! g0 = Some u -> ub_record u = ra /\ (active u -> se_expiring r' = true) /\
     (waiting u -> session_idle r' = true \/ (1 <= se_expireCancelCh r')%nat)) ->
  se_availThdMap r' ⊆ se_allocThdMap r' -> sess_inv s'.
Proof.
  intros [I1 I2 I3 I4 I5 I6] Hr Hrec Hmap Hold Hnew Hav.
  assert (bc_records s' !! ra = Some r') as Hra by (rewrite Hrec; apply list_lookup_insert_eq; by eapply lookup_lt_Some).
  assert (forall a, a <> ra -> bc_records s' !! a = bc_records s !! a) as Hne
    by (intros a Ha; rewrite Hrec; by rewrite list_lookup_insert_ne).
  split.
  - intros g u Hg. destruct (decide (g = g0)) as [->|Hg0]; [destruct (Hnew u Hg) as [-> _]; by eexists|].
    destruct (Hold g u Hg Hg0) as [Hu _]. destruct (decide (ub_record u = ra)) as [->|Hx]; [by eexists|].
    rewrite Hne by done. eauto.
  - intros g1 g2 u1 u2 H1' H2' A1 A2 Heq.
    destruct (decide (g1 = g0)) as [->|N1], (decide (g2 = g0)) as [->|N2]; [done| | |].
    + destruct (Hold g2 u2 H2' N2) as [_ Hx]. destruct (Hnew u1 H1') as [E _]. exfalso. apply Hx; congruence.
    + destruct (Hold g1 u1 H1' N1) as [_ Hx]. destruct (Hnew u2 H2') as [E _]. exfalso. apply Hx; congruence.
    + destruct (Hold g1 u1 H1' N1) as [? _], (Hold g2 u2 H2' N2) as [? _]. by eapply I2.
  - intros g u x Hg Ha Hx. destruct (decide (g = g0)) as [->|Hg0].
    + destruct (Hnew u Hg) as (E & He & _). rewrite E in Hx. simplify_eq. auto.
    + destruct (Hold g u Hg Hg0) as [Hu Hn]. rewrite Hne in Hx by auto. eauto.
  - intros g u x Hg Ha Hx. destruct (decide (g = g0)) as [->|Hg0].
    + destruct (Hnew u Hg) as (E & _ & He). rewrite E in Hx. simplify_eq. auto.
    + destruct (Hold g u Hg Hg0) as [Hu Hn]. rewrite Hne in Hx by auto using waiting_active. eauto.
  - intros a x Hx. destruct (decide (a = ra)) as [->|Hn]; [by simplify_eq|]. rewrite Hne in Hx by done. eauto.
  - eauto.
Qed.

(** ** Releasing *)

Lemma startUnbind_inv self ra s : sess_inv s -> sess_inv (startUnbindInstanceSession self ra s).
Proof.
  intros Hinv. unfold startUnbindInstanceSession. destruct (bc_records s !! ra) as [r|] eqn:Hr; [|done].
  destruct (session_idle r) eqn:Hi; [|done]. destruct (se_expiring r) eqn:He; [done|]. simpl.
  eapply (turn_inv s _ ra r _ (length (bc_unbinders s)) Hinv Hr); [done|simpl..]; [done| | |by eapply (si_avail s)].
  - intros g u [Hg|[Hge [Hz _]%list_lookup_singleton_Some]]%lookup_app_Some Hne; [|lia].
    split; [done|]. intros Ha E. rewrite <- E in Hr. pose proof (si_expiring _ Hinv g u r Hg Ha Hr). congruence.
  - intros u. rewrite lookup_app_r, Nat.sub_diag by done. intros [= <-]. simpl. split_and!; auto.
Qed.

Lemma session_idle_true r :
  session_idle r = true -> se_availThdMap r ⊆ se_allocThdMap r ->
  se_overAcqThdMap r = ∅ /\ se_availThdMap r = se_allocThdMap r.
Proof.
  unfold session_idle. intros [Ho Hs]%andb_true_iff Ha. apply bool_decide_eq_true in Ho. apply Nat.eqb_eq in Hs.
  split; [done|]. apply leibniz_equiv, set_subseteq_size_equiv; [done|lia].
Qed.

(** A thread that comes back. *)
Lemma back_quiet r avail over :
  se_availThdMap r ⊆ avail -> avail ⊆ se_allocThdMap r -> over ⊆ se_overAcqThdMap r ->
  quiet r (set_thds avail (se_allocThdMap r) over r).
Proof.
  intros H1' H2' H3'. split; simpl; auto. intros _ Hi. left.
  apply session_idle_true in Hi as [Ho Ha]; [|set_solver]. unfold session_idle. simpl.
  assert (over = ∅) as -> by set_solver. assert (avail = se_allocThdMap r) as -> by set_solver.
  by rewrite Nat.eqb_refl.
Qed.

Lemma releaseWithSession_inv self al s : sess_inv s -> sess_inv (snd (releaseInstanceThreadWithSession self al s)).
Proof.
  intros Hinv. unfold releaseInstanceThreadWithSession. destruct (getSession _ s) as [[ra r]|] eqn:Hg; [|done].
  apply getSession_Some in Hg as [_ Hr]. pose proof (si_avail _ Hinv ra r Hr) as Hav. case_decide as Hd.
  - cbv zeta. simpl. apply startUnbind_inv. eapply evolve_inv; [|done]. eapply set_record_evolve; [done|].
    apply back_quiet; set_solver.
  - unfold MarkThreadAsAvailable. case_decide as Hal; [|done]. simpl. apply startUnbind_inv.
    eapply evolve_inv; [|done]. eapply set_record_evolve; [done|]. apply back_quiet; set_solver.
Qed.

Lemma same_inv s s' : same_sessions s s' -> sess_inv s -> sess_inv s'.
Proof. intros Hs. by apply evolve_inv, same_evolve. Qed.

Lemma releaseInternal_inv self al s : sess_inv s -> sess_inv (snd (releaseInstanceInternal self al s)).
Proof.
  intros Hinv. unfold releaseInstanceInternal. destruct (iq_GetByID _ _ s) as [a|]; [|done].
  set (x := if negb _ then _ else _). assert (sess_inv (snd x)) as Hx.
  { subst x. destruct (negb _); [|done]. pose proof (releaseWithSession_inv self al s Hinv) as Hrel.
    by destruct (releaseInstanceThreadWithSession self al s) as [[err|] s']. }
  destruct x as [[[err|] inSess] s']; simpl in Hx; [done|]. cbv zeta. eapply same_inv; [apply Update_same|].
  destruct inSess; [done|]. by eapply same_inv, Hx.
Qed.

(** ** Acquiring *)

Lemma acquireInternal_inv schedulerID c leaseErr self q s :
  aq_SessionID q = "" \/ plain (aq_SessionID q) -> sess_inv s ->
  sess_inv (snd (acquireInstanceInternal schedulerID c leaseErr self q s)).
Proof.
  intros Hq Hinv. unfold acquireInstanceInternal. set (x := if negb _ then _ else _).
  assert (sess_inv (snd x)) as Hx.
  { subst x. destruct (negb (String.eqb (aq_DesignateInstanceID q) "")).
    - pose proof (acquireDesignateInstance_evolve schedulerID c self q s (si_keys _ Hinv) Hq) as Hd.
      destruct (acquireDesignateInstance _ _ _ _ _) as [[[al|err] q'] s']; destruct Hd as [Hev Hid];
        (assert (sess_inv s') by (by eapply evolve_inv)); [done|].
      destruct (bool_decide _); [|done]. destruct (String.eqb_spec (aq_SessionID q') ""); [done|].
      eapply evolve_inv; [apply acquireSessionInstance_evolve|done]. destruct Hid as [?|E]; [done|]. simpl.
      rewrite E in *. by destruct Hq.
    - destruct (String.eqb_spec (aq_SessionID q) "").
      + unfold acquireDefaultInstance. simpl. destruct (iq_Front _ s); [|done]. eapply same_inv; [apply acquireInstanceThread_same|done].
      + eapply evolve_inv; [apply acquireSessionInstance_evolve|done]. by destruct Hq. }
  destruct x as [[al|err] s']; [|done]. simpl in Hx. destruct leaseErr; [|done]. simpl. by apply releaseInternal_inv.
Qed.

(** ** The goroutines *)

(** A goroutine that runs goes on to [pc], its record to [r']. *)
Lemma goroutine_inv s s' g self ra pc0 pc r r' :
  sess_inv s -> bc_unbinders s !! g = Some (mkUnbinder self ra pc0) -> pc0 <> UbDone ->
  bc_records s !! ra = Some r -> bc_records s' = <[ra:=r']> (bc_records s) ->
  (forall k a, bc_sessionMap s' !! k = Some a -> bc_sessionMap s !! k = Some a) ->
  bc_unbinders s' = <[g:=mkUnbinder self ra pc]> (bc_unbinders s) ->
  (pc <> UbDone -> se_expiring r' = true) ->
  (pc = UbSelect \/ pc = UbFired -> session_idle r' = true \/ (1 <= se_expireCancelCh r')%nat) ->
  se_availThdMap r' ⊆ se_allocThdMap r' -> sess_inv s'.
Proof.
  intros Hinv Hg Hpc Hr Hrec Hmap Hub Hex Htok Hav.
  eapply (turn_inv s s' ra r r' g Hinv Hr Hrec Hmap); [| |done]; rewrite Hub.
  - intros g' u Hg' Hne. rewrite list_lookup_insert_ne in Hg' by done. split; [done|]. intros Ha E.
    apply Hne. by eapply (si_one _ Hinv g' g u _ Hg' Hg).
  - intros u. rewrite list_lookup_insert_eq by (by eapply lookup_lt_Some). intros [= <-]. split_and!; auto.
Qed.

Lemma unbind_fired_inv g s s' : unbind_fired g s = Some s' -> sess_inv s -> sess_inv s'.
Proof.
  unfold unbind_fired. destruct (bc_unbinders s !! g) as [[self ra []]|] eqn:Hg; try done. intros [= <-] Hinv.
  destruct (si_valid _ Hinv g _ Hg) as [r Hr]. simpl in Hr.
  eapply (goroutine_inv s _ g self ra _ UbFired r r Hinv Hg); try done; simpl.
  - by rewrite list_insert_id.
  - intros _. by eapply (si_expiring _ Hinv g _ r Hg).
  - intros _. eapply (si_token _ Hinv g _ r Hg); [by left|done].
  - by eapply (si_avail s).
Qed.

Lemma unbind_cancelled_inv g s s' : unbind_cancelled g s = Some s' -> sess_inv s -> sess_inv s'.
Proof.
  unfold unbind_cancelled. destruct (bc_unbinders s !! g) as [[self ra []]|] eqn:Hg; try done.
  destruct (bc_records s !! ra) as [r|] eqn:Hr; [|done]. destruct (se_expireCancelCh r) as [|n]; [done|].
  intros [= <-] Hinv. eapply (goroutine_inv s _ g self ra _ UbCancelled r _ Hinv Hg); try done; simpl.
  - intros _. by eapply (si_expiring _ Hinv g _ r Hg).
  - by intros [?|?].
  - by eapply (si_avail s).
Qed.

Lemma unbind_reset_inv g s s' : unbind_reset g s = Some s' -> sess_inv s -> sess_inv s'.
Proof.
  unfold unbind_reset. destruct (bc_unbinders s !! g) as [[self ra []]|] eqn:Hg; try done.
  destruct (bc_records s !! ra) as [r|] eqn:Hr; [|done].
  intros [= <-] Hinv. eapply (goroutine_inv s _ g self ra _ UbDone r _ Hinv Hg); try done; simpl.
  - by intros [?|?].
  - by eapply (si_avail s).
Qed.

(** With the lock: it does not block. *)
Lemma unbind_locked_inv order g s res :
  unbind_locked order g s = Some res -> sess_inv s -> exists s', res = UnbindNext s' /\ sess_inv s'.
Proof.
  unfold unbind_locked. destruct (bc_unbinders s !! g) as [[self ra []]|] eqn:Hg; try done.
  destruct (bc_records s !! ra) as [r|] eqn:Hr; [|done]. intros Hres Hinv.
  pose proof (si_avail _ Hinv ra r Hr) as Hav. destruct (session_idle r) eqn:Hi; simpl in Hres.
  - simplify_eq. eexists. split; [done|]. eapply same_inv; [apply Update_same|].
    set (r' := set_expire _ _ _ r). set (s1 := set_records (<[ra:=r']> _) _ _ s).
    assert (sess_inv s1) as H1.
    { eapply (goroutine_inv s s1 g self ra _ UbDone r r' Hinv Hg); try done. by intros [?|?]. }
    eapply evolve_inv; [eapply evolve_trans; [apply delete_evolve|by apply same_evolve]|].
    destruct (iq_GetByID _ _ s1); [|done]. by eapply same_inv, H1.
  - destruct (si_token _ Hinv g _ r Hg (or_intror eq_refl) Hr) as [?|Ht]; [congruence|].
    destruct (se_expireCancelCh r) as [|n] eqn:Hn; [lia|]. simplify_eq. eexists. split; [done|].
    eapply (goroutine_inv s _ g self ra _ UbDone r _ Hinv Hg); try done. by intros [?|?].
Qed.

(** ** Runs *)

(** What happens to a scheduler: requests (an acquire with what its first phase
    left and what the session store answered), the goroutines, instance events,
    the function's specification and ownership. *)
Inductive bc_event :=
  | BcAcquire (c : choices) (leaseErr : option goError) (sessionKey : string) (storeRecord : option StoreRecord)
      (q0 : InstanceAcquireRequest) (localHit : bool) (q : InstanceAcquireRequest)
  | BcRelease (insAlloc : InstanceAllocation)
  | BcFired (g : nat) | BcCancelled (g : nat) | BcReset (g : nat) | BcLocked (order : list string) (g : nat)
  | BcAdd (prefix : string) (instance : Instance) | BcDel (instance : Instance)
  | BcUpdate (prefix : string) (instance : Instance)
  | BcPop (order : list string) (forward : bool) (shouldPop : option (instanceElement -> bool))
  | BcReservedSpec (o1 o2 : list string * list string * list string) (fs : funcSpec) (concurrentNum : Z)
  | BcScaledSpec (q0 : Q) (o1 o2 : list string * list string * list string) (fs : funcSpec) (concurrentNum : Z)
  | BcOwner (so eo : list string) (isFuncOwner : bool)
  | BcTrace (now : Z) (traceID traceParent : string) | BcPopTrace (now : Z)
  | BcDestroy.

Context (proxyName : string) (proxyContains : string -> bool) (schedulerID : string).

(** [None]: a goroutine blocks with the lock in its hand, and nobody gets it any
    more. *)
Definition bc_step s (ev : bc_event) : option sched :=
  match ev with
  | BcAcquire c leaseErr key rec q0 hit q => Some (snd (resolve_acquire schedulerID c leaseErr key rec q0 hit q s))
  | BcRelease al => Some (snd (ReleaseInstance proxyName proxyContains al s))
  | BcFired g => Some (default s (unbind_fired g s))
  | BcCancelled g => Some (default s (unbind_cancelled g s))
  | BcReset g => Some (default s (unbind_reset g s))
  | BcLocked order g =>
      match unbind_locked order g s with
      | Some UnbindBlocked => None
      | Some (UnbindNext s') => Some s'
      | None => Some s
      end
  | BcAdd prefix i => Some (snd (AddInstance proxyName proxyContains prefix i s))
  | BcDel i => Some (snd (DelInstance proxyName proxyContains i s))
  | BcUpdate prefix i => Some (HandleInstanceUpdate proxyName proxyContains prefix i s)
  | BcPop order forward f => Some (snd (popInstanceElement order forward f s))
  | BcReservedSpec o1 o2 fs n => Some (reserved_HandleFuncSpecUpdate o1 o2 fs n s)
  | BcScaledSpec q0 o1 o2 fs n => Some (scaled_HandleFuncSpecUpdate q0 o1 o2 fs n s)
  | BcOwner so eo b => Some (HandleFuncOwnerUpdate proxyName proxyContains so eo b s)
  | BcTrace now t p => Some (recordColdStartTrace now t p s)
  | BcPopTrace now => Some (snd (PopColdStartTrace now s))
  | BcDestroy => Some (Destroy s)
  end.
Fixpoint bc_run s (evs : list bc_event) : option sched :=
  match evs with
  | [] => Some s
  | ev :: evs => bc_step s ev ≫= fun s => bc_run s evs
  end.

(** Session ids do not begin with a zero byte. *)
Definition plain_event (ev : bc_event) : Prop :=
  match ev with
  | BcAcquire _ _ _ _ _ _ q => aq_SessionID q = "" \/ plain (aq_SessionID q)
  | _ => True
  end.

Lemma applyStoreDesignate_id key rec q s : aq_SessionID (applyStoreDesignate key rec q s) = aq_SessionID q.
Proof. unfold applyStoreDesignate, peekLocalSession. by destruct (getSession key s) as [[? ?]|], rec. Qed.

Lemma resolve_inv c leaseErr key rec q0 hit q s :
  aq_SessionID q = "" \/ plain (aq_SessionID q) -> sess_inv s ->
  sess_inv (snd (resolve_acquire schedulerID c leaseErr key rec q0 hit q s)).
Proof.
  intros Hq Hinv. unfold resolve_acquire. apply acquireInternal_inv; [|done].
  destruct (_ && _); [by rewrite applyStoreDesignate_id|done].
Qed.

Lemma bc_step_inv s ev : plain_event ev -> sess_inv s -> exists s', bc_step s ev = Some s' /\ sess_inv s'.
Proof.
  intros Hp Hinv.
  destruct ev; cbn [bc_step]; try (eexists; split; [reflexivity|]).
  - by apply resolve_inv.
  - by apply releaseInternal_inv.
  - destruct (unbind_fired g s) eqn:E; [by eapply unbind_fired_inv|done].
  - destruct (unbind_cancelled g s) eqn:E; [by eapply unbind_cancelled_inv|done].
  - destruct (unbind_reset g s) eqn:E; [by eapply unbind_reset_inv|done].
  - destruct (unbind_locked order g s) as [res|] eqn:E; [|by eauto].
    destruct (unbind_locked_inv _ _ _ _ E Hinv) as (s' & -> & Hinv'). eauto.
  - eapply same_inv; [apply push_new_same|done].
  - eapply same_inv; [apply DelByID_same|done].
  - eapply same_inv; [apply HandleInstanceUpdate_same|done].
  - eapply same_inv; [apply popInstanceElement_same|done].
  - eapply same_inv; [eapply same_trans, HandleFuncSpecUpdate_same|done]. done.
  - eapply same_inv; [apply scaled_HandleFuncSpecUpdate_same|done].
  - eapply same_inv; [|done]. unfold HandleFuncOwnerUpdate. destruct (Bool.eqb _ _); [done|].
    by eapply same_trans, reassignQueues_same.
  - eapply same_inv; [|done]. unfold recordColdStartTrace, popColdStartTraceLocked. repeat case_match; done.
  - eapply same_inv; [|done]. unfold PopColdStartTrace. by destruct (pop_fresh _ _).
  - by eapply same_inv, Hinv.
Qed.

Lemma bc_run_inv s evs : Forall plain_event evs -> sess_inv s -> exists s', bc_run s evs = Some s' /\ sess_inv s'.
Proof.
  intros Hp. revert s. induction Hp as [|ev evs Hev _ IH]; intros s Hinv; [by eexists|]. simpl.
  destruct (bc_step_inv s ev Hev Hinv) as (s' & -> & Hinv'). by apply IH.
Qed.

Lemma new_inv q0 fs concurrentNum leaseSpan owner :
  sess_inv (newBasicConcurrencyScheduler q0 fs concurrentNum leaseSpan owner).
Proof. by split; simpl. Qed.

(** C3: the goroutine that unbinds an idle session never blocks with the
    scheduler's lock in its hand.  From a new scheduler, whatever is acquired
    and released, whatever instances come, change and go, in whatever order the
    goroutines' timers, cancellations and locked parts run: the scheduler never
    waits on an empty channel while it holds the lock, provided session ids do
    not begin with a zero byte.  And at every moment a session has at most one
    goroutine that has not returned. *)
Theorem unbind_never_blocks q0 fs concurrentNum leaseSpan owner evs :
  Forall plain_event evs ->
  exists s, bc_run (newBasicConcurrencyScheduler q0 fs concurrentNum leaseSpan owner) evs = Some s /\
    forall g1 g2 u1 u2, bc_unbinders s !! g1 = Some u1 -> bc_unbinders s !! g2 = Some u2 ->
      active u1 -> active u2 -> ub_record u1 = ub_record u2 -> g1 = g2.
Proof.
  intros Hp. destruct (bc_run_inv _ evs Hp (new_inv q0 fs concurrentNum leaseSpan owner)) as (s & Hr & Hinv).
  exists s. split; [done|]. by apply si_one.
Qed.

(** ** A session whose goroutine has gone *)

(** The events that are no request. *)
Definition no_request (ev : bc_event) : Prop :=
  match ev with BcAcquire _ _ _ _ _ _ _ | BcRelease _ => False | _ => True end.

Lemma quiescent_step s ev :
  Forall (fun u => ub_pc u = UbDone) (bc_unbinders s) -> no_request ev ->
  exists s', bc_step s ev = Some s' /\ same_sessions s s'.
Proof.
  intros Hd Hev. assert (forall g u, bc_unbinders s !! g = Some u -> exists self ra, u = mkUnbinder self ra UbDone) as Hpc.
  { intros g [self ra pc] Hg. pose proof (Forall_lookup_1 _ _ _ _ Hd Hg) as Hx. simpl in Hx. subst. eauto. }
  destruct ev; try done; cbn [bc_step]; try (eexists; split; [reflexivity|]).
  - unfold unbind_fired. destruct (bc_unbinders s !! g) as [u|] eqn:Hg; [|done]. by destruct (Hpc g u Hg) as (? & ? & ->).
  - unfold unbind_cancelled. destruct (bc_unbinders s !! g) as [u|] eqn:Hg; [|done]. by destruct (Hpc g u Hg) as (? & ? & ->).
  - unfold unbind_reset. destruct (bc_unbinders s !! g) as [u|] eqn:Hg; [|done]. by destruct (Hpc g u Hg) as (? & ? & ->).
  - unfold unbind_locked. destruct (bc_unbinders s !! g) as [u|] eqn:Hg; [|by eexists].
    destruct (Hpc g u Hg) as (? & ? & ->). by eexists.
  - apply push_new_same.
  - apply DelByID_same.
  - apply HandleInstanceUpdate_same.
  - apply popInstanceElement_same.
  - by eapply same_trans, HandleFuncSpecUpdate_same.
  - apply scaled_HandleFuncSpecUpdate_same.
  - unfold HandleFuncOwnerUpdate. destruct (Bool.eqb _ _); [done|]. by eapply same_trans, reassignQueues_same.
  - unfold recordColdStartTrace, popColdStartTraceLocked. repeat case_match; done.
  - unfold PopColdStartTrace. by destruct (pop_fresh _ _).
  - done.
Qed.

Lemma quiescent_run s evs :
  Forall (fun u => ub_pc u = UbDone) (bc_unbinders s) -> Forall no_request evs ->
  exists s', bc_run s evs = Some s' /\ same_sessions s s'.
Proof.
  intros Hd Hev. revert s Hd. induction Hev as [|ev evs He _ IH]; intros s Hd; [by eexists|]. simpl.
  destruct (quiescent_step s ev Hd He) as (s1 & -> & Hs1). simpl. pose proof Hs1 as [= _ _ Hu].
  destruct (IH s1) as (s2 & Hs2 & Hsame); [by rewrite Hu|]. exists s2. split; [done|]. by eapply same_trans.
Qed.

Lemma bc_run_app s evs1 evs2 : bc_run s (evs1 ++ evs2) = bc_run s evs1 ≫= fun s => bc_run s evs2.
Proof.
  revert s. induction evs1 as [|ev evs IH]; intros s; [done|]. simpl. destruct (bc_step s ev); [apply IH|done].
Qed.

End Inv.
Arguments bc_event : clear implicits.

(** ** Concrete runs *)

Definition demoSpec : funcSpec := mkSpec false false "az" "sig".
Definition demoNew : scheduler reservedQueue := newBasicConcurrencyScheduler (mkPrio []) demoSpec 2 1000 true.
Definition demoChoices : choices := mkChoices [] [] (fun _ => 0%nat) 0.
Definition demoSession (sid : string) : InstanceAcquireRequest := mkAcquire "" "" sid 5 1 "" false.
Definition demoAcquire (sid : string) : bc_event reservedQueue :=
  BcAcquire demoChoices None sid None (demoSession sid) false (demoSession sid).
Definition demoRelease (sid thread : string) : bc_event reservedQueue :=
  BcRelease (mkAllocation (demoInstance "i" 2 KernelInstanceStatusRunning) thread sid).
Definition demo_run := bc_run "self" (fun _ => false) "self-id" demoNew.

Lemma unbind_never_blocks_witness :
  exists s, demo_run [BcAdd "p" (demoInstance "i" 2 KernelInstanceStatusRunning); demoAcquire "s";
      demoRelease "s" (threadName "i" "p" 1); BcFired 0; demoAcquire "s"; BcLocked [] 0] = Some s /\
    forall g1 g2 u1 u2, bc_unbinders s !! g1 = Some u1 -> bc_unbinders s !! g2 = Some u2 ->
      active u1 -> active u2 -> ub_record u1 = ub_record u2 -> g1 = g2.
Proof.
  apply (unbind_never_blocks "self" (fun _ => false) "self-id" (mkPrio []) demoSpec 2 1000 true).
  repeat (apply Forall_cons; split; [first [exact I|right; simpl; discriminate]|]). by apply Forall_nil.
Defined.

(** The session is used, released, and used again before its time is over; while
    the goroutine is on its way out, it is released a second time. *)
Definition orphan_demo : list (bc_event reservedQueue) :=
  let thread := threadName "i" "p" 1 in
  [BcAdd "p" (demoInstance "i" 2 KernelInstanceStatusRunning); demoAcquire "s"; demoRelease "s" thread;
   demoAcquire "s"; BcCancelled 0; demoRelease "s" thread; BcReset 0].

(** The session holds a thread of its own that is not out, and neither a goroutine
    nor a timer will give it back. *)
Definition orphaned (s : option (scheduler reservedQueue)) : Prop :=
  match s with
  | Some s =>
      match getSession "s" s with
      | Some (_, r) => session_idle r = true /\ se_expiring r = false /\ se_ctxDone r = false /\
                       size (se_allocThdMap r) = 1%nat
      | None => False
      end /\ Forall (fun u => ub_pc u = UbDone) (bc_unbinders s)
  | None => False
  end.

(** An idle session can stay bound for ever.  [startUnbindInstanceSession]
    starts nothing while the session is marked as expiring, and a cancelled
    goroutine clears the mark only after it has left its select.  A release that
    comes between the two leaves the session with no thread out, no mark and no
    goroutine; the threads that it holds do not go back, whatever instance
    events, specification and ownership updates and goroutine steps follow, as
    long as no request comes. *)
Theorem orphaned_session_stays_bound evs :
  Forall no_request evs -> orphaned (demo_run (orphan_demo ++ evs)).
Proof.
  intros Hev. unfold demo_run. rewrite bc_run_app.
  assert (orphaned (demo_run orphan_demo)) as Ho by (vm_compute; repeat constructor).
  unfold demo_run in Ho. destruct (bc_run _ _ _ _ orphan_demo) as [s|]; [|done]. destruct Ho as [Ho Hd]. simpl.
  destruct (quiescent_run "self" (fun _ => false) "self-id" s evs Hd Hev) as (s' & -> & [= Hr Hm Hu]).
  split; [|by rewrite Hu]. unfold getSession in *. by rewrite Hr, Hm.
Qed.
Lemma orphaned_session_stays_bound_witness :
  orphaned (demo_run (orphan_demo ++ [BcFired 0; BcLocked [] 0; BcAdd "p" (demoInstance "j" 2 KernelInstanceStatusRunning)])).
Proof. apply orphaned_session_stays_bound. repeat constructor. Defined.
