(* ===== verification/ConcProps.v ===== *)
(** * Theorems on the concurrency schedulers

    Threads of an instance, sessions and the goroutines that unbind them, and
    what the schedulers do on paths their comments speak of. *)
From S2P Require Import Prelude GoStrings SchedErrors SessionStore LiteAlloc DeHeap InsQueue ObsQueue ConcSched ConcInv.

(** ** The threads of an instance *)

Lemma threadName_inj id prefix i j : threadName id prefix i = threadName id prefix j -> i = j.
Proof. unfold threadName, Itoa. intros Heq. simplify_eq. done. Qed.

(** The threads in the map were named before the index. *)
Record elem_ok (e : instanceElement) : Prop := {
  eo_index : 1 <= el_threadIndex e;
  eo_names : forall t, t ∈ el_threadMap e -> exists i, 1 <= i < el_threadIndex e /\
     t = threadName (in_InstanceID (el_instance e)) (el_threadIDPrefix e) i;
  eo_bound : threads e <= Z.max 0 (in_ConcurrentNum (el_instance e)) }.

Lemma threads_nonneg e : 0 <= threads e.
Proof. unfold threads. lia. Qed.

Lemma pick_in n (s : gset string) t : pick n s = Some t -> t ∈ s.
Proof. unfold pick. intros Ht%list_elem_of_lookup_2. by apply elem_of_elements. Qed.

Lemma pick_some n (s : gset string) : s <> ∅ -> exists t, pick n s = Some t.
Proof.
  intros Hs. apply lookup_lt_is_Some_2. change (length (elements s)) with (size s).
  assert (size s <> 0)%nat as Hz by (intros Hz; apply Hs, leibniz_equiv, size_empty_inv, Hz).
  apply Nat.mod_upper_bound. done.
Qed.

Lemma init_threads_elem n i id prefix t :
  t ∈ init_threads n i id prefix <-> exists j, i <= j < i + Z.of_nat n /\ t = threadName id prefix j.
Proof.
  revert i. induction n as [|n IH]; intros i; simpl.
  - split; [set_solver|]. intros (j & Hj & _). lia.
  - rewrite elem_of_union, elem_of_singleton, IH. split.
    + intros [->|(j & Hj & ->)]; [exists i|exists j]; (split; [lia|done]).
    + intros (j & Hj & ->). destruct (decide (j = i)) as [->|Hne]; [by left|]. right. exists j. split; [lia|done].
Qed.

Lemma init_threads_size n i id prefix : size (init_threads n i id prefix) = n.
Proof.
  revert i. induction n as [|n IH]; intros i; [done|]. simpl. rewrite size_union, size_singleton, IH; [lia|].
  apply disjoint_singleton_l. rewrite init_threads_elem. intros (j & Hj & Heq%threadName_inj). lia.
Qed.

(** A new instance has as many threads as it takes requests at a time. *)
Lemma initThreadMap_ok prefix e :
  elem_ok (initThreadMap prefix e) /\ threads (initThreadMap prefix e) = Z.max 0 (in_ConcurrentNum (el_instance e)).
Proof.
  unfold initThreadMap. split; [|unfold threads; simpl; rewrite init_threads_size; lia].
  split; simpl; [lia| |unfold threads; simpl; rewrite init_threads_size; lia]. intros t (j & Hj & ->)%init_threads_elem. exists j. split; [lia|done].
Qed.

Lemma GetThread_ok n e :
  elem_ok e -> threads e <> 0 ->
  let '(t, e') := GetThreadFromThreadMap (pick n) e in
  elem_ok e' /\ t ∈ el_threadMap e /\ el_threadMap e' = el_threadMap e ∖ {[t]} /\ threads e' = threads e - 1 /\
  el_instance e' = el_instance e /\ el_threadIndex e' = el_threadIndex e /\ el_threadIDPrefix e' = el_threadIDPrefix e.
Proof.
  intros [H1 H2 H3] Hz. unfold GetThreadFromThreadMap.
  assert (el_threadMap e <> ∅) as Hne by (intros Hm; apply Hz; unfold threads; rewrite Hm; done).
  destruct (pick_some n _ Hne) as [t Ht]. rewrite Ht. simpl. apply pick_in in Ht.
  assert (Z.of_nat (size (el_threadMap e ∖ {[t]})) = threads e - 1) as Hsz.
  { unfold threads. rewrite size_difference by set_solver. rewrite size_singleton.
    assert (size (el_threadMap e) <> 0)%nat; [|lia]. intros Hs. apply Hz. unfold threads. lia. }
  split_and!; try done. split; simpl; [done| |].
  - intros t' Ht'. apply H2. set_solver.
  - unfold threads at 1. simpl. lia.
Qed.

Lemma PutThread_ok t e :
  elem_ok e ->
  let e' := PutThreadToThreadMap t e in
  elem_ok e' /\ el_instance e' = el_instance e /\ el_threadIDPrefix e' = el_threadIDPrefix e /\
  ((e' = e /\ (t ∈ el_threadMap e \/ in_ConcurrentNum (el_instance e) <= threads e)) \/
   (t ∉ el_threadMap e /\ threads e < in_ConcurrentNum (el_instance e) /\
    el_threadMap e' = {[threadName (in_InstanceID (el_instance e)) (el_threadIDPrefix e) (el_threadIndex e)]} ∪ el_threadMap e /\
    el_threadIndex e' = el_threadIndex e + 1 /\ threads e' = threads e + 1)).
Proof.
  intros Hok. pose proof Hok as [H1 H2 H3]. unfold PutThreadToThreadMap. case_decide as Hd.
  { split_and!; try done. left. auto. }
  destruct (Z.leb_spec (in_ConcurrentNum (el_instance e)) (threads e)) as [Hc|Hc].
  { split_and!; try done. left. auto. }
  set (new := threadName _ _ _). assert (new ∉ el_threadMap e) as Hnew.
  { intros Hin. destruct (H2 new Hin) as (i & Hi & Heq%threadName_inj). lia. }
  assert (Z.of_nat (size ({[new]} ∪ el_threadMap e)) = threads e + 1) as Hsz.
  { unfold threads. rewrite size_union by set_solver. rewrite size_singleton. lia. }
  cbv zeta. split_and!; try done; [|by right; split_and!].
  split; simpl; [lia| |].
  - intros t' [->%elem_of_singleton|Ht']%elem_of_union; [exists (el_threadIndex e); split; [lia|done]|].
    destruct (H2 t' Ht') as (i & Hi & ->). exists i. split; [lia|done].
  - unfold threads at 1. simpl. lia.
Qed.

(** What schedulers do to an element's threads: take one when there is one, put
    one back. *)
Inductive thread_event := ThGet (choice : nat) | ThPut (threadID : string).
Definition thread_step (e : instanceElement) (ev : thread_event) : list string * instanceElement :=
  match ev with
  | ThGet n => if threads e =? 0 then ([], e)
               else let '(t, e) := GetThreadFromThreadMap (pick n) e in ([t], e)
  | ThPut t => ([], PutThreadToThreadMap t e)
  end.
Fixpoint thread_run (e : instanceElement) (evs : list thread_event) : list string * instanceElement :=
  match evs with
  | [] => ([], e)
  | ev :: evs => let '(l, e) := thread_step e ev in let '(ls, e) := thread_run e evs in (l ++ ls, e)
  end.

(** A thread of the element whose name is used up. *)
Definition spent (e : instanceElement) (t : string) : Prop :=
  t ∉ el_threadMap e /\ exists i, 1 <= i < el_threadIndex e /\
    t = threadName (in_InstanceID (el_instance e)) (el_threadIDPrefix e) i.

Lemma thread_step_ok e ev :
  elem_ok e ->
  let '(l, e') := thread_step e ev in
  elem_ok e' /\ el_instance e' = el_instance e /\ Forall (spent e') l /\ NoDup l /\
  (forall t, t ∈ l -> t ∈ el_threadMap e) /\ (forall t, spent e t -> spent e' t).
Proof.
  intros Hok. destruct ev as [n|t]; cbn [thread_step].
  - destruct (Z.eqb_spec (threads e) 0) as [Hz|Hz].
    { split_and!; try done; [constructor|]. by intros t ?%elem_of_nil. }
    pose proof (GetThread_ok n e Hok Hz) as Hg. destruct (GetThreadFromThreadMap (pick n) e) as [t e'].
    destruct Hg as (Hok' & Ht & Hm & _ & Hin & Hix & Hpre). split_and!; try done.
    + constructor; [|constructor]. split; [rewrite Hm; set_solver|]. rewrite Hin, Hix, Hpre. by apply (eo_names _ Hok).
    + apply NoDup_singleton.
    + by intros t' ->%list_elem_of_singleton.
    + intros t' [Hn (i & Hi & ->)]. split; [rewrite Hm; set_solver|]. exists i. by rewrite Hin, Hix, Hpre.
  - destruct (PutThread_ok t e Hok) as (Hok' & Hin & Hpre & Hc). split_and!; try done; [constructor| |].
    { by intros t' ?%elem_of_nil. }
    intros t' [Hn (i & Hi & ->)]. destruct Hc as [[-> _]|(_ & _ & Hm & Hix & _)]; [split; [done|by exists i]|].
    split; [|exists i; rewrite Hix, Hin, Hpre; split; [lia|done]].
    rewrite Hm. intros [Heq%elem_of_singleton%threadName_inj|?]%elem_of_union; [lia|done].
Qed.

(** C17: threads are bounded and never handed out twice.  Whatever is taken from
    an instance's threads and put back, and whatever ids are put back: the
    number of free threads stays between zero and the instance's concurrency,
    and all the thread ids that were ever handed out are different, because a
    thread that comes back gets a name of its own. *)
Theorem threads_bounded_unique prefix e evs :
  let r := thread_run (initThreadMap prefix e) evs in
  0 <= threads r.2 <= Z.max 0 (in_ConcurrentNum (el_instance e)) /\ NoDup r.1 /\
  Forall (fun t => t ∉ el_threadMap r.2) r.1.
Proof.
  assert (forall evs e, elem_ok e -> let r := thread_run e evs in
    elem_ok r.2 /\ el_instance r.2 = el_instance e /\ NoDup r.1 /\ Forall (spent r.2) r.1 /\
    (forall t, t ∈ r.1 -> ~ spent e t) /\ (forall t, spent e t -> spent r.2 t)) as Hrun.
  { clear. induction evs as [|ev evs IH]; intros e Hok; simpl.
    { split_and!; try done; [apply NoDup_nil_2|]. by intros t ?%elem_of_nil. }
    pose proof (thread_step_ok e ev Hok) as Hs. destruct (thread_step e ev) as [l e1].
    destruct Hs as (Hok1 & Hin1 & Hsp & Hnd & Hl & Hkeep). specialize (IH e1 Hok1).
    destruct (thread_run e1 evs) as [ls e2]. simpl in *. destruct IH as (Hok2 & Hin2 & Hnd2 & Hsp2 & Hnew & Hkeep2).
    split_and!; try done; [congruence| | | |auto].
    - apply NoDup_app. split_and!; [done| |done]. intros t Ht Ht2. apply (Hnew t Ht2).
      rewrite Forall_forall in Hsp. by apply Hsp.
    - apply Forall_app. split; [|done]. eapply Forall_impl; [exact Hsp|]. intros t Ht. by apply Hkeep2.
    - intros t [Ht|Ht]%elem_of_app; [intros [Hn _]; by apply Hn, Hl|]. intros Hst. by apply (Hnew t Ht), Hkeep. }
  intros r. destruct (initThreadMap_ok prefix e) as [Hok _].
  destruct (Hrun evs _ Hok) as ([_ _ Hb] & Hin & Hnd & Hsp & _). fold r in Hb, Hin, Hnd, Hsp.
  rewrite Hin in Hb. split_and!; [apply threads_nonneg|done|done|].
  eapply Forall_impl; [exact Hsp|]. by intros t [? _].
Qed.

(** ** Binding and giving back *)

Lemma spent_get n e :
  elem_ok e -> threads e <> 0 ->
  let '(t, e') := GetThreadFromThreadMap (pick n) e in
  elem_ok e' /\ threads e' = threads e - 1 /\ el_instance e' = el_instance e /\ spent e' t /\ ~ spent e t /\
  (forall t', spent e t' -> spent e' t').
Proof.
  intros Hok Hz. pose proof (thread_step_ok e (ThGet n) Hok) as Hs. pose proof (GetThread_ok n e Hok Hz) as Hg.
  cbn [thread_step] in Hs. apply Z.eqb_neq in Hz. rewrite Hz in Hs.
  destruct (GetThreadFromThreadMap (pick n) e) as [t e']. destruct Hg as (Hok' & Ht & _ & Hth & Hin & _).
  destruct Hs as (_ & _ & Hsp & _ & _ & Hkeep). split_and!; try done; [|by intros [? _]].
  by apply Forall_cons in Hsp as [? _].
Qed.

(** The threads of the record are all there, and none of them is the instance's. *)
Definition bound_ok (e : instanceElement) (r : sessionRecord) : Prop :=
  se_availThdMap r = se_allocThdMap r /\ forall t, t ∈ se_allocThdMap r -> spent e t.

Lemma bind_loop_ok ch n e r :
  elem_ok e -> Z.of_nat n <= threads e -> bound_ok e r ->
  let '(e', r') := bind_loop ch n e r in
  elem_ok e' /\ threads e' = threads e - Z.of_nat n /\ el_instance e' = el_instance e /\ bound_ok e' r' /\
  size (se_allocThdMap r') = (size (se_allocThdMap r) + n)%nat.
Proof.
  revert e r. induction n as [|n IH]; intros e r Hok Hn [Hav Hb].
  { simpl. split_and!; try done; lia. }
  cbn [bind_loop]. pose proof (spent_get (ch n) e Hok ltac:(lia)) as Hg.
  destruct (GetThreadFromThreadMap (pick (ch n)) e) as [t e1]. destruct Hg as (Hok1 & Hth & Hin & Hsp & Hnsp & Hkeep).
  cbv zeta. set (r1 := default _ _).
  assert (se_allocThdMap r1 = {[t]} ∪ se_allocThdMap r /\ se_availThdMap r1 = {[t]} ∪ se_availThdMap r) as [Hal1 Hav1].
  { subst r1. unfold MarkThreadAsAvailable. rewrite decide_True by (simpl; set_solver). done. }
  specialize (IH e1 r1 Hok1 ltac:(lia)). destruct (bind_loop ch n e1 r1) as [e2 r2].
  destruct IH as (Hok2 & Hth2 & Hin2 & Hb2 & Hsz).
  { split; [congruence|]. rewrite Hal1. intros t' [->%elem_of_singleton|Ht']%elem_of_union; auto. }
  rewrite Hal1, size_union, size_singleton in Hsz by (apply disjoint_singleton_l; auto).
  split_and!; try done; [lia|congruence|lia].
Qed.

Lemma give_back_ok order e :
  elem_ok e -> NoDup order -> (forall t, t ∈ order -> spent e t) ->
  threads e + Z.of_nat (length order) <= Z.max 0 (in_ConcurrentNum (el_instance e)) ->
  elem_ok (give_back order e) /\ threads (give_back order e) = threads e + Z.of_nat (length order).
Proof.
  revert e. induction order as [|t order IH]; intros e Hok Hnd Hsp Hb; simpl.
  { split; [done|lia]. }
  apply NoDup_cons in Hnd as [Hni Hnd]. simpl in Hb. pose proof (threads_nonneg e).
  destruct (PutThread_ok t e Hok) as (Hok1 & Hin & _ & [[_ Hbad]|(_ & _ & _ & _ & Hth)]).
  { exfalso. destruct Hbad as [Ht|?]; [|lia]. by destruct (Hsp t ltac:(set_solver)) as [? _]. }
  destruct (thread_step_ok e (ThPut t) Hok) as (_ & _ & _ & _ & _ & Hkeep).
  unfold give_back in IH. destruct (IH _ Hok1 Hnd) as [Hok2 Hth2]; [|rewrite Hin; lia|].
  - intros t' Ht'. apply Hkeep, Hsp. set_solver.
  - split; [done|]. etransitivity; [exact Hth2|]. lia.
Qed.

(** Binding a session and unbinding it are inverse to each other for the
    instance.  Binding moves as many threads as asked for into the record, all
    of them available there and none left with the instance; when the goroutine
    gives the record's threads back, in whatever order it ranges over them, the
    instance has as many as before. *)
Theorem bind_unbind_roundtrip ch n order e r :
  elem_ok e -> Z.of_nat n <= threads e -> se_availThdMap r = ∅ -> se_allocThdMap r = ∅ ->
  let x := bind_loop ch n e r in
  order ≡ₚ elements (se_allocThdMap x.2) ->
  se_availThdMap x.2 = se_allocThdMap x.2 /\ size (se_allocThdMap x.2) = n /\
  threads x.1 = threads e - Z.of_nat n /\ threads (give_back order x.1) = threads e.
Proof.
  intros Hok Hn Hav Hal x Hord. pose proof (bind_loop_ok ch n e r Hok Hn) as Hb. fold x in Hb.
  destruct x as [e' r']. simpl in *. destruct Hb as (Hok' & Hth & Hin & [Hav' Hsp] & Hsz).
  { split; [congruence|]. rewrite Hal. set_solver. }
  rewrite Hal, size_empty in Hsz. split_and!; try done.
  assert (length order = n) as Hlen by (rewrite Hord; exact Hsz).
  destruct (give_back_ok order e') as [_ ->]; [done|rewrite Hord; apply NoDup_elements| | |lia].
  - intros t. rewrite Hord, elem_of_elements. apply Hsp.
  - rewrite Hin. pose proof (eo_bound _ Hok). lia.
Qed.
Lemma bind_unbind_roundtrip_witness :
  let e := demoElem "i" 3 KernelInstanceStatusRunning in
  let r := mkSession ∅ ∅ ∅ false 0 2 "s" "" 0 false 0 in
  let x := bind_loop (fun _ => 0%nat) 2 e r in
  threads x.1 = 1 /\ se_availThdMap x.2 = se_allocThdMap x.2 /\ size (se_allocThdMap x.2) = 2%nat /\
  threads x.1 = threads e - Z.of_nat 2 /\ threads (give_back (elements (se_allocThdMap x.2)) x.1) = threads e.
Proof.
  intros e r x. split; [vm_compute; reflexivity|].
  apply (bind_unbind_roundtrip (fun _ => 0%nat) 2); [apply initThreadMap_ok|vm_compute; discriminate|done|done|done].
Defined.

(** ** Sessions and designated instances *)

Section Props.
Context {Q : Type} `{InsQueueLaws Q} (schedulerID : string).
Implicit Types (s : scheduler Q).

(** A designated instance does not win over the session's.  When the session
    is bound to another instance than the designated one, the request is
    answered with an internal error and nothing changes, although the designated
    instance exists and is healthy and the comment gives it precedence: the
    session id is cleared and then looked up. *)
Theorem designate_conflict_rejected c self q s a e ra r :
  sess_inv s ->
  iq_GetByID self (aq_DesignateInstanceID q) s = Some a -> bc_elems s !! a = Some e ->
  in_StatusCode (el_instance e) <> KernelInstanceStatusSubHealth ->
  aq_SessionID q <> "" -> fs_EnableSessionCtx (bc_funcSpec s) = false ->
  getSession (aq_SessionID q) s = Some (ra, r) ->
  getInstanceID (bc_elems s) (se_insElem r) <> aq_DesignateInstanceID q ->
  let x := acquireDesignateInstance schedulerID c self q s in
  x.1.1 = inr (Sentinel ErrInternal) /\ x.2 = s.
Proof.
  intros Hinv Hget He Hst Hsid Hctx Hses Hne.
  assert (getSessionCacheKey (aq_SessionID q) (aq_SessionCtxID q) s = aq_SessionID q) as Hkey
    by (unfold getSessionCacheKey; by rewrite Hctx).
  apply Z.eqb_neq in Hst. apply String.eqb_neq in Hsid, Hne.
  unfold acquireDesignateInstance. cbv zeta. rewrite Hget, He, Hst, Hsid, Hctx, Hkey, Hses, Hne. cbn [negb andb].
  cbn [aq_SessionID aq_DesignateThreadID aq_SessionTTL aq_SessionCtxID set_session].
  rewrite empty_session_unknown by apply Hinv. by rewrite decide_False.
Qed.

(** With session contexts, a request that names none binds threads that
    nobody gets.  The record is entered under the context of the instance it is
    bound to and looked up under the empty one of the request: the request is
    answered with an internal error, the threads stay with the record, and no
    goroutine is started that would give them back. *)
Theorem session_without_context_leaks c self q s a e ctx ra r s1 :
  fs_EnableSessionCtx (bc_funcSpec s) = true -> isAgentSession q s = false -> aq_SessionCtxID q = "" ->
  aq_Concurrency q <= bc_concurrentNum s ->
  bc_sessionMap s !! getSessionCacheKey (aq_SessionID q) "" s = None ->
  select_session_instance (ch_so c) (ch_eo c) self q s = Some a ->
  bc_elems s !! a = Some e -> in_SessionCtxID (el_instance e) = Some ctx -> ctx <> "" ->
  bindThdWithSession (ch_pick c) self a (aq_SessionID q) (aq_SessionTTL q) (aq_Concurrency q) s = (inl (ra, r), s1) ->
  let x := acquireSessionInstance schedulerID c self q s in
  x.1 = inr (Sentinel ErrInternal) /\ bc_elems x.2 = bc_elems s1 /\
  bc_records x.2 !! ra = Some r /\ session_idle r = true /\ se_expiring r = false /\ bc_unbinders x.2 = bc_unbinders s.
Proof.
  intros Hen Hag Hq Hc Hm Hsel He Hctx Hne Hb. unfold acquireSessionInstance. cbv zeta. rewrite Hag.
  assert (bc_concurrentNum s <? aq_Concurrency q = false) as -> by lia.
  assert (isSessionExist self q s = (false, s)) as -> by (unfold isSessionExist, getSession; by rewrite Hq, Hm).
  rewrite Hsel, Hb. apply bindThdWithSession_ok in Hb as (Hev & Hsm & Hfs & Hr & Hav & Hov & Hex & Hid & Hcx).
  rewrite Hen, He in Hcx. simpl in Hcx. rewrite Hctx in Hcx. simpl in Hcx.
  assert (session_idle r = true) as Hidle by (unfold session_idle; by rewrite Hov, Hav, Nat.eqb_refl).
  set (s2 := addSession schedulerID _ ra r s1).
  assert (acquireSessionThread schedulerID (ch_pick c 0%nat) (aq_DesignateThreadID q) (aq_SessionID q)
            (aq_SessionTTL q) (aq_SessionCtxID q) s2 = (inr (Sentinel ErrInternal), s2)) as ->.
  { unfold acquireSessionThread, getSession. subst s2. simpl. rewrite Hsm, Hq. rewrite lookup_insert_ne.
    - unfold getSessionCacheKey in *. simpl. rewrite Hfs. by rewrite Hm.
    - unfold getRecordCacheKey, getSessionCacheKey. simpl. rewrite Hfs, Hen, Hid, Hcx. simpl.
      intros Heq. apply Hne. unfold JoinKey in Heq. simpl in Heq. by simplify_eq. }
  rewrite decide_False by done. split_and!; try done. apply Hev.
Qed.

(** A destroyed scheduler goes on publishing.  [Destroy] sets a flag that
    [publishInsThdEvent] tests, but the closures that the constructor hands to
    the self queue captured the scheduler that it then returned a copy of: as
    long as the queue is the constructor's, what is done to it after [Destroy] is
    published as before. *)
Theorem destroyed_still_publishes proxyName proxyContains prefix instance s :
  bc_pubCopy s = true -> checkSelfInstance proxyName proxyContains instance s = true ->
  let x := AddInstance proxyName proxyContains prefix instance (Destroy s) in
  bc_stopped x.2 = true /\
  bc_out x.2 = bc_out s ++
    (OutPub <$> (obs_PushBack (bc_elems s ++ [newElem prefix instance s]) (length (bc_elems s)) (bc_self s)).1.2).
Proof.
  intros Hc Hself. unfold AddInstance, push_new, iq_PushBack.
  assert (checkSelfInstance proxyName proxyContains instance (Destroy s) = true) as -> by exact Hself. simpl.
  change (newElem prefix instance (Destroy s)) with (newElem prefix instance s).
  destruct (obs_PushBack _ _ _) as [[err pubs] o]. simpl. unfold publishInsThdEvents, pub_stopped. simpl. by rewrite Hc.
Qed.
End Props.

(** ** Concrete runs *)

Definition found {A} (P : A -> Prop) (o : option A) : Prop := match o with Some x => P x | None => False end.
Lemma found_some {A} (P : A -> Prop) o : found P o -> exists x, o = Some x /\ P x.
Proof. destruct o; [eauto|done]. Qed.

Definition demo_state (evs : list (bc_event reservedQueue)) : scheduler reservedQueue := default demoNew (demo_run evs).
Lemma demo_state_inv evs : Forall plain_event evs -> sess_inv (demo_state evs).
Proof.
  intros Hp. destruct (bc_run_inv "self" (fun _ => false) "self-id" demoNew evs Hp) as (s & Hr & Hinv); [apply new_inv|].
  unfold demo_state, demo_run. by rewrite Hr.
Qed.

Lemma destroyed_still_publishes_witness :
  let i := demoInstance "i" 2 KernelInstanceStatusRunning in
  let x := AddInstance "self" (fun _ => false) "p" i (Destroy demoNew) in
  bc_out x.2 = [OutPub (AvailInsThdTopic, 2); OutPub (TotalInsThdTopic, 2)] /\
  bc_stopped x.2 = true /\
  bc_out x.2 = bc_out demoNew ++
    (OutPub <$> (obs_PushBack (bc_elems demoNew ++ [newElem "p" i demoNew]) (length (bc_elems demoNew)) (bc_self demoNew)).1.2).
Proof.
  intros i x. split; [vm_compute; reflexivity|]. apply (destroyed_still_publishes "self" (fun _ => false) "p" i demoNew); done.
Defined.

(** A session on one of two instances, and a request for it that designates the
    other. *)
Definition conflict_demo : scheduler reservedQueue :=
  demo_state [BcAdd "p" (demoInstance "i" 2 KernelInstanceStatusRunning);
              BcAdd "p" (demoInstance "j" 2 KernelInstanceStatusRunning); demoAcquire "s"].
Definition conflict_request : InstanceAcquireRequest := mkAcquire "i" "" "s" 5 1 "" false.

Lemma designate_conflict_rejected_witness :
  let x := acquireDesignateInstance "self-id" demoChoices true conflict_request conflict_demo in
  x.1.1 = inr (Sentinel ErrInternal) /\ x.2 = conflict_demo.
Proof.
  assert (sess_inv conflict_demo) as Hinv.
  { apply demo_state_inv. repeat (apply Forall_cons; split; [first [exact I|right; simpl; discriminate]|]). by apply Forall_nil. }
  destruct (found_some (fun e => in_StatusCode (el_instance e) = KernelInstanceStatusRunning)
              (bc_elems conflict_demo !! 0%nat)) as (e & He' & He); [vm_compute; reflexivity|].
  destruct (found_some (fun p => getInstanceID (bc_elems conflict_demo) (se_insElem p.2) = "j")
              (getSession "s" conflict_demo)) as ([ra r] & Hs' & Hs); [vm_compute; reflexivity|]. simpl in Hs.
  apply (designate_conflict_rejected "self-id" demoChoices true conflict_request conflict_demo 0 e ra r Hinv).
  - vm_compute. reflexivity.
  - exact He'.
  - rewrite He. discriminate.
  - discriminate.
  - vm_compute. reflexivity.
  - exact Hs'.
  - rewrite Hs. discriminate.
Defined.

(** An instance of the context "c" with two threads, and a request for a session
    without a context. *)
Definition ctx_instance : Instance := mkInstance "i" 2 KernelInstanceStatusRunning "sig" "az" (Some "c") false "".
Definition ctx_demo : scheduler reservedQueue :=
  snd (AddInstance "self" (fun _ => false) "p" ctx_instance
    (newBasicConcurrencyScheduler (mkPrio []) (mkSpec true false "az" "sig") 2 1000 true)).

(** After a second request of the same kind the instance has no thread left. *)
Lemma session_without_context_leaks_witness :
  let x := acquireSessionInstance "self-id" demoChoices true (demoSession "s") ctx_demo in
  let y := acquireSessionInstance "self-id" demoChoices true (demoSession "s") x.2 in
  (threads <$> bc_elems x.2 = [1]) /\ (threads <$> bc_elems y.2 = [0]) /\ bc_unbinders y.2 = [] /\
  x.1 = inr (Sentinel ErrInternal) /\ bc_unbinders x.2 = bc_unbinders ctx_demo.
Proof.
  intros x y. split; [vm_compute; reflexivity|]. split; [vm_compute; reflexivity|]. split; [vm_compute; reflexivity|].
  destruct (found_some (fun p => p.1.2 = 1%nat) (match bindThdWithSession (ch_pick demoChoices) true 0 "s" 5 1 ctx_demo with
      | (inl p, s1) => Some (p, 1%nat, s1) | (inr _, _) => None end)) as ([[[ra r] ?] s1] & Hb & _); [vm_compute; reflexivity|].
  assert (bindThdWithSession (ch_pick demoChoices) true 0 "s" 5 1 ctx_demo = (inl (ra, r), s1)) as Hb'.
  { revert Hb. generalize (bindThdWithSession (ch_pick demoChoices) true 0 "s" 5 1 ctx_demo).
    intros [[p|err] s']; intros; by simplify_eq. }
  clear Hb. subst x y. set (d := ctx_demo) in *.
  destruct (session_without_context_leaks "self-id" demoChoices true (demoSession "s") d 0
              (newElem "p" ctx_instance d) "c" ra r s1) as (H1 & _ & _ & _ & _ & H2).
  - vm_compute. reflexivity.
  - vm_compute. reflexivity.
  - reflexivity.
  - vm_compute. discriminate.
  - vm_compute. reflexivity.
  - vm_compute. reflexivity.
  - vm_compute. reflexivity.
  - reflexivity.
  - discriminate.
  - exact Hb'.
  - split; [exact H1|exact H2].
Defined.
