(* ===== verification/ReplicaScaler.v ===== *)
(** * The replica scaler

    [ReplicaScaler] (pkg/functionscaler/scaler/replicascaler.go) keeps the number
    of reserved instances at the number the configuration wants.  It counts the
    instances it has ([current], told by the scheduler's publications) and those
    it has asked for ([pending], positive for instances being created, negative
    for instances being removed; the queue's callbacks take it back).

    An operation is its critical section; the flag it returns tells that
    [handleScale] follows.  [handleScale] has two sections, one that reads the
    distance to the target and one that acts on it; between the two the lock is
    free. *)
From S2P Require Import Prelude SchedErrors DeHeap InsQueue ObsQueue ConcSched.

Notation StsConfigErrCode := (4036)%Z (only parsing).

Definition IsNoNeedToRePullError (err : goError) : bool :=
  match err with SNError code _ => code =? StsConfigErrCode | _ => false end.

Record ReplicaScaler := mkReplica {
  rs_concurrentNum : Z;
  rs_pendingRsvInsNum : Z;
  rs_targetRsvInsNum : Z;
  rs_currentRsvInsNum : Z;
  rs_createError : option goError;
  rs_enable : bool
}.
Implicit Types (rs : ReplicaScaler).

Definition NewReplicaScaler : ReplicaScaler := mkReplica 0 0 0 0 None false.

Definition rs_set_pending (n : Z) rs : ReplicaScaler :=
  mkReplica (rs_concurrentNum rs) n (rs_targetRsvInsNum rs) (rs_currentRsvInsNum rs) (rs_createError rs) (rs_enable rs).
Definition rs_set_plan (target current : Z) rs : ReplicaScaler :=
  mkReplica (rs_concurrentNum rs) (rs_pendingRsvInsNum rs) target current (rs_createError rs) (rs_enable rs).
Definition rs_set_enable (enable : bool) rs : ReplicaScaler :=
  mkReplica (rs_concurrentNum rs) (rs_pendingRsvInsNum rs) (rs_targetRsvInsNum rs) (rs_currentRsvInsNum rs)
    (rs_createError rs) enable.
Definition rs_set_error (err : option goError) rs : ReplicaScaler :=
  mkReplica (rs_concurrentNum rs) (rs_pendingRsvInsNum rs) (rs_targetRsvInsNum rs) (rs_currentRsvInsNum rs)
    err (rs_enable rs).

(** ** Operations *)

Definition rs_SetEnable (enable : bool) rs : ReplicaScaler * bool :=
  if Bool.eqb enable (rs_enable rs) then (rs, false) else (rs_set_enable enable rs, enable).

Definition rs_TriggerScale rs : ReplicaScaler * bool := (rs, rs_enable rs).

Definition rs_CheckScaling rs : bool := negb (rs_currentRsvInsNum rs =? rs_targetRsvInsNum rs).

Definition rs_HandleInsThdUpdate (totalInsThdDiff : Z) rs : ReplicaScaler * bool :=
  if totalInsThdDiff =? 0 then (rs, false) else
  (rs_set_plan (rs_targetRsvInsNum rs) (rs_currentRsvInsNum rs + totalInsThdDiff /g rs_concurrentNum rs) rs, true).

Definition rs_HandleFuncSpecUpdate (concurrentNum : Z) rs : ReplicaScaler * bool :=
  (mkReplica (GetConcurrentNum concurrentNum) (rs_pendingRsvInsNum rs) (rs_targetRsvInsNum rs)
     (rs_currentRsvInsNum rs) (rs_createError rs) (rs_enable rs), true).

Definition rs_HandleInsConfigUpdate (minInstance : Z) rs : ReplicaScaler * bool :=
  let replicaNum := if minInstance <? 0 then 0 else minInstance in
  (rs_set_plan replicaNum (rs_currentRsvInsNum rs) rs, rs_enable rs).

Definition rs_HandleCreateError (createError : option goError) rs : ReplicaScaler * bool :=
  let final := match createError with
               | Some err => IsUnrecoverableError err && IsNoNeedToRePullError err
               | None => false
               end in
  if final then (rs_set_error createError (rs_set_enable false rs), false) else
  let noNeedScale := match rs_createError rs, createError with None, None => true | _, _ => false end in
  (rs_set_error createError rs, negb noNeedScale).

Definition rs_GetExpectInstanceNumber rs : Z := if rs_enable rs then rs_targetRsvInsNum rs else 0.

Definition rs_Destroy rs : ReplicaScaler := rs_set_plan 0 (rs_currentRsvInsNum rs) (rs_set_enable false rs).

Definition rs_handlePendingInsNumIncrease (insDiff : Z) rs : ReplicaScaler :=
  rs_set_pending (rs_pendingRsvInsNum rs + insDiff) rs.
Definition rs_handlePendingInsNumDecrease (insDiff : Z) rs : ReplicaScaler :=
  rs_set_pending (rs_pendingRsvInsNum rs - insDiff) rs.

(** What [handleScale] asks of the instance queue. *)
Inductive scale_call := NoCall | CallScaleUp (insNum : Z) | CallScaleDown (insNum : Z).

(** [None]: the scaler is disabled and nothing is to be removed. *)
Definition handleScale_read (disableReplicaScaler : bool) rs : option Z :=
  let scaleNum := rs_targetRsvInsNum rs - rs_currentRsvInsNum rs in
  if (0 <=? scaleNum) && (negb (rs_enable rs) || disableReplicaScaler) then None else Some scaleNum.

Definition handleScale_act (scaleNum : Z) rs : scale_call * ReplicaScaler :=
  if 0 <? scaleNum then
    let scaleNum := if 0 <=? rs_pendingRsvInsNum rs then scaleNum - rs_pendingRsvInsNum rs else scaleNum in
    if scaleNum <=? 0 then (NoCall, rs)
    else (CallScaleUp scaleNum, rs_set_pending (rs_pendingRsvInsNum rs + scaleNum) rs)
  else if scaleNum <? 0 then
    let scaleNum := if rs_pendingRsvInsNum rs <=? 0 then scaleNum - rs_pendingRsvInsNum rs else scaleNum in
    if 0 <=? scaleNum then (NoCall, rs)
    else (CallScaleDown (- scaleNum), rs_set_pending (rs_pendingRsvInsNum rs + scaleNum) rs)
  else (NoCall, rs).

(** Both sections with nothing between them. *)
Definition handleScale (disableReplicaScaler : bool) rs : scale_call * ReplicaScaler :=
  match handleScale_read disableReplicaScaler rs with
  | Some scaleNum => handleScale_act scaleNum rs
  | None => (NoCall, rs)
  end.

(** ** What the sections do to the counters *)

Definition call_pending (c : scale_call) : Z :=
  match c with NoCall => 0 | CallScaleUp n => n | CallScaleDown n => - n end.
Definition call_valid (c : scale_call) : Prop :=
  match c with NoCall => True | CallScaleUp n | CallScaleDown n => 0 < n end.

(** Unfolds a scaler operation and decides its tests. *)
Ltac rs_cases :=
  repeat match goal with
  | |- context [if ?b then _ else _] => let E := fresh "E" in destruct b eqn:E
  | H : context [if ?b then _ else _] |- _ => let E := fresh "E" in destruct b eqn:E
  end.

(** Whatever distance it was told, the acting section asks for what it books, and
    for a positive number. *)
Lemma handleScale_act_books scaleNum rs :
  rs_pendingRsvInsNum (handleScale_act scaleNum rs).2
  = rs_pendingRsvInsNum rs + call_pending (handleScale_act scaleNum rs).1 /\
  call_valid (handleScale_act scaleNum rs).1.
Proof. unfold handleScale_act. rs_cases; simpl; lia. Qed.

Lemma handleScale_act_frame scaleNum rs :
  (handleScale_act scaleNum rs).2 = rs_set_pending (rs_pendingRsvInsNum (handleScale_act scaleNum rs).2) rs.
Proof. unfold handleScale_act. by rs_cases; destruct rs. Qed.

(** ** Operations that run one after the other *)

(** The scaler with the instances that are being created and removed at its
    request. *)
Record ledger := mkLedger { lg_rs : ReplicaScaler; lg_ups : Z; lg_downs : Z }.
Implicit Types (g : ledger).

Definition book (c : scale_call) g : ledger :=
  match c with
  | NoCall => g
  | CallScaleUp n => mkLedger (lg_rs g) (lg_ups g + n) (lg_downs g)
  | CallScaleDown n => mkLedger (lg_rs g) (lg_ups g) (lg_downs g + n)
  end.

(** An operation, and the [handleScale] it ends in. *)
Definition lg_op (o : ReplicaScaler -> ReplicaScaler * bool) g : ledger :=
  let '(rs, scale) := o (lg_rs g) in
  let '(c, rs) := if scale : bool then handleScale false rs else (NoCall, rs) in
  book c (mkLedger rs (lg_ups g) (lg_downs g)).

Inductive lg_event :=
  | LgEnable (enable : bool) | LgTrigger | LgConfig (minInstance : Z) | LgSpec (concurrentNum : Z)
  | LgCreated                       (* an instance is created and added *)
  | LgFailed (err : goError)        (* its creation is given up *)
  | LgRemoved                       (* an instance is popped at the scaler's request *)
  | LgAppeared (n : Z) | LgGone (n : Z).   (* instances come and go by themselves *)

(** The callbacks run before an instance is added and after one is popped. *)
Definition lg_step g (ev : lg_event) : ledger :=
  let c := rs_concurrentNum (lg_rs g) in
  match ev with
  | LgEnable b => lg_op (rs_SetEnable b) g
  | LgTrigger => lg_op rs_TriggerScale g
  | LgConfig n => lg_op (rs_HandleInsConfigUpdate n) g
  | LgSpec n => lg_op (rs_HandleFuncSpecUpdate n) g
  | LgCreated => if lg_ups g <=? 0 then g else
      lg_op (rs_HandleInsThdUpdate c) (mkLedger (rs_handlePendingInsNumDecrease 1 (lg_rs g)) (lg_ups g - 1) (lg_downs g))
  | LgFailed err => if lg_ups g <=? 0 then g else
      lg_op (rs_HandleCreateError (Some err))
        (mkLedger (rs_handlePendingInsNumDecrease 1 (lg_rs g)) (lg_ups g - 1) (lg_downs g))
  | LgRemoved => if lg_downs g <=? 0 then g else
      let g := lg_op (rs_HandleInsThdUpdate (- c)) g in
      mkLedger (rs_handlePendingInsNumIncrease 1 (lg_rs g)) (lg_ups g) (lg_downs g - 1)
  | LgAppeared n => lg_op (rs_HandleInsThdUpdate (n * c)) g
  | LgGone n => lg_op (rs_HandleInsThdUpdate (- (n * c))) g
  end.
Definition lg_run (evs : list lg_event) g : ledger := fold_left lg_step evs g.

(** [pending] is what is under way; while the scaler is enabled, what it has and
    what is being created reach the target, and what is being removed covers the
    excess. *)
Record lg_inv g : Prop := {
  li_pending : rs_pendingRsvInsNum (lg_rs g) = lg_ups g - lg_downs g;
  li_ups : 0 <= lg_ups g;
  li_downs : 0 <= lg_downs g;
  li_conc : rs_concurrentNum (lg_rs g) <> 0;
  li_enough : rs_enable (lg_rs g) = true -> rs_targetRsvInsNum (lg_rs g) <= rs_currentRsvInsNum (lg_rs g) + lg_ups g;
  li_excess : rs_enable (lg_rs g) = true -> rs_currentRsvInsNum (lg_rs g) - lg_downs g <= rs_targetRsvInsNum (lg_rs g) }.

Lemma GetConcurrentNum_nonzero n : GetConcurrentNum n <> 0.
Proof. unfold GetConcurrentNum. destruct (n =? 0) eqn:E; lia. Qed.

(** [handleScale] makes the plan good whatever it was before. *)
Lemma handleScale_inv rs ups downs :
  rs_pendingRsvInsNum rs = ups - downs -> 0 <= ups -> 0 <= downs -> rs_concurrentNum rs <> 0 ->
  let r := handleScale false rs in
  let g := book r.1 (mkLedger r.2 ups downs) in
  lg_inv g /\ ups <= lg_ups g /\ downs <= lg_downs g /\ rs_targetRsvInsNum (lg_rs g) = rs_targetRsvInsNum rs /\
  rs_currentRsvInsNum (lg_rs g) = rs_currentRsvInsNum rs /\ rs_enable (lg_rs g) = rs_enable rs.
Proof.
  intros Hp Hu Hd Hc r g. subst r g. unfold handleScale, handleScale_read, handleScale_act.
  destruct (rs_enable rs) eqn:He; rs_cases; simpl in *; try discriminate; split_and!; try done; try lia; split; simpl;
    rewrite ?He; intros; try discriminate; lia.
Qed.

(** An operation that keeps the counters, when it either scales or leaves the
    plan of an enabled scaler as it is. *)
Lemma lg_op_inv o g :
  let rs := lg_rs g in let rs' := (o rs).1 in
  rs_pendingRsvInsNum rs = lg_ups g - lg_downs g -> 0 <= lg_ups g -> 0 <= lg_downs g ->
  rs_pendingRsvInsNum rs' = rs_pendingRsvInsNum rs -> rs_concurrentNum rs' <> 0 ->
  ((o rs).2 = false -> rs_enable rs' = true -> rs' = rs /\ lg_inv g) ->
  lg_inv (lg_op o g) /\ lg_downs g <= lg_downs (lg_op o g) /\
  rs_targetRsvInsNum (lg_rs (lg_op o g)) = rs_targetRsvInsNum rs' /\
  rs_currentRsvInsNum (lg_rs (lg_op o g)) = rs_currentRsvInsNum rs' /\
  rs_enable (lg_rs (lg_op o g)) = rs_enable rs'.
Proof.
  intros rs rs' Hp Hu Hd Hp' Hc Hs. subst rs rs'. unfold lg_op.
  destruct (o (lg_rs g)) as [rs' scale] eqn:Eo. simpl in *. destruct scale.
  - destruct (handleScale_inv rs' (lg_ups g) (lg_downs g)) as (H1 & H2 & H3 & H4 & H5 & H6); [lia..|done|].
    destruct (handleScale false rs') as [c rs'']. done.
  - simpl. split; [|split; [lia|done]]. destruct (rs_enable rs') eqn:He.
    + destruct (Hs eq_refl eq_refl) as [-> ?]. by destruct g.
    + split; simpl; try done; try lia; congruence.
Qed.

Lemma go_quot_mul n c : c <> 0 -> (n * c) /g c = n.
Proof. intros Hc. unfold go_quot. by apply Z.quot_mul. Qed.

(** [k] instances more, or fewer. *)
Lemma thd_op_inv k g :
  k <> 0 -> lg_inv g ->
  let g' := lg_op (rs_HandleInsThdUpdate (k * rs_concurrentNum (lg_rs g))) g in
  lg_inv g' /\ lg_downs g <= lg_downs g' /\ rs_targetRsvInsNum (lg_rs g') = rs_targetRsvInsNum (lg_rs g) /\
  rs_currentRsvInsNum (lg_rs g') = rs_currentRsvInsNum (lg_rs g) + k /\ rs_enable (lg_rs g') = rs_enable (lg_rs g).
Proof.
  intros Hk [Hp Hu Hd Hc He Hx] g'. set (c := rs_concurrentNum (lg_rs g)) in *.
  destruct (lg_op_inv (rs_HandleInsThdUpdate (k * c)) g) as (H1 & H2 & H3 & H4 & H5); try done;
    fold g' in H1, H2, H3, H4, H5 || idtac; unfold rs_HandleInsThdUpdate in *; rewrite (proj2 (Z.eqb_neq (k * c) 0)) in * by nia;
    try done.
  simpl in *. fold c in H4. rewrite go_quot_mul in H4 by done. done.
Qed.

Lemma lg_step_inv g ev : lg_inv g -> lg_inv (lg_step g ev).
Proof.
  intros Hi. pose proof Hi as [Hp Hu Hd Hc He Hx]. destruct ev as [b| |n|n| |err| |n|n]; simpl.
  - apply lg_op_inv; try done; unfold rs_SetEnable; destruct (Bool.eqb b _) eqn:E; try done. simpl. congruence.
  - apply lg_op_inv; simpl; done || congruence.
  - apply lg_op_inv; simpl; done || congruence.
  - apply lg_op_inv; try done. apply GetConcurrentNum_nonzero.
  - destruct (lg_ups g <=? 0) eqn:E; [done|]. apply lg_op_inv; simpl; try lia; unfold rs_HandleInsThdUpdate;
      destruct (_ =? 0) eqn:E0; simpl in *; done || lia.
  - destruct (lg_ups g <=? 0) eqn:E; [done|]. apply lg_op_inv; simpl; try lia; unfold rs_HandleCreateError;
      repeat case_match; done.
  - destruct (lg_downs g <=? 0) eqn:E; [done|]. replace (- rs_concurrentNum (lg_rs g)) with (-1 * rs_concurrentNum (lg_rs g)) by lia.
    destruct (thd_op_inv (-1) g) as ([Hp' Hu' Hd' Hc' He' Hx'] & Hm & Ht & Hcur & Hen); [done..|].
    set (g' := lg_op _ g) in *. split; simpl; try done; try lia. intros H1. rewrite Hen in H1. specialize (Hx H1). lia.
  - apply lg_op_inv; simpl; try lia; unfold rs_HandleInsThdUpdate; destruct (_ =? 0); done.
  - apply lg_op_inv; simpl; try lia; unfold rs_HandleInsThdUpdate; destruct (_ =? 0); done.
Qed.

Lemma lg_run_inv evs g : lg_inv g -> lg_inv (lg_run evs g).
Proof. revert g. induction evs as [|ev evs IH]; intros g H; [done|]. apply IH, lg_step_inv, H. Qed.

(** A new scaler, told its concurrency by the queue's builder. *)
Definition lg_new (concurrentNum : Z) : ledger := lg_step (mkLedger NewReplicaScaler 0 0) (LgSpec concurrentNum).

Lemma lg_new_inv n : lg_inv (lg_new n).
Proof. split; simpl; try done. apply GetConcurrentNum_nonzero. Qed.




(** ** What interleaving loses *)

(** A scale-down that is wanted while another is about to report is lost.
    Let [k] instances have been popped whose callbacks have not run yet ([pending]
    is [-k] and the number of instances is the target), and let the
    configuration drop by at most [k]: [handleScale] takes the popped instances
    for removals still to come and asks for nothing.  When the callbacks have
    run, nothing is pending, nothing is asked for, and the scaler has more
    instances than it wants. *)
Theorem late_callback_strands_excess rs k n :
  rs_enable rs = true -> rs_pendingRsvInsNum rs = - k -> rs_currentRsvInsNum rs = rs_targetRsvInsNum rs ->
  0 <= n < rs_targetRsvInsNum rs -> rs_targetRsvInsNum rs - n <= k ->
  let '(rs1, scale) := rs_HandleInsConfigUpdate n rs in
  let rs2 := rs_handlePendingInsNumIncrease k rs1 in
  scale = true /\ handleScale false rs1 = (NoCall, rs1) /\
  rs_pendingRsvInsNum rs2 = 0 /\ n < rs_currentRsvInsNum rs2 /\ rs_CheckScaling rs2 = true.
Proof.
  intros He Hp Hc Hn Hk. unfold rs_HandleInsConfigUpdate. rewrite (proj2 (Z.ltb_ge n 0)) by lia.
  unfold handleScale, handleScale_read, handleScale_act, rs_CheckScaling. simpl. rewrite He, Hp, Hc. simpl.
  rs_cases; simpl; split_and!; try done; lia.
Qed.

Lemma late_callback_strands_excess_witness :
  let rs := mkReplica 4 (-1) 2 2 None true in
  let rs1 := (rs_HandleInsConfigUpdate 1 rs).1 in
  handleScale false rs1 = (NoCall, rs1) /\ rs_pendingRsvInsNum (rs_handlePendingInsNumIncrease 1 rs1) = 0.
Proof.
  split; apply (late_callback_strands_excess (mkReplica 4 (-1) 2 2 None true) 1 1); simpl; lia || reflexivity.
Defined.

(** ** Errors that should not be retried *)

Lemma failed_step err g :
  lg_inv g -> rs_enable (lg_rs g) = true -> lg_downs g = 0 -> 0 < lg_ups g ->
  rs_currentRsvInsNum (lg_rs g) + lg_ups g = rs_targetRsvInsNum (lg_rs g) -> IsNoNeedToRePullError err = false ->
  lg_step g (LgFailed err) = mkLedger (rs_set_error (Some err) (lg_rs g)) (lg_ups g) (lg_downs g).
Proof.
  intros [Hp _ _ _ _ _] He Hd Hu Ht Hn. simpl. rewrite (proj2 (Z.leb_gt _ 0)) by lia. unfold lg_op, rs_HandleCreateError.
  rewrite Hn, andb_false_r. destruct g as [[c p t cur ce en] ups downs]. simpl in *. subst en downs. rewrite Z.sub_0_r in Hp. subst p.
  destruct ce; simpl; unfold handleScale, handleScale_read, handleScale_act; simpl; rs_cases; simpl in *; try lia;
    f_equal; try lia; unfold rs_set_error, rs_set_pending; simpl; f_equal; lia.
Qed.

(** An error that should not be retried is retried at once, for ever.  Let
    every missing instance be under way, and let a creation fail with an error
    that [IsUnrecoverableError] names as not to be retried (and that is not the
    one error that disables the scaler).  However often that happens, the same
    number of creations is under way again right after each failure, and the
    scaler stays enabled. *)
Theorem unrecoverable_retried_forever err n g :
  lg_inv g -> rs_enable (lg_rs g) = true -> lg_downs g = 0 -> 0 < lg_ups g ->
  rs_currentRsvInsNum (lg_rs g) + lg_ups g = rs_targetRsvInsNum (lg_rs g) ->
  IsUnrecoverableError err = true -> IsNoNeedToRePullError err = false ->
  let g' := lg_run (replicate n (LgFailed err)) g in
  lg_ups g' = lg_ups g /\ rs_enable (lg_rs g') = true /\
  rs_currentRsvInsNum (lg_rs g') = rs_currentRsvInsNum (lg_rs g) /\
  (0 < n -> rs_createError (lg_rs g') = Some err)%nat.
Proof.
  intros Hi He Hd Hu Ht Hr Hn. revert g Hi He Hd Hu Ht. induction n as [|n IH]; intros g Hi He Hd Hu Ht.
  { split_and!; try done. lia. }
  cbn [replicate lg_run fold_left]. pose proof (lg_step_inv g (LgFailed err) Hi) as Hi'.
  rewrite (failed_step err g) in * by done.
  destruct (IH _ Hi' He Hd Hu Ht) as (H1 & H2 & H3 & H4). split_and!; try done. intros _.
  destruct n; [done|]. apply H4. lia.
Qed.

Lemma unrecoverable_retried_forever_witness :
  let g := lg_run [LgEnable true; LgConfig 2] (lg_new 1) in
  let g' := lg_run (replicate 7 (LgFailed (SNError 4001 "entry not found"))) g in
  lg_ups g = 2 /\ lg_ups g' = 2.
Proof.
  split; [vm_compute; reflexivity|].
  apply (unrecoverable_retried_forever (SNError 4001 "entry not found") 7 (lg_run [LgEnable true; LgConfig 2] (lg_new 1)));
    [apply lg_run_inv, lg_new_inv|vm_compute; reflexivity..].
Defined.

(** ** What the scheduler tells it *)

(** [ConnectWithInstanceScaler]: total and used threads are passed on.  What
    [handleScale] does afterwards leaves the number of instances alone. *)
Definition rs_hear rs (p : publication) : ReplicaScaler :=
  match p with
  | (TotalInsThdTopic, d) => (rs_HandleInsThdUpdate d rs).1
  | (InUseInsThdTopic, _) => (rs_HandleInsThdUpdate 0 rs).1
  | (AvailInsThdTopic, _) => rs
  end.
Definition rs_hear_all (ps : list publication) rs : ReplicaScaler := fold_left rs_hear ps rs.

Section Hears.
Context {Q : Type} `{InsQueueLaws Q} (c : Z) (Hc : c <> 0).
Implicit Types (o : instanceQueueWithObserver Q) (h : elems).

(** Every instance runs [c] threads. *)
Definition same_conc h : Prop := Forall (fun e => in_ConcurrentNum (el_instance e) = c) h.
Definition conc_event (ev : obs_event) : Prop :=
  match ev with ObPush e | ObUpdate _ e => in_ConcurrentNum (el_instance e) = c | _ => True end.
Definition whole (p : publication) : Prop := p.1 = TotalInsThdTopic -> (c | p.2).

Lemma whole_conc h a : same_conc h -> (c | conc_at h a).
Proof.
  intros Hs. unfold conc_at. destruct (h !! a) as [e|] eqn:E; [|apply Z.divide_0_r].
  by rewrite (Forall_lookup_1 _ _ _ _ Hs E).
Qed.

Lemma pubs_whole h a ps :
  same_conc h ->
  Forall (fun p => p.1 = TotalInsThdTopic -> p.2 = conc_at h a \/ p.2 = - conc_at h a) ps -> Forall whole ps.
Proof.
  intros Hs Hps. eapply Forall_impl; [exact Hps|]. intros p Hp Ht. pose proof (whole_conc h a Hs).
  destruct (Hp Ht) as [-> | ->]; [done|by apply Z.divide_opp_r].
Qed.

(** Unfolds an operation of the queue to the publications it makes. *)
Ltac pubs h a Hs := apply (pubs_whole h a); [exact Hs|]; repeat apply Forall_cons_2; try apply Forall_nil_2; cbn; intros; try discriminate; auto.

Lemma pop_whole h pub r o :
  same_conc h -> (pub = pub_gone \/ pub = pub_gone_sub) -> Forall whole (obs_pop h pub r o).1.2.
Proof. intros Hs [-> | ->]; destruct r as [[a|] i]; simpl; (pubs h a Hs || constructor). Qed.

Lemma obs_step_whole h o ev :
  same_conc h -> conc_event ev ->
  same_conc (obs_step h o ev).2.1 /\ Forall whole (obs_step h o ev).1.
Proof.
  intros Hs He. destruct ev as [e| | |order|id|id e]; simpl in *.
  - assert (same_conc (h ++ [e])) as Hs' by (apply Forall_app; split; [done|by repeat constructor]).
    unfold obs_PushBack. destruct (rec_PushBack _ _ _) as [[err|] i]; simpl; (split; [done|]); [constructor|].
    repeat case_match; pubs (h ++ [e]) (length (h ++ [e]) - 1)%nat Hs'.
  - pose proof (pop_whole h pub_gone (rec_PopFront (obs_rec o)) o Hs ltac:(auto)). unfold obs_PopFront.
    by destruct (obs_pop _ _ _ _) as [[? ?] ?].
  - pose proof (pop_whole h pub_gone (rec_PopBack (obs_rec o)) o Hs ltac:(auto)). unfold obs_PopBack.
    by destruct (obs_pop _ _ _ _) as [[? ?] ?].
  - pose proof (pop_whole h pub_gone_sub (rec_PopSubHealth h order (obs_rec o)) o Hs ltac:(auto)). unfold obs_PopSubHealth.
    by destruct (obs_pop _ _ _ _) as [[? ?] ?].
  - unfold obs_DelByID. destruct (decide _); simpl; [by repeat constructor|].
    destruct (rec_GetByID h id _) as [a|]; [|by repeat constructor].
    destruct (rec_DelByID h id _) as [[err|] i]; simpl; (split; [done|]); [constructor|].
    repeat case_match; pubs h a Hs.
  - destruct (rec_GetByID h id _) as [a|]; [|by repeat constructor].
    assert (same_conc (<[a:=e]> h)) as Hs' by by apply Forall_insert.
    unfold obs_UpdateObjByID. destruct (rec_UpdateObjByID _ _ _ _) as [[err|] i]; simpl; [by repeat constructor|].
    destruct (obs_insAvailThdCount o !! id); simpl; (split; [done|]); [|constructor].
    unfold handleHealthInstanceUpdateMetrics, handleSubHealthInstanceUpdateMetrics. repeat case_match; pubs (<[a:=e]> h) a Hs'.
Qed.

Lemma obs_run_whole evs h o :
  same_conc h -> Forall conc_event evs -> same_conc (obs_run h o evs).2.1 /\ Forall whole (obs_run h o evs).1.
Proof.
  intros Hs He. revert h o Hs. induction He as [|ev evs Hev _ IH]; intros h o Hs; [by repeat constructor|]. simpl.
  destruct (obs_step_whole h o ev Hs Hev) as [Hs1 Hw]. destruct (obs_step h o ev) as [p [h1 o1]]. simpl in *.
  destruct (IH h1 o1 Hs1) as [Hs2 Hw2]. destruct (obs_run h1 o1 evs) as [ps [h2 o2]]. simpl in *.
  split; [done|]. by apply Forall_app.
Qed.

(** The total the scaler hears is the total that is published. *)
Lemma rs_hear_all_total ps rs (g : gauges) :
  rs_concurrentNum rs = c -> Forall whole ps -> rs_currentRsvInsNum rs * c = g_total g ->
  rs_concurrentNum (rs_hear_all ps rs) = c /\
  rs_currentRsvInsNum (rs_hear_all ps rs) * c = g_total (publish_all g ps).
Proof.
  intros Hn Hw. revert rs g Hn. induction Hw as [|[t d] ps Hp _ IH]; intros rs g Hn Hg; [done|]. simpl.
  unfold publish_all. simpl. apply IH; destruct t; simpl; try done; unfold rs_HandleInsThdUpdate;
    destruct (d =? 0) eqn:E; simpl; try done; try lia.
  destruct (Hp eq_refl) as [k Hk]. simpl in Hk. subst d. rewrite Hn, go_quot_mul by done. lia.
Qed.

Lemma lsum_conc h l : same_conc h -> (forall a, a ∈ l -> is_Some (h !! a)) -> lsum (conc_at h) l = Z.of_nat (length l) * c.
Proof.
  intros Hs. induction l as [|a l IH]; intros Hv; [done|]. simpl. rewrite IH by set_solver.
  destruct (Hv a ltac:(set_solver)) as [e Ha]. unfold conc_at. rewrite Ha, (Forall_lookup_1 _ _ _ _ Hs Ha). lia.
Qed.

Lemma msum_conc h (m : gmap string nat) :
  same_conc h -> (forall id a, m !! id = Some a -> is_Some (h !! a)) ->
  msum (fun _ a => conc_at h a) m = Z.of_nat (size m) * c.
Proof.
  intros Hs. induction m as [|id a m Hm IH] using map_ind; intros Hv; [by rewrite msum_empty, map_size_empty|].
  rewrite msum_insert, map_size_insert_None, IH by (done || (intros id' b Hb; apply (Hv id'); rewrite lookup_insert_ne; congruence)).
  destruct (Hv id a (lookup_insert_eq _ _ _)) as [e Ha]. unfold conc_at. rewrite Ha, (Forall_lookup_1 _ _ _ _ Hs Ha). lia.
Qed.

Lemma expected_total h o : obs_inv h o -> same_conc h -> g_total (expected h (obs_rec o)) = Z.of_nat (rec_Len (obs_rec o)) * c.
Proof.
  intros [Hok _ _] Hs. simpl. unfold rec_Len. rewrite q_len_ok, lsum_conc, msum_conc; [lia|done| |done|].
  - intros id a Ha. by eapply (ro_sub h (obs_rec o) Hok).
  - intros a Ha. eapply q_valid; [apply Hok|done].
Qed.

(** The replica scaler counts the instances.  Let every instance of the
    function run as many threads as the scaler divides by, and let the scaler
    know the number of instances of its scheduler's own queue.  After any
    orderly sequence of instances coming, going, failing and recovering, and
    whatever is published about it, the scaler's number is again the number the
    scheduler reports: running and sub-healthy instances, without the evicting
    ones. *)
Theorem scaler_counts_instances h o evs rs :
  obs_inv h o -> orderly h o evs -> same_conc h -> Forall conc_event evs ->
  rs_concurrentNum rs = c -> rs_currentRsvInsNum rs = Z.of_nat (rec_Len (obs_rec o)) ->
  let r := obs_run h o evs in
  rs_currentRsvInsNum (rs_hear_all r.1 rs) = Z.of_nat (rec_Len (obs_rec r.2.2)).
Proof.
  intros Hi Ho Hs He Hn Hcur r. pose proof (obs_run_exact evs h o no_gauges Hi Ho) as Hx.
  destruct (obs_run_whole evs h o Hs He) as [Hs' Hw]. fold r in Hs', Hw.
  destruct (rs_hear_all_total r.1 rs (expected h (obs_rec o)) Hn Hw) as [_ Ht].
  { rewrite expected_total by done. by rewrite Hcur. }
  subst r. destruct (obs_run h o evs) as [ps [h' o']]. simpl in *. destruct Hx as [Hi' Hx]. rewrite !gadd_none in Hx.
  rewrite Hx, expected_total in Ht by done. nia.
Qed.
End Hears.

Lemma scaler_counts_instances_witness :
  let r := obs_run [] emptyReserved
    [ObPush (demoElem "a" 3 KernelInstanceStatusRunning); ObPush (demoElem "b" 3 KernelInstanceStatusRunning);
     ObUpdate "a" (demoElem "a" 3 KernelInstanceStatusSubHealth); ObDel "b"] in
  rec_Len (obs_rec r.2.2) = 1%nat /\
  rs_currentRsvInsNum (rs_hear_all r.1 (mkReplica 3 0 0 0 None true)) = Z.of_nat (rec_Len (obs_rec r.2.2)).
Proof.
  split; [vm_compute; reflexivity|].
  apply (scaler_counts_instances (Q := reservedQueue) 3 ltac:(done) [] emptyReserved _ (mkReplica 3 0 0 0 None true) emptyReserved_inv).
  - cbn [orderly]. repeat (split; [vm_compute; intuition (auto; discriminate)|]). exact I.
  - constructor.
  - repeat constructor.
  - reflexivity.
  - reflexivity.
Defined.
