(* ===== verification/ScaleQueue.v ===== *)
(** * The queue of reserved instances

    [ScaledInstanceQueue] (pkg/functionscaler/instancequeue/scaled_instance_queue.go)
    between the replica scaler and the scheduler: it queues the instances the
    scaler asks for, a worker starts a goroutine for each that creates it with
    retries, and goroutines of their own remove instances.

    The goroutines run interleaved.  A goroutine is the list of the atomic steps
    it has still to take: a critical section, a call, a check; a step may put
    further steps in front.  What the services and the scheduler answer (an
    instance or an error, the changes of the number of threads that the
    scheduler publishes) comes with the step. *)
From S2P Require Import Prelude SchedErrors DeHeap FifoQueue CreateQueue ConcSched ReplicaScaler.

Notation initialErrorDelay := (1 * Second)%Z (only parsing).
Notation retryDelayLimit := (16 * Second)%Z (only parsing).
Notation retryDelayFactor := (2)%Z (only parsing).

(** These are values of their own package, not the scheduler's sentinels. *)
Notation errFuncSigMismatch := (PlainError "function signature mismatch") (only parsing).
Notation errFunctionDeleted := (PlainError "function is deleted") (only parsing).

(** Where [scaleUpInstanceWithRetry] stands: at the head of its loop's body, entering
    [createInstance], in [createInstanceFunc], back from it, at the end of the
    loop's body, before the callback, after it. *)
Inductive up_pc :=
  | UpLoop (retryDelay : Z)
  | UpEnter (retryDelay : Z)
  | UpCalled (retryDelay : Z) (functionSignature : string)
  | UpCheck (retryDelay : Z) (functionSignature : string) (instance : option string) (createErr : option goError)
  | UpDecide (retryDelay : Z) (instance : option string) (createErr : option goError)
  | UpCallback (instance : option string) (createErr : option goError)
  | UpFinish (instance : option string) (createErr : option goError).

(** [scaleDownInstance]: at its check, cancelling, popping, at its deferred
    callback. *)
Inductive down_pc := DnStart | DnCancel | DnPop | DnCallback.

(** The operations of the scaler that take its lock. *)
Inductive rs_call :=
  | RsSetEnable (enable : bool) | RsTrigger | RsThd (totalInsThdDiff : Z) | RsSpec (concurrentNum : Z)
  | RsConfig (minInstance : Z) | RsError (err : option goError) | RsDestroy.

Inductive act :=
  | ARs (o : rs_call)
  | AScaleRead | AScaleAct (scaleNum : Z)
  | APush (n : nat)                 (* [ScaleUpHandler]'s loop, requests to go *)
  | AGoDown (n : nat)               (* [ScaleDownHandler]'s loop *)
  | AUp (pc : up_pc)
  | ADown (pc : down_pc)
  | ASpec (signature : string) (concurrentNum : Z)
  | AEnable                         (* [SetEnable(si.isFuncOwner)] *)
  | ARecovered (funcSig : string)   (* an instance with another signature is faulty *)
  | AUpdated
  | AOwner (isFuncOwner : bool)
  | ASched                          (* a call of the scheduler that may publish *)
  | AClean                          (* [cleanInstances] *)
  | AStop | AStopCreates.

(** Where the worker stands: at its check of [stopCh], entering [getForCreate],
    waiting there, woken, gone. *)
Inductive worker_pc := WkCheck | WkGet | WkWait | WkWoken | WkGone.

Record answer := mkAnswer {
  an_instance : option string;
  an_err : option goError;
  an_diffs : list Z;
  an_trace : option string
}.

(** [sq_cancelled] and [sq_abandoned] are what the text of the theorems counts:
    creations that were cancelled, and creations less removals that were given up
    because the function was deleted. *)
Record ScaledInstanceQueue := mkScaled {
  sq_scaler : ReplicaScaler;
  sq_insCreateQueue : InstanceCreateQueue (Req := option string);
  sq_funcSig : string;
  sq_concurrentNum : Z;
  sq_updating : bool;
  sq_isFuncOwner : bool;
  sq_stopCh : bool;
  sq_funcDone : bool;
  sq_worker : worker_pc;
  sq_goroutines : list (list act);
  sq_cancelled : Z;
  sq_abandoned : Z
}.
Implicit Types (si : ScaledInstanceQueue).

Definition set_scaler (rs : ReplicaScaler) si : ScaledInstanceQueue :=
  mkScaled rs (sq_insCreateQueue si) (sq_funcSig si) (sq_concurrentNum si) (sq_updating si) (sq_isFuncOwner si)
    (sq_stopCh si) (sq_funcDone si) (sq_worker si) (sq_goroutines si) (sq_cancelled si) (sq_abandoned si).
Definition set_creates (iq : InstanceCreateQueue) (w : worker_pc) si : ScaledInstanceQueue :=
  mkScaled (sq_scaler si) iq (sq_funcSig si) (sq_concurrentNum si) (sq_updating si) (sq_isFuncOwner si)
    (sq_stopCh si) (sq_funcDone si) w (sq_goroutines si) (sq_cancelled si) (sq_abandoned si).
Definition set_function (sig : string) (concurrentNum : Z) (updating owner stop done : bool) si : ScaledInstanceQueue :=
  mkScaled (sq_scaler si) (sq_insCreateQueue si) sig concurrentNum updating owner
    stop done (sq_worker si) (sq_goroutines si) (sq_cancelled si) (sq_abandoned si).
Definition set_goroutines (gs : list (list act)) si : ScaledInstanceQueue :=
  mkScaled (sq_scaler si) (sq_insCreateQueue si) (sq_funcSig si) (sq_concurrentNum si) (sq_updating si)
    (sq_isFuncOwner si) (sq_stopCh si) (sq_funcDone si) (sq_worker si) gs (sq_cancelled si) (sq_abandoned si).
Definition set_lost (cancelled abandoned : Z) si : ScaledInstanceQueue :=
  mkScaled (sq_scaler si) (sq_insCreateQueue si) (sq_funcSig si) (sq_concurrentNum si) (sq_updating si)
    (sq_isFuncOwner si) (sq_stopCh si) (sq_funcDone si) (sq_worker si) (sq_goroutines si) cancelled abandoned.

Section Queue.
(** The global configuration: [DisableReplicaScaler],
    [ReservedInstanceAlwaysRetry], and whether the scenario is the wise cloud. *)
Context (disableReplicaScaler alwaysRetry wiseCloud : bool).

(** ** The scaler's sections *)

Definition rs_section (o : rs_call) (rs : ReplicaScaler) : ReplicaScaler * bool :=
  match o with
  | RsSetEnable b => rs_SetEnable b rs
  | RsTrigger => rs_TriggerScale rs
  | RsThd d => rs_HandleInsThdUpdate d rs
  | RsSpec n => rs_HandleFuncSpecUpdate n rs
  | RsConfig n => rs_HandleInsConfigUpdate n rs
  | RsError e => rs_HandleCreateError e rs
  | RsDestroy => (rs_Destroy rs, false)
  end.

(** What the publications of the scheduler make the goroutine do next. *)
Definition published (diffs : list Z) : list act := (fun d => ARs (RsThd d)) <$> diffs.

(** ** Creating instances *)

(** A signal, or a broadcast, wakes the worker when it waits. *)
Definition wake (w : worker_pc) : worker_pc := match w with WkWait => WkWoken | w => w end.

(** One round of [ScaleUpHandler]'s loop. *)
Definition ScaleUpHandler (n : nat) (trace : option string) si : ScaledInstanceQueue * list act :=
  match n with
  | O => (si, [])
  | S n => (set_creates (push trace (sq_insCreateQueue si)) (wake (sq_worker si)) si, [APush n])
  end.

Definition createInstance (pc : up_pc) (ans : answer) si : list act :=
  match pc with
  | UpEnter d => [AUp (UpCalled d (sq_funcSig si))]
  | UpCalled d functionSignature => [AUp (UpCheck d functionSignature (an_instance ans) (an_err ans))]
  | UpCheck d functionSignature instance createErr =>
      let createErr :=
        if sq_funcDone si then Some errFunctionDeleted
        else if negb (String.eqb functionSignature (sq_funcSig si)) then Some errFuncSigMismatch
        else createErr in
      (* the deferred calls *)
      [ARs (RsError createErr); ASched; AUp (UpDecide d instance createErr)]
  | _ => []
  end.

Definition scaleUpInstanceWithRetry (pc : up_pc) (ans : answer) si : ScaledInstanceQueue * list act :=
  match pc with
  | UpLoop d =>
      if sq_funcDone si then (set_lost (sq_cancelled si) (sq_abandoned si + 1) si, [])
      else (si, [AUp (UpEnter d)])
  | UpDecide d instance createErr =>
      let next := d * retryDelayFactor in
      let leave := (si, [AUp (UpCallback instance createErr)]) in
      let again := if retryDelayLimit <? next then leave else (si, [AUp (UpLoop next)]) in
      match createErr, instance with
      | None, Some _ => leave
      | _, _ =>
          if alwaysRetry then again
          else if match createErr with Some err => IsUnrecoverableError err | None => false end then leave
          else again
      end
  | UpCallback instance createErr =>
      (set_scaler (rs_handlePendingInsNumDecrease 1 (sq_scaler si)) si, [AUp (UpFinish instance createErr)])
  | UpFinish instance createErr =>
      match createErr, instance with
      | None, Some _ => (si, published (an_diffs ans))      (* [AddInstance] *)
      | _, _ => (si, [ARs (RsError createErr); ASched])
      end
  | pc => (si, createInstance pc ans si)
  end.

(** The worker: [None] while it waits, or when it is gone. *)
Definition startScaleUpWorker si : option ScaledInstanceQueue :=
  let take :=
    match getForCreate (sq_insCreateQueue si) with
    | (Some _, iq) => set_goroutines (sq_goroutines si ++ [[AUp (UpLoop initialErrorDelay)]]) (set_creates iq WkCheck si)
    | (None, iq) => set_creates iq WkCheck si
    end in
  match sq_worker si with
  | WkCheck => Some (set_creates (sq_insCreateQueue si) (if sq_stopCh si then WkGone else WkGet) si)
  | WkGet => Some (match cq_createHead (sq_insCreateQueue si) with
                   | None => set_creates (sq_insCreateQueue si) WkWait si
                   | Some _ => take
                   end)
  | WkWoken => Some take
  | WkWait | WkGone => None
  end.

(** ** Removing instances *)

Definition ScaleDownHandler (n : nat) si : ScaledInstanceQueue * list act :=
  (set_goroutines (sq_goroutines si ++ replicate n [ADown DnStart]) si, []).

Definition scaleDownInstance (pc : down_pc) (ans : answer) si : ScaledInstanceQueue * list act :=
  match pc with
  | DnStart => if sq_funcDone si then (set_lost (sq_cancelled si) (sq_abandoned si - 1) si, []) else (si, [ADown DnCancel])
  | DnCancel =>
      match getForCancel (sq_insCreateQueue si) with
      | (Some _, iq) => (set_lost (sq_cancelled si + 1) (sq_abandoned si) (set_creates iq (sq_worker si) si), [ADown DnCallback])
      | (None, iq) => (set_creates iq (sq_worker si) si, [ADown DnPop])
      end
  | DnPop => (si, published (an_diffs ans) ++ [ADown DnCallback])
  | DnCallback => (set_scaler (rs_handlePendingInsNumIncrease 1 (sq_scaler si)) si, [])
  end.

(** ** The other operations *)

Definition cleanInstances (ans : answer) : list act :=
  match an_instance ans with
  | Some _ => published (an_diffs ans) ++ [AClean]
  | None => []
  end.

(** The first section; the steps that follow it end in [AUpdated]. *)
Definition sq_HandleFuncSpecUpdate (signature : string) (concurrentNum : Z) si : ScaledInstanceQueue * list act :=
  if String.eqb (sq_funcSig si) signature then (si, []) else
  (set_function signature (GetConcurrentNum concurrentNum) true (sq_isFuncOwner si) (sq_stopCh si) (sq_funcDone si) si,
   (if wiseCloud then [] else [AClean]) ++ [ASched; ARs (RsSpec concurrentNum); AEnable; AUpdated]).

Definition HandleFuncOwnerChange (isFuncOwner : bool) si : ScaledInstanceQueue * list act :=
  if Bool.eqb (sq_isFuncOwner si) isFuncOwner then (si, []) else
  (set_function (sq_funcSig si) (sq_concurrentNum si) (sq_updating si) isFuncOwner (sq_stopCh si) (sq_funcDone si) si,
   [ARs (RsSetEnable false); ASched; ARs (RsSetEnable isFuncOwner)]).

(** The signatures of the instances, in the order of the map. *)
Definition RecoverInstance (signatures : list string) : list act :=
  ARs (RsSetEnable false) :: concat ((fun sig => [ASched; ARecovered sig]) <$> signatures).

Definition sq_EnableInstanceScale si : list act := [ARs (RsSetEnable (sq_isFuncOwner si))].

(** The scheduler is destroyed between the queue and the scaler. *)
Definition sq_Destroy : list act := [AStop; AStopCreates; ASched; ARs RsDestroy; AClean].

(** One step of a goroutine: the steps it puts in front of the rest. *)
Definition act_step (a : act) (ans : answer) si : ScaledInstanceQueue * list act :=
  let fn updating stop := set_function (sq_funcSig si) (sq_concurrentNum si) updating (sq_isFuncOwner si) stop (sq_funcDone si) si in
  match a with
  | ARs o => let '(rs, scale) := rs_section o (sq_scaler si) in
             (set_scaler rs si, if scale : bool then [AScaleRead] else [])
  | AScaleRead =>
      (si, match handleScale_read disableReplicaScaler (sq_scaler si) with Some n => [AScaleAct n] | None => [] end)
  | AScaleAct scaleNum =>
      let '(c, rs) := handleScale_act scaleNum (sq_scaler si) in
      (set_scaler rs si,
       match c with
       | NoCall => []
       | CallScaleUp n => [APush (Z.to_nat n)]
       | CallScaleDown n => [AGoDown (Z.to_nat n)]
       end)
  | APush n => ScaleUpHandler n (an_trace ans) si
  | AGoDown n => ScaleDownHandler n si
  | AUp pc => scaleUpInstanceWithRetry pc ans si
  | ADown pc => scaleDownInstance pc ans si
  | ASpec sig n => sq_HandleFuncSpecUpdate sig n si
  | AEnable => (si, sq_EnableInstanceScale si)
  | ARecovered sig => (si, if String.eqb (sq_funcSig si) sig then [] else [ASched])
  | AUpdated => (fn false (sq_stopCh si), [])
  | AOwner b => HandleFuncOwnerChange b si
  | ASched => (si, published (an_diffs ans))
  | AClean => (si, cleanInstances ans)
  | AStop => (fn (sq_updating si) true, [])
  | AStopCreates => (set_creates (destroy (sq_insCreateQueue si)) (wake (sq_worker si)) si, [])
  end.

(** What the queue is asked to do; each request is a goroutine. *)
Inductive sq_call :=
  | CallSpec (signature : string) (concurrentNum : Z)
  | CallConfig (minInstance : Z)
  | CallOwner (isFuncOwner : bool)
  | CallEnable
  | CallTrigger
  | CallInstance                  (* an instance event, or a faulty instance *)
  | CallRecover (signatures : list string)
  | CallDestroy.
Definition program (c : sq_call) : list act :=
  match c with
  | CallSpec sig n => [ASpec sig n]
  | CallConfig n => [ARs (RsConfig n)]
  | CallOwner b => [AOwner b]
  | CallEnable => [AEnable]
  | CallTrigger => [ARs RsTrigger]
  | CallInstance => [ASched]
  | CallRecover sigs => RecoverInstance sigs
  | CallDestroy => sq_Destroy
  end.

Inductive sq_event :=
  | EvCall (c : sq_call)
  | EvStep (g : nat) (ans : answer)
  | EvWorker
  | EvFuncDeleted.

Definition sq_step si (ev : sq_event) : ScaledInstanceQueue :=
  match ev with
  | EvCall c => set_goroutines (sq_goroutines si ++ [program c]) si
  | EvStep g ans =>
      match sq_goroutines si !! g with
      | Some (a :: rest) =>
          let '(si, front) := act_step a ans si in
          set_goroutines (<[g:=front ++ rest]> (sq_goroutines si)) si
      | _ => si
      end
  | EvWorker => default si (startScaleUpWorker si)
  | EvFuncDeleted =>
      set_function (sq_funcSig si) (sq_concurrentNum si) (sq_updating si) (sq_isFuncOwner si) (sq_stopCh si) true si
  end.
Definition sq_run (evs : list sq_event) si : ScaledInstanceQueue := fold_left sq_step evs si.

(** A queue as its builder leaves it: the scaler knows the concurrency. *)
Definition NewScaledInstanceQueue (sig : string) (concurrentNum : Z) (isFuncOwner : bool) : ScaledInstanceQueue :=
  mkScaled (rs_HandleFuncSpecUpdate concurrentNum NewReplicaScaler).1 NewInstanceCreateQueue sig
    (GetConcurrentNum concurrentNum) false isFuncOwner false false WkCheck [] 0 0.

(** ** What is under way *)

(** The creations, and the removals, a step still has to report. *)
Definition act_ups (a : act) : Z :=
  match a with
  | APush n => Z.of_nat n
  | AUp (UpFinish _ _) => 0
  | AUp _ => 1
  | _ => 0
  end.
Definition act_downs (a : act) : Z :=
  match a with AGoDown n => Z.of_nat n | ADown _ => 1 | _ => 0 end.
Definition gsum {A} (f : A -> Z) (l : list A) : Z := foldr (fun a acc => f a + acc) 0 l.

Definition creating si : Z :=
  Z.of_nat (getQueLen (sq_insCreateQueue si)) + gsum (gsum act_ups) (sq_goroutines si).
Definition removing si : Z := gsum (gsum act_downs) (sq_goroutines si).

(** ** Nothing is lost, under any interleaving *)

Lemma gsum_app {A} (f : A -> Z) l k : gsum f (l ++ k) = gsum f l + gsum f k.
Proof. induction l as [|a l IH]; simpl; lia. Qed.

Lemma gsum_insert {A} (f : A -> Z) l i x y : l !! i = Some x -> gsum f (<[i:=y]> l) = gsum f l - f x + f y.
Proof. revert i. induction l as [|a l IH]; intros [|i] Hi; simplify_eq/=; [lia|]. rewrite (IH i Hi). lia. Qed.

Lemma gsum_replicate {A} (f : A -> Z) n x : gsum f (replicate n x) = Z.of_nat n * f x.
Proof. induction n as [|n IH]; simpl; [done|]. rewrite IH. lia. Qed.

Lemma gsum_sub {A} (f g : A -> Z) l : gsum (fun a => f a - g a) l = gsum f l - gsum g l.
Proof. induction l as [|a l IH]; simpl; lia. Qed.

(** What a step has still to report, creations less removals. *)
Definition weight (a : act) : Z := act_ups a - act_downs a.

Lemma weights gs : gsum (gsum weight) gs = gsum (gsum act_ups) gs - gsum (gsum act_downs) gs.
Proof. induction gs as [|g gs IH]; simpl; [done|]. rewrite IH. unfold weight at 1. rewrite gsum_sub. lia. Qed.

Lemma published_weight ds : gsum weight (published ds) = 0.
Proof. induction ds as [|d ds IH]; [done|]. exact IH. Qed.

(** What the goroutines must account for. *)
Definition tally si : Z :=
  rs_pendingRsvInsNum (sq_scaler si) - Z.of_nat (getQueLen (sq_insCreateQueue si)) - sq_cancelled si - sq_abandoned si.

Record sq_inv si : Prop := {
  si_queue : cq_wf (sq_insCreateQueue si);
  si_tally : tally si = gsum (gsum weight) (sq_goroutines si);
  si_awake : sq_worker si = WkWait -> cq_queue (sq_insCreateQueue si) = [];
  si_cancelled : 0 <= sq_cancelled si }.

(** A step that puts [front] in front and starts [spawned]. *)
Record booked (a : act) si (r : ScaledInstanceQueue * list act) : Prop := {
  bk_queue : cq_wf (sq_insCreateQueue r.1);
  bk_awake : sq_worker r.1 = WkWait -> cq_queue (sq_insCreateQueue r.1) = [];
  bk_cancelled : 0 <= sq_cancelled r.1;
  bk_tally : exists spawned, sq_goroutines r.1 = sq_goroutines si ++ spawned /\
    tally r.1 - gsum weight r.2 - gsum (gsum weight) spawned = tally si - weight a }.

(** A step that leaves the queue, the worker and the goroutines as they are. *)
Lemma booked_plain a si rs c b f :
  sq_inv si ->
  forall si', sq_scaler si' = rs -> sq_insCreateQueue si' = sq_insCreateQueue si -> sq_worker si' = sq_worker si ->
  sq_goroutines si' = sq_goroutines si -> sq_cancelled si' = c -> sq_abandoned si' = b -> 0 <= c ->
  rs_pendingRsvInsNum rs - c - b - gsum weight f
  = rs_pendingRsvInsNum (sq_scaler si) - sq_cancelled si - sq_abandoned si - weight a ->
  booked a si (si', f).
Proof.
  intros [Hq Ht Ha Hc] si' H1 H2 H3 H4 H5 H6 Hc0 Hw. split; simpl.
  - by rewrite H2.
  - by rewrite H2, H3.
  - lia.
  - exists []. rewrite app_nil_r. split; [done|]. unfold tally. rewrite H1, H2, H5, H6. simpl. lia.
Qed.

Lemma rs_section_pending o rs : rs_pendingRsvInsNum (rs_section o rs).1 = rs_pendingRsvInsNum rs.
Proof.
  destruct o; simpl; unfold rs_SetEnable, rs_HandleInsThdUpdate, rs_HandleCreateError; repeat case_match; done.
Qed.

Lemma up_booked pc ans si : sq_inv si -> booked (AUp pc) si (scaleUpInstanceWithRetry pc ans si).
Proof.
  intros Hi. assert (Hc := si_cancelled si Hi).
  destruct pc as [d|d|d sig|d sig i e|d i e|i e|i e]; simpl; repeat case_match;
    eapply booked_plain; try done; simpl; rewrite ?published_weight; unfold weight; simpl; lia.
Qed.

Lemma down_booked pc ans si : sq_inv si -> booked (ADown pc) si (scaleDownInstance pc ans si).
Proof.
  intros Hi. pose proof Hi as [Hq Ht Ha Hc].
  destruct pc; simpl; [case_match| | |];
    try (eapply booked_plain; try done; simpl; rewrite ?gsum_app, ?published_weight; unfold weight; simpl; lia).
  pose proof (getForCancel_took _ Hq) as [W Hl]. destruct (getForCancel (sq_insCreateQueue si)) as [[x|] iq] eqn:E; simpl in *.
  - split; simpl; [done| |lia|].
    + intros Hw. specialize (Ha Hw). unfold getQueLen in Hl. rewrite Ha in Hl. done.
    + exists []. rewrite app_nil_r. split; [done|]. unfold tally, weight. simpl. lia.
  - subst iq. eapply booked_plain; try done; simpl; unfold weight; simpl; lia.
Qed.

Lemma act_booked a ans si : sq_inv si -> booked a si (act_step a ans si).
Proof.
  intros Hi. pose proof Hi as [Hq Ht Ha Hc].
  destruct a as [o| |n|n|n|pc|pc|sig n| |sig| |b| | | |]; cbn [act_step];
    try (by apply up_booked); try (by apply down_booked).
  - pose proof (rs_section_pending o (sq_scaler si)) as Hp. destruct (rs_section o (sq_scaler si)) as [rs scale].
    eapply booked_plain; try done; simpl in *. destruct scale; unfold weight; simpl; lia.
  - destruct (handleScale_read _ _); eapply booked_plain; try done; unfold weight; simpl; lia.
  - destruct (handleScale_act_books n (sq_scaler si)) as [Hp Hv]. destruct (handleScale_act n (sq_scaler si)) as [c rs].
    simpl in *. eapply booked_plain; try done; simpl. destruct c; simpl in *; unfold weight; simpl; lia.
  - unfold ScaleUpHandler. destruct n as [|n]; [eapply booked_plain; try done; unfold weight; simpl; lia|].
    destruct (push_len (an_trace ans) _ Hq) as [W Hl]. split; simpl; [done| |done|].
    + by destruct (sq_worker si).
    + exists []. rewrite app_nil_r. split; [done|]. unfold tally, weight. simpl. rewrite Hl. lia.
  - split; simpl; [done..|]. exists (replicate n [ADown DnStart]). split; [done|]. rewrite gsum_replicate.
    unfold tally, weight. simpl. lia.
  - unfold sq_HandleFuncSpecUpdate. destruct (String.eqb _ _), wiseCloud; eapply booked_plain; try done; unfold weight; simpl; lia.
  - eapply booked_plain; try done; unfold weight; simpl; lia.
  - destruct (String.eqb _ sig); eapply booked_plain; try done; unfold weight; simpl; lia.
  - eapply booked_plain; try done; unfold weight; simpl; lia.
  - unfold HandleFuncOwnerChange. destruct (Bool.eqb _ _); eapply booked_plain; try done; unfold weight; simpl; lia.
  - eapply booked_plain; try done; rewrite published_weight; unfold weight; simpl; lia.
  - unfold cleanInstances. destruct (an_instance ans); eapply booked_plain; try done; rewrite ?gsum_app, ?published_weight;
      unfold weight; simpl; lia.
  - eapply booked_plain; try done; unfold weight; simpl; lia.
  - split; simpl; [by destruct Hq| |done|].
    + by destruct (sq_worker si).
    + exists []. rewrite app_nil_r. split; [done|]. unfold tally, weight. simpl. unfold getQueLen. simpl. lia.
Qed.

(** What the worker takes out of the queue it hands to a goroutine. *)
Lemma worker_take_inv si :
  sq_inv si ->
  sq_inv (match getForCreate (sq_insCreateQueue si) with
          | (Some _, iq) => set_goroutines (sq_goroutines si ++ [[AUp (UpLoop initialErrorDelay)]]) (set_creates iq WkCheck si)
          | (None, iq) => set_creates iq WkCheck si
          end).
Proof.
  intros [Hq Ht Ha Hc]. pose proof (getForCreate_took _ Hq) as [W Hl].
  destruct (getForCreate (sq_insCreateQueue si)) as [[x|] iq]; simpl in *; split; simpl; try done.
  - unfold tally in *. simpl. rewrite gsum_app, <- Ht. unfold weight. simpl. lia.
  - by subst.
Qed.

Lemma worker_inv si si' : startScaleUpWorker si = Some si' -> sq_inv si -> sq_inv si'.
Proof.
  intros Hs Hi. pose proof Hi as [Hq Ht Ha Hc]. unfold startScaleUpWorker in Hs. destruct (sq_worker si) eqn:Ew; try done.
  - injection Hs as <-. split; simpl; try done. by destruct (sq_stopCh si).
  - destruct (cq_createHead (sq_insCreateQueue si)) as [e|] eqn:E; injection Hs as <-; [by apply worker_take_inv|].
    split; simpl; try done. intros _. rewrite (cw_create _ Hq) in E. by destruct (cq_queue _).
  - injection Hs as <-. by apply worker_take_inv.
Qed.

Lemma program_weight c : gsum weight (program c) = 0.
Proof.
  destruct c as [| | | | | |sigs|]; try done. cbn [program]. unfold RecoverInstance.
  assert (gsum weight (concat ((fun sig => [ASched; ARecovered sig]) <$> sigs)) = 0) as E.
  { induction sigs as [|sig sigs IH]; [done|]. rewrite fmap_cons. cbn [concat]. by rewrite gsum_app, IH. }
  change (weight (ARs (RsSetEnable false)) + gsum weight (concat ((fun sig => [ASched; ARecovered sig]) <$> sigs)) = 0).
  by rewrite E.
Qed.

Lemma sq_step_inv si ev : sq_inv si -> sq_inv (sq_step si ev).
Proof.
  intros Hi. pose proof Hi as [Hq Ht Ha Hc]. destruct ev as [c|g ans| |]; simpl.
  - split; simpl; try done. unfold tally in *. simpl. rewrite gsum_app, Ht. simpl. rewrite program_weight. lia.
  - destruct (sq_goroutines si !! g) as [[|a rest]|] eqn:Eg; try done.
    destruct (act_booked a ans si Hi) as [Hq' Ha' Hc' (sp & Hgs & Hw)]. destruct (act_step a ans si) as [si' front].
    simpl in *. split; simpl; try done. assert (sq_goroutines si' !! g = Some (a :: rest)) as Eg'.
    { rewrite Hgs. by apply lookup_app_l_Some. }
    rewrite (gsum_insert _ _ _ _ _ Eg'), Hgs, gsum_app. unfold tally in *. simpl. rewrite gsum_app, Ht in *. lia.
  - destruct (startScaleUpWorker si) eqn:E; [by eapply worker_inv|done].
  - by split.
Qed.

Lemma sq_run_inv evs si : sq_inv si -> sq_inv (sq_run evs si).
Proof. revert si. induction evs as [|ev evs IH]; intros si Hi; [done|]. apply IH, sq_step_inv, Hi. Qed.

Lemma sq_new_inv sig n b : sq_inv (NewScaledInstanceQueue sig n b).
Proof. split; try done. split; try done; simpl; [apply NoDup_nil_2|set_solver]. Qed.

(** C4: nothing the scaler asked for is forgotten or counted twice.  From a new
    queue, under any interleaving of the requests, of [handleScale]'s two
    sections, of the worker, and of the goroutines that create (with their
    retries) and remove instances: [pending] is the number of creations that are
    queued or running, less the removals that are running, up to the creations
    that were cancelled in the queue and what was given up because the function
    was deleted.  And when the worker waits for a request there is none: no
    request sits in the queue unseen. *)
Theorem pending_exact sig concurrentNum isFuncOwner evs :
  let si := sq_run evs (NewScaledInstanceQueue sig concurrentNum isFuncOwner) in
  rs_pendingRsvInsNum (sq_scaler si) = creating si - removing si + sq_cancelled si + sq_abandoned si /\
  (sq_worker si = WkWait -> getQueLen (sq_insCreateQueue si) = 0%nat).
Proof.
  intros si. destruct (sq_run_inv evs _ (sq_new_inv sig concurrentNum isFuncOwner)) as [Hq Ht Ha Hc]. fold si in Hq, Ht, Ha.
  split.
  - unfold tally in Ht. rewrite weights in Ht. unfold creating, removing. lia.
  - intros Hw. unfold getQueLen. by rewrite (Ha Hw).
Qed.

(** ** What is lost *)

Definition at_rest si : Prop := Forall (fun g => g = []) (sq_goroutines si) /\ getQueLen (sq_insCreateQueue si) = 0%nat.

Lemma rest_sum (f : act -> Z) gs : Forall (fun g => g = []) gs -> gsum (gsum f) gs = 0.
Proof. induction 1 as [|g gs -> _ IH]; [done|]. simpl. lia. Qed.

(** C40: a cancelled creation is never forgotten.  A scale-down that finds a
    request in the queue takes it out, but the request's callback is not run, so
    it stays in [pending]: when the queue is at rest again, [pending] is the
    number of cancellations so far.  For ever after, as long as no more
    instances than that are missing, [handleScale] asks for none. *)
Theorem cancelled_creation_blocks sig concurrentNum isFuncOwner evs :
  let si := sq_run evs (NewScaledInstanceQueue sig concurrentNum isFuncOwner) in
  let rs := sq_scaler si in
  at_rest si -> sq_abandoned si = 0 ->
  rs_pendingRsvInsNum rs = sq_cancelled si /\
  (0 <= rs_targetRsvInsNum rs - rs_currentRsvInsNum rs <= sq_cancelled si ->
   handleScale disableReplicaScaler rs = (NoCall, rs)).
Proof.
  intros si rs [Hg Hq] Hab. destruct (sq_run_inv evs _ (sq_new_inv sig concurrentNum isFuncOwner)) as [_ Ht _ Hc].
  fold si in Ht, Hc. rewrite (rest_sum weight _ Hg) in Ht. unfold tally in Ht. rewrite Hq, Hab in Ht. fold rs in Ht.
  split; [lia|]. intros Hd. unfold handleScale, handleScale_read, handleScale_act. rs_cases; done || lia.
Qed.

Lemma idle_step si ev :
  Forall (fun g => g = []) (sq_goroutines si) -> sq_worker si = WkWait ->
  match ev with EvCall _ => False | _ => True end ->
  sq_goroutines (sq_step si ev) = sq_goroutines si /\ sq_worker (sq_step si ev) = WkWait.
Proof.
  intros Hg Hw Hev. destruct ev as [c|g ans| |]; simpl; try done.
  - destruct (sq_goroutines si !! g) as [[|a rest]|] eqn:E; try done. by pose proof (Forall_lookup_1 _ _ _ _ Hg E).
  - unfold startScaleUpWorker. by rewrite Hw.
Qed.

Lemma idle_run evs si :
  Forall (fun g => g = []) (sq_goroutines si) -> sq_worker si = WkWait ->
  Forall (fun ev => match ev with EvCall _ => False | _ => True end) evs -> sq_worker (sq_run evs si) = WkWait.
Proof.
  intros Hg Hw He. revert si Hg Hw. induction He as [|ev evs Hev _ IH]; intros si Hg Hw; [done|].
  destruct (idle_step si ev Hg Hw Hev) as [H1 H2]. apply IH; [by rewrite H1|done].
Qed.

(** [n] steps of goroutine [g], with nothing to answer. *)
Definition no_answer : answer := mkAnswer None None [] None.
Definition steps (g n : nat) : list sq_event := replicate n (EvStep g no_answer).

(** The queue is destroyed after the worker has looked at [stopCh]. *)
Definition destroy_demo : list sq_event := [EvWorker; EvCall CallDestroy] ++ steps 0 5 ++ [EvWorker].

(** The worker may outlive the queue.  The worker looks at [stopCh], and
    only then waits for a request; when [Destroy] closes the channel and wakes
    the waiters in between, the worker goes to sleep after the last wake-up.
    The queue is destroyed, every other goroutine has returned, and the worker
    waits whatever happens, until somebody calls the queue again. *)
Theorem worker_outlives_queue sig concurrentNum isFuncOwner :
  let si := sq_run destroy_demo (NewScaledInstanceQueue sig concurrentNum isFuncOwner) in
  at_rest si /\ sq_stopCh si = true /\ cq_stopped (sq_insCreateQueue si) = true /\
  forall evs, Forall (fun ev => match ev with EvCall _ => False | _ => True end) evs ->
    sq_worker (sq_run evs si) = WkWait.
Proof.
  intros si. split; [split; [repeat constructor|done]|]. split; [done|]. split; [done|].
  intros evs. apply idle_run; [repeat constructor|done].
Qed.
End Queue.

(** One instance is wanted and queued; one comes by itself, so none is wanted
    any more, and the scale-down cancels the queued one; the other is removed.
    Then one is wanted again. *)
Definition leak_demo : list sq_event :=
  let hears (g : nat) (d : Z) := [EvStep g (mkAnswer None None [d] None)] in
  EvCall CallEnable :: steps 0 4 ++ EvCall (CallConfig 1) :: steps 1 5 ++ EvCall CallInstance :: hears 2%nat 1 ++ steps 2 3 ++
  EvCall (CallConfig 0) :: steps 3 4 ++ steps 4 3 ++
  EvCall CallTrigger :: steps 5 4 ++ steps 6 2 ++ hears 6%nat (-1) ++ steps 6 4 ++
  EvCall (CallConfig 1) :: steps 7 3 ++ [EvWorker; EvWorker].

Lemma cancelled_creation_blocks_witness :
  let si := sq_run false false false leak_demo (NewScaledInstanceQueue "sig" 1 true) in
  let rs := sq_scaler si in
  rs_enable rs = true /\ rs_targetRsvInsNum rs = 1 /\ rs_currentRsvInsNum rs = 0 /\ sq_worker si = WkWait /\
  handleScale false rs = (NoCall, rs).
Proof.
  split; [vm_compute; reflexivity|]. split; [vm_compute; reflexivity|]. split; [vm_compute; reflexivity|].
  split; [vm_compute; reflexivity|].
  apply (cancelled_creation_blocks false false false "sig" 1 true leak_demo).
  - split; [vm_compute; repeat constructor|vm_compute; reflexivity].
  - vm_compute; reflexivity.
  - vm_compute. split; discriminate.
Defined.
