(* ===== verification/AutoScaler.v ===== *)
(** * The auto scaler

    [AutoScaler] (pkg/functionscaler/scaler/autoscaler.go) scales instances to the
    requests that wait for a thread.  It counts threads: those of the instances,
    those in use, and those pending (asked for and not yet reported, negative for
    removals).  A loop of its own scales up while requests wait, another scales
    down when threads are idle.

    The metrics are exact fractions and the rounding of floating point numbers
    is not modelled; thread counts are integers.  Every operation is its
    critical section.  The loops are step functions: a step chooses a case of
    the select, or runs the next section. *)
From Stdlib Require Import QArith Qround Qminmax Lqa.
From S2P Require Import Prelude ConcSched.
Open Scope Z_scope.

Notation minSLATime := (500 * Millisecond)%Z (only parsing).

Record AutoScaler := mkAuto {
  as_enable : bool;
  as_scaleUpWindow : Z;
  as_scaleDownWindow : Z;
  as_coldStartTime : Z;
  as_concurrentNum : Z;
  as_pendingInsThdNum : Z;
  as_inUseInsThdNum : Z;
  as_totalInsThdNum : Z;
  as_remainedInsThdReqNum : Z;
  as_minScaleDemand : Z;
  as_autoScaleUpFlag : bool;
  as_autoScaleDownFlag : bool;
  as_scaleUpTriggerCh : nat;
  as_scaleDownTriggerCh : nat;
  as_stopCh : bool
}.
Implicit Types (s : AutoScaler).

Definition NewAutoScaler (slaQuota scaleDownTime : Z) : AutoScaler :=
  let scaleUpWindow := if slaQuota * Millisecond <? minSLATime then minSLATime else slaQuota * Millisecond in
  let scaleDownWindow := if scaleDownTime * Millisecond <? scaleUpWindow then scaleUpWindow else scaleDownTime * Millisecond in
  mkAuto false scaleUpWindow scaleDownWindow 0 0 0 0 0 0 0 false false 0 0 false.

Definition as_set_config (enable : bool) (coldStart concurrentNum : Z) (stop : bool) s : AutoScaler :=
  mkAuto enable (as_scaleUpWindow s) (as_scaleDownWindow s) coldStart concurrentNum (as_pendingInsThdNum s)
    (as_inUseInsThdNum s) (as_totalInsThdNum s) (as_remainedInsThdReqNum s) (as_minScaleDemand s)
    (as_autoScaleUpFlag s) (as_autoScaleDownFlag s) (as_scaleUpTriggerCh s) (as_scaleDownTriggerCh s) stop.
Definition as_set_threads (pending inUse total : Z) s : AutoScaler :=
  mkAuto (as_enable s) (as_scaleUpWindow s) (as_scaleDownWindow s) (as_coldStartTime s) (as_concurrentNum s) pending
    inUse total (as_remainedInsThdReqNum s) (as_minScaleDemand s)
    (as_autoScaleUpFlag s) (as_autoScaleDownFlag s) (as_scaleUpTriggerCh s) (as_scaleDownTriggerCh s) (as_stopCh s).
Definition as_set_demand (remained minScaleDemand : Z) s : AutoScaler :=
  mkAuto (as_enable s) (as_scaleUpWindow s) (as_scaleDownWindow s) (as_coldStartTime s) (as_concurrentNum s)
    (as_pendingInsThdNum s) (as_inUseInsThdNum s) (as_totalInsThdNum s) remained minScaleDemand
    (as_autoScaleUpFlag s) (as_autoScaleDownFlag s) (as_scaleUpTriggerCh s) (as_scaleDownTriggerCh s) (as_stopCh s).
Definition as_set_trigger (up : bool) (upCh : nat) (down : bool) (downCh : nat) s : AutoScaler :=
  mkAuto (as_enable s) (as_scaleUpWindow s) (as_scaleDownWindow s) (as_coldStartTime s) (as_concurrentNum s)
    (as_pendingInsThdNum s) (as_inUseInsThdNum s) (as_totalInsThdNum s) (as_remainedInsThdReqNum s) (as_minScaleDemand s)
    up down upCh downCh (as_stopCh s).

(** ** Operations *)

Definition as_SetEnable (enable : bool) s : AutoScaler :=
  as_set_config enable (as_coldStartTime s) (as_concurrentNum s) (as_stopCh s) s.

(** [None]: the send blocks with the lock held. *)
Definition as_TriggerScale (minConcurrency : Z) s : option AutoScaler :=
  let s := if as_minScaleDemand s <? minConcurrency then as_set_demand (as_remainedInsThdReqNum s) minConcurrency s else s in
  if as_autoScaleUpFlag s then Some s else
  match as_scaleUpTriggerCh s with
  | O => Some (as_set_trigger true 1 (as_autoScaleDownFlag s) (as_scaleDownTriggerCh s) s)
  | S _ => None
  end.

Definition as_CheckScaling s : bool := as_autoScaleUpFlag s || as_autoScaleDownFlag s.

Definition as_GetExpectInstanceNumber s : Z := (as_totalInsThdNum s + as_pendingInsThdNum s) /g as_concurrentNum s.

Definition as_UpdateCreateMetrics (coldStartTime : Z) s : AutoScaler :=
  if as_coldStartTime s <? coldStartTime
  then as_set_config (as_enable s) coldStartTime (as_concurrentNum s) (as_stopCh s) s else s.

(** The send to the channel of one does not block. *)
Definition as_HandleInsThdUpdate (inUseInsThdDiff totalInsThdDiff : Z) s : AutoScaler :=
  let s := as_set_threads (as_pendingInsThdNum s) (as_inUseInsThdNum s + inUseInsThdDiff)
             (as_totalInsThdNum s + totalInsThdDiff) s in
  if as_concurrentNum s <=? as_totalInsThdNum s - as_inUseInsThdNum s
  then as_set_trigger (as_autoScaleUpFlag s) (as_scaleUpTriggerCh s) (as_autoScaleDownFlag s) 1 s else s.

Definition as_HandleFuncSpecUpdate (concurrentNum : Z) s : AutoScaler :=
  as_set_config (as_enable s) (as_coldStartTime s) (GetConcurrentNum concurrentNum) (as_stopCh s) s.

Definition as_Destroy s : AutoScaler :=
  as_set_config (as_enable s) (as_coldStartTime s) (as_concurrentNum s) true s.

Definition as_handlePendingInsNumIncrease (insDiff : Z) s : AutoScaler :=
  as_set_threads (as_pendingInsThdNum s + insDiff * as_concurrentNum s) (as_inUseInsThdNum s) (as_totalInsThdNum s) s.
Definition as_handlePendingInsNumDecrease (insDiff : Z) s : AutoScaler :=
  as_set_threads (as_pendingInsThdNum s - insDiff * as_concurrentNum s) (as_inUseInsThdNum s) (as_totalInsThdNum s) s.

(** What the collector calculates, once it has metrics: the time a request takes
    (which the scaler takes off seconds, and the collector has in milliseconds),
    requests a thread processes per second, requests that come per second. *)
Record invokeMetrics := mkMetrics { im_avgProcTime : Q; im_insThdProcNumPS : Q; im_insThdReqNumPS : Q }.

Definition Seconds (d : Z) : Q := d # 1000000000.
Definition ceilDiv (x c : Z) : Z := - ((- x) / c).

(** The threads the metrics call for, before what is pending is taken off. *)
Definition upNeed (m : invokeMetrics) (pendingInsThdReqNum : Z) s : Z :=
  let win := Seconds (as_scaleUpWindow s) in
  let procNumToDo := (inject_Z pendingInsThdReqNum + im_insThdReqNumPS m * win)%Q in
  let procCapAvail := (im_insThdProcNumPS m * inject_Z (as_inUseInsThdNum s) * Qmax (win - im_avgProcTime m) 0)%Q in
  let procNumToDo := Qmax (procNumToDo - procCapAvail) 0 in
  let procWindow := (win - Seconds (as_coldStartTime s))%Q in
  let scaleInsThdNum :=
    if Qle_bool procWindow 0 then Z.max (Qceiling procNumToDo) 0
    else Z.max (Qceiling (procNumToDo / im_insThdProcNumPS m / procWindow)) 0 in
  let scaleInsThdNum := Z.min scaleInsThdNum pendingInsThdReqNum in
  if as_remainedInsThdReqNum s <? pendingInsThdReqNum then Z.max scaleInsThdNum (as_remainedInsThdReqNum s) else scaleInsThdNum.

(** The number of instances the handler is called with, if it is called. *)
Definition scaleUpInstances (reqNum : Z) (metrics : option invokeMetrics) s : option Z * AutoScaler :=
  let pendingInsThdReqNum := Z.max reqNum (as_minScaleDemand s) in
  let s := as_set_demand (as_remainedInsThdReqNum s) 0 s in
  let ask n s := as_set_threads (as_pendingInsThdNum s + n * as_concurrentNum s) (as_inUseInsThdNum s) (as_totalInsThdNum s) s in
  match metrics with
  | None =>
      let scaleInsThdNum := Z.max (pendingInsThdReqNum - as_pendingInsThdNum s) 0 in
      let scaleInsNum := ceilDiv scaleInsThdNum (as_concurrentNum s) in
      (Some scaleInsNum, ask scaleInsNum s)
  | Some m =>
      if Qeq_bool (im_insThdProcNumPS m) 0 then (None, s) else
      let scaleInsThdNum := Z.max (upNeed m pendingInsThdReqNum s - as_pendingInsThdNum s) 0 in
      let s := as_set_demand (Z.max (pendingInsThdReqNum - scaleInsThdNum) 0) 0 s in
      let scaleInsNum := ceilDiv scaleInsThdNum (as_concurrentNum s) in
      if 0 <? scaleInsNum then (Some scaleInsNum, ask scaleInsNum s) else (None, s)
  end.

(** The idle threads the metrics see, before what is pending is added. *)
Definition downExcess (m : invokeMetrics) s : Z :=
  let up := Seconds (as_scaleUpWindow s) in
  let down := Seconds (as_scaleDownWindow s) in
  let procNumToDo := (im_insThdReqNumPS m * down)%Q in
  let procCapAvail := (im_insThdProcNumPS m * (inject_Z (Z.max (as_totalInsThdNum s - as_inUseInsThdNum s) 0) * down +
                        inject_Z (as_inUseInsThdNum s) * Qmax (up - im_avgProcTime m) 0))%Q in
  let procCapExcess := Qmax (procCapAvail - procNumToDo) 0 in
  Qceiling (procCapExcess / im_insThdProcNumPS m / down).

Definition scaleDownInstances (metrics : option invokeMetrics) s : option Z * AutoScaler :=
  let plan scaleInsThdNum := - Z.min (- scaleInsThdNum - as_pendingInsThdNum s) 0 / as_concurrentNum s in
  let ask n := as_set_threads (as_pendingInsThdNum s - n * as_concurrentNum s) (as_inUseInsThdNum s) (as_totalInsThdNum s) s in
  match metrics with
  | None =>
      let scaleInsNum := plan (Z.max (as_totalInsThdNum s - as_inUseInsThdNum s) 0) in
      (Some scaleInsNum, ask scaleInsNum)
  | Some m =>
      if Qeq_bool (im_insThdProcNumPS m) 0 then (None, s) else
      let scaleInsNum := plan (downExcess m s) in
      if 0 <? scaleInsNum then (Some scaleInsNum, ask scaleInsNum) else (None, s)
  end.

(** ** The loops *)

(** [scaleUpLoop]: in its select, a token of [scaleUpChan] taken, about to pause,
    about to scale, sleeping after a trigger, blocked in a send to its own
    [scaleUpChan], returned. *)
Inductive up_loop_pc := UlSelect | UlTaken | UlPause | UlScale | UlSleep | UlBlocked | UlGone.
(** [ul_ticking]: the ticker runs; [ul_tick]: ticks in its channel. *)
Record up_loop := mkUpLoop { ul_pc : up_loop_pc; ul_scaleUpChan : nat; ul_ticking : bool; ul_tick : nat }.
Implicit Types (l : up_loop).

Inductive up_choice := TakeScaleUp | TakeTrigger | TakeTick | TakeStop.

(** The send to [scaleUpChan], of capacity one, which only the loop itself
    receives from. *)
Definition send_scaleUp (ticking : bool) (tick : nat) l : up_loop :=
  match ul_scaleUpChan l with
  | O => mkUpLoop UlSelect 1 ticking tick
  | S _ => mkUpLoop UlBlocked (ul_scaleUpChan l) (ul_ticking l) tick
  end.

Definition pauseScale s l : AutoScaler * up_loop :=
  (as_set_trigger false (as_scaleUpTriggerCh s) (as_autoScaleDownFlag s) (as_scaleDownTriggerCh s) s,
   mkUpLoop UlSelect (ul_scaleUpChan l) false 0).

Definition scaleUpLoop (choice : up_choice) (reqNum : Z) (metrics : option invokeMetrics) s l
    : option Z * (AutoScaler * up_loop) :=
  let goto pc := mkUpLoop pc (ul_scaleUpChan l) (ul_ticking l) (ul_tick l) in
  match ul_pc l with
  | UlSelect =>
      match choice with
      | TakeScaleUp =>
          match ul_scaleUpChan l with
          | O => (None, (s, l))
          | S n => (None, (s, mkUpLoop UlTaken n (ul_ticking l) (ul_tick l)))
          end
      | TakeTrigger =>
          match as_scaleUpTriggerCh s with
          | O => (None, (s, l))
          | S n => (None, (as_set_trigger (as_autoScaleUpFlag s) n (as_autoScaleDownFlag s) (as_scaleDownTriggerCh s) s,
                           goto UlSleep))
          end
      | TakeTick =>
          match ul_tick l with O => (None, (s, l)) | S n => (None, (s, send_scaleUp (ul_ticking l) n l)) end
      | TakeStop => (None, (s, if as_stopCh s then goto UlGone else l))
      end
  | UlTaken => (None, (s, goto (if (reqNum =? 0) && (as_minScaleDemand s =? 0) then UlPause else UlScale)))
  | UlPause => (None, pauseScale s l)
  | UlScale => let '(call, s) := scaleUpInstances reqNum metrics s in (call, (s, goto UlSelect))
  | UlSleep => (None, (s, send_scaleUp true 0 l))
  | UlBlocked | UlGone => (None, (s, l))
  end.

(** [scaleDownLoop]: in its select, the timer fired, about to pause, returned. *)
Inductive down_loop_pc := DlSelect | DlScale | DlPause | DlGone.
Record down_loop := mkDownLoop { dl_pc : down_loop_pc; dl_armed : bool; dl_fired : nat }.
Inductive down_choice := DownTimer | DownTrigger | DownStop.

Definition scaleDownLoop (choice : down_choice) (metrics : option invokeMetrics) s (d : down_loop)
    : option Z * (AutoScaler * down_loop) :=
  let flag b ch := as_set_trigger (as_autoScaleUpFlag s) (as_scaleUpTriggerCh s) b ch s in
  match dl_pc d with
  | DlSelect =>
      match choice with
      | DownTimer =>
          match dl_fired d with O => (None, (s, d)) | S n => (None, (s, mkDownLoop DlScale (dl_armed d) n)) end
      | DownTrigger =>
          match as_scaleDownTriggerCh s with
          | O => (None, (s, d))
          | S n => (None, (flag true n, mkDownLoop DlSelect true 0))
          end
      | DownStop => (None, (s, if as_stopCh s then mkDownLoop DlGone false 0 else d))
      end
  | DlScale => let '(call, s) := scaleDownInstances metrics s in (call, (s, mkDownLoop DlPause (dl_armed d) (dl_fired d)))
  | DlPause => (None, (flag false (as_scaleDownTriggerCh s), mkDownLoop DlSelect false 0))
  | DlGone => (None, (s, d))
  end.

(** ** The scaler with its loops *)

Record auto := mkAutoSys { au_scaler : AutoScaler; au_up : up_loop; au_down : down_loop }.
Implicit Types (x : auto).

Inductive au_event :=
  | AuTrigger (minConcurrency : Z)
  | AuThreads (inUseDiff totalDiff : Z)
  | AuSpec (concurrentNum : Z) | AuCold (coldStartTime : Z) | AuEnable (enable : bool) | AuDestroy
  | AuCreated | AuRemoved                      (* the callbacks of the instance queue *)
  | AuUp (choice : up_choice) (reqNum : Z) (metrics : option invokeMetrics)
  | AuDown (choice : down_choice) (metrics : option invokeMetrics)
  | AuTick | AuTimer.

(** What the step asks of the instance queue: instances to create, to remove. *)
Inductive au_call := AuNone | AuScaleUp (n : Z) | AuScaleDown (n : Z).

(** A ticker that is not read keeps one tick. *)
Definition tick l : up_loop :=
  if ul_ticking l then mkUpLoop (ul_pc l) (ul_scaleUpChan l) true 1 else l.
Definition fire (d : down_loop) : down_loop := if dl_armed d then mkDownLoop (dl_pc d) false 1 else d.

(** [None]: [TriggerScale] blocks with the lock held. *)
Definition au_step x (ev : au_event) : option (au_call * auto) :=
  let s := au_scaler x in
  let set s := Some (AuNone, mkAutoSys s (au_up x) (au_down x)) in
  match ev with
  | AuTrigger k => as_TriggerScale k s ≫= set
  | AuThreads i t => set (as_HandleInsThdUpdate i t s)
  | AuSpec c => set (as_HandleFuncSpecUpdate c s)
  | AuCold d => set (as_UpdateCreateMetrics d s)
  | AuEnable b => set (as_SetEnable b s)
  | AuDestroy => set (as_Destroy s)
  | AuCreated => set (as_handlePendingInsNumDecrease 1 s)
  | AuRemoved => set (as_handlePendingInsNumIncrease 1 s)
  | AuUp c r m => let '(call, (s, l)) := scaleUpLoop c r m s (au_up x) in
                  Some (match call with Some n => AuScaleUp n | None => AuNone end, mkAutoSys s l (au_down x))
  | AuDown c m => let '(call, (s, d)) := scaleDownLoop c m s (au_down x) in
                  Some (match call with Some n => AuScaleDown n | None => AuNone end, mkAutoSys s (au_up x) d)
  | AuTick => Some (AuNone, mkAutoSys s (tick (au_up x)) (au_down x))
  | AuTimer => Some (AuNone, mkAutoSys s (au_up x) (fire (au_down x)))
  end.
Fixpoint au_run x (evs : list au_event) : option (list au_call * auto) :=
  match evs with
  | [] => Some ([], x)
  | ev :: evs => '(c, x) ← au_step x ev; '(cs, x) ← au_run x evs; Some (c :: cs, x)
  end.

Definition au_new (slaQuota scaleDownTime concurrentNum : Z) : auto :=
  mkAutoSys (as_HandleFuncSpecUpdate concurrentNum (NewAutoScaler slaQuota scaleDownTime))
    (mkUpLoop UlSelect 0 false 0) (mkDownLoop DlSelect false 0).

(** ** How much is asked for *)

Lemma ceilDiv_bounds (x c : Z) : 0 < c -> x <= ceilDiv x c * c < x + c.
Proof. intros Hc. unfold ceilDiv. pose proof (Z.div_mod (- x) c ltac:(lia)). pose proof (Z.mod_pos_bound (- x) c Hc). nia. Qed.

Lemma upNeed_le m d s : 0 <= d -> upNeed m d s <= d.
Proof. intros Hd. unfold upNeed. case_match; lia. Qed.

(** C20: a scale-up asks for what is missing and for no more than it takes.  Let
    [demand] be the larger of the waiting requests and the demand declared by
    the hints.  The threads booked as pending are a whole number of instances,
    those the handler is called with; with what was pending before they exceed
    the demand by less than one instance; and while no metrics have been
    collected they cover it. *)
Theorem scale_up_fits reqNum metrics s :
  0 < as_concurrentNum s -> 0 <= reqNum ->
  let demand := Z.max reqNum (as_minScaleDemand s) in
  let r := scaleUpInstances reqNum metrics s in
  let n := default 0 r.1 in let s' := r.2 in
  0 <= n /\ as_pendingInsThdNum s' = as_pendingInsThdNum s + n * as_concurrentNum s /\
  as_pendingInsThdNum s' < Z.max (as_pendingInsThdNum s) demand + as_concurrentNum s /\
  (metrics = None -> demand <= as_pendingInsThdNum s').
Proof.
  intros Hc Hr demand r n s'. subst r n s'. unfold scaleUpInstances. fold demand. destruct metrics as [m|]; simpl.
  - destruct (Qeq_bool _ _); simpl; [split_and!; lia || done|].
    set (need := Z.max (upNeed m demand _ - as_pendingInsThdNum s) 0).
    pose proof (ceilDiv_bounds need (as_concurrentNum s) Hc). pose proof (upNeed_le m demand (as_set_demand (as_remainedInsThdReqNum s) 0 s) ltac:(lia)).
    destruct (0 <? ceilDiv need (as_concurrentNum s)) eqn:E; simpl; split_and!; try done; nia.
  - pose proof (ceilDiv_bounds (Z.max (demand - as_pendingInsThdNum s) 0) (as_concurrentNum s) Hc).
    split_and!; nia.
Qed.

Lemma scale_up_fits_witness :
  let s := as_HandleFuncSpecUpdate 4 (NewAutoScaler 1000 1000) in
  (scaleUpInstances 9 None s).1 = Some 3 /\ 9 <= as_pendingInsThdNum (scaleUpInstances 9 None s).2.
Proof.
  split; [vm_compute; reflexivity|].
  apply (scale_up_fits 9 None (as_HandleFuncSpecUpdate 4 (NewAutoScaler 1000 1000)));
    [vm_compute; reflexivity|lia|reflexivity].
Defined.

(** Metrics as the collector makes them. *)
Record metrics_ok (m : invokeMetrics) : Prop := {
  mo_avg : (0 <= im_avgProcTime m)%Q;
  mo_proc : (0 < im_insThdProcNumPS m)%Q;
  mo_req : (0 <= im_insThdReqNumPS m)%Q }.

(** The windows the constructor chooses. *)
Definition windows_ok s : Prop := 0 < as_scaleUpWindow s <= as_scaleDownWindow s.

Lemma Seconds_le (a b : Z) : a <= b -> (Seconds a <= Seconds b)%Q.
Proof. unfold Qle, Seconds. simpl. lia. Qed.

Lemma downExcess_le m s :
  metrics_ok m -> windows_ok s -> 0 <= as_inUseInsThdNum s <= as_totalInsThdNum s ->
  downExcess m s <= as_totalInsThdNum s.
Proof.
  intros [Ha Hp Hr] [Hu Hd] Hn. unfold downExcess.
  set (up := Seconds (as_scaleUpWindow s)). set (down := Seconds (as_scaleDownWindow s)).
  assert (0 < up)%Q as Hup by (unfold Qlt, up, Seconds; simpl; lia).
  assert (up <= down)%Q as Hud by (by apply Seconds_le).
  rewrite Z.max_l by lia. rewrite <- (Qceiling_Z (as_totalInsThdNum s)) at 2. apply Qceiling_resp_le.
  set (I := as_totalInsThdNum s - as_inUseInsThdNum s). set (U := as_inUseInsThdNum s) in *.
  assert (inject_Z (as_totalInsThdNum s) == inject_Z I + inject_Z U)%Q as ->.
  { rewrite <- inject_Z_plus. unfold I. replace (_ - U + U) with (as_totalInsThdNum s) by lia. reflexivity. }
  assert (0 <= inject_Z I)%Q as HI by (rewrite <- (Zle_Qle 0); lia).
  assert (0 <= inject_Z U)%Q as HU by (rewrite <- (Zle_Qle 0); lia).
  assert (Qmax (up - im_avgProcTime m) 0 <= down)%Q as HM by (apply Q.max_lub; lra).
  assert (inject_Z U * Qmax (up - im_avgProcTime m) 0 <= inject_Z U * down)%Q as H1.
  { rewrite !(Qmult_comm (inject_Z U)). by apply Qmult_le_compat_r. }
  assert (0 <= im_insThdReqNumPS m * down)%Q as H2 by (apply Qmult_le_0_compat; lra).
  assert (0 <= (inject_Z I + inject_Z U) * down)%Q as H3 by (apply Qmult_le_0_compat; lra).
  apply Qle_shift_div_r; [lra|]. apply Qle_shift_div_r; [done|]. apply Q.max_lub; [|apply Qmult_le_0_compat; lra].
  set (M := Qmax _ _) in *. rewrite (Qmult_comm _ (im_insThdProcNumPS m)).
  assert (inject_Z I * down + inject_Z U * M <= (inject_Z I + inject_Z U) * down)%Q as H4 by lra.
  apply (Qmult_le_compat_r _ _ (im_insThdProcNumPS m)) in H4; [|lra]. lra.
Qed.

(** A scale-down leaves what is in use.  Counting what is pending, the
    threads that will be left are not fewer than those in use while no metrics
    have been collected (unless they were already), and never fewer than none
    when the plan follows the metrics; what is booked is what the handler is
    called with. *)
Theorem scale_down_fits metrics s :
  0 < as_concurrentNum s -> windows_ok s -> 0 <= as_inUseInsThdNum s <= as_totalInsThdNum s ->
  match metrics with Some m => metrics_ok m | None => True end ->
  let r := scaleDownInstances metrics s in
  let n := default 0 r.1 in
  let left := as_totalInsThdNum s + as_pendingInsThdNum r.2 in
  0 <= n /\ as_pendingInsThdNum r.2 = as_pendingInsThdNum s - n * as_concurrentNum s /\
  Z.min (match metrics with None => as_inUseInsThdNum s | Some _ => 0 end) (as_totalInsThdNum s + as_pendingInsThdNum s) <= left.
Proof.
  intros Hc Hw Hn Hm r n left. subst r n left. unfold scaleDownInstances.
  assert (forall x : Z, 0 <= - Z.min (- x - as_pendingInsThdNum s) 0 / as_concurrentNum s /\
    - Z.min (- x - as_pendingInsThdNum s) 0 / as_concurrentNum s * as_concurrentNum s <= Z.max (x + as_pendingInsThdNum s) 0) as Hplan.
  { intros x. split; [apply Z.div_pos; lia|].
    pose proof (Z.mul_div_le (- Z.min (- x - as_pendingInsThdNum s) 0) (as_concurrentNum s) Hc). lia. }
  destruct metrics as [m|]; simpl.
  - destruct (Qeq_bool _ _); simpl; [lia|]. specialize (Hplan (downExcess m s)). pose proof (downExcess_le m s Hm Hw Hn).
    destruct (0 <? _) eqn:E; simpl; lia.
  - specialize (Hplan (Z.max (as_totalInsThdNum s - as_inUseInsThdNum s) 0)). lia.
Qed.

Lemma scale_down_fits_witness :
  let s := as_HandleInsThdUpdate 3 12 (as_HandleFuncSpecUpdate 4 (NewAutoScaler 1000 60000)) in
  let m := mkMetrics (1 # 10) 10 1 in
  (scaleDownInstances (Some m) s).1 = Some 2 /\ 0 <= as_totalInsThdNum s + as_pendingInsThdNum (scaleDownInstances (Some m) s).2.
Proof.
  split; [vm_compute; reflexivity|].
  apply (scale_down_fits (Some (mkMetrics (1 # 10) 10 1))
           (as_HandleInsThdUpdate 3 12 (as_HandleFuncSpecUpdate 4 (NewAutoScaler 1000 60000)))).
  - vm_compute; reflexivity.
  - vm_compute. split; congruence.
  - vm_compute. split; congruence.
  - split; vm_compute; congruence.
Defined.

(** ** Demand that is dropped *)

(** The threads in use are enough. *)
Lemma upNeed_none m d s :
  as_remainedInsThdReqNum s <= 0 -> (0 < im_insThdProcNumPS m)%Q ->
  (inject_Z d + im_insThdReqNumPS m * Seconds (as_scaleUpWindow s) <=
   im_insThdProcNumPS m * inject_Z (as_inUseInsThdNum s) *
   Qmax (Seconds (as_scaleUpWindow s) - im_avgProcTime m) 0)%Q ->
  upNeed m d s <= 0.
Proof.
  intros Hrem Hp Hcap. unfold upNeed. cbv zeta.
  set (room := Qmax (Seconds (as_scaleUpWindow s) - im_avgProcTime m) 0) in *.
  match goal with |- context [Qmax (?a - ?b) 0] =>
    assert (Qmax (a - b) 0 == 0)%Q as Ht by (apply Q.max_r; lra); set (todo := Qmax (a - b) 0) in * end.
  assert (Z.max (Qceiling todo) 0 = 0) as H1 by (by rewrite Ht).
  assert (forall w, Z.max (Qceiling (todo / im_insThdProcNumPS m / w)) 0 = 0) as H2.
  { intros w. assert (todo / im_insThdProcNumPS m / w == 0)%Q as -> by (rewrite Ht; unfold Qdiv; ring). done. }
  rewrite H1, H2. destruct (Qle_bool _ _), (_ <? _); lia.
Qed.

(** A declared demand is no lower bound once metrics are collected.  A hint
    declares that [k] threads are needed, nothing was left over from before and
    no request waits in the queue the scaler looks at.  If the threads in use
    could work off the demand and the requests to come within the window, no
    instance is asked for and the demand is erased: the loop finds nothing to do
    and pauses. *)
Theorem hint_demand_dropped m s :
  0 < as_concurrentNum s -> 0 < as_minScaleDemand s -> as_remainedInsThdReqNum s <= 0 -> 0 <= as_pendingInsThdNum s ->
  (0 < im_insThdProcNumPS m)%Q ->
  (inject_Z (as_minScaleDemand s) + im_insThdReqNumPS m * Seconds (as_scaleUpWindow s) <=
   im_insThdProcNumPS m * inject_Z (as_inUseInsThdNum s) *
   Qmax (Seconds (as_scaleUpWindow s) - im_avgProcTime m) 0)%Q ->
  let r := scaleUpInstances 0 (Some m) s in
  let s' := r.2 in
  r.1 = None /\ as_minScaleDemand s' = 0 /\ as_pendingInsThdNum s' = as_pendingInsThdNum s /\
  ul_pc (scaleUpLoop TakeScaleUp 0 (Some m) s' (mkUpLoop UlTaken 0 true 0)).2.2 = UlPause.
Proof.
  intros Hc Hk Hrem Hpend Hp Hcap r s'. subst r s'. unfold scaleUpInstances. rewrite (Z.max_r 0 (as_minScaleDemand s)) by lia.
  destruct (Qeq_bool (im_insThdProcNumPS m) 0) eqn:E; [apply Qeq_bool_eq in E; rewrite E in Hp; by apply Qlt_irrefl in Hp|].
  pose proof (upNeed_none m (as_minScaleDemand s) (as_set_demand (as_remainedInsThdReqNum s) 0 s) Hrem Hp Hcap) as Hneed.
  set (s0 := as_set_demand (as_remainedInsThdReqNum s) 0 s) in *.
  assert (ceilDiv (Z.max (upNeed m (as_minScaleDemand s) s0 - as_pendingInsThdNum s0) 0) (as_concurrentNum s0) = 0) as Hz.
  { rewrite Z.max_r by (simpl; lia). unfold ceilDiv. rewrite Z.div_0_l; simpl; lia. }
  cbv zeta. change (as_concurrentNum (as_set_demand _ 0 s0)) with (as_concurrentNum s0). rewrite Hz. done.
Qed.

Lemma hint_demand_dropped_witness :
  let s := as_set_demand 0 5 (as_HandleInsThdUpdate 4 4 (as_HandleFuncSpecUpdate 4 (NewAutoScaler 1000 1000))) in
  let m := mkMetrics (1 # 10) 10 1 in
  (scaleUpInstances 0 (Some m) s).1 = None /\ as_minScaleDemand (scaleUpInstances 0 (Some m) s).2 = 0.
Proof.
  split; apply (hint_demand_dropped (mkMetrics (1 # 10) 10 1)
    (as_set_demand 0 5 (as_HandleInsThdUpdate 4 4 (as_HandleFuncSpecUpdate 4 (NewAutoScaler 1000 1000)))));
    vm_compute; congruence.
Defined.

(** Creations that outlive a change of the concurrency leave [pending] wrong
    for good.  [n] instances are asked for at [c] threads each; then the function
    is changed to [c'] threads, and the [n] creations report.  [n * (c - c')]
    threads stay pending with nothing under way, and while no metrics are
    collected a demand up to that number gets no instance. *)
Theorem concurrency_change_drifts s n c' :
  0 < c' < as_concurrentNum s -> 0 <= n -> as_pendingInsThdNum s = n * as_concurrentNum s ->
  let s' := Nat.iter (Z.to_nat n) (as_handlePendingInsNumDecrease 1) (as_HandleFuncSpecUpdate c' s) in
  as_pendingInsThdNum s' = n * (as_concurrentNum s - c') /\
  forall reqNum, 0 <= reqNum <= n * (as_concurrentNum s - c') -> as_minScaleDemand s <= reqNum ->
    (scaleUpInstances reqNum None s').1 = Some 0.
Proof.
  intros Hc Hn Hp s'.
  assert (forall k t, Nat.iter k (as_handlePendingInsNumDecrease 1) t =
    as_set_threads (as_pendingInsThdNum t - Z.of_nat k * as_concurrentNum t) (as_inUseInsThdNum t) (as_totalInsThdNum t) t) as Hit.
  { induction k as [|k IH]; intros t; [destruct t; simpl; unfold as_set_threads; simpl; f_equal; lia|].
    change (Nat.iter (S k) ?f t) with (f (Nat.iter k f t)). rewrite IH.
    unfold as_handlePendingInsNumDecrease, as_set_threads. simpl. f_equal. lia. }
  assert (as_pendingInsThdNum s' = n * (as_concurrentNum s - c')) as Hs'.
  { unfold s'. rewrite Hit. unfold as_HandleFuncSpecUpdate, GetConcurrentNum. simpl.
    rewrite (proj2 (Z.eqb_neq c' 0)) by lia. rewrite Z2Nat.id by done. lia. }
  split; [done|]. intros reqNum Hr Hd. unfold scaleUpInstances. simpl.
  assert (as_minScaleDemand s' = as_minScaleDemand s) as -> by (unfold s'; by rewrite Hit).
  rewrite (Z.max_l reqNum) by lia. rewrite Hs'. rewrite (Z.max_r _ 0) by lia. done.
Qed.

Lemma concurrency_change_drifts_witness :
  let s := (scaleUpInstances 8 None (as_HandleFuncSpecUpdate 4 (NewAutoScaler 1000 1000))).2 in
  let s' := Nat.iter 2 (as_handlePendingInsNumDecrease 1) (as_HandleFuncSpecUpdate 1 s) in
  (scaleUpInstances 6 None s').1 = Some 0.
Proof.
  apply (concurrency_change_drifts (scaleUpInstances 8 None (as_HandleFuncSpecUpdate 4 (NewAutoScaler 1000 1000))).2 2 1);
    vm_compute; intuition congruence.
Defined.

(** ** The trigger *)

(** The loop waits for a trigger and for nothing else, or has returned. *)
Definition idle l : Prop :=
  ul_pc l = UlGone \/ (ul_pc l = UlSelect /\ ul_scaleUpChan l = 0%nat /\ ul_ticking l = false).

Record trigger_inv s l : Prop := {
  ti_ch : (as_scaleUpTriggerCh s <= 1)%nat;
  ti_off : as_autoScaleUpFlag s = false -> as_scaleUpTriggerCh s = 0%nat /\ idle l;
  ti_sent : as_scaleUpTriggerCh s = 1%nat -> idle l;
  ti_chan : (ul_scaleUpChan l <= 1)%nat;
  ti_work : match ul_pc l with
            | UlTaken | UlPause | UlScale => ul_scaleUpChan l = 0%nat
            | UlSleep => ul_scaleUpChan l = 0%nat /\ ul_ticking l = false
            | _ => True
            end;
  ti_tick : ul_ticking l = false -> ul_tick l = 0%nat }.

(** What the trigger is about. *)
Definition same_trigger s s' : Prop :=
  as_scaleUpTriggerCh s' = as_scaleUpTriggerCh s /\ as_autoScaleUpFlag s' = as_autoScaleUpFlag s.

Lemma trigger_frame s s' l : same_trigger s s' -> trigger_inv s l -> trigger_inv s' l.
Proof. intros [H1 H2] [T1 T2 T3 T4 T5 T6]. split; rewrite ?H1, ?H2; done. Qed.

Lemma scaleUp_same reqNum metrics s : same_trigger s (scaleUpInstances reqNum metrics s).2.
Proof. unfold scaleUpInstances. repeat case_match; done. Qed.
Lemma scaleDown_same metrics s : same_trigger s (scaleDownInstances metrics s).2.
Proof. unfold scaleDownInstances. repeat case_match; done. Qed.
Lemma scaleDownLoop_same c m s d : same_trigger s (scaleDownLoop c m s d).2.1.
Proof.
  unfold scaleDownLoop. pose proof (scaleDown_same m s). destruct (scaleDownInstances m s) as [call s'].
  repeat case_match; done.
Qed.

Lemma trigger_ok k s l : trigger_inv s l -> exists s', as_TriggerScale k s = Some s' /\ trigger_inv s' l.
Proof.
  intros [T1 T2 T3 T4 T5 T6]. unfold as_TriggerScale. set (s0 := if as_minScaleDemand s <? k then as_set_demand (as_remainedInsThdReqNum s) k s else s).
  assert (same_trigger s s0) as [H1 H2] by (unfold s0; destruct (_ <? _); by split). rewrite H1, H2.
  destruct (as_autoScaleUpFlag s) eqn:Ef.
  - exists s0. split; [done|]. apply (trigger_frame s); [split; congruence|]. by split; rewrite ?Ef.
  - destruct (T2 eq_refl) as [-> Hidle]. eexists. split; [done|]. by split; simpl; try lia.
Qed.

(** Closes the parts of the invariant after a step. *)
Ltac trig := split; unfold idle; simpl; try done; try lia; naive_solver lia.

Lemma upLoop_inv c r m s l :
  trigger_inv s l -> trigger_inv (scaleUpLoop c r m s l).2.1 (scaleUpLoop c r m s l).2.2.
Proof.
  intros Hi. pose proof Hi as [T1 T2 T3 T4 T5 T6]. unfold idle in *. destruct l as [pc ch tk t].
  assert (as_scaleUpTriggerCh s = 0%nat \/ as_scaleUpTriggerCh s = 1%nat) as Hch by lia.
  unfold scaleUpLoop. destruct pc; simpl in *; try done.
  - destruct c; simpl.
    + destruct ch as [|[|ch]]; [done| |lia]. trig.
    + destruct Hch as [Hz|Hz]; rewrite Hz; [done|]. destruct (T3 Hz) as [?|(_ & -> & ->)]; [done|]. trig.
    + destruct t as [|t]; [done|]. destruct tk; [|by specialize (T6 eq_refl)]. unfold send_scaleUp. destruct ch; trig.
    + destruct (as_stopCh s); [|done]. trig.
  - destruct (_ && _); trig.
  - trig.
  - pose proof (scaleUp_same r m s) as Hs. destruct (scaleUpInstances r m s) as [call s'].
    apply (trigger_frame s s' _ Hs). trig.
  - destruct T5 as [-> ->]. trig.
Qed.

Lemma tick_inv s l : trigger_inv s l -> trigger_inv s (tick l).
Proof.
  intros [T1 T2 T3 T4 T5 T6]. unfold tick, idle in *. destruct l as [pc ch [] t]; simpl in *; [|by split].
  split; unfold idle; simpl; try done; by destruct pc.
Qed.

Lemma au_step_inv x ev :
  trigger_inv (au_scaler x) (au_up x) ->
  exists c x', au_step x ev = Some (c, x') /\ trigger_inv (au_scaler x') (au_up x').
Proof.
  intros Hi. destruct ev as [k|i t|c|d|b| | | |c r m|c m| |]; cbn [au_step];
    try (by eexists _, _; split; [reflexivity|]; apply (trigger_frame (au_scaler x)); [|done]; split).
  - destruct (trigger_ok k _ _ Hi) as (s' & -> & Hi'). by eexists _, _.
  - eexists _, _. split; [reflexivity|]. apply (trigger_frame (au_scaler x)); [|done].
    unfold as_HandleInsThdUpdate. by case_match.
  - eexists _, _. split; [reflexivity|]. apply (trigger_frame (au_scaler x)); [|done].
    unfold as_UpdateCreateMetrics. by case_match.
  - pose proof (upLoop_inv c r m _ _ Hi) as Hi'. destruct (scaleUpLoop _ _ _ _ _) as [call [s' l']]. by eexists _, _.
  - pose proof (scaleDownLoop_same c m (au_scaler x) (au_down x)) as Hs. destruct (scaleDownLoop _ _ _ _) as [call [s' d']].
    eexists _, _. split; [reflexivity|]. by apply (trigger_frame (au_scaler x)).
  - eexists _, _. split; [reflexivity|]. by apply tick_inv.
Qed.

Lemma au_run_inv evs x :
  trigger_inv (au_scaler x) (au_up x) ->
  exists cs x', au_run x evs = Some (cs, x') /\ trigger_inv (au_scaler x') (au_up x').
Proof.
  revert x. induction evs as [|ev evs IH]; intros x Hi; [by eexists _, _|]. simpl.
  destruct (au_step_inv x ev Hi) as (c & x1 & -> & Hi1). simpl. destruct (IH x1 Hi1) as (cs & x2 & -> & Hi2).
  by eexists _, _.
Qed.

(** C16: [TriggerScale] never blocks with the scaler's lock in its hand, though
    it sends to a channel of one while it holds it.  Whatever is triggered,
    published and reported, however the loops, the ticker and the timer run, the
    run goes on; and while the scale-up flag is down the channel is empty and the
    loop is waiting for a trigger (or has returned). *)
Theorem trigger_never_blocks slaQuota scaleDownTime concurrentNum evs :
  exists cs x, au_run (au_new slaQuota scaleDownTime concurrentNum) evs = Some (cs, x) /\
    (as_autoScaleUpFlag (au_scaler x) = false -> as_scaleUpTriggerCh (au_scaler x) = 0%nat /\ idle (au_up x)).
Proof.
  destruct (au_run_inv evs (au_new slaQuota scaleDownTime concurrentNum)) as (cs & x & Hr & Hi).
  { split; simpl; try done; try lia. intros _. split; [done|]. by right. }
  exists cs, x. split; [done|]. by apply ti_off.
Qed.

(** ** Triggers that are lost *)

(** Nothing wakes the loop: no token, no tick, no trigger. *)
Definition asleep x : Prop :=
  ul_pc (au_up x) = UlSelect /\ ul_scaleUpChan (au_up x) = 0%nat /\ ul_ticking (au_up x) = false /\
  ul_tick (au_up x) = 0%nat /\ as_scaleUpTriggerCh (au_scaler x) = 0%nat.
Definition no_trigger (ev : au_event) : Prop := match ev with AuTrigger _ => False | _ => True end.
Definition no_scale_up (c : au_call) : Prop := match c with AuScaleUp _ => False | _ => True end.

Lemma down_keeps c m s d :
  as_minScaleDemand (scaleDownLoop c m s d).2.1 = as_minScaleDemand s /\ as_stopCh (scaleDownLoop c m s d).2.1 = as_stopCh s.
Proof. unfold scaleDownLoop, scaleDownInstances. repeat case_match; simplify_eq/=; done. Qed.

Lemma asleep_step x ev :
  asleep x -> no_trigger ev -> ev <> AuDestroy -> as_stopCh (au_scaler x) = false ->
  exists c x', au_step x ev = Some (c, x') /\ asleep x' /\ no_scale_up c /\
    as_minScaleDemand (au_scaler x') = as_minScaleDemand (au_scaler x) /\ as_stopCh (au_scaler x') = false.
Proof.
  intros (H1 & H2 & H3 & H4 & H5) Hn Hd Hs. destruct x as [s [pc ch tk t] d]. simpl in *. subst.
  destruct ev as [k|i t|c|dd|b| | | |c r m|c m| |]; cbn [au_step]; try done;
    try (eexists _, _; split; [reflexivity|]; by split_and!).
  - eexists _, _. split; [reflexivity|]. unfold as_HandleInsThdUpdate. by case_match.
  - eexists _, _. split; [reflexivity|]. unfold as_UpdateCreateMetrics. by case_match.
  - unfold scaleUpLoop. destruct c; simpl; rewrite ?H5, ?Hs; eexists _, _; (split; [reflexivity|]); by split_and!.
  - pose proof (scaleDownLoop_same c m s d) as [Hc _]. pose proof (down_keeps c m s d) as [Hk1 Hk2]. simpl.
    destruct (scaleDownLoop c m s d) as [call [s' d']]. simpl in *. eexists _, _. split; [reflexivity|].
    unfold asleep. simpl. rewrite Hk1, Hk2, Hc. split; [done|]. split; [by destruct call|]. done.
Qed.

Lemma asleep_run evs x :
  asleep x -> Forall (fun ev => no_trigger ev /\ ev <> AuDestroy) evs -> as_stopCh (au_scaler x) = false ->
  exists cs x', au_run x evs = Some (cs, x') /\ Forall no_scale_up cs /\
    as_minScaleDemand (au_scaler x') = as_minScaleDemand (au_scaler x).
Proof.
  intros Ha He. revert x Ha. induction He as [|ev evs [Hn Hd] _ IH]; intros x Ha Hs; [by eexists _, _|]. simpl.
  destruct (asleep_step x ev Ha Hn Hd Hs) as (c & x1 & -> & Ha1 & Hc & Hk & Hs1). simpl.
  destruct (IH x1 Ha1 Hs1) as (cs & x2 & -> & Hcs & Hk2). eexists _, _. split; [done|].
  split; [by constructor|congruence].
Qed.

(** The loop has found nothing to do; before it says so, a hint comes. *)
Definition lost_demo (k : Z) : list au_event :=
  let up c := AuUp c 0 None in
  [AuTrigger 0; up TakeTrigger; up TakeTick; up TakeScaleUp; up TakeTick; AuTrigger k; up TakeTick].

(** A trigger can be lost.  Between the loop's look at the demand and the
    moment it lowers the flag, [TriggerScale] finds the flag up and sends
    nothing; then the flag goes down and the loop sleeps.  The demand is
    recorded, the channel is empty, and whatever happens after that, unless
    there is another trigger, no instance is asked for and the demand stays. *)
Theorem trigger_lost slaQuota scaleDownTime concurrentNum k evs :
  0 < k -> Forall (fun ev => no_trigger ev /\ ev <> AuDestroy) evs ->
  exists cs x cs' x',
    au_run (au_new slaQuota scaleDownTime concurrentNum) (lost_demo k) = Some (cs, x) /\
    as_minScaleDemand (au_scaler x) = k /\ au_run x evs = Some (cs', x') /\
    Forall no_scale_up (cs ++ cs') /\ as_minScaleDemand (au_scaler x') = k.
Proof.
  intros Hk He.
  assert (exists cs x, au_run (au_new slaQuota scaleDownTime concurrentNum) (lost_demo k) = Some (cs, x) /\ asleep x /\
    as_stopCh (au_scaler x) = false /\ Forall no_scale_up cs /\ as_minScaleDemand (au_scaler x) = k)
    as (cs & x & Hr & Ha & Hs & Hcs & Hd).
  { unfold lost_demo, au_run, au_step, as_TriggerScale. simpl. rewrite (proj2 (Z.ltb_lt 0 k) Hk). simpl.
    eexists _, _. split; [reflexivity|]. split; [by split_and!|]. split; [done|]. split; [by repeat constructor|done]. }
  destruct (asleep_run evs x Ha He Hs) as (cs' & x' & Hr' & Hcs' & Hd'). exists cs, x, cs', x'. split_and!; try done.
  - by apply Forall_app.
  - congruence.
Qed.

Lemma trigger_lost_witness :
  exists cs x cs' x',
    au_run (au_new 1000 1000 4) (lost_demo 8) = Some (cs, x) /\ as_minScaleDemand (au_scaler x) = 8 /\
    au_run x [AuThreads 0 4; AuTick; AuUp TakeScaleUp 3 None; AuUp TakeTrigger 3 None] = Some (cs', x') /\
    Forall no_scale_up (cs ++ cs') /\ as_minScaleDemand (au_scaler x') = 8.
Proof.
  apply (trigger_lost 1000 1000 4 8 [AuThreads 0 4; AuTick; AuUp TakeScaleUp 3 None; AuUp TakeTrigger 3 None]);
    [lia|repeat constructor; done].
Defined.

(** ** The loop that blocks itself *)

Definition stuck x : Prop := ul_pc (au_up x) = UlBlocked /\ as_autoScaleUpFlag (au_scaler x) = true.

Lemma stuck_step x ev :
  stuck x -> exists c x', au_step x ev = Some (c, x') /\ stuck x' /\ no_scale_up c.
Proof.
  intros [H1 H2]. destruct x as [s [pc ch tk t] d]. simpl in *. subst.
  destruct ev as [k|i t'|c|dd|b| | | |c r m|c m| |]; cbn [au_step];
    try (eexists _, _; split; [reflexivity|]; by split_and!).
  - unfold as_TriggerScale. destruct (_ <? k); simpl; rewrite H2; simpl; eexists _, _; by split.
  - eexists _, _. split; [reflexivity|]. unfold as_HandleInsThdUpdate. by case_match.
  - eexists _, _. split; [reflexivity|]. unfold as_UpdateCreateMetrics. by case_match.
  - pose proof (scaleDownLoop_same c m s d) as [_ Hf]. simpl. destruct (scaleDownLoop c m s d) as [call [s' d']].
    eexists _, _. split; [reflexivity|]. split; [split; [done|by rewrite <- H2]|by destruct call].
  - eexists _, _. split; [reflexivity|]. split; [|done]. unfold tick. by destruct tk.
Qed.

Lemma stuck_run evs x : stuck x -> exists cs x', au_run x evs = Some (cs, x') /\ Forall no_scale_up cs /\ stuck x'.
Proof.
  revert x. induction evs as [|ev evs IH]; intros x Hs; [by eexists _, _|]. simpl.
  destruct (stuck_step x ev Hs) as (c & x1 & -> & Hs1 & Hc). simpl. destruct (IH x1 Hs1) as (cs & x2 & -> & Hcs & Hs2).
  eexists _, _. split; [done|]. split; [by constructor|done].
Qed.

(** The scale-up loop can block itself for good.  It sends to its own
    channel of one, which only the loop receives from; when a tick is ready
    while the last token is still there, the select may take the tick, and the
    loop waits in the send for itself.  After that no trigger, no tick and no
    demand makes the scaler ask for an instance, though it says it is scaling. *)
Theorem ticks_block_loop slaQuota scaleDownTime concurrentNum evs :
  exists cs x cs' x',
    au_run (au_new slaQuota scaleDownTime concurrentNum)
      [AuTrigger 1; AuUp TakeTrigger 1 None; AuUp TakeTick 1 None; AuTick; AuUp TakeTick 1 None] = Some (cs, x) /\
    as_minScaleDemand (au_scaler x) = 1 /\
    au_run x evs = Some (cs', x') /\ Forall no_scale_up (cs ++ cs') /\ as_CheckScaling (au_scaler x') = true.
Proof.
  eexists _, _. destruct (stuck_run evs (mkAutoSys (as_set_trigger true 0 false 0 (as_set_demand 0 1
    (as_HandleFuncSpecUpdate concurrentNum (NewAutoScaler slaQuota scaleDownTime)))) (mkUpLoop UlBlocked 1 true 0)
    (mkDownLoop DlSelect false 0))) as (cs' & x' & Hr & Hcs & Hs); [done|].
  exists cs', x'. split; [reflexivity|]. split; [done|]. split; [exact Hr|]. split.
  - apply Forall_app. split; [by repeat constructor|done].
  - destruct Hs as [_ Hs]. unfold as_CheckScaling. by rewrite Hs.
Qed.
