(* ===== verification/LitePool.v ===== *)
(** * One function's pool of the lite scheduler

    pool.go and dispatcher.go (package pkg/functionscaler/litescheduler): the
    local view of a function's instances, the session bindings with their
    capacity reservations, and the two dispatch policies.  Every operation here
    runs under the pool's lock in the source, so each is one function on the
    pool.

    Pointers: an instance is named by its key in [pl_instances], a binding by
    its session key together with [sb_ptr], the address [new] gave it; [timer]
    handles are addresses too.  The external store of the pool is the list of
    operations submitted to its coordinator ([SessionStore]). *)
From S2P Require Import Prelude GoStrings SessionStore LiteAlloc.

#[local] Open Scope string_scope.
#[local] Open Scope Z_scope.

Inductive InstanceStatus :=
  | InstanceStatusUnavailable
  | InstanceStatusRunning
  | InstanceStatusSubHealth.

#[global] Instance InstanceStatus_eq_dec : EqDecision InstanceStatus.
Proof. solve_decision. Defined.

(** [li_IdleSince]: [None] is the zero time. *)
Record LiteInstance := mkIns {
  li_InstanceID : string;
  li_FuncKey : string;
  li_Capacity : Z;
  li_InUse : Z;
  li_Status : InstanceStatus;
  li_InstanceIP : string;
  li_InstancePort : string;
  li_NodeIP : string;
  li_NodePort : string;
  li_FuncSig : string;
  li_FunctionProxyID : string;
  li_RouteAddress : string;
  li_AZ : string;
  li_SessionCtxID : string;
  li_IdleSince : option Z;
  li_Reclaiming : bool
}.

Definition set_InUse (n : Z) (i : LiteInstance) : LiteInstance :=
  mkIns (li_InstanceID i) (li_FuncKey i) (li_Capacity i) n (li_Status i) (li_InstanceIP i)
    (li_InstancePort i) (li_NodeIP i) (li_NodePort i) (li_FuncSig i) (li_FunctionProxyID i)
    (li_RouteAddress i) (li_AZ i) (li_SessionCtxID i) (li_IdleSince i) (li_Reclaiming i).

Definition set_idle (since : option Z) (reclaiming : bool) (i : LiteInstance) : LiteInstance :=
  mkIns (li_InstanceID i) (li_FuncKey i) (li_Capacity i) (li_InUse i) (li_Status i)
    (li_InstanceIP i) (li_InstancePort i) (li_NodeIP i) (li_NodePort i) (li_FuncSig i)
    (li_FunctionProxyID i) (li_RouteAddress i) (li_AZ i) (li_SessionCtxID i) since reclaiming.

Definition add_InUse (d : Z) (i : LiteInstance) : LiteInstance := set_InUse (li_InUse i + d) i.

Record sessionBinding := mkBinding {
  sb_ptr : nat;
  sb_instanceID : string;
  sb_reserved : Z;
  sb_activeAllocs : Z;
  sb_timer : option nat;
  sb_expiring : bool
}.

(** The fields of a registered instance (types.Instance) the pool copies. *)
Record Instance := mkInstance {
  in_InstanceID : string;
  in_FuncKey : string;
  in_ConcurrentNum : Z;
  in_StatusCode : Z;
  in_InstanceIP : string;
  in_InstancePort : string;
  in_NodeIP : string;
  in_NodePort : string;
  in_FuncSig : string;
  in_FunctionProxyID : string;
  in_RouteAddress : string;
  in_AZ : string;
  in_SessionCtxID : option string
}.

(** ** Dispatchers *)

Inductive Dispatcher :=
  | concurrencyDispatcher
  | roundRobinDispatcher (curIndex : Z).

Definition Policy (d : Dispatcher) : string :=
  match d with
  | concurrencyDispatcher => "concurrency"
  | roundRobinDispatcher _ => "round-robin"
  end.

Definition newDispatcher (funcSpec : option FunctionSpecification) : Dispatcher :=
  match funcSpec with
  | None => concurrencyDispatcher
  | Some spec =>
      if String.eqb (fs_SchedulePolicy spec) "" then concurrencyDispatcher
      else if String.eqb (fs_SchedulePolicy spec) "round-robin" then roundRobinDispatcher 0
      else concurrencyDispatcher
  end.

(** A score is the exact fraction the [float64] quotient rounds: numerator and
    (positive) denominator; the subHealth penalty of 1.0 adds the denominator. *)
Definition score (ins : LiteInstance) : Z * Z :=
  (li_InUse ins + (if decide (li_Status ins = InstanceStatusSubHealth) then li_Capacity ins else 0),
   li_Capacity ins).

Definition score_lt (a b : Z * Z) : bool := fst a * snd b <? fst b * snd a.

(** The loop of [concurrencyDispatcher.Select]; [None] is the initial
    [math.MaxFloat64] with no instance. *)
Definition select_step (concurrency : Z) (best : option LiteInstance) (ins : LiteInstance)
    : option LiteInstance :=
  if (li_Capacity ins <=? 0) || (li_Capacity ins - li_InUse ins <? concurrency) then best
  else match best with
       | None => Some ins
       | Some b => if score_lt (score ins) (score b) then Some ins else best
       end.

Definition concurrency_Select (slots : list LiteInstance) (concurrency : Z) : option LiteInstance :=
  if concurrency <=? 0 then None else fold_left (select_step concurrency) slots None.

(** One of the two passes of [roundRobinDispatcher.Select]: the first of the
    offsets that holds a slot of the given status that fits. *)
Fixpoint rr_pass (offsets : list nat) (cur : Z) (slots : list LiteInstance) (concurrency : Z)
    (status : InstanceStatus) : option (Z * LiteInstance) :=
  match offsets with
  | [] => None
  | offset :: rest =>
      let idx := (cur + Z.of_nat offset) %g Z.of_nat (length slots) in
      match slots !! Z.to_nat idx with
      | Some ins =>
          if bool_decide (li_Status ins = status) && (concurrency <=? li_Capacity ins - li_InUse ins)
          then Some (idx, ins)
          else rr_pass rest cur slots concurrency status
      | None => None
      end
  end.

Definition roundRobin_Select (curIndex : Z) (slots : list LiteInstance) (concurrency : Z)
    : option LiteInstance * Z :=
  let n := Z.of_nat (length slots) in
  if n =? 0 then (None, curIndex)
  else if concurrency <=? 0 then (None, curIndex)
  else
    let cur := if n <=? curIndex then curIndex %g n else curIndex in
    let offsets := seq 0 (length slots) in
    match rr_pass offsets cur slots concurrency InstanceStatusRunning with
    | Some (idx, ins) => (Some ins, (idx + 1) %g n)
    | None =>
        match rr_pass offsets cur slots concurrency InstanceStatusSubHealth with
        | Some (idx, ins) => (Some ins, (idx + 1) %g n)
        | None => (None, cur)
        end
    end.

Definition Select (d : Dispatcher) (slots : list LiteInstance) (concurrency : Z)
    : option LiteInstance * Dispatcher :=
  match d with
  | concurrencyDispatcher => (concurrency_Select slots concurrency, d)
  | roundRobinDispatcher cur =>
      let '(r, cur) := roundRobin_Select cur slots concurrency in (r, roundRobinDispatcher cur)
  end.

(** ** The pool *)

Record LiteFunctionPool := mkPool {
  pl_funcKey : string;
  pl_funcSpec : option FunctionSpecification;
  pl_instances : gmap string LiteInstance;
  pl_sessions : gmap string sessionBinding;
  pl_dispatcher : Dispatcher;
  pl_sessionStore : list asyncStoreOp;
  pl_seqCounter : Z;
  pl_next : nat
}.

Definition set_instances (m : gmap string LiteInstance) (p : LiteFunctionPool) : LiteFunctionPool :=
  mkPool (pl_funcKey p) (pl_funcSpec p) m (pl_sessions p) (pl_dispatcher p) (pl_sessionStore p)
    (pl_seqCounter p) (pl_next p).
Definition set_sessions (m : gmap string sessionBinding) (p : LiteFunctionPool) : LiteFunctionPool :=
  mkPool (pl_funcKey p) (pl_funcSpec p) (pl_instances p) m (pl_dispatcher p) (pl_sessionStore p)
    (pl_seqCounter p) (pl_next p).
Definition set_dispatcher (d : Dispatcher) (p : LiteFunctionPool) : LiteFunctionPool :=
  mkPool (pl_funcKey p) (pl_funcSpec p) (pl_instances p) (pl_sessions p) d (pl_sessionStore p)
    (pl_seqCounter p) (pl_next p).
Definition set_store (l : list asyncStoreOp) (p : LiteFunctionPool) : LiteFunctionPool :=
  mkPool (pl_funcKey p) (pl_funcSpec p) (pl_instances p) (pl_sessions p) (pl_dispatcher p) l
    (pl_seqCounter p) (pl_next p).
Definition set_seq (n : Z) (p : LiteFunctionPool) : LiteFunctionPool :=
  mkPool (pl_funcKey p) (pl_funcSpec p) (pl_instances p) (pl_sessions p) (pl_dispatcher p)
    (pl_sessionStore p) n (pl_next p).
Definition set_funcSpec (s : option FunctionSpecification) (p : LiteFunctionPool) : LiteFunctionPool :=
  mkPool (pl_funcKey p) s (pl_instances p) (pl_sessions p) (pl_dispatcher p) (pl_sessionStore p)
    (pl_seqCounter p) (pl_next p).
Definition bump_next (p : LiteFunctionPool) : LiteFunctionPool :=
  mkPool (pl_funcKey p) (pl_funcSpec p) (pl_instances p) (pl_sessions p) (pl_dispatcher p)
    (pl_sessionStore p) (pl_seqCounter p) (S (pl_next p)).

Definition alter_instance (f : LiteInstance -> LiteInstance) (id : string) (p : LiteFunctionPool)
    : LiteFunctionPool := set_instances (alter f id (pl_instances p)) p.
Definition alter_session (f : sessionBinding -> sessionBinding) (key : string) (p : LiteFunctionPool)
    : LiteFunctionPool := set_sessions (alter f key (pl_sessions p)) p.

Notation KernelInstanceStatusRunning := (3)%Z (only parsing).
Notation KernelInstanceStatusSubHealth := (11)%Z (only parsing).

Definition mapStatus (code : Z) : InstanceStatus :=
  if code =? KernelInstanceStatusRunning then InstanceStatusRunning
  else if code =? KernelInstanceStatusSubHealth then InstanceStatusSubHealth
  else InstanceStatusUnavailable.

Definition instanceSessionCtxID (ins : Instance) : string := default "" (in_SessionCtxID ins).

Definition buildLiteInstanceFromInstance (ins : Instance) : LiteInstance :=
  mkIns (in_InstanceID ins) (in_FuncKey ins) (in_ConcurrentNum ins) 0
    (mapStatus (in_StatusCode ins)) (in_InstanceIP ins) (in_InstancePort ins) (in_NodeIP ins)
    (in_NodePort ins) (in_FuncSig ins) (in_FunctionProxyID ins) (in_RouteAddress ins) (in_AZ ins)
    (instanceSessionCtxID ins) None false.

Definition schedulable (s : InstanceStatus) : bool :=
  bool_decide (s = InstanceStatusRunning) || bool_decide (s = InstanceStatusSubHealth).

Definition is_candidate (sessionCtxID : string) (concurrency : Z) (ins : LiteInstance) : bool :=
  String.eqb (li_SessionCtxID ins) sessionCtxID && negb (li_Reclaiming ins)
  && schedulable (li_Status ins) && (concurrency <=? li_Capacity ins - li_InUse ins).

(** [order] is the order in which Go ranges over the instance map, which it
    chooses at random: an enumeration of the keys, different for every call. *)
Definition candidateSlotsLocked (p : LiteFunctionPool) (order : list string) (sessionCtxID : string)
    (concurrency : Z) : list LiteInstance :=
  filter (fun ins => is_candidate sessionCtxID concurrency ins = true)
    (omap (fun id => pl_instances p !! id) order).

Definition sessionBindingKey (p : LiteFunctionPool) (sessionID sessionCtxID : string) : string :=
  match pl_funcSpec p with
  | Some spec => if fs_EnableSessionCtx spec then JoinKey [sessionID; sessionCtxID] else sessionID
  | None => sessionID
  end.

Definition instanceConcurrentNum (p : LiteFunctionPool) : Z :=
  match pl_funcSpec p with Some spec => fs_ConcurrentNum spec | None => 0 end.

Definition currentInUse (p : LiteFunctionPool) : Z := msum (fun _ i => li_InUse i) (pl_instances p).
Definition currentCapacity (p : LiteFunctionPool) : Z :=
  msum (fun _ i => li_Capacity i) (pl_instances p).

Record PoolStats := mkStats {
  ps_FuncKey : string; ps_TenantID : string; ps_InstanceCount : Z; ps_Capacity : Z; ps_InUse : Z;
  ps_SessionCount : Z; ps_Policy : string
}.

Definition if_schedulable (n : LiteInstance -> Z) (_ : string) (ins : LiteInstance) : Z :=
  if schedulable (li_Status ins) then n ins else 0.

Definition Stats (p : LiteFunctionPool) : PoolStats :=
  mkStats (pl_funcKey p) (tenantOf (pl_funcKey p))
    (msum (if_schedulable (fun _ => 1)) (pl_instances p))
    (msum (if_schedulable li_Capacity) (pl_instances p))
    (msum (if_schedulable li_InUse) (pl_instances p))
    (Z.of_nat (size (pl_sessions p))) (Policy (pl_dispatcher p)).

Definition sessionTTLFor (reqTTL : Z) : Z := if reqTTL <=? 0 then 0 else reqTTL * Second.

(** ** Session bindings *)

Inductive stickyResult :=
  | stickyMiss
  | stickyHit (slotID : string)
  | stickyFull (slotID : string).

(** [binding.stopTimer]: the handle is dropped; a callback that is already
    running is told apart by the handle. *)
Definition stopTimer (b : sessionBinding) : sessionBinding :=
  mkBinding (sb_ptr b) (sb_instanceID b) (sb_reserved b) (sb_activeAllocs b) None (sb_expiring b).

Definition set_expiring (e : bool) (b : sessionBinding) : sessionBinding :=
  mkBinding (sb_ptr b) (sb_instanceID b) (sb_reserved b) (sb_activeAllocs b) (sb_timer b) e.

Definition set_timer (t : option nat) (b : sessionBinding) : sessionBinding :=
  mkBinding (sb_ptr b) (sb_instanceID b) (sb_reserved b) (sb_activeAllocs b) t (sb_expiring b).

Definition held (b : sessionBinding) : Z := sb_reserved b + sb_activeAllocs b.

(** The coordinator ignores the empty key. *)
Definition submit (op : asyncStoreOp) (p : LiteFunctionPool) : LiteFunctionPool :=
  if String.eqb (op_key op) "" then p
  else set_store (pl_sessionStore p ++ [op])%list p.

(** [schedulerID] is POD_IP; the record's time stamp is set by the store. *)
Definition saveSessionToStore (schedulerID sessionKey instanceID sessionID sessionCtxID : string)
    (sessionTTL concurrency : Z) (p : LiteFunctionPool) : LiteFunctionPool :=
  submit (mkOp false sessionKey
            (mkRecord instanceID schedulerID sessionID sessionCtxID sessionTTL concurrency 0)) p.

Definition deleteSessionFromStore (sessionID : string) (p : LiteFunctionPool) : LiteFunctionPool :=
  submit (mkOp true sessionID zeroRecord) p.

Definition cancelSessionUnbind (sessionID : string) (p : LiteFunctionPool) : LiteFunctionPool :=
  match pl_sessions p !! sessionID with
  | Some b => if negb (sb_expiring b) then p
              else alter_session (fun b => set_expiring false (stopTimer b)) sessionID p
  | None => p
  end.

(** Returns the held units to the instance; the last branch is the source's
    sentinel for broken accounting. *)
Definition processInstanceInUse (binding : sessionBinding) (p : LiteFunctionPool)
    : LiteFunctionPool :=
  match pl_instances p !! sb_instanceID binding with
  | None => p
  | Some slot =>
      let h := held binding in
      if 0 <? h then
        if h <=? li_InUse slot
        then alter_instance (add_InUse (- h)) (sb_instanceID binding) p
        else alter_instance (set_InUse 0) (sb_instanceID binding) p
      else p
  end.

Definition removeSessionBinding (sessionID : string) (p : LiteFunctionPool) : LiteFunctionPool :=
  let p := match pl_sessions p !! sessionID with
           | Some binding => processInstanceInUse binding p
           | None => p
           end in
  let p := set_sessions (delete sessionID (pl_sessions p)) p in
  deleteSessionFromStore sessionID p.

Definition tryLocalStickyLocked (bindingKey : string) (p : LiteFunctionPool)
    : stickyResult * LiteFunctionPool :=
  match pl_sessions p !! bindingKey with
  | None => (stickyMiss, p)
  | Some binding =>
      match pl_instances p !! sb_instanceID binding with
      | Some slot =>
          if negb (schedulable (li_Status slot)) then (stickyMiss, removeSessionBinding bindingKey p)
          else if (0 <? sb_reserved binding) || (li_InUse slot <? li_Capacity slot)
          then (stickyHit (sb_instanceID binding), cancelSessionUnbind bindingKey p)
          else (stickyFull (sb_instanceID binding), p)
      | None => (stickyMiss, removeSessionBinding bindingKey p)
      end
  end.

(** A binding of the same key is overwritten, its timer stopped. *)
Definition bindSessionFreshLocked (bindingKey instanceID : string) (concurrency : Z)
    (p : LiteFunctionPool) : LiteFunctionPool :=
  let binding := mkBinding (pl_next p) instanceID (concurrency - 1) 1 None false in
  bump_next (set_sessions (<[bindingKey:=binding]> (pl_sessions p)) p).

(** The updated binding and the change of [slot.InUse] the caller applies. *)
Definition bindSessionStickyTakeLocked (binding : sessionBinding) : Z * sessionBinding :=
  if 0 <? sb_reserved binding
  then (0, mkBinding (sb_ptr binding) (sb_instanceID binding) (sb_reserved binding - 1)
             (sb_activeAllocs binding + 1) (sb_timer binding) (sb_expiring binding))
  else (1, mkBinding (sb_ptr binding) (sb_instanceID binding) (sb_reserved binding)
             (sb_activeAllocs binding + 1) (sb_timer binding) (sb_expiring binding)).

(** The result says whether the idle-unbind timer has to be started. *)
Definition unbindSessionOnRelease (sessionID : string) (p : LiteFunctionPool)
    : bool * LiteFunctionPool :=
  match pl_sessions p !! sessionID with
  | None => (false, p)
  | Some b =>
      let b := if 0 <? sb_activeAllocs b
               then mkBinding (sb_ptr b) (sb_instanceID b) (sb_reserved b + 1)
                      (sb_activeAllocs b - 1) (sb_timer b) (sb_expiring b)
               else b in
      if (0 <? sb_activeAllocs b) || sb_expiring b
      then (false, set_sessions (<[sessionID:=b]> (pl_sessions p)) p)
      else (true, set_sessions (<[sessionID:=set_expiring true b]> (pl_sessions p)) p)
  end.

(** ** Dispatch: what a chosen instance satisfies *)

Lemma select_step_fits c best ins b :
  select_step c best ins = Some b ->
  (b = ins /\ 0 < li_Capacity ins /\ c <= li_Capacity ins - li_InUse ins) \/ best = Some b.
Proof.
  unfold select_step. destruct (_ || _) eqn:E; [by right|]. zbool.
  destruct best; [case_match|]; naive_solver.
Qed.

Definition fits (c : Z) (ins : LiteInstance) : Prop :=
  0 < li_Capacity ins /\ c <= li_Capacity ins - li_InUse ins.

Lemma fold_select_fits c slots best b :
  fold_left (select_step c) slots best = Some b -> best = Some b \/ (b ∈ slots /\ fits c b).
Proof.
  revert best. induction slots as [|ins slots IH]; intros best; simpl; [by left|].
  intros [Hb|[Hin Hf]]%IH; [|right; split; [by right|done]].
  apply select_step_fits in Hb as [(-> & ? & ?)|]; [|by left]. right. split; [left|done].
Qed.

Lemma rr_pass_Some offsets cur slots c st idx ins :
  rr_pass offsets cur slots c st = Some (idx, ins) ->
  ins ∈ slots /\ li_Status ins = st /\ c <= li_Capacity ins - li_InUse ins /\
  slots !! Z.to_nat idx = Some ins /\
  exists o, o ∈ offsets /\ idx = (cur + Z.of_nat o) %g Z.of_nat (length slots).
Proof.
  induction offsets as [|o offsets IH]; simpl; [done|].
  destruct (slots !! Z.to_nat (_ %g _)) as [x|] eqn:Hx; [|done]. destruct (_ && _) eqn:E.
  - intros [= <- <-]. zbool. split_and!; try done; [by eapply list_elem_of_lookup_2|].
    exists o. split; [left|done].
  - intros (? & ? & ? & ? & o' & ? & ?)%IH. split_and!; try done. exists o'. split; [by right|done].
Qed.

Lemma Select_in d slots c ins d' :
  Select d slots c = (Some ins, d') ->
  ins ∈ slots /\ 0 < c /\ c <= li_Capacity ins - li_InUse ins.
Proof.
  destruct d as [|cur]; simpl.
  - intros [= Hs _]. unfold concurrency_Select in Hs. destruct (Z.leb_spec c 0); [done|].
    apply fold_select_fits in Hs as [|[? [? ?]]]; [done|auto with lia].
  - unfold roundRobin_Select. destruct (Z.of_nat (length slots) =? 0); [done|].
    destruct (Z.leb_spec c 0); [done|].
    destruct (rr_pass _ _ _ _ InstanceStatusRunning) as [[idx x]|] eqn:E1.
    { intros [= <- _]. apply rr_pass_Some in E1 as (? & ? & ? & _). auto. }
    destruct (rr_pass _ _ _ _ InstanceStatusSubHealth) as [[idx x]|] eqn:E2; [|done].
    intros [= <- _]. apply rr_pass_Some in E2 as (? & ? & ? & _). auto.
Qed.

Lemma candidateSlotsLocked_in p order ctx c ins :
  ins ∈ candidateSlotsLocked p order ctx c ->
  exists id, pl_instances p !! id = Some ins /\ is_candidate ctx c ins = true.
Proof.
  unfold candidateSlotsLocked. intros [Hc [id [_ Hid]]%list_elem_of_omap]%list_elem_of_filter. eauto.
Qed.

Lemma score_lt_spec a b :
  0 < li_Capacity a -> 0 < li_Capacity b ->
  (score_lt (score a) (score b) = true <->
   fst (score a) * li_Capacity b < fst (score b) * li_Capacity a).
Proof. intros _ _. unfold score_lt. simpl. by rewrite Z.ltb_lt. Qed.

(** [a] scores no better than [b]. *)
Definition not_better (a b : LiteInstance) : Prop := score_lt (score a) (score b) = false.

Lemma not_better_refl a : not_better a a.
Proof. unfold not_better, score_lt. apply Z.ltb_irrefl. Qed.

Lemma not_better_trans a b c :
  0 < li_Capacity a -> 0 < li_Capacity b -> 0 < li_Capacity c ->
  not_better a b -> not_better b c -> not_better a c.
Proof.
  unfold not_better, score_lt, score; cbn [fst snd]. intros Ha Hb Hc H1 H2. zbool. apply Z.ltb_ge.
  set (x := li_InUse a + _) in *. set (y := li_InUse b + _) in *. set (z := li_InUse c + _) in *.
  nia.
Qed.

Lemma fits_test c ins :
  (li_Capacity ins <=? 0) || (li_Capacity ins - li_InUse ins <? c) = false <-> fits c ins.
Proof. unfold fits. rewrite orb_false_iff, Z.leb_gt, Z.ltb_ge. done. Qed.

Lemma fold_select_best c slots best :
  (forall b, best = Some b -> fits c b) ->
  match fold_left (select_step c) slots best with
  | None => best = None /\ forall ins, ins ∈ slots -> ~ fits c ins
  | Some b =>
      fits c b /\ (forall b0, best = Some b0 -> not_better b0 b) /\
      (forall ins, ins ∈ slots -> fits c ins -> not_better ins b)
  end.
Proof.
  revert best. induction slots as [|x slots IH]; intros best Hb; simpl.
  { destruct best as [b|].
    - split_and!; [by apply Hb|intros ? [= <-]; apply not_better_refl|].
      intros ins Hin. by apply elem_of_nil in Hin.
    - split; [done|]. intros ins Hin. by apply elem_of_nil in Hin. }
  assert (Hstep : forall b, select_step c best x = Some b -> fits c b).
  { intros b [(-> & ? & ?)|]%select_step_fits; [done|auto]. }
  specialize (IH _ Hstep). destruct (fold_left _ slots _) as [r|].
  - destruct IH as (Hr & Hbest & Hall). split; [done|].
    assert (Hx : fits c x -> not_better x r).
    { intros Hx. unfold select_step in Hbest. rewrite (proj2 (fits_test c x) Hx) in Hbest.
      destruct best as [b0|]; [|by apply Hbest]. destruct (score_lt _ _) eqn:E; [by apply Hbest|].
      eapply (not_better_trans x b0); [apply Hx|apply (Hb b0 eq_refl)|apply Hr|done|by apply Hbest]. }
    split.
    + intros b0 ->. unfold select_step in Hbest. destruct (_ || _) eqn:E; [by apply Hbest|].
      destruct (score_lt (score x) (score b0)) eqn:E2; [|by apply Hbest].
      apply fits_test in E as Hfx. eapply (not_better_trans b0 x);
        [apply (Hb b0 eq_refl)|apply Hfx|apply Hr| |by apply Hbest].
      unfold not_better, score_lt in *. zbool. apply Z.ltb_ge. lia.
    + intros ins [->|Hin]%elem_of_cons; auto.
  - destruct IH as [Hn Hall]. unfold select_step in Hn. destruct (_ || _) eqn:E.
    + split; [done|]. intros ins [->|Hin]%elem_of_cons; [|auto].
      intros Hf%fits_test. congruence.
    + destruct best; [case_match|]; done.
Qed.

Lemma rr_pass_None offsets cur slots c st :
  (forall o, o ∈ offsets -> (o < length slots)%nat) -> 0 <= cur < Z.of_nat (length slots) ->
  rr_pass offsets cur slots c st = None ->
  forall o ins, o ∈ offsets ->
    slots !! Z.to_nat ((cur + Z.of_nat o) %g Z.of_nat (length slots)) = Some ins ->
    li_Status ins = st -> li_Capacity ins - li_InUse ins < c.
Proof.
  intros Ho Hcur. induction offsets as [|o offsets IH]; intros Hr o' ins Ho' Hins Hst;
    [by apply elem_of_nil in Ho'|]. cbn [rr_pass] in Hr.
  rewrite go_rem_nonneg in Hr by lia.
  pose proof (Z.mod_pos_bound (cur + Z.of_nat o) (Z.of_nat (length slots)) ltac:(lia)).
  destruct (lookup_lt_is_Some_2 slots
    (Z.to_nat ((cur + Z.of_nat o) mod Z.of_nat (length slots))) ltac:(lia)) as [x Hx].
  rewrite Hx in Hr. destruct (_ && _) eqn:E; [done|].
  apply elem_of_cons in Ho' as [->|Ho']; [|apply (IH ltac:(intros; apply Ho; by right) Hr o'); done].
  rewrite go_rem_nonneg in Hins by lia. simplify_eq.
  rewrite bool_decide_true in E by done. simpl in E. zbool. done.
Qed.

(** Every slot is at some offset of the cursor. *)
Lemma rr_offset (n : nat) (cur : Z) (i : nat) :
  0 <= cur < Z.of_nat n -> (i < n)%nat ->
  exists o, (o < n)%nat /\ Z.to_nat ((cur + Z.of_nat o) %g Z.of_nat n) = i.
Proof.
  intros Hcur Hi. exists (Z.to_nat ((Z.of_nat i - cur) mod Z.of_nat n)).
  pose proof (Z.mod_pos_bound (Z.of_nat i - cur) (Z.of_nat n) ltac:(lia)). split; [lia|].
  rewrite Z2Nat.id, go_rem_nonneg, Zplus_mod_idemp_r by lia.
  replace (cur + (Z.of_nat i - cur)) with (Z.of_nat i) by lia. rewrite Z.mod_small by lia. lia.
Qed.

Lemma rr_pass_complete cur slots c st :
  0 <= cur < Z.of_nat (length slots) ->
  rr_pass (seq 0 (length slots)) cur slots c st = None ->
  forall ins, ins ∈ slots -> li_Status ins = st -> li_Capacity ins - li_InUse ins < c.
Proof.
  intros Hcur Hr ins Hin Hst. apply list_elem_of_lookup in Hin as [i Hi].
  pose proof (lookup_lt_Some _ _ _ Hi) as Hl.
  destruct (rr_offset _ cur i Hcur Hl) as (o & Ho & Hoi).
  eapply (rr_pass_None _ cur slots c st); [|done|done| |by rewrite Hoi|done].
  - intros o' Ho'%elem_of_seq. lia.
  - apply elem_of_seq. lia.
Qed.

(** The cursor after reduction is in range. *)
Lemma rr_cursor (cur n : Z) :
  0 <= cur -> 0 < n -> 0 <= (if n <=? cur then cur %g n else cur) < n.
Proof.
  intros. destruct (Z.leb_spec n cur); [|lia]. rewrite go_rem_nonneg by lia.
  apply Z.mod_pos_bound. lia.
Qed.

(** Both dispatch policies prefer a healthy instance, and find one if
    there is one.  For a positive concurrency and slots with non-negative use,
    [Select] returns an instance of the slots that has room; it returns none
    only if no Running or SubHealth slot with positive capacity has room; and
    it returns a SubHealth instance only if no Running one has room. *)
Theorem Select_prefers_healthy (d : Dispatcher) (slots : list LiteInstance) (c : Z)
    (Hc : 0 < c)
    (Hslots : forall ins, ins ∈ slots ->
       0 <= li_InUse ins /\ schedulable (li_Status ins) = true)
    (Hcur : match d with roundRobinDispatcher cur => 0 <= cur | _ => True end) :
  match fst (Select d slots c) with
  | None => forall ins, ins ∈ slots -> ~ fits c ins
  | Some b =>
      b ∈ slots /\ c <= li_Capacity b - li_InUse b /\
      (li_Status b = InstanceStatusSubHealth ->
       forall ins, ins ∈ slots -> li_Status ins = InstanceStatusRunning -> ~ fits c ins)
  end.
Proof.
  destruct d as [|cur]; simpl.
  - unfold concurrency_Select. destruct (Z.leb_spec c 0); [lia|].
    pose proof (fold_select_best c slots None ltac:(done)) as Hbest.
    destruct (fold_left _ slots None) as [b|] eqn:Hf; [|apply Hbest].
    destruct Hbest as (Hb & _ & Hall). apply fold_select_fits in Hf as [|[Hin _]]; [done|].
    split_and!; [done|apply Hb|]. intros Hsub ins Hi Hrun Hfit. specialize (Hall ins Hi Hfit).
    unfold not_better, score_lt, score in Hall. rewrite Hsub, Hrun in Hall. simpl in Hall. zbool.
    destruct (Hslots ins Hi), (Hslots b Hin), Hfit, Hb. nia.
  - unfold roundRobin_Select. destruct (Z.eqb_spec (Z.of_nat (length slots)) 0) as [Hn|Hn].
    { destruct slots; [|simpl in Hn; lia]. intros ins Hin. by apply elem_of_nil in Hin. }
    destruct (Z.leb_spec c 0); [lia|].
    pose proof (rr_cursor cur (Z.of_nat (length slots)) Hcur ltac:(lia)) as Hcur'.
    set (cur' := if Z.of_nat (length slots) <=? cur then _ else cur) in *.
    destruct (rr_pass _ _ _ _ InstanceStatusRunning) as [[idx b]|] eqn:E1; simpl.
    { apply rr_pass_Some in E1 as (? & Hst & ? & _). split_and!; [done|done|congruence]. }
    pose proof (rr_pass_complete _ _ _ _ Hcur' E1) as H1.
    destruct (rr_pass _ _ _ _ InstanceStatusSubHealth) as [[idx b]|] eqn:E2; simpl.
    { apply rr_pass_Some in E2 as (? & Hst & ? & _). split_and!; [done|done|].
      intros _ ins Hin Hr [_ Hf]. specialize (H1 ins Hin Hr). lia. }
    pose proof (rr_pass_complete _ _ _ _ Hcur' E2) as H2. intros ins Hin [_ Hf].
    destruct (Hslots ins Hin) as [_ Hs]. unfold schedulable in Hs.
    apply orb_true_iff in Hs as [Hs|Hs]; zbool; [specialize (H1 ins Hin Hs)|specialize (H2 ins Hin Hs)]; lia.
Qed.

Definition demo_ins (id : string) (capacity inUse : Z) (st : InstanceStatus) : LiteInstance :=
  mkIns id "t/f/v" capacity inUse st "" "" "" "" "" "" "" "" "" None false.

Lemma Select_prefers_healthy_witness :
  let a := demo_ins "a" 10 0 InstanceStatusSubHealth in
  let b := demo_ins "b" 10 9 InstanceStatusRunning in
  fst (Select concurrencyDispatcher [a; b] 1) = Some b /\
  match fst (Select concurrencyDispatcher [a; b] 1) with
  | None => False
  | Some x => x ∈ [a; b]
  end.
Proof.
  intros a b. split; [done|].
  pose proof (Select_prefers_healthy concurrencyDispatcher [a; b] 1 ltac:(lia)) as H.
  assert (forall ins, ins ∈ [a; b] -> 0 <= li_InUse ins /\ schedulable (li_Status ins) = true) as Hs.
  { intros ins [->|[->|[]%elem_of_nil]%elem_of_cons]%elem_of_cons; by split. }
  specialize (H Hs I). simpl in H. apply H.
Defined.

(** A slot that every request of concurrency [c] fits. *)
Definition open_for (c : Z) (ins : LiteInstance) : Prop :=
  li_Status ins = InstanceStatusRunning /\ c <= li_Capacity ins - li_InUse ins.

Lemma roundRobin_open cur slots c :
  0 < c -> 0 <= cur < Z.of_nat (length slots) -> Forall (open_for c) slots ->
  exists ins, slots !! Z.to_nat cur = Some ins /\
    roundRobin_Select cur slots c = (Some ins, (cur + 1) mod Z.of_nat (length slots)).
Proof.
  intros Hc Hcur Hall. destruct (lookup_lt_is_Some_2 slots (Z.to_nat cur) ltac:(lia)) as [x Hx].
  exists x. split; [done|]. unfold roundRobin_Select.
  destruct (Z.eqb_spec (Z.of_nat (length slots)) 0); [lia|]. destruct (Z.leb_spec c 0); [lia|].
  destruct (Z.leb_spec (Z.of_nat (length slots)) cur); [lia|].
  destruct (length slots) as [|m] eqn:Hn; [lia|]. cbn [seq rr_pass]. rewrite Hn.
  rewrite (go_rem_nonneg (cur + _)), Z.add_0_r, Z.mod_small by lia. rewrite Hx.
  pose proof (Forall_lookup_1 _ _ _ _ Hall Hx) as [Hst Hfit].
  rewrite bool_decide_true by done. simpl. destruct (Z.leb_spec c (li_Capacity x - li_InUse x)); [|lia].
  by rewrite go_rem_nonneg by lia.
Qed.

(** A sequence of calls on snapshots of the slots. *)
Fixpoint rr_calls (cur : Z) (snapshots : list (list LiteInstance)) (c : Z)
    : list (option LiteInstance) :=
  match snapshots with
  | [] => []
  | slots :: rest =>
      let '(r, cur) := roundRobin_Select cur slots c in r :: rr_calls cur rest c
  end.

(** Round robin is fair on stable slots.  As long as every call is given
    the same number [n] of slots, all Running and with room, the [k]-th call
    returns slot number [(cur + k) mod n] of its snapshot: each position is
    chosen exactly once in any [n] consecutive calls. *)
Theorem roundRobin_fair (cur : Z) (n : nat) (snapshots : list (list LiteInstance)) (c : Z) (k : nat)
    (slots : list LiteInstance) (Hc : 0 < c) (Hcur : 0 <= cur < Z.of_nat n)
    (Hsnap : forall sl, sl ∈ snapshots -> length sl = n /\ Forall (open_for c) sl)
    (Hk : snapshots !! k = Some slots) :
  rr_calls cur snapshots c !! k
  = Some (slots !! Z.to_nat ((cur + Z.of_nat k) mod Z.of_nat n)).
Proof.
  revert cur snapshots Hcur Hsnap Hk. induction k as [|k IH]; intros cur [|s rest] Hcur Hsnap Hk;
    try done; simpl in Hk; destruct (Hsnap s ltac:(left)) as [Hn Hall];
    destruct (roundRobin_open cur s c) as (x & Hx & Hr); try done; try lia;
    cbn [rr_calls]; rewrite Hr; simpl.
  - injection Hk as <-. rewrite Z.add_0_r, Z.mod_small by lia. by rewrite Hx.
  - rewrite Hn. rewrite (IH _ rest); [|apply Z.mod_pos_bound; lia| |done].
    + f_equal. f_equal. f_equal. rewrite Zplus_mod_idemp_l. f_equal. lia.
    + intros sl Hsl. apply Hsnap. by right.
Qed.

Lemma roundRobin_fair_witness :
  let a := demo_ins "a" 10 0 InstanceStatusRunning in
  let b := demo_ins "b" 10 0 InstanceStatusRunning in
  rr_calls 0 [[a; b]; [a; b]; [a; b]] 1 !! 1%nat = Some ([a; b] !! Z.to_nat ((0 + 1) mod 2)).
Proof.
  intros a b. apply (roundRobin_fair 0 2 [[a; b]; [a; b]; [a; b]] 1 1 [a; b]); [lia|lia| |done].
  intros sl Hsl. repeat (apply elem_of_cons in Hsl as [->|Hsl]); try by apply elem_of_nil in Hsl.
  all: split; [done|]; repeat constructor; vm_compute; intuition congruence.
Defined.
