(* ===== verification/LiteSched.v ===== *)
(** * The lite scheduler

    litescheduler.go, operation.go, event.go, expiry.go and idle.go (package
    pkg/functionscaler/litescheduler): acquiring, releasing and retaining
    allocations, the registry events, the expiry of leases and the scan for
    idle session contexts.

    A handler is one function of the scheduler's state.  [handleAcquire], which
    waits on the store, on the scaler and for capacity, is cut at the points
    where it holds no lock ([acq_pc], [acq_step]), so that other requests and
    events come in between.  The other handlers hold their locks for moments
    only and are one step each.  At every phase a waiting acquire looks its pool
    up again, where the source keeps the pointer; the two differ only if the
    function is undeployed while the request waits.

    Environment: [LiteEnv] has what the handlers read from outside, the
    configuration, the owner ring, the decoders of [encoding/json].  Times and
    map iteration orders are arguments. *)
From S2P Require Import Prelude GoStrings TimeWheel WheelSpec SessionStore LiteAlloc LitePool.

#[local] Open Scope string_scope.
#[local] Open Scope Z_scope.

Notation MinLeaseInterval := (500 * Millisecond)%Z (only parsing).
Notation liteExpiryScanPace := (5 * Millisecond)%Z (only parsing).
Notation liteExpiryScanSlots := (100)%Z (only parsing).
Definition minConcurrency : Z := 1.
Notation defaultSessionContextIdleTTL := (5 * Second)%Z (only parsing).

(** Status codes and messages. *)
Notation InsReqSuccessCode := (6030)%Z (only parsing).
Notation LeaseExpireOrDeletedErrorCode := (6036)%Z (only parsing).
Notation InternalErrorCode := (330404)%Z (only parsing).
Notation InstanceSessionInvalidErrCode := (4037)%Z (only parsing).
Notation FuncMetaNotFoundErrCode := (150424)%Z (only parsing).
Notation InstanceNotFoundErrCode := (150425)%Z (only parsing).
Notation InstanceStatusAbnormalCode := (150427)%Z (only parsing).
Notation NoInstanceAvailableErrCode := (150431)%Z (only parsing).
Notation LeaseIDIllegalCode := (150462)%Z (only parsing).
Notation LeaseIDNotFoundCode := (150463)%Z (only parsing).
Notation AcquireNonOwnerSchedulerErrorCode := (150464)%Z (only parsing).
Notation FuncMetaNotFoundErrMsg := ("function metadata not found")%string (only parsing).
Notation InstanceNotFoundErrMsg := ("instance not exist")%string (only parsing).
Notation LeaseIDIllegalMsg := ("lease id is illegal")%string (only parsing).
Notation LeaseIDNotFoundMsg := ("lease id is not found")%string (only parsing).

(** A scheduler of the owner ring (types.InstanceInfo). *)
Record InstanceInfo := mkInfo { ii_InstanceName : string; ii_InstanceID : string; ii_Address : string }.

(** What the lite scheduler asks of [selfregister.SchedulerProxy]. *)
Record OwnerProxy := mkOwner {
  ow_CheckHashOwner : string -> string * bool;
  ow_FindHashOwner : string -> option InstanceInfo
}.

(** The fields of [types.InstanceThreadMetrics] a retain reads. *)
Record InstanceThreadMetrics := mkMetrics { tm_ReacquireData : string; tm_FunctionKey : string }.

Record LiteEnv := mkEnv {
  ev_cfg : LiteSchedulerConfig;
  ev_ownerProxy : option OwnerProxy;
  ev_podIP : string;
  ev_self : string;
  ev_json_bytes_map : string -> option (gmap string string);
  ev_json_session : string -> option InstanceSessionConfig;
  ev_json_metrics : string -> option InstanceThreadMetrics;
  ev_json_metrics_map : string -> gmap string InstanceThreadMetrics
}.

(** ** Responses; [SchedulerTime] is wall-clock diagnostics and left out *)
Record InstanceResponse := mkResp {
  rp_FuncKey : string;
  rp_FuncSig : string;
  rp_InstanceID : string;
  rp_ThreadID : string;
  rp_InstanceIP : string;
  rp_InstancePort : string;
  rp_NodeIP : string;
  rp_NodePort : string;
  rp_FunctionProxyID : string;
  rp_RouteAddress : string;
  rp_LeaseInterval : Z;
  rp_ErrorCode : Z;
  rp_ErrorMessage : string
}.

Record BatchInstanceResponse := mkBatchResp {
  br_Succeed : gmap string (string * string * string * string);
  br_Failed : gmap string (Z * string);
  br_LeaseInterval : Z
}.

Definition liteTTL (cfg : LiteSchedulerConfig) : Z :=
  let ttl := cf_LeaseSpan cfg * Millisecond in
  if ttl <? MinLeaseInterval then MinLeaseInterval else ttl.

Definition liteSuccessResp (cfg : LiteSchedulerConfig) (slot : option LiteInstance)
    (allocID funcKey : string) : InstanceResponse :=
  let interval := liteTTL cfg /g Millisecond in
  match slot with
  | Some slot =>
      mkResp funcKey (li_FuncSig slot) (li_InstanceID slot) allocID (li_InstanceIP slot)
        (li_InstancePort slot) (li_NodeIP slot) (li_NodePort slot) (li_FunctionProxyID slot)
        (li_RouteAddress slot) interval InsReqSuccessCode "instance request successfully"
  | None =>
      mkResp "" "" "" allocID "" "" "" "" "" "" interval InsReqSuccessCode
        "instance request successfully"
  end.

Definition liteErrResp (code : Z) (msg : string) : InstanceResponse :=
  mkResp "" "" "" "" "" "" "" "" "" "" 0 code msg.

Definition noInstance : InstanceResponse :=
  liteErrResp NoInstanceAvailableErrCode "no available instance".

(** ** State *)

(** The counters of [LiteCollector] by label values. *)
Record LiteCollector := mkCollector {
  mc_acquire : gmap (list string) Z;
  mc_release : gmap (list string) Z;
  mc_retain : gmap (list string) Z;
  mc_scaleHint : gmap (list string) Z
}.

Record LiteScheduler (W : Type) := mkSched {
  ls_pools : gmap string LiteFunctionPool;
  ls_allocations : gmap string Allocation;
  ls_wheel : W;
  ls_metrics : LiteCollector
}.
Arguments mkSched {W}.
Arguments ls_pools {W}.
Arguments ls_allocations {W}.
Arguments ls_wheel {W}.
Arguments ls_metrics {W}.

Section Handlers.
Context {W : Type} `{ExpiryWheel W}.
Implicit Types (ls : LiteScheduler W) (pool : LiteFunctionPool) (req : LiteRequest) (env : LiteEnv).

(** [New] with the given (empty) wheel. *)
Definition NewLiteScheduler (w : W) : LiteScheduler W :=
  mkSched ∅ ∅ w (mkCollector ∅ ∅ ∅ ∅).

Definition set_pools (m : gmap string LiteFunctionPool) ls : LiteScheduler W :=
  mkSched m (ls_allocations ls) (ls_wheel ls) (ls_metrics ls).
Definition set_allocations (m : gmap string Allocation) ls : LiteScheduler W :=
  mkSched (ls_pools ls) m (ls_wheel ls) (ls_metrics ls).
Definition set_wheel (w : W) ls : LiteScheduler W :=
  mkSched (ls_pools ls) (ls_allocations ls) w (ls_metrics ls).
Definition set_metrics (m : LiteCollector) ls : LiteScheduler W :=
  mkSched (ls_pools ls) (ls_allocations ls) (ls_wheel ls) m.
Definition put_pool (funcKey : string) pool ls : LiteScheduler W :=
  set_pools (<[funcKey:=pool]> (ls_pools ls)) ls.

Definition getPool (funcKey : string) ls : option LiteFunctionPool := ls_pools ls !! funcKey.

(** *** Counters *)
Definition count (labels : list string) (m : gmap (list string) Z) : gmap (list string) Z :=
  <[labels := default 0 (m !! labels) + 1]> m.

Definition incAcquire env (funcKey tenantID policy result : string) ls : LiteScheduler W :=
  let m := ls_metrics ls in
  set_metrics (mkCollector (count [ev_self env; tenantID; funcKey; policy; result] (mc_acquire m))
                 (mc_release m) (mc_retain m) (mc_scaleHint m)) ls.
Definition incRelease env (funcKey tenantID policy result : string) ls : LiteScheduler W :=
  let m := ls_metrics ls in
  set_metrics (mkCollector (mc_acquire m)
                 (count [ev_self env; tenantID; funcKey; policy; result] (mc_release m))
                 (mc_retain m) (mc_scaleHint m)) ls.
Definition incRetain env (funcKey tenantID policy result : string) ls : LiteScheduler W :=
  let m := ls_metrics ls in
  set_metrics (mkCollector (mc_acquire m) (mc_release m)
                 (count [ev_self env; tenantID; funcKey; policy; result] (mc_retain m))
                 (mc_scaleHint m)) ls.
Definition incScaleHint env (funcKey tenantID reason : string) ls : LiteScheduler W :=
  let m := ls_metrics ls in
  set_metrics (mkCollector (mc_acquire m) (mc_release m) (mc_retain m)
                 (count [ev_self env; tenantID; funcKey; "n/a"; reason] (mc_scaleHint m))) ls.

(** *** Expiry tasks; an error of the wheel is only logged *)
Definition registerExpiryTask env (allocID : string) ls : LiteScheduler W :=
  set_wheel (snd (ew_AddTask (ls_wheel ls) allocID (liteTTL (ev_cfg env)) 1)) ls.
Definition updateExpiryTask env (allocID : string) ls : LiteScheduler W :=
  set_wheel (snd (ew_UpdateTask (ls_wheel ls) allocID (liteTTL (ev_cfg env)) 1)) ls.
Definition removeExpiryTask (allocID : string) ls : LiteScheduler W :=
  set_wheel (snd (ew_DelTask (ls_wheel ls) allocID)) ls.

(** ** Acquire *)

Definition checkConcurrencyLimit pool (concurrency : Z) : option InstanceResponse :=
  let limit := instanceConcurrentNum pool in
  if (0 <? limit) && (limit <? concurrency) then
    Some (liteErrResp InstanceSessionInvalidErrCode "concurrency exceeds function concurrentNum")
  else if concurrency <? minConcurrency then
    Some (liteErrResp InstanceSessionInvalidErrCode "concurrency less than minimum value")
  else None.

Definition checkHandleAcquireReq req ls : LiteFunctionPool + InstanceResponse :=
  if rq_SessionTTL req <? 0 then
    inr (liteErrResp InstanceSessionInvalidErrCode "sessionTTL must not be negative")
  else match getPool (rq_FuncKey req) ls with
       | None => inr (liteErrResp FuncMetaNotFoundErrCode FuncMetaNotFoundErrMsg)
       | Some pool =>
           match checkConcurrencyLimit pool (rq_Concurrency req) with
           | Some errResp => inr errResp
           | None => inl pool
           end
       end.

(** [sticky]: the binding found for the request's key is passed on. *)
Definition applySlotBinding env req (slotID : string) (sticky : bool) pool : LiteFunctionPool :=
  match (if sticky then pl_sessions pool !! rq_bindingKey req else None) with
  | Some binding =>
      let '(d, binding) := bindSessionStickyTakeLocked binding in
      alter_instance (add_InUse d) slotID
        (set_sessions (<[rq_bindingKey req:=binding]> (pl_sessions pool)) pool)
  | None =>
      if negb (String.eqb (rq_SessionID req) "") then
        saveSessionToStore (ev_podIP env) (rq_bindingKey req) slotID (rq_SessionID req)
          (rq_SessionCtxID req) (rq_SessionTTL req) (rq_Concurrency req)
          (bindSessionFreshLocked (rq_bindingKey req) slotID (rq_Concurrency req)
             (alter_instance (add_InUse (rq_Concurrency req)) slotID pool))
      else alter_instance (add_InUse 1) slotID pool
  end.

Definition assignInstance env (now : Z) req (slotID : string) (sticky : bool) pool ls
    : InstanceResponse * LiteScheduler W :=
  let pool := set_seq (wrap64 (pl_seqCounter pool + 1)) pool in
  let allocID := genAllocationID (rq_bindingKey req) slotID (to_int64 (pl_seqCounter pool)) in
  let pool := applySlotBinding env req slotID sticky pool in
  let alloc := mkAlloc allocID (rq_SessionID req) (rq_SessionCtxID req) (rq_SessionTTL req)
                 (rq_TenantID req) slotID (rq_FuncKey req) (now + liteTTL (ev_cfg env)) now in
  let ls := put_pool (rq_FuncKey req) pool ls in
  let ls := set_allocations (<[allocID:=alloc]> (ls_allocations ls)) ls in
  let ls := registerExpiryTask env allocID ls in
  let ls := incAcquire env (rq_FuncKey req) (rq_TenantID req) (Policy (pl_dispatcher pool)) "success" ls in
  (liteSuccessResp (ev_cfg env) (pl_instances pool !! slotID) allocID (rq_FuncKey req), ls).

(** The switch on the sticky result shared by phases 1 and 3a; [None] goes on. *)
Definition tryLocalSticky env (now : Z) req pool ls : option InstanceResponse * LiteScheduler W :=
  let '(result, pool) := tryLocalStickyLocked (rq_bindingKey req) pool in
  match result with
  | stickyHit slotID =>
      let '(resp, ls) := assignInstance env now req slotID true pool ls in (Some resp, ls)
  | stickyFull _ => (Some noInstance, put_pool (rq_FuncKey req) pool ls)
  | stickyMiss => (None, put_pool (rq_FuncKey req) pool ls)
  end.

Definition tryStoreRecoveryLocked env (now : Z) req (storeRec : option StoreRecord) pool ls
    : option InstanceResponse * LiteScheduler W :=
  match storeRec with
  | None => (None, ls)
  | Some rec =>
      if String.eqb (sr_InstanceID rec) "" then (None, ls) else
      let valid :=
        match pl_instances pool !! sr_InstanceID rec with
        | Some slot =>
            schedulable (li_Status slot)
            && (rq_Concurrency req <=? li_Capacity slot - li_InUse slot)
            && String.eqb (li_SessionCtxID slot) (rq_SessionCtxID req)
        | None => false
        end in
      if valid then
        let '(resp, ls) := assignInstance env now req (sr_InstanceID rec) false pool ls in
        (Some resp, ls)
      else (None, put_pool (rq_FuncKey req) (deleteSessionFromStore (rq_bindingKey req) pool) ls)
  end.

(** Also the body of [tryPollDispatch]. *)
Definition tryDispatchLocked env (now : Z) (order : list string) req pool ls
    : option InstanceResponse * LiteScheduler W :=
  let slots := candidateSlotsLocked pool order (rq_SessionCtxID req) (rq_Concurrency req) in
  let '(chosen, d) := Select (pl_dispatcher pool) slots (rq_Concurrency req) in
  let pool := set_dispatcher d pool in
  match chosen with
  | None => (None, put_pool (rq_FuncKey req) pool ls)
  | Some slot =>
      let '(resp, ls) := assignInstance env now req (li_InstanceID slot) false pool ls in
      (Some resp, ls)
  end.

(** The locked part of [acquireDispatchOrColdStart]; [None] cold-starts. *)
Definition acquireDispatch env (now : Z) (order : list string) req (storeRec : option StoreRecord) ls
    : option InstanceResponse * LiteScheduler W :=
  match getPool (rq_FuncKey req) ls with
  | None => (None, ls)
  | Some pool =>
      let '(resp, ls) := tryLocalSticky env now req pool ls in
      match resp, getPool (rq_FuncKey req) ls with
      | None, Some pool =>
          let '(resp, ls) := tryStoreRecoveryLocked env now req storeRec pool ls in
          match resp, getPool (rq_FuncKey req) ls with
          | None, Some pool => tryDispatchLocked env now order req pool ls
          | _, _ => (resp, ls)
          end
      | _, _ => (resp, ls)
      end
  end.

Definition tryPollDispatch env (now : Z) (order : list string) req ls
    : option InstanceResponse * LiteScheduler W :=
  match getPool (rq_FuncKey req) ls with
  | None => (None, ls)
  | Some pool => tryDispatchLocked env now order req pool ls
  end.

Definition with_bindingKey (key : string) req : LiteRequest :=
  mkReq (rq_Op req) (rq_FuncKey req) (rq_TenantID req) (rq_SessionID req) (rq_SessionCtxID req)
    (rq_SessionTTL req) (rq_Concurrency req) (rq_AllocationIDs req) (rq_ExtraData req)
    (rq_MetricsData req) (rq_TraceID req) (rq_NeedReverseLookup req) key.

(** Where a goroutine in [handleAcquire] stands. *)
Inductive acq_pc :=
  | AqStart
  | AqStore
  | AqHint
  | AqWait
  | AqDone (resp : InstanceResponse).

(** What the outside answers when it goes on: the store's record, the scaler's
    response to the hint (its error code and message), whether the deadline
    has passed or the scheduler is stopping after this poll, and the orders of
    map iterations. *)
Record acq_input := mkAcqIn {
  ai_now : Z;
  ai_order : list string;
  ai_storeRec : option StoreRecord;
  ai_hint : option (Z * string);
  ai_giveUp : bool
}.

(** The scaler's answer ends the acquire if it carries an error. *)
Definition sendScaleHint (inp : acq_input) : option InstanceResponse :=
  match ai_hint inp with
  | Some (code, msg) => if negb (code =? 0) then Some (liteErrResp code msg) else None
  | None => None
  end.

Definition handleColdStart env (inp : acq_input) req ls : acq_pc * LiteScheduler W :=
  match sendScaleHint inp with
  | Some errResp => (AqDone errResp, ls)
  | None => (AqWait, incScaleHint env (rq_FuncKey req) (rq_TenantID req) "cold_start" ls)
  end.

(** One turn of the polling loop. *)
Definition waitForInstance env (inp : acq_input) req ls : acq_pc * LiteScheduler W :=
  if cf_AcquireWaitTimeoutMs (ev_cfg env) <=? 0 then (AqDone noInstance, ls) else
  let '(resp, ls) := tryPollDispatch env (ai_now inp) (ai_order inp) req ls in
  match resp with
  | Some r => (AqDone r, ls)
  | None => if ai_giveUp inp then (AqDone noInstance, ls) else (AqWait, ls)
  end.

(** [handleAcquire], from one point where it holds no lock to the next. *)
Definition acq_step env (inp : acq_input) req (pc : acq_pc) ls
    : LiteRequest * acq_pc * LiteScheduler W :=
  match pc with
  | AqStart =>
      match checkHandleAcquireReq req ls with
      | inr resp => (req, AqDone resp, ls)
      | inl pool =>
          let req := with_bindingKey
                       (sessionBindingKey pool (rq_SessionID req) (rq_SessionCtxID req)) req in
          let '(resp, ls) := tryLocalSticky env (ai_now inp) req pool ls in
          (req, match resp with Some r => AqDone r | None => AqStore end, ls)
      end
  | AqStore =>
      let '(resp, ls) :=
        acquireDispatch env (ai_now inp) (ai_order inp) req (ai_storeRec inp) ls in
      (req, match resp with Some r => AqDone r | None => AqHint end, ls)
  | AqHint => let '(pc, ls) := handleColdStart env inp req ls in (req, pc, ls)
  | AqWait => let '(pc, ls) := waitForInstance env inp req ls in (req, pc, ls)
  | AqDone resp => (req, AqDone resp, ls)
  end.

(** ** Release *)

(** Whether the unbind timer has to be started, and for which session. *)
Definition releaseSlotLocked (alloc : Allocation) pool : bool * string * LiteFunctionPool :=
  match pl_instances pool !! al_InstanceID alloc with
  | None => (false, "", pool)
  | Some s =>
      if negb (String.eqb (al_SessionID alloc) "") then
        let sessionKey := sessionBindingKey pool (al_SessionID alloc) (al_SessionCtxID alloc) in
        let '(needTimer, pool) := unbindSessionOnRelease sessionKey pool in
        (needTimer, sessionKey, pool)
      else if 0 <? li_InUse s then
        (false, "", alter_instance (add_InUse (- 1)) (al_InstanceID alloc) pool)
      else (false, "", pool)
  end.

(** The new timer's handle is a fresh address; when it fires is up to the
    environment ([fireSessionUnbind]), after [sessionTTLFor] of the TTL. *)
Definition startSessionUnbindTimer (sessionID : string) pool : LiteFunctionPool :=
  match pl_sessions pool !! sessionID with
  | None => pool
  | Some binding =>
      if negb (sb_expiring binding) || negb (sb_activeAllocs binding =? 0) then pool
      else bump_next (alter_session (set_timer (Some (pl_next pool))) sessionID pool)
  end.

Definition releaseInPool (alloc : Allocation) ls
    : option LiteInstance * option LiteFunctionPool * LiteScheduler W :=
  match getPool (al_FuncKey alloc) ls with
  | None => (None, None, ls)
  | Some pool =>
      let '(needUnbindTimer, unbindSessionID, pool) := releaseSlotLocked alloc pool in
      let slot := pl_instances pool !! al_InstanceID alloc in
      let pool := if needUnbindTimer then startSessionUnbindTimer unbindSessionID pool else pool in
      (slot, Some pool, put_pool (al_FuncKey alloc) pool ls)
  end.

Definition poolPolicy (pool : option LiteFunctionPool) : string :=
  match pool with Some p => Policy (pl_dispatcher p) | None => "unknown" end.

(** [AllocationIDs[0]] exists for every request [ParseRequest] builds; the
    panic on an empty list is recovered by [Process]. *)
Definition handleRelease env req ls : InstanceResponse * LiteScheduler W :=
  match rq_AllocationIDs req with
  | [] => (liteErrResp InternalErrorCode "lite process panic recovered", ls)
  | allocID :: _ =>
      match ls_allocations ls !! allocID with
      | None => (liteErrResp InstanceNotFoundErrCode InstanceNotFoundErrMsg, ls)
      | Some alloc =>
          let ls := set_allocations (delete allocID (ls_allocations ls)) ls in
          let ls := removeExpiryTask allocID ls in
          let '(slot, pool, ls) := releaseInPool alloc ls in
          let ls := incRelease env (al_FuncKey alloc) (al_TenantID alloc) (poolPolicy pool) "success" ls in
          (liteSuccessResp (ev_cfg env) slot (al_AllocationID alloc) (al_FuncKey alloc), ls)
      end
  end.

(** The timer callback, with the binding and the handle it was created for. *)
Definition fireSessionUnbind (funcKey sessionID : string) (binding timer : nat) ls : LiteScheduler W :=
  match getPool funcKey ls with
  | None => ls
  | Some pool =>
      match pl_sessions pool !! sessionID with
      | None => ls
      | Some current =>
          if negb (sb_ptr current =? binding)%nat
             || negb (bool_decide (sb_timer current = Some timer))
             || negb (sb_expiring current) || negb (sb_activeAllocs current =? 0)
          then ls
          else put_pool funcKey (removeSessionBinding sessionID pool) ls
      end
  end.

(** ** Retain *)

Definition deleteAllocAndExpiry (allocID : string) ls : LiteScheduler W :=
  removeExpiryTask allocID (set_allocations (delete allocID (ls_allocations ls)) ls).

Definition validateRetainTarget (allocID funcKey instanceID : string) ls
    : (LiteFunctionPool * LiteInstance + InstanceResponse) * LiteScheduler W :=
  match getPool funcKey ls with
  | None =>
      (inr (liteErrResp LeaseExpireOrDeletedErrorCode "lease expires or deleted"),
       deleteAllocAndExpiry allocID ls)
  | Some pool =>
      let abnormal :=
        (inr (liteErrResp InstanceStatusAbnormalCode "lease op failed, instance is abnormal"),
         deleteAllocAndExpiry allocID ls) in
      match pl_instances pool !! instanceID with
      | None => abnormal
      | Some slot => if bool_decide (li_Status slot = InstanceStatusUnavailable) then abnormal
                     else (inl (pool, slot), ls)
      end
  end.

Definition recordRetainSuccess env (pool : option LiteFunctionPool) (alloc : Allocation) ls
    : LiteScheduler W :=
  incRetain env (al_FuncKey alloc) (al_TenantID alloc) (poolPolicy pool) "success" ls.

Definition with_ExpireAt (t : Z) (a : Allocation) : Allocation :=
  mkAlloc (al_AllocationID a) (al_SessionID a) (al_SessionCtxID a) (al_SessionTTL a) (al_TenantID a)
    (al_InstanceID a) (al_FuncKey a) t (al_CreatedAt a).

Definition refreshRetainTTL env (now : Z) (allocID : string) pool (slot : LiteInstance) ls
    : InstanceResponse * LiteScheduler W :=
  match ls_allocations ls !! allocID with
  | None => (liteErrResp LeaseIDNotFoundCode LeaseIDNotFoundMsg, ls)
  | Some alloc =>
      let alloc := with_ExpireAt (now + liteTTL (ev_cfg env)) alloc in
      let ls := set_allocations (<[allocID:=alloc]> (ls_allocations ls)) ls in
      let ls := updateExpiryTask env allocID ls in
      let ls := recordRetainSuccess env (Some pool) alloc ls in
      (liteSuccessResp (ev_cfg env) (Some slot) (al_AllocationID alloc) (al_FuncKey alloc), ls)
  end.

Record reacquireParams := mkReacq {
  ra_allocID : string;
  ra_sessionID : string;
  ra_sessionCtxID : string;
  ra_sessionTTL : Z;
  ra_concurrency : Z;
  ra_funcKey : string;
  ra_tenantID : string;
  ra_instanceID : string
}.

Definition validateSessionAndOwner env (sessionID sessionCtxID : string) (sessionTTL : Z)
    (expectedHash funcKey : string) : option InstanceResponse :=
  if (String.eqb sessionID "" && String.eqb sessionCtxID "") || (sessionTTL <? 0) then
    Some (liteErrResp InstanceSessionInvalidErrCode "session config invalid")
  else if negb (String.eqb (sessionHash (allocationSessionID sessionID sessionCtxID)) expectedHash) then
    Some (liteErrResp LeaseIDIllegalCode LeaseIDIllegalMsg)
  else if String.eqb funcKey "" || negb (isFuncEnabled (ev_cfg env) funcKey) then
    Some (liteErrResp FuncMetaNotFoundErrCode FuncMetaNotFoundErrMsg)
  else match ev_ownerProxy env with
       | None => None
       | Some proxy =>
           let '(ownerID, owned) :=
             ow_CheckHashOwner proxy
               (schedulerOwnerKey (tenantOf funcKey) funcKey sessionID sessionCtxID) in
           if negb owned then Some (liteErrResp AcquireNonOwnerSchedulerErrorCode ownerID) else None
       end.

Definition validateReacquireRequest env (allocID : string) (metrics : option InstanceThreadMetrics)
    : reacquireParams + InstanceResponse :=
  match metrics with
  | None => inr (liteErrResp LeaseIDNotFoundCode LeaseIDNotFoundMsg)
  | Some metrics =>
      if (String.length (tm_ReacquireData metrics) =? 0)%nat then
        inr (liteErrResp LeaseIDNotFoundCode LeaseIDNotFoundMsg)
      else match parseLiteAllocationID allocID with
           | None => inr (liteErrResp LeaseIDIllegalCode LeaseIDIllegalMsg)
           | Some (expectedSessionHash, instanceID, _) =>
               let '(sessionID, sessionCtxID, sessionTTL, concurrency) :=
                 extractSessionDetails (ev_json_bytes_map env) (ev_json_session env)
                   (tm_ReacquireData metrics) in
               match validateSessionAndOwner env sessionID sessionCtxID sessionTTL
                       expectedSessionHash (tm_FunctionKey metrics) with
               | Some errResp => inr errResp
               | None =>
                   inl (mkReacq allocID sessionID sessionCtxID sessionTTL concurrency
                          (tm_FunctionKey metrics) (tenantOf (tm_FunctionKey metrics)) instanceID)
               end
           end
  end.

(** The slot and the session key with whether it is bound. *)
Definition checkReacquireSlotLocked (params : reacquireParams) pool
    : (LiteInstance * string * option sessionBinding) + InstanceResponse :=
  match pl_instances pool !! ra_instanceID params with
  | None => inr (liteErrResp InstanceNotFoundErrCode InstanceNotFoundErrMsg)
  | Some slot =>
      if negb (String.eqb (li_FuncKey slot) "") && negb (String.eqb (li_FuncKey slot) (ra_funcKey params))
      then inr (liteErrResp InstanceNotFoundErrCode InstanceNotFoundErrMsg)
      else if bool_decide (li_Status slot = InstanceStatusUnavailable) then
        inr (liteErrResp InstanceStatusAbnormalCode "lease op failed, instance is abnormal")
      else
        let key := sessionBindingKey pool (ra_sessionID params) (ra_sessionCtxID params) in
        let binding := pl_sessions pool !! key in
        if negb (String.eqb (ra_sessionID params) "")
           && match binding with
              | Some b => negb (String.eqb (sb_instanceID b) (ra_instanceID params))
              | None => false
              end
        then inr (liteErrResp InstanceSessionInvalidErrCode "session is bound to a different instance")
        else inl (slot, key, binding)
  end.

Definition buildReacquiredAlloc env (now : Z) (params : reacquireParams) (key : string)
    (binding : option sessionBinding) pool ls : Allocation * LiteScheduler W :=
  let alloc := mkAlloc (ra_allocID params) (ra_sessionID params) (ra_sessionCtxID params)
                 (ra_sessionTTL params) (ra_tenantID params) (ra_instanceID params)
                 (ra_funcKey params) (now + liteTTL (ev_cfg env)) now in
  let ls := set_allocations (<[ra_allocID params:=alloc]> (ls_allocations ls)) ls in
  let pool :=
    if negb (String.eqb (ra_sessionID params) "") then
      match binding with
      | Some b =>
          let '(d, b) := bindSessionStickyTakeLocked b in
          alter_instance (add_InUse d) (ra_instanceID params)
            (set_sessions (<[key:=b]> (pl_sessions pool)) pool)
      | None =>
          saveSessionToStore (ev_podIP env) key (ra_instanceID params) (ra_sessionID params)
            (ra_sessionCtxID params) (ra_sessionTTL params) (ra_concurrency params)
            (bindSessionFreshLocked key (ra_instanceID params) (ra_concurrency params)
               (alter_instance (add_InUse (ra_concurrency params)) (ra_instanceID params) pool))
      end
    else alter_instance (add_InUse 1) (ra_instanceID params) pool in
  (alloc, put_pool (ra_funcKey params) pool ls).

Definition reacquireAllocation env (now : Z) (allocID : string)
    (metrics : option InstanceThreadMetrics) ls : InstanceResponse * LiteScheduler W :=
  match validateReacquireRequest env allocID metrics with
  | inr errResp => (errResp, ls)
  | inl params =>
      match getPool (ra_funcKey params) ls with
      | None => (liteErrResp FuncMetaNotFoundErrCode FuncMetaNotFoundErrMsg, ls)
      | Some pool =>
          match checkConcurrencyLimit pool (ra_concurrency params) with
          | Some errResp => (errResp, ls)
          | None =>
              match checkReacquireSlotLocked params pool with
              | inr errResp => (errResp, ls)
              | inl (slot, key, binding) =>
                  match ls_allocations ls !! ra_allocID params with
                  | Some alloc =>
                      let alloc := with_ExpireAt (now + liteTTL (ev_cfg env)) alloc in
                      let ls := set_allocations (<[ra_allocID params:=alloc]> (ls_allocations ls)) ls in
                      let ls := updateExpiryTask env (ra_allocID params) ls in
                      let ls := recordRetainSuccess env (Some pool) alloc ls in
                      (liteSuccessResp (ev_cfg env) (Some slot) (al_AllocationID alloc)
                         (al_FuncKey alloc), ls)
                  | None =>
                      let '(alloc, ls) := buildReacquiredAlloc env now params key binding pool ls in
                      let ls := updateExpiryTask env (ra_allocID params) ls in
                      let ls := recordRetainSuccess env (Some pool) alloc ls in
                      (liteSuccessResp (ev_cfg env) (Some slot) (ra_allocID params)
                         (ra_funcKey params), ls)
                  end
              end
          end
      end
  end.

Definition handleRetainWithMetrics env (now : Z) (allocID : string) (needReverseLookup : bool)
    (metrics : option InstanceThreadMetrics) ls : InstanceResponse * LiteScheduler W :=
  match ls_allocations ls !! allocID with
  | None => reacquireAllocation env now allocID metrics ls
  | Some alloc =>
      if needReverseLookup && negb (isFuncEnabled (ev_cfg env) (al_FuncKey alloc)) then
        (liteErrResp FuncMetaNotFoundErrCode FuncMetaNotFoundErrMsg, ls)
      else
        match validateRetainTarget allocID (al_FuncKey alloc) (al_InstanceID alloc) ls with
        | (inr errResp, ls) => (errResp, ls)
        | (inl (pool, slot), ls) => refreshRetainTTL env now allocID pool slot ls
        end
  end.

Definition handleRetain env (now : Z) req ls : InstanceResponse * LiteScheduler W :=
  let metrics := if negb (String.length (rq_MetricsData req) =? 0)%nat
                 then ev_json_metrics env (rq_MetricsData req) else None in
  match rq_AllocationIDs req with
  | [] => (liteErrResp InternalErrorCode "lite process panic recovered", ls)
  | allocID :: _ => handleRetainWithMetrics env now allocID (rq_NeedReverseLookup req) metrics ls
  end.

(** One turn of the loop of [handleBatchRetain]. *)
Definition batch_one env (now : Z) (metricsByAllocation : gmap string InstanceThreadMetrics)
    (acc : BatchInstanceResponse * LiteScheduler W) (allocID : string)
    : BatchInstanceResponse * LiteScheduler W :=
  let '(resp, ls) := acc in
  let '(insResp, ls) :=
    handleRetainWithMetrics env now allocID true (metricsByAllocation !! allocID) ls in
  (if rp_ErrorCode insResp =? InsReqSuccessCode then
     mkBatchResp (<[allocID := (rp_FuncKey insResp, rp_FuncSig insResp, rp_InstanceID insResp, allocID)]>
                    (br_Succeed resp)) (br_Failed resp) (br_LeaseInterval resp)
   else mkBatchResp (br_Succeed resp)
          (<[allocID := (rp_ErrorCode insResp, rp_ErrorMessage insResp)]> (br_Failed resp))
          (br_LeaseInterval resp), ls).

Definition handleBatchRetain env (now : Z) req ls : BatchInstanceResponse * LiteScheduler W :=
  let metricsByAllocation := if negb (String.length (rq_MetricsData req) =? 0)%nat
                             then ev_json_metrics_map env (rq_MetricsData req) else ∅ in
  fold_left (batch_one env now metricsByAllocation) (rq_AllocationIDs req)
    (mkBatchResp ∅ ∅ (liteTTL (ev_cfg env) /g Millisecond), ls).


(** ** Registry events *)

(** Go ranges over the maps in an order of its own; the result does not depend
    on it, except for the order of the store deletes. *)
Definition sessions_on (instanceID : string) pool : list string :=
  (map_to_list (filter (fun kb => sb_instanceID kb.2 = instanceID) (pl_sessions pool))).*1.

Definition allocs_on (funcKey instanceID : string) ls : list string :=
  (map_to_list (filter (fun ka => al_InstanceID ka.2 = instanceID /\ al_FuncKey ka.2 = funcKey)
                  (ls_allocations ls))).*1.

Definition allocs_of (funcKey : string) ls : list string :=
  (map_to_list (filter (fun ka => al_FuncKey ka.2 = funcKey) (ls_allocations ls))).*1.

Definition delete_allocs (ids : list string) ls : LiteScheduler W :=
  fold_left (fun ls id => deleteAllocAndExpiry id ls) ids ls.

(** The part of [removeInstanceLocked] on the pool. *)
Definition drop_instance (instanceID : string) pool : LiteFunctionPool :=
  let sids := sessions_on instanceID pool in
  fold_left (fun p sid => removeSessionBinding sid p) sids
    (set_instances (delete instanceID (pl_instances pool)) pool).

Definition removeInstanceLocked (funcKey instanceID : string) pool ls : LiteScheduler W :=
  let ls := put_pool funcKey (drop_instance instanceID pool) ls in
  delete_allocs (allocs_on funcKey instanceID ls) ls.

Definition upsertPool (funcSpec : FunctionSpecification) ls : LiteScheduler W :=
  match ls_pools ls !! fs_FuncKey funcSpec with
  | None =>
      put_pool (fs_FuncKey funcSpec)
        (mkPool (fs_FuncKey funcSpec) (Some funcSpec) ∅ ∅ (newDispatcher (Some funcSpec)) [] 0 0) ls
  | Some pool => put_pool (fs_FuncKey funcSpec) (set_funcSpec (Some funcSpec) pool) ls
  end.

(** The keys of the bindings are cleaned from the store once its worker has
    stopped; the pool itself is dropped. *)
Definition deletePool (funcKey : string) ls : list string * LiteScheduler W :=
  match ls_pools ls !! funcKey with
  | None => ([], ls)
  | Some pool =>
      let sessionIDs := (map_to_list (pl_sessions pool)).*1 in
      let ls := set_pools (delete funcKey (ls_pools ls)) ls in
      (sessionIDs, delete_allocs (allocs_of funcKey ls) ls)
  end.

Definition handleInstanceUpdate (funcKey : string) (ins : Instance) pool ls : LiteScheduler W :=
  match mapStatus (in_StatusCode ins) with
  | InstanceStatusRunning | InstanceStatusSubHealth =>
      let next := buildLiteInstanceFromInstance ins in
      let next := match pl_instances pool !! in_InstanceID ins with
                  | Some current =>
                      set_idle (li_IdleSince current) (li_Reclaiming current)
                        (set_InUse (li_InUse current) next)
                  | None => next
                  end in
      put_pool funcKey (set_instances (<[in_InstanceID ins:=next]> (pl_instances pool)) pool) ls
  | InstanceStatusUnavailable => removeInstanceLocked funcKey (in_InstanceID ins) pool ls
  end.

Inductive SubEventType := SubEventTypeUpdate | SubEventTypeDelete | SubEventTypeSynced.

(** One event of [processFuncSpecEvents]. *)
Definition funcSpecEvent env (ty : SubEventType) (funcSpec : FunctionSpecification) ls
    : LiteScheduler W :=
  match ty with
  | SubEventTypeSynced => ls
  | SubEventTypeUpdate =>
      if isFuncEnabled (ev_cfg env) (fs_FuncKey funcSpec) then upsertPool funcSpec ls else ls
  | SubEventTypeDelete =>
      if isFuncEnabled (ev_cfg env) (fs_FuncKey funcSpec)
      then snd (deletePool (fs_FuncKey funcSpec) ls) else ls
  end.

(** One event of [processInstanceEvents]; [funcKey] is the note in the
    instance's create options, [ins] what [utils.BuildInstanceFromInsSpec]
    makes of the specification. *)
Definition instanceEvent env (ty : SubEventType) (funcKey : string) (ins : Instance) ls
    : LiteScheduler W :=
  match ty with
  | SubEventTypeSynced => ls
  | _ =>
      if String.eqb funcKey "" then ls
      else if negb (isFuncEnabled (ev_cfg env) funcKey) then ls
      else match getPool funcKey ls with
           | None => ls
           | Some pool =>
               match ty with
               | SubEventTypeUpdate => handleInstanceUpdate funcKey ins pool ls
               | _ => removeInstanceLocked funcKey (in_InstanceID ins) pool ls
               end
           end
  end.

(** ** Expiry *)

Definition reapExpiredAllocation (allocID : string) ls : LiteScheduler W :=
  match ls_allocations ls !! allocID with
  | None => ls
  | Some alloc =>
      let ls := set_allocations (delete allocID (ls_allocations ls)) ls in
      match getPool (al_FuncKey alloc) ls with
      | None => ls
      | Some pool =>
          let '(needTimer, bindingKey, pool) :=
            if negb (String.eqb (al_SessionID alloc) "") then
              let bindingKey := sessionBindingKey pool (al_SessionID alloc) (al_SessionCtxID alloc) in
              let '(needTimer, pool) := unbindSessionOnRelease bindingKey pool in
              (needTimer, bindingKey, pool)
            else
              match pl_instances pool !! al_InstanceID alloc with
              | Some slot =>
                  if 0 <? li_InUse slot
                  then (false, "", alter_instance (add_InUse (- 1)) (al_InstanceID alloc) pool)
                  else (false, "", pool)
              | None => (false, "", pool)
              end in
          let pool := if needTimer then startSessionUnbindTimer bindingKey pool else pool in
          put_pool (al_FuncKey alloc) pool ls
      end
  end.

(** One turn of [processExpiryEvents]: the batch [Wait] returns is reaped. *)
Definition reapBatch (readyList : list string) ls : LiteScheduler W :=
  fold_left (fun ls id => reapExpiredAllocation id ls) readyList ls.

Definition expiryTurn ls : LiteScheduler W :=
  match ew_Wait (ls_wheel ls) with
  | Some (readyList, _, w) => reapBatch readyList (set_wheel w ls)
  | None => ls
  end.

(** ** Idle session contexts *)

Record IdleInstance := mkIdle {
  ie_FuncKey : string; ie_SessionCtxID : string; ie_InstanceID : string; ie_IdleSince : Z
}.

(** The body of the scan's inner loop: the instance afterwards, and the entry
    it adds to the report of an owner. *)
Definition scan_instance (proxy : OwnerProxy) (now : Z) (funcKey : string) (ins : LiteInstance)
    : LiteInstance * option (string * IdleInstance) :=
  if String.eqb (li_SessionCtxID ins) "" then (ins, None)
  else if negb (snd (ow_CheckHashOwner proxy (sessionContextRoutingKey funcKey (li_SessionCtxID ins))))
  then (set_idle None (li_Reclaiming ins) ins, None)
  else if 0 <? li_InUse ins then (set_idle None false ins, None)
  else if li_Reclaiming ins then (ins, None)
  else match li_IdleSince ins with
       | None => (set_idle (Some now) (li_Reclaiming ins) ins, None)
       | Some since =>
           if now - since <? defaultSessionContextIdleTTL then (ins, None)
           else match ow_FindHashOwner proxy funcKey with
                | None => (ins, None)
                | Some owner =>
                    (set_idle (Some since) true ins,
                     Some (ii_InstanceName owner,
                           mkIdle funcKey (li_SessionCtxID ins) (li_InstanceID ins) since))
                end
       end.

Definition scan_pool (proxy : OwnerProxy) (now : Z) pool : LiteFunctionPool :=
  set_instances ((fun ins => fst (scan_instance proxy now (pl_funcKey pool) ins)) <$> pl_instances pool)
    pool.

(** The report entries of a scan, by owner. *)
Definition scan_reports (proxy : OwnerProxy) (now : Z) ls : list (string * IdleInstance) :=
  p ← (map_to_list (ls_pools ls)).*2;
  omap (fun ins => snd (scan_instance proxy now (pl_funcKey p) ins)) (map_to_list (pl_instances p)).*2.

Definition reset_one (item : IdleInstance) ls : LiteScheduler W :=
  match getPool (ie_FuncKey item) ls with
  | None => ls
  | Some pool =>
      put_pool (ie_FuncKey item)
        (alter_instance (fun i => set_idle (li_IdleSince i) false i) (ie_InstanceID item) pool) ls
  end.

(** [sent] says for which owners [sendIdleReport] succeeded. *)
Definition scanSessionContextIdle env (now : Z) (sent : string -> bool) ls : LiteScheduler W :=
  match ev_ownerProxy env with
  | None => ls
  | Some proxy =>
      let reports := scan_reports proxy now ls in
      let ls := set_pools (scan_pool proxy now <$> ls_pools ls) ls in
      fold_left (fun ls '(owner, item) => if sent owner : bool then ls else reset_one item ls) reports ls
  end.

(** The body of [processSchedulerEvents]: the ring changed. *)
Definition ring_instance env (funcKey : string) (ins : LiteInstance) : LiteInstance :=
  if String.eqb (li_SessionCtxID ins) "" then ins
  else match ev_ownerProxy env with
       | Some proxy =>
           if snd (ow_CheckHashOwner proxy (sessionContextRoutingKey funcKey (li_SessionCtxID ins)))
           then ins else set_idle None false ins
       | None => set_idle None false ins
       end.

Definition schedulerEvent env ls : LiteScheduler W :=
  set_pools ((fun p => set_instances (ring_instance env (pl_funcKey p) <$> pl_instances p) p)
               <$> ls_pools ls) ls.

(** ** Process *)

(** Fills the request from the allocations; the fields are those of the last
    one.  [None] if one of them is unknown. *)
Fixpoint reverse_fill (ids : list string) (m : gmap string Allocation) req : option LiteRequest :=
  match ids with
  | [] => Some req
  | id :: ids =>
      match m !! id with
      | None => None
      | Some a =>
          reverse_fill ids m
            (mkReq (rq_Op req) (al_FuncKey a) (al_TenantID a) (al_SessionID a) (al_SessionCtxID a)
               (al_SessionTTL a) (rq_Concurrency req) (rq_AllocationIDs req) (rq_ExtraData req)
               (rq_MetricsData req) (rq_TraceID req) (rq_NeedReverseLookup req) (rq_bindingKey req))
      end
  end.

Definition reverseLookup req ls : option LiteRequest :=
  reverse_fill (rq_AllocationIDs req) (ls_allocations ls) req.

(** The checks [Process] makes before it dispatches: a response that ends the
    request, or the request to handle.  A failed lookup keeps what was filled
    in before it in the source; the handlers read none of it. *)
Definition Process_checks env req ls : LiteRequest + InstanceResponse :=
  let looked_up :=
    if rq_NeedReverseLookup req then
      match reverseLookup req ls with
      | None =>
          if negb (String.eqb (rq_Op req) "retain") && negb (String.eqb (rq_Op req) "batchRetain")
          then inr (liteErrResp LeaseIDNotFoundCode LeaseIDNotFoundMsg)
          else inl req
      | Some req =>
          if negb (isFuncEnabled (ev_cfg env) (rq_FuncKey req))
          then inr (liteErrResp FuncMetaNotFoundErrCode FuncMetaNotFoundErrMsg)
          else inl req
      end
    else inl req in
  match looked_up with
  | inr resp => inr resp
  | inl req =>
      if String.eqb (rq_Op req) "acquire" then
        match ev_ownerProxy env with
        | Some proxy =>
            let '(ownerID, owned) :=
              ow_CheckHashOwner proxy
                (schedulerOwnerKey (rq_TenantID req) (rq_FuncKey req) (rq_SessionID req)
                   (rq_SessionCtxID req)) in
            if negb owned then inr (liteErrResp AcquireNonOwnerSchedulerErrorCode ownerID)
            else inl req
        | None => inl req
        end
      else inl req
  end.

(** What [Process] answers: at once, after a batch, or by the acquire that it
    starts. *)
Inductive process_result :=
  | PRResponse (r : InstanceResponse)
  | PRBatch (r : BatchInstanceResponse)
  | PRAcquire (req : LiteRequest).

Definition Process env (now : Z) req ls : process_result * LiteScheduler W :=
  match Process_checks env req ls with
  | inr resp => (PRResponse resp, ls)
  | inl req =>
      if String.eqb (rq_Op req) "acquire" then (PRAcquire req, ls)
      else if String.eqb (rq_Op req) "release" then
        let '(r, ls) := handleRelease env req ls in (PRResponse r, ls)
      else if String.eqb (rq_Op req) "retain" then
        let '(r, ls) := handleRetain env now req ls in (PRResponse r, ls)
      else if String.eqb (rq_Op req) "batchRetain" then
        let '(r, ls) := handleBatchRetain env now req ls in (PRBatch r, ls)
      else (PRResponse (liteErrResp FuncMetaNotFoundErrCode ("unsupported operation: " ++ rq_Op req)), ls)
  end.

(** ** The running system: requests in flight and events in any order *)

Record sys := mkSys {
  sy_ls : LiteScheduler W;
  sy_acquires : gmap nat (LiteRequest * acq_pc)
}.

Inductive event :=
  | EvRequest (tid : nat) (now : Z) (req : LiteRequest)
  | EvAcquire (tid : nat) (inp : acq_input)
  | EvTimer (funcKey sessionID : string) (binding timer : nat)
  | EvTick
  | EvSend
  | EvExpire
  | EvFuncSpec (ty : SubEventType) (funcSpec : FunctionSpecification)
  | EvInstance (ty : SubEventType) (funcKey : string) (ins : Instance)
  | EvRing
  | EvIdleScan (now : Z) (sent : string -> bool).

Definition on_ls (f : LiteScheduler W -> LiteScheduler W) (s : sys) : sys :=
  mkSys (f (sy_ls s)) (sy_acquires s).

Definition sys_step env (s : sys) (e : event) : sys :=
  match e with
  | EvRequest tid now req =>
      match Process env now req (sy_ls s) with
      | (PRAcquire req, ls) => mkSys ls (<[tid:=(req, AqStart)]> (sy_acquires s))
      | (_, ls) => mkSys ls (sy_acquires s)
      end
  | EvAcquire tid inp =>
      match sy_acquires s !! tid with
      | None => s
      | Some (req, pc) =>
          let '(req, pc, ls) := acq_step env inp req pc (sy_ls s) in
          mkSys ls (<[tid:=(req, pc)]> (sy_acquires s))
      end
  | EvTimer fk sid b t => on_ls (fireSessionUnbind fk sid b t) s
  | EvTick => on_ls (fun ls => set_wheel (default (ls_wheel ls) (ew_tick (ls_wheel ls))) ls) s
  | EvSend => on_ls (fun ls => set_wheel (default (ls_wheel ls) (ew_send (ls_wheel ls))) ls) s
  | EvExpire => on_ls expiryTurn s
  | EvFuncSpec ty spec => on_ls (funcSpecEvent env ty spec) s
  | EvInstance ty fk ins => on_ls (instanceEvent env ty fk ins) s
  | EvRing => on_ls (schedulerEvent env) s
  | EvIdleScan now sent => on_ls (scanSessionContextIdle env now sent) s
  end.

(** The environment (owner ring, configuration) may differ from step to step. *)
Definition sys_run (s : sys) (tr : list (LiteEnv * event)) : sys :=
  fold_left (fun s ee => sys_step (fst ee) s (snd ee)) tr s.

Definition sys_init (w : W) : sys := mkSys (NewLiteScheduler w) ∅.


End Handlers.
