(* ===== verification/LiteWheel.v ===== *)
(** * The lite scheduler's expiry wheel *)
From S2P Require Import Prelude TimeWheel WheelSpec LiteSched.

(** The scheduler's wheel: 100 slots of 5ms. *)
Definition liteWheel : SimpleTimeWheel := NewSimpleTimeWheel liteExpiryScanPace liteExpiryScanSlots.

Lemma liteWheel_ok : ew_inv liteWheel /\ ew_min liteWheel = MinLeaseInterval.
Proof. split; [apply NewSimpleTimeWheel_wf|done]. Qed.
