(* ===== verification/LiteInv.v ===== *)
(** * Capacity accounting of the lite scheduler

    The invariant the source states in comments (pool.go: InUse must always
    cover every binding's held units), proved for every interleaving of
    requests, timers, registry events and expiry:

    - on every instance, the units held by the bindings on it plus the
      allocations without a session are covered by [InUse];
    - bindings and allocations point to instances of the pool, which are all
      schedulable, and the counters of a binding never go negative;
    - the operations submitted to the external store replay to the bindings;
    - every live allocation is on the expiry wheel. *)
From S2P Require Import Prelude GoStrings TimeWheel WheelSpec SessionStore LiteAlloc LitePool LiteSched LiteWheel.
From Stdlib Require Import Ascii.

#[local] Open Scope string_scope.
#[local] Open Scope Z_scope.

(** ** Session keys

    A key of a request with a session starts with the session id, one of a
    request without starts with the separator or is empty. *)
Definition no_nul (s : string) : Prop := free_of zero s.

Definition good_key (k : string) : Prop :=
  match k with EmptyString => False | String c _ => c <> zero end.

Lemma good_key_session p sid ctx :
  sid <> "" -> no_nul sid -> good_key (sessionBindingKey p sid ctx).
Proof.
  intros Hs Hn. destruct sid as [|c sid]; [done|]. apply free_of_cons in Hn as [Hc _].
  unfold sessionBindingKey. destruct (pl_funcSpec p) as [spec|]; [|done].
  by destruct (fs_EnableSessionCtx spec).
Qed.

Lemma bad_key_sessionless p ctx : ~ good_key (sessionBindingKey p "" ctx).
Proof.
  unfold sessionBindingKey. destruct (pl_funcSpec p) as [spec|]; [|tauto].
  destruct (fs_EnableSessionCtx spec); [|tauto]. simpl. tauto.
Qed.

(** ** The pool *)

Definition held_if (id : string) (_ : string) (b : sessionBinding) : Z :=
  if decide (sb_instanceID b = id) then held b else 0.

(** Units held on an instance by all bindings. *)
Definition held_on (id : string) (m : gmap string sessionBinding) : Z := msum (held_if id) m.

Definition binding_ok (ins : gmap string LiteInstance) (k : string) (b : sessionBinding) : Prop :=
  good_key k /\ 0 <= sb_reserved b /\ 0 <= sb_activeAllocs b /\ 1 <= held b /\
  is_Some (ins !! sb_instanceID b).

Record pool_inv (sl : string -> Z) (p : LiteFunctionPool) : Prop := {
  pi_ins : forall id ins, pl_instances p !! id = Some ins ->
    li_InstanceID ins = id /\ schedulable (li_Status ins) = true;
  pi_bind : forall k b, pl_sessions p !! k = Some b -> binding_ok (pl_instances p) k b;
  pi_acc : forall id ins, pl_instances p !! id = Some ins ->
    held_on id (pl_sessions p) + sl id <= li_InUse ins;
  pi_store : replay ∅ (pl_sessionStore p) = sb_instanceID <$> pl_sessions p
}.

Lemma held_if_nonneg ins (m : gmap string sessionBinding) id :
  (forall k b, m !! k = Some b -> binding_ok ins k b) ->
  forall k b, m !! k = Some b -> 0 <= held_if id k b.
Proof.
  intros Hm k b Hb. destruct (Hm k b Hb) as (_ & ? & ? & ? & _). unfold held_if. case_decide; lia.
Qed.

Lemma held_on_nonneg sl p id : pool_inv sl p -> 0 <= held_on id (pl_sessions p).
Proof. intros Hp. apply msum_nonneg. eapply held_if_nonneg, Hp. Qed.

(** A binding's units are part of what its instance holds. *)
Lemma held_le_InUse sl p k b ins :
  pool_inv sl p -> (forall id, 0 <= sl id) ->
  pl_sessions p !! k = Some b -> pl_instances p !! sb_instanceID b = Some ins ->
  held b <= li_InUse ins.
Proof.
  intros Hp Hsl Hb Hi. pose proof (pi_acc _ _ Hp _ _ Hi) as Ha. specialize (Hsl (sb_instanceID b)).
  assert (held_if (sb_instanceID b) k b <= held_on (sb_instanceID b) (pl_sessions p)) as Hle.
  { apply msum_lookup_le; [|done]. eapply held_if_nonneg, Hp. }
  unfold held_if in Hle. rewrite decide_True in Hle by done. lia.
Qed.

Lemma pool_inv_mono sl sl' p :
  pool_inv sl p -> (forall id, sl' id <= sl id) -> pool_inv sl' p.
Proof.
  intros [H1 H2 H3 H4] Hle. split; try done. intros id ins Hi.
  specialize (H3 id ins Hi). specialize (Hle id). lia.
Qed.

(** Changes that do not touch instances, bindings and store. *)
Lemma pool_inv_same sl p p' :
  pool_inv sl p -> pl_instances p' = pl_instances p -> pl_sessions p' = pl_sessions p ->
  pl_sessionStore p' = pl_sessionStore p -> pool_inv sl p'.
Proof. intros [H1 H2 H3 H4] E1 E2 E3. split; rewrite ?E1, ?E2, ?E3; done. Qed.

(** *** Changing one binding in place *)

(** [b'] replaces [b]: same instance, counters in order, [d] more units. *)
Lemma pool_inv_rebind sl p k b b' d p' :
  pool_inv sl p -> pl_sessions p !! k = Some b ->
  sb_instanceID b' = sb_instanceID b -> held b' = held b + d ->
  0 <= sb_reserved b' -> 0 <= sb_activeAllocs b' -> 0 <= d ->
  pl_instances p' = alter (add_InUse d) (sb_instanceID b) (pl_instances p) ->
  pl_sessions p' = <[k:=b']> (pl_sessions p) ->
  pl_sessionStore p' = pl_sessionStore p ->
  pool_inv sl p'.
Proof.
  intros Hp Hb Hid Hh Hr Ha Hd Ei Es Est. pose proof (pi_bind _ _ Hp _ _ Hb) as (Hk & _ & _ & Hheld & Hsome).
  split; rewrite ?Ei, ?Es, ?Est.
  - intros id ins. destruct (decide (id = sb_instanceID b)) as [->|Hne].
    + rewrite lookup_alter_eq. intros [i [Hi ->]]%fmap_Some. by apply (pi_ins _ _ Hp) in Hi.
    + rewrite lookup_alter_ne by done. apply Hp.
  - intros k0 b0. assert (forall i, is_Some (pl_instances p !! i) ->
      is_Some (alter (add_InUse d) (sb_instanceID b) (pl_instances p) !! i)) as Hdom.
    { intros i Hi. by rewrite lookup_alter_is_Some. }
    intros [[<- <-]|[Hne Hb0]]%lookup_insert_Some.
    + split_and!; [done|done|done|lia|rewrite Hid; auto].
    + destruct (pi_bind _ _ Hp _ _ Hb0) as (? & ? & ? & ? & ?). split_and!; auto.
  - intros id ins Hi. unfold held_on. rewrite (msum_replace _ _ _ _ _ Hb).
    destruct (decide (id = sb_instanceID b)) as [->|Hne].
    + rewrite lookup_alter_eq in Hi. apply fmap_Some in Hi as [i [Hi ->]]. simpl.
      pose proof (pi_acc _ _ Hp _ _ Hi) as Hacc. unfold held_on in Hacc. unfold held_if at 2 3.
      rewrite !decide_True by done. lia.
    + rewrite lookup_alter_ne in Hi by done. pose proof (pi_acc _ _ Hp _ _ Hi) as Hacc.
      unfold held_on in Hacc. unfold held_if at 2 3. rewrite !decide_False by congruence. lia.
  - rewrite (pi_store _ _ Hp), fmap_insert, Hid. symmetry. apply insert_id.
    by rewrite lookup_fmap, Hb.
Qed.

Lemma add_InUse_0 ins : add_InUse 0 ins = ins.
Proof. destruct ins. unfold add_InUse, set_InUse. simpl. f_equal. lia. Qed.

Lemma alter_add_0 id (m : gmap string LiteInstance) : alter (add_InUse 0) id m = m.
Proof.
  apply map_eq. intros i. destruct (decide (i = id)) as [->|]; [|by rewrite lookup_alter_ne].
  rewrite lookup_alter_eq. destruct (m !! id); simpl; [|done]. by rewrite add_InUse_0.
Qed.

(** A binding changed without a change of the units it holds. *)
Lemma pool_inv_rebind_same sl p k b b' p' :
  pool_inv sl p -> pl_sessions p !! k = Some b ->
  sb_instanceID b' = sb_instanceID b -> held b' = held b ->
  0 <= sb_reserved b' -> 0 <= sb_activeAllocs b' ->
  pl_instances p' = pl_instances p -> pl_sessions p' = <[k:=b']> (pl_sessions p) ->
  pl_sessionStore p' = pl_sessionStore p -> pool_inv sl p'.
Proof.
  intros Hp Hb Hid Hh Hr Ha Ei Es Est.
  apply (pool_inv_rebind sl p k b b' 0 p'); try done; [lia|]. by rewrite alter_add_0.
Qed.

Lemma take_spec b d b' :
  bindSessionStickyTakeLocked b = (d, b') -> 0 <= sb_reserved b -> 0 <= sb_activeAllocs b ->
  sb_instanceID b' = sb_instanceID b /\ held b' = held b + d /\ 0 <= sb_reserved b' /\
  0 <= sb_activeAllocs b' /\ (d = 0 \/ (d = 1 /\ sb_reserved b = 0)).
Proof.
  unfold bindSessionStickyTakeLocked, held. destruct (Z.ltb_spec 0 (sb_reserved b));
    intros [= <- <-]; cbn; (split; [done|]); lia.
Qed.

Lemma pool_inv_take sl p k b d b' :
  pool_inv sl p -> pl_sessions p !! k = Some b -> bindSessionStickyTakeLocked b = (d, b') ->
  pool_inv sl (alter_instance (add_InUse d) (sb_instanceID b)
                 (set_sessions (<[k:=b']> (pl_sessions p)) p)).
Proof.
  intros Hp Hb Ht. destruct (pi_bind _ _ Hp _ _ Hb) as (_ & Hr & Ha & _).
  destruct (take_spec _ _ _ Ht Hr Ha) as (Hid & Hh & Hr' & Ha' & Hd).
  eapply (pool_inv_rebind sl p k b b' d); try done. lia.
Qed.

(** The use of an instance changed along with the allocations without a
    session. *)
Lemma pool_inv_shift sl sl' p id d :
  pool_inv sl p -> sl' id <= sl id + d -> (forall i, i <> id -> sl' i <= sl i) ->
  pool_inv sl' (alter_instance (add_InUse d) id p).
Proof.
  intros Hp Hid Hne. split; simpl.
  - intros i ins. destruct (decide (i = id)) as [->|?].
    + rewrite lookup_alter_eq. intros [x [Hi ->]]%fmap_Some. by apply (pi_ins _ _ Hp) in Hi.
    + rewrite lookup_alter_ne by done. apply Hp.
  - intros k b Hb. destruct (pi_bind _ _ Hp _ _ Hb) as (? & ? & ? & ? & ?).
    split_and!; try done. by rewrite lookup_alter_is_Some.
  - intros i ins. destruct (decide (i = id)) as [->|Hi].
    + rewrite lookup_alter_eq. intros [x [Hx ->]]%fmap_Some. simpl.
      pose proof (pi_acc _ _ Hp _ _ Hx). lia.
    + rewrite lookup_alter_ne by done. intros Hx. pose proof (pi_acc _ _ Hp _ _ Hx).
      specialize (Hne i Hi). lia.
  - apply Hp.
Qed.

(** A fresh binding of [c] units; one it overwrites only lowers what is held. *)
Lemma held_on_insert id (m : gmap string sessionBinding) k b :
  (forall b0, m !! k = Some b0 -> 0 <= held b0) ->
  held_on id (<[k:=b]> m) <= held_on id m + held_if id k b.
Proof.
  intros Hk. unfold held_on. destruct (m !! k) as [b0|] eqn:E.
  - rewrite (msum_replace _ _ _ _ _ E). specialize (Hk b0 eq_refl).
    assert (0 <= held_if id k b0) by (unfold held_if; case_decide; lia). lia.
  - rewrite msum_insert by done. lia.
Qed.

Lemma replay_snoc m l op : replay m (l ++ [op])%list = replay_step (replay m l) op.
Proof. unfold replay. by rewrite fold_left_app. Qed.

Lemma good_key_nonempty k : good_key k -> k <> "".
Proof. by destruct k. Qed.

Lemma submit_store op p :
  op_key op <> "" -> submit op p = set_store (pl_sessionStore p ++ [op])%list p.
Proof. intros Hk. unfold submit. by destruct (String.eqb_spec (op_key op) ""). Qed.

Lemma pool_inv_fresh sl p k id c pod sid ctx ttl :
  pool_inv sl p -> 1 <= c -> good_key k -> is_Some (pl_instances p !! id) ->
  pool_inv sl (saveSessionToStore pod k id sid ctx ttl c
                 (bindSessionFreshLocked k id c (alter_instance (add_InUse c) id p))).
Proof.
  intros Hp Hc Hk Hid. unfold saveSessionToStore.
  rewrite submit_store by (by apply good_key_nonempty). split; simpl.
  - intros i ins. destruct (decide (i = id)) as [->|?].
    + rewrite lookup_alter_eq. intros [x [Hi ->]]%fmap_Some. by apply (pi_ins _ _ Hp) in Hi.
    + rewrite lookup_alter_ne by done. apply Hp.
  - intros k0 b0 [[<- <-]|[_ Hb]]%lookup_insert_Some.
    + unfold binding_ok, held. simpl. rewrite lookup_alter_is_Some. split_and!; try done; lia.
    + destruct (pi_bind _ _ Hp _ _ Hb) as (? & ? & ? & ? & ?).
      split_and!; try done. by rewrite lookup_alter_is_Some.
  - intros i ins Hi.
    pose proof (held_on_insert i (pl_sessions p) k (mkBinding (pl_next p) id (c - 1) 1 None false)) as Hle.
    assert (forall b0, pl_sessions p !! k = Some b0 -> 0 <= held b0) as Hb0.
    { intros b0 Hb. destruct (pi_bind _ _ Hp _ _ Hb) as (_ & _ & _ & ? & _). lia. }
    specialize (Hle Hb0). unfold held_if in Hle. simpl in Hle.
    change (held (mkBinding (pl_next p) id (c - 1) 1 None false)) with (c - 1 + 1) in Hle.
    destruct (decide (i = id)) as [->|Hne].
    + rewrite lookup_alter_eq in Hi. apply fmap_Some in Hi as [x [Hx ->]]. simpl.
      pose proof (pi_acc _ _ Hp _ _ Hx). rewrite decide_True in Hle by done. lia.
    + rewrite lookup_alter_ne in Hi by done. pose proof (pi_acc _ _ Hp _ _ Hi).
      rewrite decide_False in Hle by congruence. lia.
  - rewrite replay_snoc. unfold replay_step. simpl. by rewrite (pi_store _ _ Hp), fmap_insert.
Qed.

(** *** Releasing and unbinding *)

Lemma pool_inv_unbind sl p k : pool_inv sl p -> pool_inv sl (unbindSessionOnRelease k p).2.
Proof.
  intros Hp. unfold unbindSessionOnRelease. destruct (pl_sessions p !! k) as [b|] eqn:Hb; [|done].
  destruct (pi_bind _ _ Hp _ _ Hb) as (_ & Hr & Ha & _).
  destruct (Z.ltb_spec 0 (sb_activeAllocs b)); case_match; cbn [snd];
    match goal with
    | |- pool_inv _ (set_sessions (<[_:=?b']> _) _) => apply (pool_inv_rebind_same sl p k b b')
    end; try done; unfold held; simpl; lia.
Qed.

Lemma pool_inv_alter_session sl p k f :
  pool_inv sl p ->
  (forall b, sb_instanceID (f b) = sb_instanceID b /\ sb_reserved (f b) = sb_reserved b /\
             sb_activeAllocs (f b) = sb_activeAllocs b) ->
  pool_inv sl (alter_session f k p).
Proof.
  intros Hp Hf. destruct (pl_sessions p !! k) as [b|] eqn:Hb.
  - destruct (pi_bind _ _ Hp _ _ Hb) as (_ & Hr & Ha & _). destruct (Hf b) as (E1 & E2 & E3).
    eapply (pool_inv_rebind_same sl p k b (f b)); try done; unfold held; rewrite ?E2, ?E3; try done.
    simpl. apply map_eq. intros i. destruct (decide (i = k)) as [->|].
    + by rewrite lookup_alter_eq, lookup_insert_eq, Hb.
    + by rewrite lookup_alter_ne, lookup_insert_ne.
  - eapply pool_inv_same; [done|done| |done]. simpl. apply map_eq. intros i.
    destruct (decide (i = k)) as [->|]; [by rewrite lookup_alter_eq, Hb|by rewrite lookup_alter_ne].
Qed.

Lemma pool_inv_cancel sl p k : pool_inv sl p -> pool_inv sl (cancelSessionUnbind k p).
Proof.
  intros Hp. unfold cancelSessionUnbind. destruct (pl_sessions p !! k); [|done].
  case_match; [done|]. by apply pool_inv_alter_session.
Qed.

Lemma pool_inv_startTimer sl p k : pool_inv sl p -> pool_inv sl (startSessionUnbindTimer k p).
Proof.
  intros Hp. unfold startSessionUnbindTimer. destruct (pl_sessions p !! k); [|done].
  case_match; [done|].
  eapply (pool_inv_same sl (alter_session (set_timer (Some (pl_next p))) k p)); [|done..].
  by apply pool_inv_alter_session.
Qed.

Lemma held_on_delete id (m : gmap string sessionBinding) k b :
  m !! k = Some b -> held_on id (delete k m) = held_on id m - held_if id k b.
Proof. apply msum_delete. Qed.

(** The sentinel of [processInstanceInUse] is not reached. *)
Lemma processInstanceInUse_exact sl p k b ins :
  pool_inv sl p -> (forall id, 0 <= sl id) -> pl_sessions p !! k = Some b ->
  pl_instances p !! sb_instanceID b = Some ins ->
  processInstanceInUse b p = alter_instance (add_InUse (- held b)) (sb_instanceID b) p.
Proof.
  intros Hp Hsl Hb Hi. pose proof (held_le_InUse _ _ _ _ _ Hp Hsl Hb Hi).
  destruct (pi_bind _ _ Hp _ _ Hb) as (_ & _ & _ & ? & _).
  unfold processInstanceInUse. rewrite Hi. destruct (Z.ltb_spec 0 (held b)); [|lia].
  by destruct (Z.leb_spec (held b) (li_InUse ins)); [|lia].
Qed.

Lemma replay_delete_absent (m : gmap string string) l k :
  replay ∅ l = m -> m !! k = None -> replay_step (replay ∅ l) (mkOp true k zeroRecord) = m.
Proof. intros -> Hk. unfold replay_step. simpl. by apply delete_id. Qed.

Lemma pool_inv_remove sl p k :
  pool_inv sl p -> (forall id, 0 <= sl id) -> k <> "" -> pool_inv sl (removeSessionBinding k p).
Proof.
  intros Hp Hsl Hk. unfold removeSessionBinding, deleteSessionFromStore. rewrite submit_store by done.
  destruct (pl_sessions p !! k) as [b|] eqn:Hb.
  - destruct (pi_bind _ _ Hp _ _ Hb) as (_ & _ & _ & _ & [ins Hi]).
    rewrite (processInstanceInUse_exact _ _ _ _ _ Hp Hsl Hb Hi). split; simpl.
    + intros i x. destruct (decide (i = sb_instanceID b)) as [->|].
      * rewrite lookup_alter_eq. intros [y [Hy ->]]%fmap_Some. by apply (pi_ins _ _ Hp) in Hy.
      * rewrite lookup_alter_ne by done. apply Hp.
    + intros k0 b0 [_ Hb0]%lookup_delete_Some. destruct (pi_bind _ _ Hp _ _ Hb0) as (? & ? & ? & ? & ?).
      split_and!; try done. by rewrite lookup_alter_is_Some.
    + intros i x Hx. rewrite (held_on_delete _ _ _ _ Hb). unfold held_if.
      destruct (decide (i = sb_instanceID b)) as [->|Hne].
      * rewrite lookup_alter_eq in Hx. apply fmap_Some in Hx as [y [Hy ->]]. simpl.
        pose proof (pi_acc _ _ Hp _ _ Hy). rewrite decide_True by done. lia.
      * rewrite lookup_alter_ne in Hx by done. pose proof (pi_acc _ _ Hp _ _ Hx).
        rewrite decide_False by congruence. lia.
    + rewrite replay_snoc. unfold replay_step. simpl. by rewrite (pi_store _ _ Hp), fmap_delete.
  - assert (delete k (pl_sessions p) = pl_sessions p) as Hd by (by apply delete_id).
    split; simpl; rewrite ?Hd; try apply Hp.
    rewrite replay_snoc. apply replay_delete_absent; [apply Hp|]. by rewrite lookup_fmap, Hb.
Qed.

(** *** Instances that come and go *)

Lemma remove_absent_step id p sid b :
  pl_instances p !! id = None -> pl_sessions p !! sid = Some b -> sb_instanceID b = id ->
  good_key sid ->
  removeSessionBinding sid p
  = set_store (pl_sessionStore p ++ [mkOp true sid zeroRecord])%list
      (set_sessions (delete sid (pl_sessions p)) p).
Proof.
  intros Hi Hb Hid Hk. unfold removeSessionBinding, deleteSessionFromStore, processInstanceInUse.
  rewrite Hb, Hid, Hi. by rewrite submit_store by (by apply good_key_nonempty).
Qed.

Lemma drop_fold id sids p :
  pl_instances p !! id = None -> NoDup sids ->
  (forall sid, sid ∈ sids -> good_key sid /\
     exists b, pl_sessions p !! sid = Some b /\ sb_instanceID b = id) ->
  replay ∅ (pl_sessionStore p) = sb_instanceID <$> pl_sessions p ->
  let p' := fold_left (fun p sid => removeSessionBinding sid p) sids p in
  pl_instances p' = pl_instances p /\ pl_funcKey p' = pl_funcKey p /\
  pl_sessions p' = filter (fun kb => kb.1 ∉ sids) (pl_sessions p) /\
  replay ∅ (pl_sessionStore p') = sb_instanceID <$> pl_sessions p'.
Proof.
  intros Hi. revert p Hi. induction sids as [|sid sids IH]; intros p Hi Hnd Hs Hst; simpl.
  { split_and!; try done. symmetry. apply map_filter_id. intros. apply not_elem_of_nil. }
  apply NoDup_cons in Hnd as [Hn Hnd]. destruct (Hs sid ltac:(left)) as (Hk & b & Hb & Hid).
  rewrite (remove_absent_step id p sid b) by done.
  set (p1 := set_store _ _). destruct (IH p1) as (E1 & E2 & E3 & E4); try done.
  - intros sid' Hin. destruct (Hs sid' ltac:(by right)) as (Hk' & b' & Hb' & Hid').
    split; [done|]. exists b'. split; [|done]. simpl. rewrite lookup_delete_ne; [done|congruence].
  - simpl. rewrite replay_snoc, Hst. unfold replay_step. simpl. by rewrite fmap_delete.
  - split_and!; try done. rewrite E3. simpl. apply map_eq. intros k.
    apply option_eq. intros x. rewrite !map_lookup_filter_Some, lookup_delete_Some. simpl.
    rewrite not_elem_of_cons. naive_solver.
Qed.

Lemma sessions_on_spec id p sid :
  sid ∈ sessions_on id p <-> exists b, pl_sessions p !! sid = Some b /\ sb_instanceID b = id.
Proof.
  unfold sessions_on. rewrite list_elem_of_fmap. split.
  - intros ([k b] & -> & Hin%elem_of_map_to_list). apply map_lookup_filter_Some in Hin. naive_solver.
  - intros (b & Hb & Hid). exists (sid, b). split; [done|]. apply elem_of_map_to_list.
    by apply map_lookup_filter_Some.
Qed.

Lemma pool_inv_drop sl p id :
  pool_inv sl p -> pool_inv sl (drop_instance id p) /\ pl_funcKey (drop_instance id p) = pl_funcKey p /\
  pl_instances (drop_instance id p) = delete id (pl_instances p).
Proof.
  intros Hp. unfold drop_instance. set (p0 := set_instances _ p).
  destruct (drop_fold id (sessions_on id p) p0) as (E1 & E2 & E3 & E4).
  - apply lookup_delete_eq.
  - apply NoDup_fst_map_to_list.
  - intros sid (b & Hb & Hid)%sessions_on_spec. split; [apply (pi_bind _ _ Hp _ _ Hb)|eauto].
  - apply Hp.
  - split; [|by rewrite E1, E2]. split; rewrite ?E1, ?E3; simpl.
    + intros i ins [_ Hi]%lookup_delete_Some. by apply Hp.
    + intros k b [Hb Hk]%map_lookup_filter_Some. simpl in Hk.
      destruct (pi_bind _ _ Hp _ _ Hb) as (? & ? & ? & ? & ?). split_and!; try done.
      assert (sb_instanceID b <> id) by (intros <-; apply Hk, sessions_on_spec; eauto).
      by rewrite lookup_delete_ne.
    + intros i ins [Hne Hi]%lookup_delete_Some. pose proof (pi_acc _ _ Hp _ _ Hi) as Hacc.
      assert (held_on i (filter (fun kb => kb.1 ∉ sessions_on id p) (pl_sessions p))
              = held_on i (pl_sessions p)) as ->; [|done].
      unfold held_on. rewrite msum_filter. apply msum_ext. intros k b Hb. simpl.
      case_decide as Hin; [done|]. unfold held_if. rewrite decide_False; [done|].
      apply sessions_on_spec in Hin as (b' & Hb' & Hid'). congruence.
    + by rewrite E3 in E4.
Qed.

(** An instance that is registered or refreshed. *)
Lemma pool_inv_upsert sl p ins next :
  pool_inv sl p -> li_InstanceID next = ins -> schedulable (li_Status next) = true ->
  match pl_instances p !! ins with
  | Some current => li_InUse next = li_InUse current
  | None => li_InUse next = 0 /\ sl ins <= 0
  end ->
  pool_inv sl (set_instances (<[ins:=next]> (pl_instances p)) p).
Proof.
  intros Hp Hid Hst Huse. split; simpl; [| | |apply Hp].
  - intros i x [[<- <-]|[_ Hx]]%lookup_insert_Some; [done|by apply Hp].
  - intros k b Hb. destruct (pi_bind _ _ Hp _ _ Hb) as (? & ? & ? & ? & Hsome).
    split_and!; try done. by apply lookup_insert_is_Some'; right.
  - intros i x [[<- <-]|[_ Hx]]%lookup_insert_Some; [|by apply Hp].
    destruct (pl_instances p !! ins) as [cur|] eqn:Hcur.
    + rewrite Huse. by apply Hp.
    + destruct Huse as [-> Hsl].
      assert (held_on ins (pl_sessions p) = 0); [|lia]. apply msum_zero. intros k b Hb.
      unfold held_if. rewrite decide_False; [done|]. intros Hib.
      destruct (pi_bind _ _ Hp _ _ Hb) as (_ & _ & _ & _ & [y Hy]). congruence.
Qed.

(** ** The scheduler *)

(** Allocations without a session, by function and instance. *)
Definition sl_if (fk id : string) (_ : string) (a : Allocation) : Z :=
  if decide (al_FuncKey a = fk /\ al_SessionID a = "" /\ al_InstanceID a = id) then 1 else 0.
Definition sessionless (fk : string) (allocs : gmap string Allocation) (id : string) : Z :=
  msum (sl_if fk id) allocs.

Definition allocs_placed (pools : gmap string LiteFunctionPool) (allocs : gmap string Allocation)
    : Prop :=
  forall aid a, allocs !! aid = Some a ->
    exists p, pools !! al_FuncKey a = Some p /\ is_Some (pl_instances p !! al_InstanceID a).

Definition acct_inv (pools : gmap string LiteFunctionPool) (allocs : gmap string Allocation) : Prop :=
  (forall fk p, pools !! fk = Some p -> pl_funcKey p = fk /\ pool_inv (sessionless fk allocs) p) /\
  allocs_placed pools allocs.

Lemma sl_if_range fk id k a : 0 <= sl_if fk id k a <= 1.
Proof. unfold sl_if. case_decide; lia. Qed.

Lemma sessionless_nonneg fk allocs id : 0 <= sessionless fk allocs id.
Proof. apply msum_nonneg. intros. apply sl_if_range. Qed.

Lemma sessionless_insert fk allocs aid a id :
  sessionless fk (<[aid:=a]> allocs) id <= sessionless fk allocs id + sl_if fk id aid a.
Proof.
  unfold sessionless. destruct (allocs !! aid) as [a0|] eqn:E.
  - rewrite (msum_replace _ _ _ _ _ E). pose proof (sl_if_range fk id aid a0). lia.
  - rewrite msum_insert by done. lia.
Qed.

Lemma sessionless_delete fk allocs aid a id :
  allocs !! aid = Some a ->
  sessionless fk (delete aid allocs) id = sessionless fk allocs id - sl_if fk id aid a.
Proof. apply msum_delete. Qed.

Lemma sessionless_delete_le fk allocs aid id :
  sessionless fk (delete aid allocs) id <= sessionless fk allocs id.
Proof.
  destruct (allocs !! aid) as [a|] eqn:E; [|by rewrite delete_id].
  rewrite (sessionless_delete _ _ _ _ _ E). pose proof (sl_if_range fk id aid a). lia.
Qed.

(** An allocation replaced by one of the same placement. *)
Lemma sessionless_refresh fk allocs aid a a' id :
  allocs !! aid = Some a -> al_FuncKey a' = al_FuncKey a -> al_SessionID a' = al_SessionID a ->
  al_InstanceID a' = al_InstanceID a ->
  sessionless fk (<[aid:=a']> allocs) id = sessionless fk allocs id.
Proof.
  intros E E1 E2 E3. unfold sessionless. rewrite (msum_replace _ _ _ _ _ E).
  unfold sl_if at 2 3. rewrite E1, E2, E3. lia.
Qed.

(** The pool of [fk] and the allocations change together. *)
Lemma acct_update pools allocs fk p p' allocs' :
  acct_inv pools allocs -> pools !! fk = Some p ->
  pl_funcKey p' = fk -> pool_inv (sessionless fk allocs') p' ->
  (forall id, is_Some (pl_instances p !! id) -> is_Some (pl_instances p' !! id)) ->
  (forall aid a, allocs' !! aid = Some a ->
     (exists a0, allocs !! aid = Some a0 /\ al_FuncKey a0 = al_FuncKey a /\
                 al_InstanceID a0 = al_InstanceID a) \/
     (al_FuncKey a = fk /\ is_Some (pl_instances p' !! al_InstanceID a))) ->
  (forall fk' id, fk' <> fk -> sessionless fk' allocs' id <= sessionless fk' allocs id) ->
  acct_inv (<[fk:=p']> pools) allocs'.
Proof.
  intros [Hpools Hall] Hp Hfk Hinv Hdom Hallocs Hsl. split.
  - intros fk' q [[<- <-]|[Hne Hq]]%lookup_insert_Some; [done|].
    destruct (Hpools fk' q Hq) as [? Hi]. split; [done|]. eapply pool_inv_mono; [exact Hi|]. auto.
  - intros aid a Ha. destruct (Hallocs aid a Ha) as [(a0 & Ha0 & Ef & Ei)|[Ef Hi]].
    + destruct (Hall aid a0 Ha0) as (q & Hq & Hs). rewrite Ef in Hq. rewrite Ei in Hs.
      destruct (decide (al_FuncKey a = fk)) as [E|Hne].
      * rewrite E in *. simplify_eq. exists p'. rewrite lookup_insert_eq. auto.
      * exists q. by rewrite lookup_insert_ne.
    + exists p'. rewrite Ef, lookup_insert_eq. auto.
Qed.

(** Only the pool changes. *)
Lemma acct_put pools allocs fk p p' :
  acct_inv pools allocs -> pools !! fk = Some p ->
  pl_funcKey p' = pl_funcKey p -> pool_inv (sessionless fk allocs) p' ->
  (forall id, is_Some (pl_instances p !! id) -> is_Some (pl_instances p' !! id)) ->
  acct_inv (<[fk:=p']> pools) allocs.
Proof.
  intros Hinv Hp Hfk Hp' Hdom. eapply acct_update; try done.
  - rewrite Hfk. by apply Hinv.
  - intros aid a Ha. left. eauto.
Qed.

(** An allocation goes, and with it no more than its own unit. *)
Lemma acct_delete pools allocs aid : acct_inv pools allocs -> acct_inv pools (delete aid allocs).
Proof.
  intros [Hpools Hall]. split.
  - intros fk p Hp. destruct (Hpools fk p Hp) as [? Hi]. split; [done|].
    eapply pool_inv_mono; [exact Hi|]. intros. apply sessionless_delete_le.
  - intros a' a [_ Ha]%lookup_delete_Some. eauto.
Qed.

Lemma acct_refresh pools allocs aid a t :
  acct_inv pools allocs -> allocs !! aid = Some a ->
  acct_inv pools (<[aid:=with_ExpireAt t a]> allocs).
Proof.
  intros [Hpools Hall] Ha. split.
  - intros fk p Hp. destruct (Hpools fk p Hp) as [? Hi]. split; [done|].
    eapply pool_inv_mono; [exact Hi|]. intros. by erewrite sessionless_refresh.
  - intros aid' a' [[<- <-]|[_ Ha']]%lookup_insert_Some; [|eauto]. by apply (Hall aid a).
Qed.

Lemma liteTTL_min cfg : MinLeaseInterval <= liteTTL cfg.
Proof. unfold liteTTL. destruct (Z.ltb_spec (cf_LeaseSpan cfg * Millisecond) MinLeaseInterval); lia. Qed.

Section Scheduler.
Context {W : Type} `{ExpiryWheelLaws W}.
Implicit Types (ls : LiteScheduler W) (env : LiteEnv) (req : LiteRequest).

Definition wheel_ok (w : W) (allocs : gmap string Allocation) : Prop :=
  ew_inv w /\ ew_min w <= MinLeaseInterval /\
  forall aid, is_Some (allocs !! aid) -> ew_covered w aid.

Definition ls_ok ls : Prop :=
  acct_inv (ls_pools ls) (ls_allocations ls) /\ wheel_ok (ls_wheel ls) (ls_allocations ls).

Lemma wheel_ok_add env w allocs aid a :
  wheel_ok w allocs ->
  wheel_ok (snd (ew_AddTask w aid (liteTTL (ev_cfg env)) 1)) (<[aid:=a]> allocs).
Proof.
  intros (Hi & Hm & Hc). pose proof (liteTTL_min (ev_cfg env)).
  destruct (ew_add_ok w aid (liteTTL (ev_cfg env)) 1 Hi) as (Hi' & Hm' & Hhas & Hmono).
  split_and!; [done|lia|]. intros k Hk. destruct (decide (k = aid)) as [->|Hne].
  - left. apply Hhas. lia.
  - apply Hmono, Hc. by rewrite lookup_insert_ne in Hk.
Qed.

Lemma wheel_ok_update env w allocs aid a :
  wheel_ok w allocs ->
  wheel_ok (snd (ew_UpdateTask w aid (liteTTL (ev_cfg env)) 1)) (<[aid:=a]> allocs).
Proof.
  intros (Hi & Hm & Hc). pose proof (liteTTL_min (ev_cfg env)).
  destruct (ew_update_ok w aid (liteTTL (ev_cfg env)) 1 Hi ltac:(lia)) as (Hi' & Hm' & Hhas & Hmono).
  split_and!; [done|lia|]. intros k Hk. destruct (decide (k = aid)) as [->|Hne]; [by left|].
  apply Hmono, Hc. by rewrite lookup_insert_ne in Hk.
Qed.

Lemma wheel_ok_del w allocs aid :
  wheel_ok w allocs -> wheel_ok (snd (ew_DelTask w aid)) (delete aid allocs).
Proof.
  intros (Hi & Hm & Hc). destruct (ew_del_ok w aid Hi) as (Hi' & Hm' & Hmono).
  split_and!; [done|lia|]. intros k [a Hk]. apply lookup_delete_Some in Hk as [Hne Hk].
  apply Hmono; [done|]. apply Hc. eauto.
Qed.

Lemma wheel_ok_sub w allocs allocs' :
  wheel_ok w allocs -> (forall aid, is_Some (allocs' !! aid) -> is_Some (allocs !! aid)) ->
  wheel_ok w allocs'.
Proof. intros (Hi & Hm & Hc) Hs. split_and!; auto. Qed.

Lemma ls_ok_pool ls fk p :
  ls_ok ls -> ls_pools ls !! fk = Some p ->
  pl_funcKey p = fk /\ pool_inv (sessionless fk (ls_allocations ls)) p.
Proof. intros [[Hp _] _]. apply Hp. Qed.

Lemma ls_ok_put ls fk p p' :
  ls_ok ls -> ls_pools ls !! fk = Some p -> pl_funcKey p' = pl_funcKey p ->
  pool_inv (sessionless fk (ls_allocations ls)) p' ->
  (forall id, is_Some (pl_instances p !! id) -> is_Some (pl_instances p' !! id)) ->
  ls_ok (put_pool fk p' ls).
Proof. intros [Ha Hw] Hp Hf Hi Hd. split; [|done]. by eapply acct_put. Qed.

(** *** Requests *)

(** A request whose binding key has been computed. *)
Definition req_ok req : Prop :=
  1 <= rq_Concurrency req /\
  (rq_SessionID req <> "" -> good_key (rq_bindingKey req)) /\
  (rq_SessionID req = "" -> ~ good_key (rq_bindingKey req)).

Lemma req_ok_key p req :
  no_nul (rq_SessionID req) -> 1 <= rq_Concurrency req ->
  req_ok (with_bindingKey (sessionBindingKey p (rq_SessionID req) (rq_SessionCtxID req)) req).
Proof.
  intros Hn Hc. split_and!; simpl; [done|intros ?; by apply good_key_session|].
  intros ->. apply bad_key_sessionless.
Qed.

Lemma sl_if_session fk id aid a : al_SessionID a <> "" -> sl_if fk id aid a = 0.
Proof. intros Hs. unfold sl_if. rewrite decide_False; [done|]. intros (_ & ? & _). done. Qed.

Lemma sl_if_other fk id aid a : al_FuncKey a <> fk \/ al_InstanceID a <> id -> sl_if fk id aid a = 0.
Proof. intros Hs. unfold sl_if. rewrite decide_False; [done|]. intros (? & _ & ?). tauto. Qed.

Lemma sessionless_insert_session fk allocs aid a id :
  al_SessionID a <> "" -> sessionless fk (<[aid:=a]> allocs) id <= sessionless fk allocs id.
Proof.
  intros Hs. pose proof (sessionless_insert fk allocs aid a id) as Hi.
  rewrite sl_if_session in Hi by done. lia.
Qed.

Lemma applySlotBinding_shape env req slotID sticky p :
  let p' := applySlotBinding env req slotID sticky p in
  pl_funcKey p' = pl_funcKey p /\ pl_dispatcher p' = pl_dispatcher p /\
  pl_seqCounter p' = pl_seqCounter p /\
  forall id, is_Some (pl_instances p !! id) -> is_Some (pl_instances p' !! id).
Proof.
  unfold applySlotBinding, saveSessionToStore, submit.
  destruct (if sticky then _ else _) as [b|].
  - destruct (bindSessionStickyTakeLocked b) as [d b']. simpl. split_and!; try done.
    intros id Hi. by rewrite lookup_alter_is_Some.
  - destruct (negb _); [case_match|]; simpl; split_and!; try done;
      intros id Hi; by rewrite lookup_alter_is_Some.
Qed.

Lemma applySlotBinding_ok env req slotID sticky p fk allocs aid a :
  pool_inv (sessionless fk allocs) p -> req_ok req -> is_Some (pl_instances p !! slotID) ->
  (forall b, sticky = true -> pl_sessions p !! rq_bindingKey req = Some b ->
     sb_instanceID b = slotID) ->
  al_SessionID a = rq_SessionID req -> al_InstanceID a = slotID ->
  pool_inv (sessionless fk (<[aid:=a]> allocs)) (applySlotBinding env req slotID sticky p).
Proof.
  intros Hp (Hc & Hg1 & Hg2) Hslot Hst Hs Hi. unfold applySlotBinding.
  destruct (if sticky then _ else _) as [b|] eqn:Eb.
  - destruct sticky; [|done]. pose proof (Hst b eq_refl Eb) as <-.
    assert (al_SessionID a <> "") as Hs'.
    { rewrite Hs. intros E. apply (Hg2 E). apply (pi_bind _ _ Hp _ _ Eb). }
    destruct (bindSessionStickyTakeLocked b) as [d b'] eqn:Et.
    eapply pool_inv_mono; [by eapply pool_inv_take|]. intros. by apply sessionless_insert_session.
  - destruct (String.eqb_spec (rq_SessionID req) "") as [E|E]; simpl.
    + eapply (pool_inv_shift (sessionless fk allocs)); [done| |].
      * pose proof (sessionless_insert fk allocs aid a slotID).
        pose proof (sl_if_range fk slotID aid a). lia.
      * intros i Hne. pose proof (sessionless_insert fk allocs aid a i) as Hx.
        rewrite sl_if_other in Hx by (right; congruence). lia.
    + apply (pool_inv_mono (sessionless fk allocs)); [apply pool_inv_fresh; auto|].
      intros. apply sessionless_insert_session. congruence.
Qed.

Lemma assignInstance_ok env now req slotID sticky p ls :
  ls_ok (put_pool (rq_FuncKey req) p ls) -> req_ok req -> is_Some (pl_instances p !! slotID) ->
  (forall b, sticky = true -> pl_sessions p !! rq_bindingKey req = Some b ->
     sb_instanceID b = slotID) ->
  ls_ok (assignInstance env now req slotID sticky p ls).2.
Proof.
  intros Hok Hreq Hslot Hst. unfold assignInstance. set (p1 := set_seq _ p).
  set (aid := genAllocationID _ _ _). set (a := mkAlloc aid _ _ _ _ _ _ _ _).
  set (p2 := applySlotBinding env req slotID sticky p1).
  destruct (applySlotBinding_shape env req slotID sticky p1) as (Ef & _ & _ & Hdom).
  destruct (ls_ok_pool _ (rq_FuncKey req) p Hok) as [Hfk Hp]; [apply lookup_insert_eq|].
  assert (pool_inv (sessionless (rq_FuncKey req) (ls_allocations ls)) p1) as Hp1
    by (by eapply pool_inv_same).
  destruct Hok as [Ha Hw]. split; simpl; [|by apply wheel_ok_add].
  rewrite <- (insert_insert_eq (ls_pools ls) (rq_FuncKey req) p2 p).
  eapply (acct_update _ _ _ p); [exact Ha|apply lookup_insert_eq|by rewrite <- Hfk| | | |].
  - by eapply applySlotBinding_ok.
  - intros id Hid. by apply Hdom.
  - intros aid' a' [[<- <-]|[_ Ha']]%lookup_insert_Some; [right|left; eauto].
    split; [done|]. by apply Hdom.
  - intros fk' id Hne. pose proof (sessionless_insert fk' (ls_allocations ls) aid a id) as Hx.
    rewrite sl_if_other in Hx by (left; simpl; congruence). simpl in *. lia.
Qed.


(** Bindings are never stale: the miss branch is taken only without one. *)
Lemma tryLocalStickyLocked_spec sl p key :
  pool_inv sl p ->
  match tryLocalStickyLocked key p with
  | (stickyMiss, p') => p' = p /\ pl_sessions p !! key = None
  | (stickyFull _, p') => p' = p
  | (stickyHit slotID, p') =>
      p' = cancelSessionUnbind key p /\
      exists b ins, pl_sessions p !! key = Some b /\ sb_instanceID b = slotID /\
        pl_instances p !! slotID = Some ins /\ (0 < sb_reserved b \/ li_InUse ins < li_Capacity ins)
  end.
Proof.
  intros Hp. unfold tryLocalStickyLocked. destruct (pl_sessions p !! key) as [b|] eqn:Hb; [|done].
  destruct (pi_bind _ _ Hp _ _ Hb) as (_ & _ & _ & _ & [ins Hi]). rewrite Hi.
  destruct (pi_ins _ _ Hp _ _ Hi) as [_ ->]. simpl.
  destruct (_ || _) eqn:E; [|done]. split; [done|]. exists b, ins. split_and!; try done.
  apply orb_true_iff in E as [E|E]; zbool; auto.
Qed.

Lemma cancel_shape key p :
  pl_funcKey (cancelSessionUnbind key p) = pl_funcKey p /\
  pl_instances (cancelSessionUnbind key p) = pl_instances p /\
  pl_dispatcher (cancelSessionUnbind key p) = pl_dispatcher p /\
  pl_seqCounter (cancelSessionUnbind key p) = pl_seqCounter p /\
  forall b', pl_sessions (cancelSessionUnbind key p) !! key = Some b' ->
    exists b, pl_sessions p !! key = Some b /\ sb_instanceID b' = sb_instanceID b /\
              sb_reserved b' = sb_reserved b /\ sb_activeAllocs b' = sb_activeAllocs b.
Proof.
  unfold cancelSessionUnbind. destruct (pl_sessions p !! key) as [b|] eqn:Hb.
  2: { rewrite Hb. split_and!; done. }
  case_match; [rewrite Hb; split_and!; try done; naive_solver|].
  split_and!; try done. intros b' Hb'. simpl in Hb'. rewrite lookup_alter_eq, Hb in Hb'.
  simpl in Hb'. injection Hb' as <-. eauto.
Qed.

Lemma tryLocalSticky_ok env now req p ls :
  ls_ok ls -> ls_pools ls !! rq_FuncKey req = Some p -> req_ok req ->
  let r := tryLocalSticky env now req p ls in
  ls_ok r.2 /\
  (r.1 = None -> ls_pools r.2 !! rq_FuncKey req = Some p /\ pl_sessions p !! rq_bindingKey req = None).
Proof.
  intros Hok Hlk Hreq. destruct (ls_ok_pool _ _ _ Hok Hlk) as [Hfk Hp].
  pose proof (tryLocalStickyLocked_spec _ p (rq_bindingKey req) Hp) as Hs.
  unfold tryLocalSticky. destruct (tryLocalStickyLocked _ p) as [[|slotID|slotID] p'].
  - destruct Hs as [-> Hn]. simpl. split; [by eapply ls_ok_put|].
    intros _. by rewrite lookup_insert_eq.
  - destruct Hs as (-> & b & ins & Hb & <- & Hi & _).
    destruct (cancel_shape (rq_bindingKey req) p) as (Ef & Ei & _ & _ & Hb').
    pose proof (assignInstance_ok env now req (sb_instanceID b) true
                  (cancelSessionUnbind (rq_bindingKey req) p) ls) as Hassign.
    destruct (assignInstance _ _ _ _ _ _ _) as [resp ls']. simpl in *. split; [|done].
    apply Hassign; [|done|rewrite Ei; eauto|].
    + eapply ls_ok_put; try done; [by apply pool_inv_cancel|]. by rewrite Ei.
    + intros b' _ Hlk'. destruct (Hb' b' Hlk') as (b0 & ? & ? & _). congruence.
  - subst p'. simpl. split; [by eapply ls_ok_put|done].
Qed.

Lemma pool_inv_delete_unbound sl p key :
  pool_inv sl p -> pl_sessions p !! key = None -> pool_inv sl (deleteSessionFromStore key p).
Proof.
  intros Hp Hk. unfold deleteSessionFromStore, submit. simpl.
  destruct (String.eqb key ""); [done|]. split; simpl; try apply Hp.
  rewrite replay_snoc. apply replay_delete_absent; [apply Hp|]. by rewrite lookup_fmap, Hk.
Qed.

Lemma deleteSessionFromStore_shape key p :
  pl_funcKey (deleteSessionFromStore key p) = pl_funcKey p /\
  pl_instances (deleteSessionFromStore key p) = pl_instances p /\
  pl_sessions (deleteSessionFromStore key p) = pl_sessions p.
Proof. unfold deleteSessionFromStore, submit. by case_match. Qed.

Lemma tryStoreRecovery_ok env now req storeRec p ls :
  ls_ok ls -> ls_pools ls !! rq_FuncKey req = Some p -> req_ok req ->
  pl_sessions p !! rq_bindingKey req = None ->
  let r := tryStoreRecoveryLocked env now req storeRec p ls in
  ls_ok r.2 /\ (r.1 = None -> is_Some (ls_pools r.2 !! rq_FuncKey req)).
Proof.
  intros Hok Hlk Hreq Hn. destruct (ls_ok_pool _ _ _ Hok Hlk) as [Hfk Hp].
  unfold tryStoreRecoveryLocked. destruct storeRec as [rec|]; [|by eauto].
  destruct (String.eqb _ ""); [by eauto|].
  destruct (match pl_instances p !! sr_InstanceID rec with Some _ => _ | None => _ end) eqn:Ev.
  - destruct (pl_instances p !! sr_InstanceID rec) as [slot|] eqn:Hs; [|done].
    pose proof (assignInstance_ok env now req (sr_InstanceID rec) false p ls) as Hassign.
    destruct (assignInstance _ _ _ _ _ _ _) as [resp ls']. simpl in *. split; [|done].
    apply Hassign; [by eapply ls_ok_put|done|by rewrite Hs|done].
  - destruct (deleteSessionFromStore_shape (rq_bindingKey req) p) as (Ef & Ei & _).
    simpl. split; [|intros _; rewrite lookup_insert_eq; eauto].
    eapply ls_ok_put; try done; [by apply pool_inv_delete_unbound|by rewrite Ei].
Qed.

Lemma tryDispatch_ok env now order req p ls :
  ls_ok ls -> ls_pools ls !! rq_FuncKey req = Some p -> req_ok req ->
  ls_ok (tryDispatchLocked env now order req p ls).2.
Proof.
  intros Hok Hlk Hreq. destruct (ls_ok_pool _ _ _ Hok Hlk) as [Hfk Hp]. unfold tryDispatchLocked.
  destruct (Select _ _ _) as [[slot|] d] eqn:Hsel.
  - apply Select_in in Hsel as (Hin & _). apply candidateSlotsLocked_in in Hin as (id & Hid & _).
    destruct (pi_ins _ _ Hp _ _ Hid) as [Heq _].
    pose proof (assignInstance_ok env now req (li_InstanceID slot) false (set_dispatcher d p) ls) as Hassign.
    destruct (assignInstance _ _ _ _ _ _ _) as [resp ls']. simpl in *.
    apply Hassign; [|done|rewrite Heq; eauto|done].
    eapply ls_ok_put; try done. by eapply pool_inv_same.
  - eapply ls_ok_put; try done. by eapply pool_inv_same.
Qed.

Lemma acquireDispatch_ok env now order req storeRec ls :
  ls_ok ls -> req_ok req -> ls_ok (acquireDispatch env now order req storeRec ls).2.
Proof.
  intros Hok Hreq. unfold acquireDispatch, getPool.
  destruct (ls_pools ls !! rq_FuncKey req) as [p|] eqn:Hlk; [|done].
  pose proof (tryLocalSticky_ok env now req p ls Hok Hlk Hreq) as [Hok1 Hn1].
  destruct (tryLocalSticky env now req p ls) as [[resp|] ls1]; simpl in *; [done|].
  destruct (Hn1 eq_refl) as [Hlk1 Hunb]. rewrite Hlk1.
  pose proof (tryStoreRecovery_ok env now req storeRec p ls1 Hok1 Hlk1 Hreq Hunb) as [Hok2 _].
  destruct (tryStoreRecoveryLocked env now req storeRec p ls1) as [[resp|] ls2]; simpl in *; [done|].
  destruct (ls_pools ls2 !! rq_FuncKey req) as [p2|] eqn:Hlk2; [|done].
  by apply tryDispatch_ok.
Qed.

Lemma tryPollDispatch_ok env now order req ls :
  ls_ok ls -> req_ok req -> ls_ok (tryPollDispatch env now order req ls).2.
Proof.
  intros Hok Hreq. unfold tryPollDispatch, getPool.
  destruct (ls_pools ls !! rq_FuncKey req) as [p|] eqn:Hlk; [|done]. by apply tryDispatch_ok.
Qed.

(** What a request in flight satisfies at its program counter. *)
Definition acq_ok (rp : LiteRequest * acq_pc) : Prop :=
  match rp.2 with
  | AqStart => no_nul (rq_SessionID rp.1)
  | AqDone _ => True
  | _ => req_ok rp.1
  end.

Lemma checkConcurrencyLimit_ok p c : checkConcurrencyLimit p c = None -> 1 <= c.
Proof.
  unfold checkConcurrencyLimit, minConcurrency. case_match; [done|].
  destruct (Z.ltb_spec c 1); [done|lia].
Qed.

Lemma checkHandleAcquireReq_ok req ls p :
  checkHandleAcquireReq req ls = inl p ->
  ls_pools ls !! rq_FuncKey req = Some p /\ 1 <= rq_Concurrency req.
Proof.
  unfold checkHandleAcquireReq, getPool. case_match; [done|].
  destruct (ls_pools ls !! rq_FuncKey req) as [q|]; [|done].
  destruct (checkConcurrencyLimit q _) eqn:E; [done|]. intros [= ->].
  split; [done|]. by eapply checkConcurrencyLimit_ok.
Qed.

Lemma acq_step_ok env inp req pc ls :
  ls_ok ls -> acq_ok (req, pc) ->
  let r := acq_step env inp req pc ls in ls_ok r.2 /\ acq_ok r.1.
Proof.
  intros Hok Hacq. destruct pc as [| | | |resp]; simpl.
  - destruct (checkHandleAcquireReq req ls) as [p|resp] eqn:Hc; [|done].
    apply checkHandleAcquireReq_ok in Hc as [Hlk Hcon].
    pose proof (req_ok_key p req Hacq Hcon) as Hreq. set (req' := with_bindingKey _ req) in *.
    pose proof (tryLocalSticky_ok env (ai_now inp) req' p ls Hok Hlk Hreq) as [Hok' _].
    destruct (tryLocalSticky _ _ _ _ _) as [[resp|] ls']; done.
  - pose proof (acquireDispatch_ok env (ai_now inp) (ai_order inp) req (ai_storeRec inp) ls Hok Hacq).
    destruct (acquireDispatch _ _ _ _ _ _) as [[resp|] ls']; done.
  - unfold handleColdStart. by destruct (sendScaleHint inp).
  - unfold waitForInstance. destruct (_ <=? 0); [done|].
    pose proof (tryPollDispatch_ok env (ai_now inp) (ai_order inp) req ls Hok Hacq).
    destruct (tryPollDispatch _ _ _ _ _) as [[resp|] ls']; [done|]. by destruct (ai_giveUp inp).
  - done.
Qed.


(** *** Release, expiry and timers *)

(** Giving back a unit that no session holds. *)
Lemma pool_inv_unit_back fk allocs aid a p ins :
  pool_inv (sessionless fk allocs) p -> allocs !! aid = Some a -> al_FuncKey a = fk ->
  al_SessionID a = "" -> pl_instances p !! al_InstanceID a = Some ins ->
  pool_inv (sessionless fk (delete aid allocs))
    (if 0 <? li_InUse ins then alter_instance (add_InUse (- 1)) (al_InstanceID a) p else p).
Proof.
  intros Hp Ha Hfk Hs Hi. destruct (Z.ltb_spec 0 (li_InUse ins)).
  - apply (pool_inv_shift (sessionless fk allocs)); [done| |intros; apply sessionless_delete_le].
    rewrite (sessionless_delete _ _ _ _ _ Ha). unfold sl_if. rewrite decide_True by done. lia.
  - apply (pool_inv_mono (sessionless fk allocs)); [done|]. intros; apply sessionless_delete_le.
Qed.

Lemma unbind_shape k p :
  pl_funcKey (unbindSessionOnRelease k p).2 = pl_funcKey p /\
  pl_instances (unbindSessionOnRelease k p).2 = pl_instances p.
Proof. unfold unbindSessionOnRelease. by repeat case_match. Qed.

Lemma startTimer_shape k p :
  pl_funcKey (startSessionUnbindTimer k p) = pl_funcKey p /\
  pl_instances (startSessionUnbindTimer k p) = pl_instances p.
Proof. unfold startSessionUnbindTimer. by repeat case_match. Qed.

(** [p'] is [p] after an allocation of it is gone: same key and instances. *)
Definition released (fk : string) (allocs : gmap string Allocation) (aid : string)
    (p p' : LiteFunctionPool) : Prop :=
  pool_inv (sessionless fk (delete aid allocs)) p' /\ pl_funcKey p' = pl_funcKey p /\
  forall id, is_Some (pl_instances p !! id) -> is_Some (pl_instances p' !! id).

Lemma released_unbind fk allocs aid p k :
  pool_inv (sessionless fk allocs) p -> released fk allocs aid p (unbindSessionOnRelease k p).2.
Proof.
  intros Hp. destruct (unbind_shape k p) as [E1 E2]. split_and!; [|done|by rewrite E2].
  eapply pool_inv_mono; [by apply pool_inv_unbind|]. intros; apply sessionless_delete_le.
Qed.

Lemma released_unit fk allocs aid a p ins :
  pool_inv (sessionless fk allocs) p -> allocs !! aid = Some a -> al_FuncKey a = fk ->
  al_SessionID a = "" -> pl_instances p !! al_InstanceID a = Some ins ->
  released fk allocs aid p
    (if 0 <? li_InUse ins then alter_instance (add_InUse (- 1)) (al_InstanceID a) p else p).
Proof.
  intros Hp Ha Hfk Hs Hi. split_and!; [by eapply pool_inv_unit_back|by case_match|].
  intros id Hid. case_match; [|done]. simpl. by apply lookup_alter_is_Some.
Qed.

Lemma released_timer fk allocs aid p p' (b : bool) k :
  released fk allocs aid p p' ->
  released fk allocs aid p (if b then startSessionUnbindTimer k p' else p').
Proof.
  intros (Hp & Hf & Hi). destruct b; [|done]. destruct (startTimer_shape k p') as [E1 E2].
  split_and!; [by apply pool_inv_startTimer|congruence|by rewrite E2].
Qed.

Lemma releaseSlotLocked_released fk allocs aid a p :
  pool_inv (sessionless fk allocs) p -> allocs !! aid = Some a -> al_FuncKey a = fk ->
  is_Some (pl_instances p !! al_InstanceID a) ->
  released fk allocs aid p (releaseSlotLocked a p).2.
Proof.
  intros Hp Ha Hfk [ins Hi]. unfold releaseSlotLocked. rewrite Hi.
  destruct (String.eqb_spec (al_SessionID a) "") as [Hs|Hs]; simpl.
  - pose proof (released_unit _ _ _ _ _ _ Hp Ha Hfk Hs Hi) as Hr. by destruct (_ <? _).
  - pose proof (released_unbind fk allocs aid p
                  (sessionBindingKey p (al_SessionID a) (al_SessionCtxID a)) Hp) as Hr.
    by destruct (unbindSessionOnRelease _ p).
Qed.

(** The allocation goes with its pool's share. *)
Lemma acct_released (pools : gmap string LiteFunctionPool) (allocs : gmap string Allocation) aid a p p' :
  acct_inv pools allocs -> allocs !! aid = Some a -> pools !! al_FuncKey a = Some p ->
  released (al_FuncKey a) allocs aid p p' ->
  acct_inv (<[al_FuncKey a:=p']> pools) (delete aid allocs).
Proof.
  intros Hacct Ha Hlk (Hp' & Hf & Hi). eapply acct_update; try done.
  - rewrite Hf. by apply Hacct.
  - intros aid' a' [_ Ha']%lookup_delete_Some. left. eauto.
  - intros. apply sessionless_delete_le.
Qed.

Lemma acct_alloc_pool (pools : gmap string LiteFunctionPool) (allocs : gmap string Allocation) aid a :
  acct_inv pools allocs -> allocs !! aid = Some a ->
  exists p, pools !! al_FuncKey a = Some p /\ is_Some (pl_instances p !! al_InstanceID a) /\
            pool_inv (sessionless (al_FuncKey a) allocs) p.
Proof.
  intros Hacct Ha. destruct (proj2 Hacct aid a Ha) as (p & Hp & Hi).
  destruct (proj1 Hacct _ _ Hp). eauto.
Qed.

Lemma handleRelease_ok env req ls : ls_ok ls -> ls_ok (handleRelease env req ls).2.
Proof.
  intros Hok. unfold handleRelease. destruct (rq_AllocationIDs req) as [|aid ?]; [done|].
  destruct (ls_allocations ls !! aid) as [a|] eqn:Ha; [|done].
  destruct (acct_alloc_pool _ _ _ _ (proj1 Hok) Ha) as (p & Hlk & Hi & Hp).
  unfold releaseInPool, getPool. simpl. rewrite Hlk.
  pose proof (releaseSlotLocked_released _ _ aid a p Hp Ha eq_refl Hi) as Hr.
  destruct (releaseSlotLocked a p) as [[need sid] p']. split; simpl in *.
  - eapply acct_released; try done; [apply Hok|]. by apply released_timer.
  - by apply wheel_ok_del, Hok.
Qed.

Lemma reap_acct aid ls :
  acct_inv (ls_pools ls) (ls_allocations ls) ->
  acct_inv (ls_pools (reapExpiredAllocation aid ls)) (ls_allocations (reapExpiredAllocation aid ls)).
Proof.
  intros Hok. unfold reapExpiredAllocation. destruct (ls_allocations ls !! aid) as [a|] eqn:Ha; [|done].
  destruct (acct_alloc_pool _ _ _ _ Hok Ha) as (p & Hlk & [ins Hi] & Hp).
  unfold getPool. simpl. rewrite Hlk.
  destruct (String.eqb_spec (al_SessionID a) "") as [Hs|Hs]; simpl.
  - rewrite Hi. pose proof (released_unit _ _ _ _ _ _ Hp Ha eq_refl Hs Hi) as Hr.
    destruct (_ <? _); by eapply acct_released.
  - pose proof (released_unbind (al_FuncKey a) (ls_allocations ls) aid p
                  (sessionBindingKey p (al_SessionID a) (al_SessionCtxID a)) Hp) as Hr.
    destruct (unbindSessionOnRelease _ p) as [need p']. eapply acct_released; try done.
    by apply released_timer.
Qed.

Lemma reap_allocations aid ls :
  ls_allocations (reapExpiredAllocation aid ls) = delete aid (ls_allocations ls).
Proof.
  unfold reapExpiredAllocation, getPool. destruct (ls_allocations ls !! aid) as [a|] eqn:Ha.
  - simpl. by repeat case_match.
  - by rewrite delete_id.
Qed.

Lemma reap_wheel aid ls : ls_wheel (reapExpiredAllocation aid ls) = ls_wheel ls.
Proof. unfold reapExpiredAllocation, getPool. simpl. by repeat case_match. Qed.

Lemma reapBatch_spec l ls :
  ls_wheel (reapBatch l ls) = ls_wheel ls /\
  forall k, ls_allocations (reapBatch l ls) !! k
            = if decide (k ∈ l) then None else ls_allocations ls !! k.
Proof.
  unfold reapBatch. revert ls. induction l as [|aid l IH]; intros ls; cbn [fold_left].
  - split; [done|]. intros k. rewrite decide_False; [done|apply not_elem_of_nil].
  - destruct (IH (reapExpiredAllocation aid ls)) as [H2 H3].
    split; [by rewrite H2, reap_wheel|]. intros k. rewrite H3, reap_allocations.
    destruct (decide (k = aid)) as [->|Hne].
    + rewrite lookup_delete_eq, (decide_True (P := aid ∈ aid :: l)); [by case_decide|left].
    + rewrite lookup_delete_ne by done. do 2 case_decide; set_solver.
Qed.

Lemma reapBatch_acct l ls :
  acct_inv (ls_pools ls) (ls_allocations ls) ->
  acct_inv (ls_pools (reapBatch l ls)) (ls_allocations (reapBatch l ls)).
Proof.
  unfold reapBatch. revert ls. induction l as [|aid l IH]; intros ls Hok; [done|].
  simpl. by apply IH, reap_acct.
Qed.

Lemma expiryTurn_ok ls : ls_ok ls -> ls_ok (expiryTurn ls).
Proof.
  intros [Hacct (Hi & Hm & Hc)]. unfold expiryTurn.
  destruct (ew_Wait (ls_wheel ls)) as [[[l e] w]|] eqn:Hwait; [|done].
  destruct (ew_wait_ok _ _ _ _ Hi Hwait) as (Hi' & Hm' & Hk).
  destruct (reapBatch_spec l (set_wheel w ls)) as [H2 H3].
  split; [by apply reapBatch_acct|]. rewrite H2. simpl. split_and!; [done|lia|]. intros k.
  rewrite H3. case_decide; [by intros []|]. intros Hin. by destruct (Hk k (Hc k Hin)).
Qed.

Lemma set_wheel_ok ls (w : W) :
  ls_ok ls -> ew_inv w -> ew_min w = ew_min (ls_wheel ls) ->
  (forall k, ew_covered (ls_wheel ls) k -> ew_covered w k) -> ls_ok (set_wheel w ls).
Proof.
  intros [Hacct (Hi & Hm & Hc)] Hi' Hm' Hcov. split; [done|]. simpl. split_and!; [done|lia|auto].
Qed.

Lemma tick_ok ls :
  ls_ok ls -> ls_ok (set_wheel (default (ls_wheel ls) (ew_tick (ls_wheel ls))) ls).
Proof.
  intros Hok. destruct (ew_tick _) as [w|] eqn:E; [|by destruct ls].
  destruct (ew_tick_ok _ _ (proj1 (proj2 Hok)) E) as (? & ? & ?). by apply set_wheel_ok.
Qed.

Lemma send_ok ls :
  ls_ok ls -> ls_ok (set_wheel (default (ls_wheel ls) (ew_send (ls_wheel ls))) ls).
Proof.
  intros Hok. destruct (ew_send _) as [w|] eqn:E; [|by destruct ls].
  destruct (ew_send_ok _ _ (proj1 (proj2 Hok)) E) as (? & ? & ?). by apply set_wheel_ok.
Qed.

Lemma remove_shape k p :
  pl_funcKey (removeSessionBinding k p) = pl_funcKey p /\
  forall id, is_Some (pl_instances p !! id) -> is_Some (pl_instances (removeSessionBinding k p) !! id).
Proof.
  unfold removeSessionBinding, deleteSessionFromStore, submit, processInstanceInUse. simpl.
  split; [by repeat case_match|]. intros id Hid.
  repeat case_match; simpl; try apply lookup_alter_is_Some; done.
Qed.

Lemma fireSessionUnbind_ok fk sid b t ls : ls_ok ls -> ls_ok (fireSessionUnbind fk sid b t ls).
Proof.
  intros Hok. unfold fireSessionUnbind, getPool.
  destruct (ls_pools ls !! fk) as [p|] eqn:Hlk; [|done].
  destruct (ls_ok_pool _ _ _ Hok Hlk) as [Hfk Hp].
  destruct (pl_sessions p !! sid) as [cur|] eqn:Hb; [|done]. case_match; [done|].
  destruct (remove_shape sid p) as [E1 E2]. eapply ls_ok_put; try done.
  apply pool_inv_remove; [done|intros; apply sessionless_nonneg|].
  apply good_key_nonempty, (pi_bind _ _ Hp _ _ Hb).
Qed.


(** *** Retain and reacquire *)

Lemma deleteAllocAndExpiry_ok aid ls : ls_ok ls -> ls_ok (deleteAllocAndExpiry aid ls).
Proof. intros [H1 H2]. split; [by apply acct_delete|by apply wheel_ok_del]. Qed.

Lemma validateRetainTarget_ok aid fk id ls :
  ls_ok ls -> ls_ok (validateRetainTarget aid fk id ls).2.
Proof.
  intros Hok. unfold validateRetainTarget.
  repeat case_match; simpl; first [done | by apply deleteAllocAndExpiry_ok].
Qed.

(** The refresh of an allocation that exists. *)
Lemma refresh_ok env t aid a ls m :
  ls_ok ls -> ls_allocations ls !! aid = Some a ->
  ls_ok (mkSched (ls_pools ls) (<[aid:=with_ExpireAt t a]> (ls_allocations ls))
           (snd (ew_UpdateTask (ls_wheel ls) aid (liteTTL (ev_cfg env)) 1)) m).
Proof. intros [H1 H2] Ha. split; [by apply acct_refresh|by apply wheel_ok_update]. Qed.

Lemma refreshRetainTTL_ok env now aid p slot ls :
  ls_ok ls -> ls_ok (refreshRetainTTL env now aid p slot ls).2.
Proof.
  intros Hok. unfold refreshRetainTTL. destruct (ls_allocations ls !! aid) as [a|] eqn:Ha; [|done].
  by apply (refresh_ok env _ aid a ls).
Qed.

Definition clean_env env : Prop :=
  forall raw sess, ev_json_session env raw = Some sess -> no_nul (sc_SessionID sess).

Lemma no_nul_empty : no_nul "".
Proof. done. Qed.

Lemma extract_no_nul json_map json_sess data :
  (forall raw sess, json_sess raw = Some sess -> no_nul (sc_SessionID sess)) ->
  no_nul (extractSessionDetails json_map json_sess data).1.1.1.
Proof.
  intros Hc. unfold extractSessionDetails. destruct (_ =? _)%nat; [done|].
  destruct (json_map data) as [m|]; [|done]. destruct (m !! _) as [raw|]; [|done].
  destruct (json_sess raw) as [sess|] eqn:E; [|done]. by apply (Hc raw).
Qed.

Lemma validateReacquireRequest_ok env aid metrics params :
  clean_env env -> validateReacquireRequest env aid metrics = inl params ->
  ra_allocID params = aid /\ no_nul (ra_sessionID params).
Proof.
  intros Hc. unfold validateReacquireRequest. destruct metrics as [m|]; [|done].
  case_match; [done|]. destruct (parseLiteAllocationID aid) as [[[h id] n]|]; [|done].
  pose proof (extract_no_nul (ev_json_bytes_map env) _ (tm_ReacquireData m) Hc) as Hn.
  destruct (extractSessionDetails _ _ _) as [[[sid ctx] ttl] con]. case_match; [done|].
  by intros [= <-].
Qed.

Lemma checkReacquireSlot_ok params p slot key binding :
  checkReacquireSlotLocked params p = inl (slot, key, binding) ->
  pl_instances p !! ra_instanceID params = Some slot /\
  key = sessionBindingKey p (ra_sessionID params) (ra_sessionCtxID params) /\
  binding = pl_sessions p !! key /\
  (ra_sessionID params <> "" -> forall b, binding = Some b -> sb_instanceID b = ra_instanceID params).
Proof.
  unfold checkReacquireSlotLocked. destruct (pl_instances p !! _) as [s|]; [|done].
  destruct (negb (String.eqb (li_FuncKey s) "") && _); [done|]. destruct (bool_decide _); [done|].
  destruct (negb (String.eqb (ra_sessionID params) "") && _) eqn:E; [done|].
  intros Heq. injection Heq as <- <- <-. split_and!; try done.
  intros Hs b Hb. rewrite Hb in E. apply String.eqb_neq in Hs. rewrite Hs in E. simpl in E.
  apply negb_false_iff in E. by apply String.eqb_eq.
Qed.

(** The pool part of [buildReacquiredAlloc], as the source's branches give it. *)
Lemma reacquire_pool_ok env params p slot key binding allocs a :
  let p' :=
    if negb (String.eqb (ra_sessionID params) "") then
      match binding with
      | Some b =>
          let '(d, b) := bindSessionStickyTakeLocked b in
          alter_instance (add_InUse d) (ra_instanceID params)
            (set_sessions (<[key:=b]> (pl_sessions p)) p)
      | None =>
          saveSessionToStore (ev_podIP env) key (ra_instanceID params) (ra_sessionID params)
            (ra_sessionCtxID params) (ra_sessionTTL params) (ra_concurrency params)
            (bindSessionFreshLocked key (ra_instanceID params) (ra_concurrency params)
               (alter_instance (add_InUse (ra_concurrency params)) (ra_instanceID params) p))
      end
    else alter_instance (add_InUse 1) (ra_instanceID params) p in
  pool_inv (sessionless (ra_funcKey params) allocs) p -> no_nul (ra_sessionID params) ->
  1 <= ra_concurrency params -> checkReacquireSlotLocked params p = inl (slot, key, binding) ->
  al_SessionID a = ra_sessionID params -> al_InstanceID a = ra_instanceID params ->
  pool_inv (sessionless (ra_funcKey params) (<[ra_allocID params:=a]> allocs)) p' /\
  pl_funcKey p' = pl_funcKey p /\
  forall id, is_Some (pl_instances p !! id) -> is_Some (pl_instances p' !! id).
Proof.
  intros p' Hp Hn Hc Hchk Hs Hid. subst p'.
  apply checkReacquireSlot_ok in Hchk as (Hslot & Hkey & Hbind & Hsame).
  destruct (String.eqb_spec (ra_sessionID params) "") as [He|He]; simpl.
  - split_and!; [|done|by intros; apply lookup_alter_is_Some].
    apply (pool_inv_shift (sessionless (ra_funcKey params) allocs)); [done|..].
    + pose proof (sessionless_insert (ra_funcKey params) allocs (ra_allocID params) a
                    (ra_instanceID params)) as Hi.
      pose proof (sl_if_range (ra_funcKey params) (ra_instanceID params) (ra_allocID params) a). lia.
    + intros i Hi. pose proof (sessionless_insert (ra_funcKey params) allocs (ra_allocID params) a i) as Hins.
      rewrite sl_if_other in Hins by (right; congruence). lia.
  - assert (forall q, pool_inv (sessionless (ra_funcKey params) allocs) q ->
              pool_inv (sessionless (ra_funcKey params) (<[ra_allocID params:=a]> allocs)) q) as Hmono.
    { intros q Hq. eapply pool_inv_mono; [exact Hq|]. intros. apply sessionless_insert_session. congruence. }
    destruct binding as [b|].
    + specialize (Hsame He b eq_refl). destruct (bindSessionStickyTakeLocked b) as [d b'] eqn:Ht.
      split_and!; [|done|by intros; apply lookup_alter_is_Some].
      apply Hmono. rewrite <- Hsame. by apply pool_inv_take.
    + split_and!.
      * apply Hmono, pool_inv_fresh; [done|done| |eauto]. subst key. by apply good_key_session.
      * unfold saveSessionToStore, submit. by case_match.
      * intros id Hi. unfold saveSessionToStore, submit.
        case_match; simpl; by apply lookup_alter_is_Some.
Qed.

Lemma reacquireAllocation_ok env now aid metrics ls :
  clean_env env -> ls_ok ls -> ls_ok (reacquireAllocation env now aid metrics ls).2.
Proof.
  intros Hc Hok. unfold reacquireAllocation, getPool.
  destruct (validateReacquireRequest env aid metrics) as [params|] eqn:Hv; [|done].
  apply (validateReacquireRequest_ok _ _ _ _ Hc) in Hv as [_ Hn].
  destruct (ls_pools ls !! ra_funcKey params) as [p|] eqn:Hlk; [|done].
  destruct (checkConcurrencyLimit p _) eqn:Hcl; [done|]. apply checkConcurrencyLimit_ok in Hcl.
  destruct (checkReacquireSlotLocked params p) as [[[slot key] binding]|] eqn:Hchk; [|done].
  destruct (ls_allocations ls !! ra_allocID params) as [a|] eqn:Ha.
  { by apply (refresh_ok env _ _ a ls). }
  destruct (ls_ok_pool _ _ _ Hok Hlk) as [Hfk Hp]. unfold buildReacquiredAlloc.
  set (a := mkAlloc (ra_allocID params) _ _ _ _ _ _ _ _).
  destruct (reacquire_pool_ok env params p slot key binding (ls_allocations ls) a Hp Hn Hcl Hchk
              eq_refl eq_refl) as (Hp' & Hf & Hi).
  set (p' := if negb _ then _ else _) in *. split; simpl; [|by apply wheel_ok_update, Hok].
  apply (acct_update (ls_pools ls) (ls_allocations ls) (ra_funcKey params) p);
    [apply Hok|done|congruence|done|done| |].
  - intros aid' a' [[<- <-]|[_ Ha']]%lookup_insert_Some; [right|left; eauto]. split; [done|].
    apply Hi. apply checkReacquireSlot_ok in Hchk as [Hslot _]. by exists slot.
  - intros fk' id Hne. pose proof (sessionless_insert fk' (ls_allocations ls) (ra_allocID params) a id) as Hx.
    rewrite sl_if_other in Hx by (left; simpl; congruence). lia.
Qed.

Lemma handleRetainWithMetrics_ok env now aid b metrics ls :
  clean_env env -> ls_ok ls -> ls_ok (handleRetainWithMetrics env now aid b metrics ls).2.
Proof.
  intros Hc Hok. unfold handleRetainWithMetrics.
  destruct (ls_allocations ls !! aid) as [a|]; [|by apply reacquireAllocation_ok].
  case_match; [done|]. pose proof (validateRetainTarget_ok aid (al_FuncKey a) (al_InstanceID a) ls Hok) as Hv.
  destruct (validateRetainTarget _ _ _ ls) as [[[p slot]|e] ls']; [|done]. by apply refreshRetainTTL_ok.
Qed.

Lemma handleRetain_ok env now req ls :
  clean_env env -> ls_ok ls -> ls_ok (handleRetain env now req ls).2.
Proof.
  intros Hc Hok. unfold handleRetain. destruct (rq_AllocationIDs req); [done|].
  by apply handleRetainWithMetrics_ok.
Qed.

Lemma handleBatchRetain_ok env now req ls :
  clean_env env -> ls_ok ls -> ls_ok (handleBatchRetain env now req ls).2.
Proof.
  intros Hc. unfold handleBatchRetain. generalize (mkBatchResp ∅ ∅ (liteTTL (ev_cfg env) /g Millisecond)).
  generalize (if negb (String.length (rq_MetricsData req) =? 0)%nat
              then ev_json_metrics_map env (rq_MetricsData req) else ∅).
  intros mm. revert ls. induction (rq_AllocationIDs req) as [|aid ids IH]; intros ls resp Hok; [done|].
  cbn [fold_left batch_one].
  pose proof (handleRetainWithMetrics_ok env now aid true (mm !! aid) ls Hc Hok) as Hr.
  destruct (handleRetainWithMetrics _ _ _ _ _ ls) as [r ls']. by apply IH.
Qed.


(** *** Registry events *)

Definition pools_ok (pools : gmap string LiteFunctionPool) (allocs : gmap string Allocation) : Prop :=
  forall fk p, pools !! fk = Some p -> pl_funcKey p = fk /\ pool_inv (sessionless fk allocs) p.

Lemma delete_allocs_spec ids ls :
  pools_ok (ls_pools ls) (ls_allocations ls) -> wheel_ok (ls_wheel ls) (ls_allocations ls) ->
  let ls' := delete_allocs ids ls in
  ls_pools ls' = ls_pools ls /\ pools_ok (ls_pools ls') (ls_allocations ls') /\
  wheel_ok (ls_wheel ls') (ls_allocations ls') /\
  forall k a, ls_allocations ls' !! k = Some a -> k ∉ ids /\ ls_allocations ls !! k = Some a.
Proof.
  unfold delete_allocs. revert ls. induction ids as [|aid ids IH]; intros ls Hp Hw; cbn [fold_left].
  - split_and!; try done. intros k a Hk. split; [apply not_elem_of_nil|done].
  - destruct (IH (deleteAllocAndExpiry aid ls)) as (H1 & H2 & H3 & H4).
    + intros fk p Hlk. destruct (Hp fk p Hlk). split; [done|].
      eapply pool_inv_mono; [done|]. intros; apply sessionless_delete_le.
    + by apply wheel_ok_del.
    + split_and!; [done..|]. intros k a Hk. apply H4 in Hk as [Hn Hk].
      cbn in Hk. apply lookup_delete_Some in Hk as [? Hk]. split; [|done]. by apply not_elem_of_cons.
Qed.

Lemma allocs_on_spec fk id ls aid a :
  ls_allocations ls !! aid = Some a -> al_FuncKey a = fk -> al_InstanceID a = id ->
  aid ∈ allocs_on fk id ls.
Proof.
  intros Ha Hf Hi. apply list_elem_of_fmap. exists (aid, a). split; [done|].
  apply elem_of_map_to_list. by apply map_lookup_filter_Some.
Qed.

Lemma allocs_of_spec fk ls aid a :
  ls_allocations ls !! aid = Some a -> al_FuncKey a = fk -> aid ∈ allocs_of fk ls.
Proof.
  intros Ha Hf. apply list_elem_of_fmap. exists (aid, a). split; [done|].
  apply elem_of_map_to_list. by apply map_lookup_filter_Some.
Qed.

Lemma removeInstanceLocked_ok fk id p ls :
  ls_ok ls -> ls_pools ls !! fk = Some p -> ls_ok (removeInstanceLocked fk id p ls).
Proof.
  intros [[Hpools Hpl] Hw] Hlk. destruct (Hpools fk p Hlk) as [Hfk Hp].
  destruct (pool_inv_drop _ p id Hp) as (Hp' & Hfk' & Hins).
  unfold removeInstanceLocked. set (ls1 := put_pool fk (drop_instance id p) ls).
  destruct (delete_allocs_spec (allocs_on fk id ls1) ls1) as (E & H1 & H2 & H3).
  - intros fk' q Hq. unfold ls1 in Hq. cbn in Hq.
    apply lookup_insert_Some in Hq as [[<- <-]|[_ Hq]]; [by rewrite Hfk'|by apply Hpools].
  - done.
  - split; [split; [done|]|done]. intros aid a Ha. apply H3 in Ha as [Hn Ha].
    destruct (Hpl aid a Ha) as (q & Hq & Hi). rewrite E. simpl.
    destruct (decide (al_FuncKey a = fk)) as [Hf|Hf].
    + exists (drop_instance id p). rewrite Hf, lookup_insert_eq, Hins. split; [done|].
      rewrite lookup_delete_ne; [congruence|]. intros Hid. apply Hn. by eapply allocs_on_spec.
    + exists q. by rewrite lookup_insert_ne.
Qed.

Lemma upsertPool_ok spec ls : ls_ok ls -> ls_ok (upsertPool spec ls).
Proof.
  intros Hok. unfold upsertPool. destruct (ls_pools ls !! fs_FuncKey spec) as [p|] eqn:Hlk.
  - destruct (ls_ok_pool _ _ _ Hok Hlk) as [Hfk Hp]. eapply ls_ok_put; try done. by eapply pool_inv_same.
  - destruct Hok as [[Hpools Hpl] Hw]. split; [split|done]; simpl.
    + intros fk p [[<- <-]|[_ Hp]]%lookup_insert_Some; [|by apply Hpools]. split; [done|].
      by split.
    + intros aid a Ha. destruct (Hpl aid a Ha) as (q & Hq & Hi). exists q.
      rewrite lookup_insert_ne; [done|]. congruence.
Qed.

Lemma deletePool_ok fk ls : ls_ok ls -> ls_ok (deletePool fk ls).2.
Proof.
  intros Hok. unfold deletePool. destruct (ls_pools ls !! fk) as [p|] eqn:Hlk; [|done].
  destruct Hok as [[Hpools Hpl] Hw]. cbn [snd]. set (ls1 := set_pools _ ls).
  destruct (delete_allocs_spec (allocs_of fk ls1) ls1) as (E & H1 & H2 & H3).
  - intros fk' q Hq. unfold ls1 in Hq. cbn in Hq. apply lookup_delete_Some in Hq as [_ Hq].
    by apply Hpools.
  - done.
  - split; [split; [done|]|done]. intros aid a Ha. apply H3 in Ha as [Hn Ha].
    destruct (Hpl aid a Ha) as (q & Hq & Hi). exists q. split; [|done]. rewrite E. simpl.
    rewrite lookup_delete_ne; [done|]. intros Hf. apply Hn. by eapply allocs_of_spec.
Qed.

(** No allocation, no unit held outside the sessions. *)
Lemma sessionless_unplaced pools allocs fk p id :
  acct_inv pools allocs -> pools !! fk = Some p -> pl_instances p !! id = None ->
  sessionless fk allocs id = 0.
Proof.
  intros [_ Hpl] Hlk Hi. apply msum_zero. intros aid a Ha. unfold sl_if. rewrite decide_False; [done|].
  intros (Hf & _ & Hid). destruct (Hpl aid a Ha) as (q & Hq & [x Hx]). congruence.
Qed.

Lemma handleInstanceUpdate_ok fk ins p ls :
  ls_ok ls -> ls_pools ls !! fk = Some p -> ls_ok (handleInstanceUpdate fk ins p ls).
Proof.
  intros Hok Hlk. destruct (ls_ok_pool _ _ _ Hok Hlk) as [Hfk Hp]. unfold handleInstanceUpdate.
  destruct (mapStatus (in_StatusCode ins)) eqn:Hst; try by apply removeInstanceLocked_ok.
  all: eapply ls_ok_put; try done;
    [|intros id Hid; simpl; destruct (decide (in_InstanceID ins = id)) as [->|];
      [by rewrite lookup_insert_eq|by rewrite lookup_insert_ne]].
  all: apply pool_inv_upsert; [done|by case_match|unfold buildLiteInstanceFromInstance;
    case_match; simpl; by rewrite Hst|].
  all: destruct (pl_instances p !! in_InstanceID ins) eqn:Hi; [done|]; split; [done|].
  all: erewrite sessionless_unplaced; [lia|apply Hok|done|done].
Qed.

Lemma funcSpecEvent_ok env ty spec ls : ls_ok ls -> ls_ok (funcSpecEvent env ty spec ls).
Proof.
  intros Hok. unfold funcSpecEvent. destruct ty; try case_match;
    first [by apply upsertPool_ok|by apply deletePool_ok|done].
Qed.

Lemma instanceEvent_ok env ty fk ins ls : ls_ok ls -> ls_ok (instanceEvent env ty fk ins ls).
Proof.
  intros Hok. unfold instanceEvent, getPool. destruct ty; try done;
    repeat (case_match; try done); by first [apply handleInstanceUpdate_ok|apply removeInstanceLocked_ok].
Qed.


(** *** Idle bookkeeping: instances change in their idle fields only *)

Definition same_use (i i' : LiteInstance) : Prop :=
  li_InstanceID i' = li_InstanceID i /\ li_Status i' = li_Status i /\ li_InUse i' = li_InUse i.

Lemma pool_inv_fmap sl p (f : LiteInstance -> LiteInstance) :
  (forall i, same_use i (f i)) -> pool_inv sl p ->
  pool_inv sl (set_instances (f <$> pl_instances p) p).
Proof.
  intros Hf Hp. split; simpl; [| | |apply Hp].
  - intros id ins. rewrite lookup_fmap. intros [i [Hi ->]]%fmap_Some.
    destruct (Hf i) as (-> & -> & _). by apply (pi_ins _ _ Hp).
  - intros k b Hb. destruct (pi_bind _ _ Hp _ _ Hb) as (? & ? & ? & ? & Hi).
    split_and!; try done. rewrite lookup_fmap. by apply fmap_is_Some.
  - intros id ins. rewrite lookup_fmap. intros [i [Hi ->]]%fmap_Some.
    destruct (Hf i) as (_ & _ & ->). by apply (pi_acc _ _ Hp).
Qed.

Lemma ls_ok_fmap ls (f : string -> LiteInstance -> LiteInstance) :
  (forall fk i, same_use i (f fk i)) -> ls_ok ls ->
  ls_ok (set_pools ((fun p => set_instances (f (pl_funcKey p) <$> pl_instances p) p) <$> ls_pools ls) ls).
Proof.
  intros Hf [[Hpools Hpl] Hw]. split; [split|done]; simpl.
  - intros fk p. rewrite lookup_fmap. intros [q [Hq ->]]%fmap_Some.
    destruct (Hpools fk q Hq) as [Hfk Hp]. split; [done|]. by apply pool_inv_fmap.
  - intros aid a Ha. destruct (Hpl aid a Ha) as (q & Hq & Hi).
    rewrite lookup_fmap, Hq. eexists. split; [done|]. simpl. rewrite lookup_fmap. by apply fmap_is_Some.
Qed.

Lemma scan_instance_same proxy now fk ins : same_use ins (scan_instance proxy now fk ins).1.
Proof. unfold scan_instance, same_use. by repeat case_match. Qed.

Lemma ring_instance_same env fk ins : same_use ins (ring_instance env fk ins).
Proof. unfold ring_instance, same_use. by repeat case_match. Qed.

Lemma reset_one_ok item ls : ls_ok ls -> ls_ok (reset_one item ls).
Proof.
  intros Hok. unfold reset_one, getPool. destruct (ls_pools ls !! _) as [p|] eqn:Hlk; [|done].
  destruct (ls_ok_pool _ _ _ Hok Hlk) as [Hfk Hp]. eapply ls_ok_put; try done.
  - split; simpl; [| | |apply Hp].
    + intros id ins. destruct (decide (id = ie_InstanceID item)) as [->|].
      * rewrite lookup_alter_eq. intros [i [Hi ->]]%fmap_Some. by apply (pi_ins _ _ Hp) in Hi.
      * rewrite lookup_alter_ne by done. apply Hp.
    + intros k b Hb. destruct (pi_bind _ _ Hp _ _ Hb) as (? & ? & ? & ? & ?).
      split_and!; try done. by apply lookup_alter_is_Some.
    + intros id ins. destruct (decide (id = ie_InstanceID item)) as [->|].
      * rewrite lookup_alter_eq. intros [i [Hi ->]]%fmap_Some. by apply (pi_acc _ _ Hp) in Hi.
      * rewrite lookup_alter_ne by done. apply Hp.
  - intros id Hid. simpl. by apply lookup_alter_is_Some.
Qed.

Lemma scanSessionContextIdle_ok env now sent ls :
  ls_ok ls -> ls_ok (scanSessionContextIdle env now sent ls).
Proof.
  intros Hok. unfold scanSessionContextIdle. destruct (ev_ownerProxy env) as [proxy|]; [|done].
  apply (ls_ok_fmap ls (fun fk ins => (scan_instance proxy now fk ins).1)) in Hok;
    [|intros; apply scan_instance_same].
  change ((fun p => set_instances _ p) <$> ls_pools ls) with (scan_pool proxy now <$> ls_pools ls) in Hok.
  revert Hok. generalize (set_pools (scan_pool proxy now <$> ls_pools ls) ls).
  induction (scan_reports proxy now ls) as [|[owner item] l IH]; intros ls' Hok; [done|]. cbn [fold_left].
  apply IH. destruct (sent owner); [done|]. by apply reset_one_ok.
Qed.

(** *** Runs *)

(** What [ParseRequest] guarantees of an acquire ([ParseRequest_clean]). *)
Definition clean_request req : Prop :=
  rq_Op req = "acquire" -> rq_NeedReverseLookup req = false /\ no_nul (rq_SessionID req).

Definition clean_event (e : event) : Prop :=
  match e with EvRequest _ _ req => clean_request req | _ => True end.

Definition clean_run (tr : list (LiteEnv * event)) : Prop :=
  Forall (fun ee => clean_env ee.1 /\ clean_event ee.2) tr.

Definition sys_inv (s : sys) : Prop :=
  ls_ok (sy_ls s) /\ forall tid rp, sy_acquires s !! tid = Some rp -> acq_ok rp.

Lemma reverse_fill_Op ids m req req' : reverse_fill ids m req = Some req' -> rq_Op req' = rq_Op req.
Proof.
  revert req. induction ids as [|id ids IH]; simpl; intros req; [by intros [= ->]|].
  destruct (m !! id); [|done]. by intros ->%IH.
Qed.

Lemma Process_checks_acquire env req ls req' :
  clean_request req -> Process_checks env req ls = inl req' ->
  rq_Op req' = "acquire" -> no_nul (rq_SessionID req').
Proof.
  intros Hc Hp Hop. unfold Process_checks, reverseLookup in Hp.
  destruct (rq_NeedReverseLookup req) eqn:Hn.
  - assert (rq_Op req = "acquire") as Ha.
    { destruct (reverse_fill _ _ req) as [r|] eqn:Hr.
      - apply reverse_fill_Op in Hr. rewrite <- Hr, <- Hop. repeat case_match; simplify_eq; done.
      - rewrite <- Hop. repeat case_match; simplify_eq; done. }
    destruct (Hc Ha). congruence.
  - assert (req' = req) as -> by (repeat case_match; simplify_eq; done). by apply Hc.
Qed.

Lemma Process_ok env now req ls :
  clean_env env -> clean_request req -> ls_ok ls ->
  ls_ok (Process env now req ls).2 /\
  forall req', (Process env now req ls).1 = PRAcquire req' -> no_nul (rq_SessionID req').
Proof.
  intros He Hc Hok. unfold Process. destruct (Process_checks env req ls) as [r|] eqn:Hp; [|done].
  destruct (String.eqb_spec (rq_Op r) "acquire") as [Ha|_].
  { split; [done|]. intros req' [= <-]. by eapply Process_checks_acquire. }
  destruct (String.eqb _ "release").
  { pose proof (handleRelease_ok env r ls Hok). by destruct (handleRelease env r ls). }
  destruct (String.eqb _ "retain").
  { pose proof (handleRetain_ok env now r ls He Hok). by destruct (handleRetain env now r ls). }
  destruct (String.eqb _ "batchRetain"); [|done].
  pose proof (handleBatchRetain_ok env now r ls He Hok). by destruct (handleBatchRetain env now r ls).
Qed.

Lemma acquires_insert (m : gmap nat (LiteRequest * acq_pc)) tid rp :
  (forall t rp, m !! t = Some rp -> acq_ok rp) -> acq_ok rp ->
  forall t rp', <[tid:=rp]> m !! t = Some rp' -> acq_ok rp'.
Proof. intros Hm Hrp t rp' [[_ <-]|[_ Ht]]%lookup_insert_Some; [done|eauto]. Qed.

Lemma sys_step_inv env s e : clean_env env -> clean_event e -> sys_inv s -> sys_inv (sys_step env s e).
Proof.
  intros He Hc [Hok Hacq]. destruct e as [tid now req|tid inp|fk sid b t| | | |ty spec|ty fk ins| |now sent].
  - pose proof (Process_ok env now req (sy_ls s) He Hc Hok) as [Hok' Hreq]. simpl.
    destruct (Process env now req (sy_ls s)) as [[r|r|r] ls]; simpl in *; split; simpl; try done.
    apply acquires_insert; [done|]. by apply (Hreq r).
  - simpl. destruct (sy_acquires s !! tid) as [[req pc]|] eqn:Ht; [|done].
    pose proof (acq_step_ok env inp req pc (sy_ls s) Hok (Hacq _ _ Ht)) as [Hok' Ha].
    destruct (acq_step env inp req pc (sy_ls s)) as [[req' pc'] ls']. split; [done|]. simpl.
    by apply acquires_insert.
  - split; [by apply fireSessionUnbind_ok|done].
  - split; [by apply tick_ok|done].
  - split; [by apply send_ok|done].
  - split; [by apply expiryTurn_ok|done].
  - split; [by apply funcSpecEvent_ok|done].
  - split; [by apply instanceEvent_ok|done].
  - split; [|done]. by apply (ls_ok_fmap _ (ring_instance env)); [intros; apply ring_instance_same|].
  - split; [by apply scanSessionContextIdle_ok|done].
Qed.

Lemma sys_run_inv s tr : clean_run tr -> sys_inv s -> sys_inv (sys_run s tr).
Proof.
  unfold sys_run. revert s. induction tr as [|[env e] tr IH]; intros s Hc Hs; [done|].
  apply Forall_cons in Hc as [[He Hev] Hc]. simpl. apply IH; [done|]. by apply sys_step_inv.
Qed.

Lemma sys_init_inv (w : W) : ew_inv w -> ew_min w <= MinLeaseInterval -> sys_inv (sys_init w).
Proof. intros Hi Hm. split; [|done]. split; [by split|]. split_and!; [done|done|]. by intros k [a Ha]. Qed.

(** The requests of [ParseRequest] are clean when decoded session ids are. *)
Lemma ParseRequest_clean json_map json_sess getter cfg op target extraData traceID req :
  (forall raw sess, json_sess raw = Some sess -> no_nul (sc_SessionID sess)) ->
  ParseRequest json_map json_sess getter cfg op target extraData traceID = Some req ->
  clean_request req.
Proof.
  intros Hj Hp Hop. unfold ParseRequest in Hp.
  destruct (negb _); [done|]. destruct (negb (cf_Enable cfg)); [done|].
  destruct (String.eqb_spec op "acquire") as [->|Hne].
  - pose proof (extract_no_nul json_map json_sess extraData Hj) as Hn.
    destruct (extractSessionDetails _ _ _) as [[[sid ctx] ttl] c]. repeat case_match; simplify_eq; done.
  - repeat case_match; simplify_eq; done.
Qed.


End Scheduler.
