(* ===== verification/LiteProps.v ===== *)
(** * What the lite scheduler guarantees

    The properties of reachable states: states of the running system
    ([LiteSched.sys]) that any interleaving of requests, waiting acquires,
    timers, wheel ticks and registry events leads to from an empty scheduler
    with its 100-slot wheel.  Runs are restricted to session ids without the
    NUL character that [JoinKey] uses as its separator ([LiteInv.clean_run]);
    [LiteAlloc.JoinKey] is ambiguous without that.  The last part shows runs
    in which the code does not do what it means to. *)
From stdpp Require Import base gmap list strings.
From Stdlib Require Import ZArith Lia Ascii.
From S2P Require Import Prelude GoStrings TimeWheel WheelSpec SessionStore LiteAlloc LitePool LiteSched LiteWheel LiteInv.
#[local] Open Scope string_scope.
#[local] Open Scope Z_scope.

Definition reached (tr : list (LiteEnv * event)) : sys := sys_run (sys_init liteWheel) tr.

Lemma reached_inv tr : clean_run tr -> sys_inv (reached tr).
Proof.
  intros Hc. apply sys_run_inv; [done|]. destruct liteWheel_ok as [Hi Hm].
  apply sys_init_inv; [done|]. by rewrite Hm.
Qed.

(** ** A small world for the examples *)

Definition demo_cfg : LiteSchedulerConfig := mkLiteConfig true true [] [] 1000 1000.
Definition demo_env : LiteEnv :=
  mkEnv demo_cfg None "10.0.0.1" "self"
    (fun data => if String.eqb data "extra" then
                   Some (<["instanceSessionConfig" := "s1"]> (<["sessionCtxID" := "c1"]> ∅)) else
                 if String.eqb data "plain" then Some (<["instanceSessionConfig" := "s1"]> ∅) else None)
    (fun raw => if String.eqb raw "s1" then Some (mkSessConf "s1" 60 2) else None)
    (fun data => Some (mkMetrics data "t/f/v")) (fun _ => ∅).
Definition demo_spec (ctx : bool) : FunctionSpecification := mkFuncSpec "t/f/v" 10 "concurrency" ctx.
Definition demo_instance (id : string) (ctx : option string) : Instance :=
  mkInstance id "t/f/v" 4 KernelInstanceStatusRunning "" "" "" "" "" "" "" "" ctx.
Definition demo_acquire (sid ctx : string) (c : Z) : LiteRequest :=
  mkReq "acquire" "t/f/v" "t" sid ctx 60 c [] "" "" "" false "".
Definition demo_op (op alloc data : string) : LiteRequest :=
  mkReq op "" "" "" "" 0 0 [alloc] data data "" true "".
Definition demo_in : acq_input := mkAcqIn 0 ["i1"; "i2"] None None false.

Definition demo_setup : list (LiteEnv * event) :=
  [(demo_env, EvFuncSpec SubEventTypeUpdate (demo_spec false));
   (demo_env, EvInstance SubEventTypeUpdate "t/f/v" (demo_instance "i1" None))].
(** One session acquires twice. *)
Definition demo_run : list (LiteEnv * event) :=
  demo_setup ++
  [(demo_env, EvRequest 1 0 (demo_acquire "s1" "" 2));
   (demo_env, EvAcquire 1 demo_in); (demo_env, EvAcquire 1 demo_in);
   (demo_env, EvRequest 2 0 (demo_acquire "s1" "" 2));
   (demo_env, EvAcquire 2 demo_in)].

Lemma demo_env_clean : clean_env demo_env.
Proof. intros raw sess. simpl. case_match; [|done]. by intros [= <-]. Qed.

Lemma demo_run_clean : clean_run demo_run.
Proof. repeat constructor; try apply demo_env_clean; done. Qed.

Lemma demo_run_result :
  (fun p => (li_InUse <$> pl_instances p, held_on "i1" (pl_sessions p),
             sb_activeAllocs <$> pl_sessions p)) <$> (ls_pools (sy_ls (reached demo_run)) !! "t/f/v")
  = Some ({["i1" := 2]}, 2, {["s1" := 2]}).
Proof. vm_compute. reflexivity. Qed.

(** ** Reachable states *)

Lemma reached_pool tr fk p :
  clean_run tr -> ls_pools (sy_ls (reached tr)) !! fk = Some p ->
  pool_inv (sessionless fk (ls_allocations (sy_ls (reached tr)))) p.
Proof. intros Hc Hp. destruct (reached_inv tr Hc) as [Hok _]. by apply (ls_ok_pool _ _ _ Hok). Qed.



(** C25: the session store mirrors the bindings.  Replaying the writes a pool
    has submitted to its store, in order, gives exactly the pool's map from
    binding keys to instances. *)
Theorem store_mirrors_sessions tr fk p :
  clean_run tr -> ls_pools (sy_ls (reached tr)) !! fk = Some p ->
  replay ∅ (pl_sessionStore p) = sb_instanceID <$> pl_sessions p.
Proof. intros Hc Hlk. apply (reached_pool tr fk p Hc Hlk). Qed.

Lemma store_mirrors_sessions_witness :
  exists p, ls_pools (sy_ls (reached demo_run)) !! "t/f/v" = Some p /\
    replay ∅ (pl_sessionStore p) = {["s1" := "i1"]}.
Proof.
  destruct (ls_pools (sy_ls (reached demo_run)) !! "t/f/v") as [p|] eqn:Hp.
  2: { vm_compute in Hp. discriminate. }
  exists p. split; [done|].
  rewrite (store_mirrors_sessions demo_run "t/f/v" p demo_run_clean Hp).
  vm_compute in Hp. injection Hp as <-. vm_compute. reflexivity.
Defined.



(** ** Stickiness *)

(** The units an assignment takes from its slot. *)
Lemma applySlotBinding_use env req slotID sticky p :
  exists d, pl_instances (applySlotBinding env req slotID sticky p)
            = alter (add_InUse d) slotID (pl_instances p) /\
    match (if sticky then pl_sessions p !! rq_bindingKey req else None) with
    | Some b => (d = 0 /\ 0 < sb_reserved b) \/ (d = 1 /\ sb_reserved b <= 0)
    | None => (d = rq_Concurrency req /\ rq_SessionID req <> "") \/ (d = 1 /\ rq_SessionID req = "")
    end.
Proof.
  unfold applySlotBinding. destruct (if sticky then _ else _) as [b|].
  - unfold bindSessionStickyTakeLocked. destruct (Z.ltb_spec 0 (sb_reserved b)); eexists; split; eauto.
  - destruct (String.eqb_spec (rq_SessionID req) ""); simpl; [by exists 1; eauto|].
    exists (rq_Concurrency req). split; [|by left]. unfold saveSessionToStore, submit. by case_match.
Qed.

Lemma assignInstance_resp {W} `{ExpiryWheel W} env now req slotID sticky p (ls : LiteScheduler W) ins :
  pl_instances p !! slotID = Some ins ->
  let r := (assignInstance env now req slotID sticky p ls).1 in
  rp_ErrorCode r = InsReqSuccessCode /\ rp_InstanceID r = li_InstanceID ins.
Proof.
  intros Hi. unfold assignInstance. cbn [fst].
  destruct (applySlotBinding_use env req slotID sticky (set_seq (wrap64 (pl_seqCounter p + 1)) p))
    as (d & -> & _). simpl. rewrite lookup_alter_eq, Hi. done.
Qed.

(** Session affinity.  When a request starts for a session that is bound,
    it is answered at once: from the instance of the binding, or with "no
    instance available" when that one has no unit left.  It never moves to
    another instance and never reaches the dispatcher. *)
Theorem session_affinity tr env inp req p b :
  clean_run tr ->
  let ls := sy_ls (reached tr) in
  checkHandleAcquireReq req ls = inl p ->
  pl_sessions p !! sessionBindingKey p (rq_SessionID req) (rq_SessionCtxID req) = Some b ->
  exists req' resp ls', acq_step env inp req AqStart ls = (req', AqDone resp, ls') /\
    ((rp_ErrorCode resp = InsReqSuccessCode /\ rp_InstanceID resp = sb_instanceID b) \/
     (resp = noInstance /\ sb_reserved b = 0 /\
      exists ins, pl_instances p !! sb_instanceID b = Some ins /\ li_Capacity ins <= li_InUse ins)).
Proof.
  intros Hc ls Hchk Hb. destruct (checkHandleAcquireReq_ok _ _ _ Hchk) as [Hlk _].
  pose proof (reached_pool tr _ p Hc Hlk) as Hp. cbn [acq_step]. rewrite Hchk.
  destruct (pi_bind _ _ Hp _ _ Hb) as (_ & Hr & _ & _ & [ins Hi]).
  destruct (pi_ins _ _ Hp _ _ Hi) as [Hid Hs].
  unfold tryLocalSticky, tryLocalStickyLocked. cbn [rq_bindingKey with_bindingKey].
  rewrite Hb, Hi, Hs. cbn [negb].
  destruct ((0 <? sb_reserved b) || (li_InUse ins <? li_Capacity ins)) eqn:E.
  - set (key := sessionBindingKey _ _ _) in *. destruct (cancel_shape key p) as (_ & Ei & _).
    set (req' := with_bindingKey key req).
    destruct (assignInstance_resp env (ai_now inp) req' (sb_instanceID b) true
                (cancelSessionUnbind key p) ls ins) as [H1 H2]; [by rewrite Ei|].
    destruct (assignInstance _ _ _ _ _ _ ls) as [resp ls']. simpl in H1, H2.
    eexists _, _, _. split; [done|]. left. by rewrite H2, Hid.
  - apply orb_false_iff in E as [E1 E2]. zbool. eexists _, _, _. split; [done|]. right.
    split_and!; [done|lia|]. exists ins. split; [done|lia].
Qed.

Lemma session_affinity_witness :
  exists p b req' resp ls',
    pl_sessions p !! "s1" = Some b /\
    acq_step demo_env demo_in (demo_acquire "s1" "" 2) AqStart (sy_ls (reached demo_run))
    = (req', AqDone resp, ls') /\
    (rp_InstanceID resp = sb_instanceID b \/ resp = noInstance).
Proof.
  destruct (checkHandleAcquireReq (demo_acquire "s1" "" 2) (sy_ls (reached demo_run))) as [p|] eqn:Hchk.
  2: { vm_compute in Hchk. discriminate. }
  destruct (pl_sessions p !! sessionBindingKey p "s1" "") as [b|] eqn:Hb.
  2: { vm_compute in Hchk. injection Hchk as <-. vm_compute in Hb. discriminate. }
  destruct (session_affinity demo_run demo_env demo_in (demo_acquire "s1" "" 2) p b demo_run_clean Hchk Hb)
    as (req' & resp & ls' & Heq & Hr).
  exists p, b, req', resp, ls'. split_and!; [|done|].
  - vm_compute in Hchk. injection Hchk as <-. vm_compute in Hb. injection Hb as <-. done.
  - destruct Hr as [[_ ?]|[? _]]; auto.
Defined.

(** ** Capacity *)

Notation Sched := (LiteScheduler SimpleTimeWheel).

(** Every instance is still there, with more units in use only up to its
    capacity. *)
Definition within (ins ins' : LiteInstance) : Prop :=
  li_Capacity ins' = li_Capacity ins /\
  li_InUse ins <= li_InUse ins' <= Z.max (li_InUse ins) (li_Capacity ins).

Definition pool_within (p p' : LiteFunctionPool) : Prop :=
  forall id ins, pl_instances p !! id = Some ins ->
    exists ins', pl_instances p' !! id = Some ins' /\ within ins ins'.

Definition sched_within (ls ls' : Sched) : Prop :=
  forall fk p, ls_pools ls !! fk = Some p ->
    exists p', ls_pools ls' !! fk = Some p' /\ pool_within p p'.

Lemma pool_within_same p p' : pl_instances p' = pl_instances p -> pool_within p p'.
Proof. intros E id ins Hi. exists ins. rewrite E. split; [done|]. unfold within. lia. Qed.

#[local] Instance sched_within_preorder : PreOrder sched_within.
Proof.
  split.
  - intros ls fk p Hp. exists p. split; [done|]. by apply pool_within_same.
  - intros l1 l2 l3 H12 H23 fk p Hp. destruct (H12 fk p Hp) as (p2 & Hp2 & W12).
    destruct (H23 fk p2 Hp2) as (p3 & Hp3 & W23). exists p3. split; [done|]. intros id ins Hi.
    destruct (W12 id ins Hi) as (i2 & Hi2 & E2 & ?). destruct (W23 id i2 Hi2) as (i3 & Hi3 & E3 & ?).
    exists i3. split; [done|]. unfold within. rewrite E3, E2 in *. lia.
Qed.

Lemma sched_within_eq (ls ls' : Sched) : ls_pools ls' = ls_pools ls -> sched_within ls ls'.
Proof. intros E fk p Hp. exists p. rewrite E. split; [done|]. by apply pool_within_same. Qed.

Lemma sched_within_pools ls ls' fk p p' :
  ls_pools ls !! fk = Some p -> ls_pools ls' = <[fk:=p']> (ls_pools ls) -> pool_within p p' ->
  sched_within ls ls'.
Proof.
  intros Hp E Hw fk' q Hq. rewrite E. destruct (decide (fk = fk')) as [<-|].
  - rewrite lookup_insert_eq. exists p'. split; [done|]. rewrite Hp in Hq. by injection Hq as <-.
  - rewrite lookup_insert_ne by done. exists q. split; [done|]. by apply pool_within_same.
Qed.

Lemma assign_within env now req slotID (sticky : bool) p0 p (ls : Sched) :
  ls_pools ls !! rq_FuncKey req = Some p0 -> pl_instances p = pl_instances p0 ->
  1 <= rq_Concurrency req ->
  (forall ins, pl_instances p !! slotID = Some ins ->
     match (if sticky then pl_sessions p !! rq_bindingKey req else None) with
     | Some b => 0 < sb_reserved b \/ li_InUse ins < li_Capacity ins
     | None => rq_Concurrency req <= li_Capacity ins - li_InUse ins
     end) ->
  sched_within ls (assignInstance env now req slotID sticky p ls).2.
Proof.
  intros Hlk E Hc Hroom. set (p1 := set_seq (wrap64 (pl_seqCounter p + 1)) p).
  eapply (sched_within_pools _ _ _ p0 (applySlotBinding env req slotID sticky p1)); [done|done|].
  destruct (applySlotBinding_use env req slotID sticky p1) as (d & Ei & Hd).
  intros id ins Hi. rewrite Ei. simpl in *. rewrite E. destruct (decide (id = slotID)) as [->|].
  - rewrite lookup_alter_eq, Hi. eexists. split; [done|]. specialize (Hroom ins ltac:(by rewrite E)).
    unfold within. simpl. split; [done|]. destruct (if sticky then _ else _); lia.
  - rewrite lookup_alter_ne by done. exists ins. split; [done|]. unfold within. lia.
Qed.

Lemma put_within fk p p' (ls : Sched) :
  ls_pools ls !! fk = Some p -> pl_instances p' = pl_instances p -> sched_within ls (put_pool fk p' ls).
Proof. intros Hp E. eapply sched_within_pools; [done|done|]. by apply pool_within_same. Qed.

Lemma tryLocalSticky_within env now req p (ls : Sched) :
  ls_ok ls -> ls_pools ls !! rq_FuncKey req = Some p -> 1 <= rq_Concurrency req ->
  sched_within ls (tryLocalSticky env now req p ls).2.
Proof.
  intros Hok Hlk Hc. destruct (ls_ok_pool _ _ _ Hok Hlk) as [_ Hp].
  pose proof (tryLocalStickyLocked_spec _ p (rq_bindingKey req) Hp) as Hs.
  unfold tryLocalSticky. destruct (tryLocalStickyLocked _ p) as [[|slotID|slotID] p'].
  - destruct Hs as [-> _]. by eapply put_within.
  - destruct Hs as (-> & b & ins & Hb & <- & Hi & Hroom).
    destruct (cancel_shape (rq_bindingKey req) p) as (_ & Ei & _ & _ & Hcan).
    pose proof (assign_within env now req (sb_instanceID b) true p
                  (cancelSessionUnbind (rq_bindingKey req) p) ls Hlk Ei Hc) as Hw.
    destruct (assignInstance _ _ _ _ _ _ ls) as [resp ls']. apply Hw. intros ins' Hi'.
    rewrite Ei, Hi in Hi'. injection Hi' as <-.
    destruct (pl_sessions (cancelSessionUnbind _ p) !! _) as [b'|] eqn:Hb'.
    + destruct (Hcan b' eq_refl) as (b0 & Hb0 & _ & -> & _). congruence.
    + exfalso. revert Hb'. unfold cancelSessionUnbind. rewrite Hb. case_match; [by rewrite Hb|].
      simpl. by rewrite lookup_alter_eq, Hb.
  - subst p'. by eapply put_within.
Qed.

Lemma tryStoreRecovery_within env now req storeRec p (ls : Sched) :
  ls_pools ls !! rq_FuncKey req = Some p -> 1 <= rq_Concurrency req ->
  sched_within ls (tryStoreRecoveryLocked env now req storeRec p ls).2.
Proof.
  intros Hlk Hc. unfold tryStoreRecoveryLocked. destruct storeRec as [rec|]; [|done].
  destruct (String.eqb _ ""); [done|].
  destruct (match pl_instances p !! sr_InstanceID rec with Some _ => _ | None => _ end) eqn:Ev.
  - destruct (pl_instances p !! sr_InstanceID rec) as [slot|] eqn:Hs; [|done].
    apply andb_prop in Ev as [[_ Hroom]%andb_prop _]. zbool.
    pose proof (assign_within env now req (sr_InstanceID rec) false p p ls Hlk eq_refl Hc) as Hw.
    destruct (assignInstance _ _ _ _ _ _ ls) as [resp ls']. apply Hw. intros ins Hi.
    rewrite Hs in Hi. injection Hi as <-. done.
  - eapply put_within; [done|]. apply deleteSessionFromStore_shape.
Qed.

Lemma tryDispatch_within env now order req p (ls : Sched) :
  ls_ok ls -> ls_pools ls !! rq_FuncKey req = Some p ->
  sched_within ls (tryDispatchLocked env now order req p ls).2.
Proof.
  intros Hok Hlk. destruct (ls_ok_pool _ _ _ Hok Hlk) as [_ Hp]. unfold tryDispatchLocked.
  destruct (Select _ _ _) as [[slot|] d] eqn:Hsel; [|by eapply put_within].
  apply Select_in in Hsel as (Hin & Hpos & Hroom).
  apply candidateSlotsLocked_in in Hin as (id & Hid & _). destruct (pi_ins _ _ Hp _ _ Hid) as [Heq _].
  pose proof (assign_within env now req (li_InstanceID slot) false p (set_dispatcher d p) ls Hlk eq_refl
                ltac:(lia)) as Hw.
  destruct (assignInstance _ _ _ _ _ _ ls) as [resp ls']. apply Hw. simpl. rewrite Heq, Hid.
  by intros ins [= <-].
Qed.

Lemma acquireDispatch_within env now order req storeRec (ls : Sched) :
  ls_ok ls -> req_ok req -> sched_within ls (acquireDispatch env now order req storeRec ls).2.
Proof.
  intros Hok Hreq. unfold acquireDispatch, getPool.
  destruct (ls_pools ls !! rq_FuncKey req) as [p|] eqn:Hlk; [|done].
  pose proof (tryLocalSticky_ok env now req p ls Hok Hlk Hreq) as [Hok1 Hn1].
  pose proof (tryLocalSticky_within env now req p ls Hok Hlk (proj1 Hreq)) as W1.
  destruct (tryLocalSticky env now req p ls) as [[resp|] ls1]; simpl in *; [done|].
  destruct (Hn1 eq_refl) as [Hlk1 Hunb]. rewrite Hlk1.
  pose proof (tryStoreRecovery_ok env now req storeRec p ls1 Hok1 Hlk1 Hreq Hunb) as [Hok2 _].
  pose proof (tryStoreRecovery_within env now req storeRec p ls1 Hlk1 (proj1 Hreq)) as W2.
  destruct (tryStoreRecoveryLocked env now req storeRec p ls1) as [[resp|] ls2]; simpl in *;
    [by etrans|].
  destruct (ls_pools ls2 !! rq_FuncKey req) as [p2|] eqn:Hlk2; [|by etrans].
  etrans; [done|]. etrans; [done|]. by apply tryDispatch_within.
Qed.

(** C2: no overselling.  A step of an acquire, at any of its stages and in any
    reachable state, never removes an instance, and raises the units in use of
    an instance at most to its capacity. *)
Theorem acquire_no_oversell tr env inp tid req pc :
  clean_run tr -> sy_acquires (reached tr) !! tid = Some (req, pc) ->
  sched_within (sy_ls (reached tr)) (acq_step env inp req pc (sy_ls (reached tr))).2.
Proof.
  intros Hc Ht. destruct (reached_inv tr Hc) as [Hok Hacq]. specialize (Hacq _ _ Ht).
  generalize dependent (sy_ls (reached tr)). intros ls Hok.
  destruct pc as [| | | |resp]; cbn [acq_step].
  - destruct (checkHandleAcquireReq req ls) as [p|resp] eqn:Hchk; [|done].
    apply checkHandleAcquireReq_ok in Hchk as [Hlk Hcon]. set (req' := with_bindingKey _ req).
    pose proof (tryLocalSticky_within env (ai_now inp) req' p ls Hok Hlk Hcon) as Hw.
    by destruct (tryLocalSticky _ _ _ _ _) as [resp ls'].
  - pose proof (acquireDispatch_within env (ai_now inp) (ai_order inp) req (ai_storeRec inp) ls Hok Hacq).
    by destruct (acquireDispatch _ _ _ _ _ _) as [resp ls'].
  - apply sched_within_eq. unfold handleColdStart. by destruct (sendScaleHint inp).
  - unfold waitForInstance. destruct (_ <=? 0); [done|]. unfold tryPollDispatch, getPool.
    destruct (ls_pools ls !! rq_FuncKey req) as [p|] eqn:Hlk; [|by destruct (ai_giveUp inp)].
    pose proof (tryDispatch_within env (ai_now inp) (ai_order inp) req p ls Hok Hlk) as Hd.
    destruct (tryDispatchLocked _ _ _ _ _ _) as [[resp|] ls']; [exact Hd|].
    destruct (ai_giveUp inp); exact Hd.
  - done.
Qed.

Lemma acquire_no_oversell_witness :
  exists req pc, sy_acquires (reached demo_run) !! 2%nat = Some (req, pc) /\
    sched_within (sy_ls (reached demo_run)) (acq_step demo_env demo_in req pc (sy_ls (reached demo_run))).2.
Proof.
  destruct (sy_acquires (reached demo_run) !! 2%nat) as [[req pc]|] eqn:H.
  - exists req, pc. split; [done|].
    exact (acquire_no_oversell demo_run demo_env demo_in 2 req pc demo_run_clean H).
  - exfalso. vm_compute in H. discriminate.
Defined.

(** ** Expiry *)







(** ** Acquire, release, unbind *)

Lemma add_InUse_add d e ins : add_InUse d (add_InUse e ins) = add_InUse (e + d) ins.
Proof. unfold add_InUse, set_InUse. simpl. by replace (li_InUse ins + e + d) with (li_InUse ins + (e + d)) by lia. Qed.

(** What an assignment of a slot to an unbound session leaves of its pool. *)
Lemma fresh_binding_pool env req slotID p :
  rq_SessionID req <> "" -> rq_bindingKey req <> "" ->
  let p' := applySlotBinding env req slotID false p in
  pl_instances p' = alter (add_InUse (rq_Concurrency req)) slotID (pl_instances p) /\
  pl_sessions p' = <[rq_bindingKey req :=
    mkBinding (pl_next p) slotID (rq_Concurrency req - 1) 1 None false]> (pl_sessions p) /\
  pl_funcSpec p' = pl_funcSpec p /\ pl_next p' = S (pl_next p).
Proof.
  intros Hs Hk. unfold applySlotBinding, saveSessionToStore. apply String.eqb_neq in Hs. rewrite Hs.
  simpl. by rewrite submit_store.
Qed.

(** The last release of a session starts its unbind timer. *)
Lemma last_release_pool alloc p b c :
  is_Some (pl_instances p !! al_InstanceID alloc) -> al_SessionID alloc <> "" ->
  let key := sessionBindingKey p (al_SessionID alloc) (al_SessionCtxID alloc) in
  pl_sessions p !! key = Some b -> b = mkBinding (sb_ptr b) (sb_instanceID b) c 1 None false ->
  exists p1, releaseSlotLocked alloc p = (true, key, p1) /\
    let p2 := startSessionUnbindTimer key p1 in
    pl_instances p2 = pl_instances p /\
    pl_sessions p2 = <[key := mkBinding (sb_ptr b) (sb_instanceID b) (c + 1) 0
                                (Some (pl_next p)) true]> (pl_sessions p).
Proof.
  intros [ins Hi] Hs key Hb Eb. unfold releaseSlotLocked. rewrite Hi. apply String.eqb_neq in Hs.
  rewrite Hs. simpl negb. cbv iota. fold key. unfold unbindSessionOnRelease. rewrite Hb, Eb. simpl.
  eexists. split; [reflexivity|]. unfold startSessionUnbindTimer. simpl.
  rewrite lookup_insert_eq. simpl. split; [done|].
  rewrite alter_insert_eq. simpl. done.
Qed.

(** Firing the timer of such a binding gives the units back. *)
Lemma fire_pool (ls : Sched) fk p key ptr id c t ins :
  ls_pools ls !! fk = Some p -> key <> "" ->
  pl_sessions p !! key = Some (mkBinding ptr id c 0 (Some t) true) ->
  pl_instances p !! id = Some ins -> 0 < c <= li_InUse ins ->
  exists p', fireSessionUnbind fk key ptr t ls = put_pool fk p' ls /\
    pl_instances p' = alter (add_InUse (- c)) id (pl_instances p) /\
    pl_sessions p' = delete key (pl_sessions p).
Proof.
  intros Hp Hk Hb Hi Hc. unfold fireSessionUnbind, getPool. rewrite Hp, Hb. simpl.
  rewrite Nat.eqb_refl, bool_decide_true by done. simpl. eexists. split; [reflexivity|].
  unfold removeSessionBinding, processInstanceInUse, deleteSessionFromStore. rewrite Hb. simpl. rewrite Hi.
  rewrite submit_store by done. unfold held. simpl.
  destruct (Z.ltb_spec 0 (c + 0)); [|lia]. destruct (Z.leb_spec (c + 0) (li_InUse ins)); [|lia].
  simpl. by rewrite Z.add_0_r.
Qed.

Definition release_request (aid : string) : LiteRequest :=
  mkReq "release" "" "" "" "" 0 0 [aid] "" "" "" true "".

(** The release of an allocation and then the unbind timer of its session. *)
Definition release_and_fire (env : LiteEnv) (fk key aid : string) (ptr timer : nat) (ls : Sched) : Sched :=
  fireSessionUnbind fk key ptr timer (handleRelease env (release_request aid) ls).2.

Lemma release_and_fire_pool env fk key aid a p b c ins (ls : Sched) :
  ls_allocations ls !! aid = Some a -> al_FuncKey a = fk -> ls_pools ls !! fk = Some p ->
  al_SessionID a <> "" -> key = sessionBindingKey p (al_SessionID a) (al_SessionCtxID a) -> key <> "" ->
  pl_sessions p !! key = Some b -> b = mkBinding (sb_ptr b) (al_InstanceID a) c 1 None false ->
  pl_instances p !! al_InstanceID a = Some ins -> 0 <= c < li_InUse ins ->
  let ls' := release_and_fire env fk key aid (sb_ptr b) (pl_next p) ls in
  ls_allocations ls' = delete aid (ls_allocations ls) /\
  exists p', ls_pools ls' !! fk = Some p' /\
    pl_instances p' = alter (add_InUse (- (c + 1))) (al_InstanceID a) (pl_instances p) /\
    pl_sessions p' = delete key (pl_sessions p).
Proof.
  intros Ha Hfk Hp Hs Hkey Hk Hb Eb Hi Hc ls'. subst ls'. unfold release_and_fire, handleRelease.
  cbn [rq_AllocationIDs release_request]. rewrite Ha. unfold releaseInPool, getPool. simpl.
  rewrite Hfk, Hp. rewrite Hkey in Hb, Hk |- *.
  assert (b = mkBinding (sb_ptr b) (sb_instanceID b) c 1 None false) as Eb' by by rewrite Eb.
  destruct (last_release_pool a p b c ltac:(eauto) Hs Hb Eb') as (p1 & -> & Hins & Hses). simpl.
  set (k := sessionBindingKey _ _ _) in *. set (p2 := startSessionUnbindTimer k p1) in *.
  match goal with |- context [fireSessionUnbind fk k _ _ ?l] =>
    destruct (fire_pool l fk p2 k (sb_ptr b) (sb_instanceID b) (c + 1) (pl_next p) ins)
      as (p3 & E & Hins3 & Hses3)
  end.
  - simpl. by rewrite lookup_insert_eq.
  - done.
  - by rewrite Hses, lookup_insert_eq.
  - rewrite Hins, Eb. done.
  - lia.
  - rewrite E. simpl. split; [done|]. exists p3. rewrite lookup_insert_eq.
    split; [done|]. rewrite Hins3, Hins, Hses3, Hses, delete_insert_eq.
    split; [by rewrite Eb|done].
Qed.

Lemma alter_back id c (m : gmap string LiteInstance) :
  alter (add_InUse (- c)) id (alter (add_InUse c) id m) = m.
Proof.
  apply map_eq. intros i. destruct (decide (i = id)) as [->|]; [|by rewrite !lookup_alter_ne].
  rewrite !lookup_alter_eq. destruct (m !! id); simpl; [|done].
  by rewrite add_InUse_add, Z.add_opp_diag_r, add_InUse_0.
Qed.

(** C28: acquire, release and unbind cancel out.  In a reachable state, assign
    any instance to a session that is not bound yet; release the allocation
    that the response names and let the unbind timer that starts fire: the
    pool's instances (their units in use included) and bindings are those from
    before, and the allocation is gone. *)
Theorem acquire_release_roundtrip tr env now slotID req p :
  clean_run tr ->
  let ls := sy_ls (reached tr) in
  let fk := rq_FuncKey req in
  let key := sessionBindingKey p (rq_SessionID req) (rq_SessionCtxID req) in
  ls_pools ls !! fk = Some p -> rq_SessionID req <> "" -> no_nul (rq_SessionID req) ->
  1 <= rq_Concurrency req -> pl_sessions p !! key = None -> is_Some (pl_instances p !! slotID) ->
  let '(resp, ls1) := assignInstance env now (with_bindingKey key req) slotID false p ls in
  let ls3 := release_and_fire env fk key (rp_ThreadID resp) (pl_next p) (S (pl_next p)) ls1 in
  ls_allocations ls3 = delete (rp_ThreadID resp) (ls_allocations ls) /\
  exists p3, ls_pools ls3 !! fk = Some p3 /\
    pl_instances p3 = pl_instances p /\ pl_sessions p3 = pl_sessions p.
Proof.
  intros Hc ls fk key Hlk Hs Hn Hcon Hunb [ins Hi]. pose proof (reached_pool tr fk p Hc Hlk) as Hp.
  pose proof (pi_acc _ _ Hp _ _ Hi) as Hacc. pose proof (held_on_nonneg _ _ slotID Hp).
  pose proof (sessionless_nonneg fk (ls_allocations (sy_ls (reached tr))) slotID).
  assert (key <> "") as Hk by (by apply good_key_nonempty, good_key_session).
  set (req' := with_bindingKey key req). unfold assignInstance.
  set (p1 := set_seq (wrap64 (pl_seqCounter p + 1)) p). set (aid := genAllocationID _ _ _).
  destruct (fresh_binding_pool env req' slotID p1 Hs Hk) as (Ei & Es & Ef & En).
  set (p2 := applySlotBinding env req' slotID false p1) in *. simpl in Ei, Es, Ef, En.
  rewrite Ei, lookup_alter_eq, Hi. cbn [fmap option_fmap option_map liteSuccessResp rp_ThreadID].
  set (a := mkAlloc aid _ _ _ _ _ _ _ _). match goal with |- context [release_and_fire _ _ _ _ _ _ ?l] =>
    pose proof (release_and_fire_pool env fk key aid a p2
      (mkBinding (pl_next p) slotID (rq_Concurrency req - 1) 1 None false) (rq_Concurrency req - 1)
      (add_InUse (rq_Concurrency req) ins) l) as Hrf
  end.
  destruct Hrf as (Hal & p3 & Hp3 & Hi3 & Hs3); try done.
  - simpl. by rewrite lookup_insert_eq.
  - simpl. by rewrite lookup_insert_eq.
  - unfold key, sessionBindingKey. by rewrite Ef.
  - by rewrite Es, lookup_insert_eq.
  - rewrite Ei. simpl. by rewrite lookup_alter_eq, Hi.
  - simpl. lia.
  - rewrite En in Hal, Hp3. cbn [sb_ptr] in Hal, Hp3. split; [rewrite Hal; apply delete_insert_eq|].
    exists p3. split; [done|]. rewrite Hi3, Ei, Hs3, Es. simpl.
    rewrite delete_insert_id by done. split; [|done].
    replace (rq_Concurrency req - 1 + 1) with (rq_Concurrency req) by lia. apply alter_back.
Qed.

Lemma acquire_release_roundtrip_witness :
  exists p, ls_pools (sy_ls (reached demo_run)) !! "t/f/v" = Some p /\
    let '(resp, ls1) := assignInstance demo_env 0 (with_bindingKey "s2" (demo_acquire "s2" "" 2)) "i1" false p
                          (sy_ls (reached demo_run)) in
    exists p3, ls_pools (release_and_fire demo_env "t/f/v" "s2" (rp_ThreadID resp) (pl_next p)
                           (S (pl_next p)) ls1) !! "t/f/v" = Some p3 /\
      pl_instances p3 = pl_instances p /\ pl_sessions p3 = pl_sessions p.
Proof.
  destruct (ls_pools (sy_ls (reached demo_run)) !! "t/f/v") as [p|] eqn:Hp.
  2: { vm_compute in Hp. discriminate. }
  exists p. split; [done|].
  assert (sessionBindingKey p "s2" "" = "s2" /\ pl_sessions p !! "s2" = None /\
          is_Some (pl_instances p !! "i1")) as (Hk & Hu & Hi).
  { vm_compute in Hp. injection Hp as <-. split; [reflexivity|]. split; [reflexivity|].
    eexists. vm_compute. reflexivity. }
  pose proof (acquire_release_roundtrip demo_run demo_env 0 "i1" (demo_acquire "s2" "" 2) p
                demo_run_clean Hp) as H.
  simpl sessionBindingKey in H. cbn [rq_SessionID rq_SessionCtxID demo_acquire] in H. rewrite Hk in H.
  specialize (H ltac:(done) ltac:(done) ltac:(done) Hu Hi).
  destruct (assignInstance _ _ _ _ _ _ _) as [resp ls1]. by destruct H as [_ H].
Defined.

(** ** Runs in which the code does not do what it means to *)

Definition demo_ev (e : event) : LiteEnv * event := (demo_env, e).



(** A scheduler that has restarted: a client's retain brings back the first
    lease of a session, the session acquires again, and a release follows. *)
Definition collision_run : list (LiteEnv * event) :=
  (demo_setup ++ (demo_ev <$>
  [EvRequest 1 0 (demo_op "retain" (genAllocationID "s1" "i1" 1) "plain");
   EvRequest 2 0 (demo_acquire "s1" "" 2); EvAcquire 2 demo_in;
   EvRequest 3 0 (release_request (genAllocationID "s1" "i1" 1))]))%list.

(** The sequence numbers of a pool start over after a restart, and those
    of reacquired leases are not skipped.  A new lease can get the id of a
    reacquired one and replaces it in the table, so that only one of the two
    can be released: here no allocation is left, and the session still counts
    an active one, which keeps its timer from ever starting. *)
Theorem reacquire_id_collision :
  clean_run collision_run /\
  ls_allocations (sy_ls (reached collision_run)) = ∅ /\
  exists p b, ls_pools (sy_ls (reached collision_run)) !! "t/f/v" = Some p /\
    pl_sessions p !! "s1" = Some b /\ sb_activeAllocs b = 1 /\ sb_timer b = None /\ held b = 2.
Proof.
  split; [repeat constructor; (apply demo_env_clean || done)|].
  split; [vm_compute; reflexivity|]. eexists _, _.
  split; [vm_compute; reflexivity|]. split; [vm_compute; reflexivity|].
  split; [vm_compute; reflexivity|]. split; vm_compute; reflexivity.
Qed.

(** A session with a lease; the function's specification then turns session
    contexts on, and the lease is released. *)
Definition toggle_run : list (LiteEnv * event) :=
  (demo_setup ++ (demo_ev <$>
  [EvRequest 1 0 (demo_acquire "s1" "" 2); EvAcquire 1 demo_in; EvAcquire 1 demo_in;
   EvFuncSpec SubEventTypeUpdate (demo_spec true);
   EvRequest 2 0 (release_request (genAllocationID "s1" "i1" 1))]))%list.

(** A release computes the binding key anew, from the specification of the
    moment.  When an update has switched session contexts in between, it finds
    no binding: here no allocation is left, and the session keeps its units
    with an active one that nobody can release. *)
Theorem spec_toggle_leak :
  clean_run toggle_run /\
  ls_allocations (sy_ls (reached toggle_run)) = ∅ /\
  exists p b, ls_pools (sy_ls (reached toggle_run)) !! "t/f/v" = Some p /\
    pl_sessions p !! "s1" = Some b /\ sb_activeAllocs b = 1 /\ sb_timer b = None /\ held b = 2.
Proof.
  split; [repeat constructor; (apply demo_env_clean || done)|].
  split; [vm_compute; reflexivity|]. eexists _, _.
  split; [vm_compute; reflexivity|]. split; [vm_compute; reflexivity|].
  split; [vm_compute; reflexivity|]. split; vm_compute; reflexivity.
Qed.


(** The lease of [demo_run] runs out; it is retained while the wheel's batch
    waits for the expiry loop. *)
Definition stale_run : list (LiteEnv * event) :=
  (demo_run ++ (demo_ev <$> (repeat EvTick 201 ++ [EvSend])))%list.

(** The expiry loop does not look at a lease's expiry time.  A retain that
    is answered with success while the batch with the lease waits in the
    wheel's channel does not save it: the next turn of the loop reaps it. *)
Theorem retained_lease_reaped :
  let aid := genAllocationID "s1" "i1" 1 in
  let ls := sy_ls (reached stale_run) in
  let now := 1000 * Millisecond in
  exists resp ls1 a,
    Process demo_env now (demo_op "retain" aid "") ls = (PRResponse resp, ls1) /\
    rp_ErrorCode resp = InsReqSuccessCode /\
    ls_allocations ls1 !! aid = Some a /\ al_ExpireAt a = now + liteTTL demo_cfg /\
    ls_allocations (expiryTurn ls1) !! aid = None.
Proof.
  intros aid ls now. eexists _, _, _.
  split; [vm_compute; reflexivity|]. split; [vm_compute; reflexivity|].
  split; [vm_compute; reflexivity|]. split; vm_compute; reflexivity.
Qed.

(** Leases of functions with session contexts cannot be reacquired.  Their
    ids carry the hash of the joined key of session and context, and the
    check of a reacquire hashes the session id alone: a retain that would
    bring such a lease back after a restart is refused as an illegal id,
    unless the two hashes collide. *)
Theorem reacquire_ctx_rejected env now sid ctx ttl c id seq p metrics (ls : Sched) :
  free_of ":"%char id -> 0 <= seq < 2 ^ 63 -> String.length (tm_ReacquireData metrics) <> 0%nat ->
  extractSessionDetails (ev_json_bytes_map env) (ev_json_session env) (tm_ReacquireData metrics)
    = (sid, ctx, ttl, c) ->
  sid <> "" -> 0 <= ttl ->
  sessionHash sid <> sessionHash (sessionBindingKey p sid ctx) ->
  reacquireAllocation env now (genAllocationID (sessionBindingKey p sid ctx) id seq) (Some metrics) ls
  = (liteErrResp LeaseIDIllegalCode LeaseIDIllegalMsg, ls).
Proof.
  intros Hid Hseq Hdata Hext Hsid Httl Hhash. unfold reacquireAllocation, validateReacquireRequest.
  rewrite parse_gen by done. apply Nat.eqb_neq in Hdata. rewrite Hdata, Hext.
  unfold validateSessionAndOwner, allocationSessionID. apply String.eqb_neq in Hsid. rewrite Hsid. simpl.
  destruct (Z.ltb_spec ttl 0); [lia|]. apply String.eqb_neq in Hhash. by rewrite Hhash.
Qed.

Lemma reacquire_ctx_rejected_witness :
  let ls := sy_ls (reached (demo_ev <$>
              [EvFuncSpec SubEventTypeUpdate (demo_spec true);
               EvInstance SubEventTypeUpdate "t/f/v" (demo_instance "i1" (Some "c1"))])) in
  exists p, ls_pools ls !! "t/f/v" = Some p /\ is_Some (pl_instances p !! "i1") /\
    fst (reacquireAllocation demo_env 0 (genAllocationID (sessionBindingKey p "s1" "c1") "i1" 1)
           (Some (mkMetrics "extra" "t/f/v")) ls)
    = liteErrResp LeaseIDIllegalCode LeaseIDIllegalMsg.
Proof.
  intros ls. destruct (ls_pools ls !! "t/f/v") as [p|] eqn:Hp.
  2: { vm_compute in Hp. discriminate. }
  assert (sessionHash "s1" <> sessionHash (sessionBindingKey p "s1" "c1") /\
          is_Some (pl_instances p !! "i1")) as [Hh Hi].
  { vm_compute in Hp. injection Hp as <-. split; [vm_compute; discriminate|].
    eexists. vm_compute. reflexivity. }
  exists p. split; [done|]. split; [exact Hi|].
  rewrite (reacquire_ctx_rejected demo_env 0 "s1" "c1" 60 2 "i1" 1 p (mkMetrics "extra" "t/f/v") ls);
    try done; lia.
Defined.
