(* ===== verification/LoadBalance.v ===== *)
(** * Load balancing (common/faas_common/loadbalance)

    The hash ring with virtual nodes [SimpleCHGeneric], which decides the
    scheduler that owns a session or a function; the older ring [CHGeneric]
    with its anchors and the limiter on top of it; the lock-free
    [ConsistentHash] with its hash cache; and the smooth weighted round robin
    [WNGINX].  Nodes are strings, as at every caller; the branches that report
    another dynamic type are left out.  [Done], [Start], [Stop] and the like
    have empty bodies. *)
From S2P Require Import Prelude GoStrings.
From Stdlib Require Import Ascii Sorted Permutation.
From stdpp Require Import sorting.
#[local] Open Scope string_scope.
#[local] Open Scope Z_scope.

(** ** sort.Search and the order of strings *)

(** The binary search of package [sort]: [i] and [j] are the loop's variables. *)
Fixpoint search_loop (fuel : nat) (f : nat -> bool) (i j : nat) : nat :=
  match fuel with
  | O => i
  | S fuel =>
      if (i <? j)%nat then
        let h := ((i + j) / 2)%nat in
        if negb (f h) then search_loop fuel f (S h) j else search_loop fuel f i h
      else i
  end.
Definition Search (n : nat) (f : nat -> bool) : nat := search_loop n f 0 n.

(** [a < b] on Go strings: bytewise, a proper prefix is smaller. *)
Fixpoint string_lt (a b : string) : bool :=
  match a, b with
  | EmptyString, EmptyString => false
  | EmptyString, String _ _ => true
  | String _ _, EmptyString => false
  | String x a, String y b =>
      if (nat_of_ascii x <? nat_of_ascii y)%nat then true
      else if (nat_of_ascii y <? nat_of_ascii x)%nat then false
      else string_lt a b
  end.

Definition getHashKeyCRC32 (key : string) : Z := ChecksumIEEE (bytes_of key).

(** ** SimpleCHGeneric *)

Definition virtualNodeCount : Z := 256.
Definition virtualNodeHashBytes : nat := 4.

Record virtualNode := mkVN { vn_hash : Z; vn_owner : string; vn_index : Z }.

Record SimpleCHGeneric := mkSimpleCH {
  sc_nodes : list virtualNode;
  sc_owners : gset string
}.

Definition NewSimpleCHGeneric : SimpleCHGeneric := mkSimpleCH [] ∅.

Definition virtual_node (name : string) (i : Z) : virtualNode :=
  let sum := SHA256.Sum256 (bytes_of (name ++ "#" ++ Itoa i)) in
  mkVN (SHA256.word (take virtualNodeHashBytes sum)) name i.

Definition buildVirtualNodes (name : string) : list virtualNode :=
  virtual_node name <$> seqZ 0 virtualNodeCount.

Definition vn_less (a b : virtualNode) : bool :=
  if negb (vn_hash a =? vn_hash b) then vn_hash a <? vn_hash b
  else if negb (String.eqb (vn_owner a) (vn_owner b)) then string_lt (vn_owner a) (vn_owner b)
  else vn_index a <? vn_index b.

(** [sort.Slice] leaves no pair out of order; the order being total, there is
    one such list ([sorted_nodes_unique]), whatever the algorithm. *)
Definition vn_le (a b : virtualNode) : Prop := vn_less b a = false.
#[global] Instance vn_le_dec a b : Decision (vn_le a b).
Proof. unfold vn_le. apply _. Defined.

Definition sortVirtualNodes (nodes : list virtualNode) : list virtualNode := merge_sort vn_le nodes.

Definition SimpleCH_Next (c : SimpleCHGeneric) (name : string) : string :=
  let hashKey := getHashKeyCRC32 name in
  if (length (sc_nodes c) =? 0)%nat then "" else
  let i := Search (length (sc_nodes c))
             (fun i => match sc_nodes c !! i with Some n => hashKey <? vn_hash n | None => false end) in
  let i := if (i =? length (sc_nodes c))%nat then 0%nat else i in
  match sc_nodes c !! i with Some n => vn_owner n | None => "" end.

Definition SimpleCH_Add (c : SimpleCHGeneric) (name : string) : SimpleCHGeneric :=
  if decide (name ∈ sc_owners c) then c
  else mkSimpleCH (sortVirtualNodes (sc_nodes c ++ buildVirtualNodes name)%list) ({[name]} ∪ sc_owners c).

Definition SimpleCH_Remove (c : SimpleCHGeneric) (name : string) : SimpleCHGeneric :=
  if decide (name ∈ sc_owners c) then
    mkSimpleCH (filter (fun n => vn_owner n <> name) (sc_nodes c)) (sc_owners c ∖ {[name]})
  else c.

Definition SimpleCH_RemoveAll (c : SimpleCHGeneric) : SimpleCHGeneric := NewSimpleCHGeneric.

Inductive ring_op := RingAdd (name : string) | RingRemove (name : string) | RingRemoveAll.
Definition ring_step (c : SimpleCHGeneric) (op : ring_op) : SimpleCHGeneric :=
  match op with
  | RingAdd name => SimpleCH_Add c name
  | RingRemove name => SimpleCH_Remove c name
  | RingRemoveAll => SimpleCH_RemoveAll c
  end.
Definition ring_run (ops : list ring_op) : SimpleCHGeneric := fold_left ring_step ops NewSimpleCHGeneric.

(** ** CHGeneric *)

Record anchorInfo := mkAnchor { an_instanceHash : Z; an_instanceKey : string }.

Record CHGeneric := mkCH {
  ch_anchorPoint : gmap string anchorInfo;
  ch_instanceMap : gmap Z string;
  ch_hashPool : list Z
}.

Definition NewCHGeneric : CHGeneric := mkCH ∅ ∅ [].

Definition set_anchors (m : gmap string anchorInfo) (c : CHGeneric) : CHGeneric :=
  mkCH m (ch_instanceMap c) (ch_hashPool c).

Definition getNextHashKey (c : CHGeneric) (hashKey : Z) : Z :=
  match ch_hashPool c with
  | [] => 0
  | first :: _ =>
      match list_find (fun v => hashKey < v) (ch_hashPool c) with Some (_, v) => v | None => first end
  end.

Definition getPreviousHashKey (c : CHGeneric) (hashKey : Z) : Z :=
  match reverse (ch_hashPool c) with
  | [] => 0
  | last :: _ =>
      match list_find (fun v => v < hashKey) (reverse (ch_hashPool c)) with
      | Some (_, v) => v
      | None => last
      end
  end.

(** The anchor for a hash; a missing entry of the map is the empty string. *)
Definition anchor_at (c : CHGeneric) (instanceHash : Z) : anchorInfo :=
  mkAnchor instanceHash (default "" (ch_instanceMap c !! instanceHash)).

Definition addAnchorPoint (c : CHGeneric) (name : string) : anchorInfo * CHGeneric :=
  let newAnchor := anchor_at c (getNextHashKey c (getHashKeyCRC32 name)) in
  (newAnchor, set_anchors (<[name:=newAnchor]> (ch_anchorPoint c)) c).

(** The anchor is updated in place: the caller's pointer sees the change. *)
Definition moveAnchorPoint (c : CHGeneric) (name : string) (curHash : Z) : anchorInfo * CHGeneric :=
  let anchor := anchor_at c (getNextHashKey c curHash) in
  (anchor, set_anchors (<[name:=anchor]> (ch_anchorPoint c)) c).

Definition CH_Next (c : CHGeneric) (name : string) (move : bool) : string * CHGeneric :=
  match ch_anchorPoint c !! name with
  | None => let '(anchor, c) := addAnchorPoint c name in (an_instanceKey anchor, c)
  | Some anchor =>
      let '(anchor, c) := if move then moveAnchorPoint c name (an_instanceHash anchor) else (anchor, c) in
      let '(anchor, c) :=
        match ch_instanceMap c !! an_instanceHash anchor with
        | Some _ => (anchor, c)
        | None => moveAnchorPoint c name (an_instanceHash anchor)
        end in
      (an_instanceKey anchor, c)
  end.

Definition CH_Previous (c : CHGeneric) (name : string) (move : bool) : string :=
  let previous := getPreviousHashKey c (getHashKeyCRC32 name) in
  let previous := if move then getPreviousHashKey c previous else previous in
  let previous := match ch_instanceMap c !! previous with
                  | Some _ => previous
                  | None => getPreviousHashKey c previous
                  end in
  default "" (ch_instanceMap c !! previous).

Definition CH_Add (c : CHGeneric) (name : string) : CHGeneric :=
  let hashKey := getHashKeyCRC32 name in
  match ch_instanceMap c !! hashKey with
  | Some _ => c
  | None => mkCH (ch_anchorPoint c) (<[hashKey:=name]> (ch_instanceMap c))
              (merge_sort Z.le (ch_hashPool c ++ [hashKey])%list)
  end.

Fixpoint remove_first (h : Z) (l : list Z) : list Z :=
  match l with
  | [] => []
  | x :: l => if x =? h then l else x :: remove_first h l
  end.

Definition CH_Remove (c : CHGeneric) (name : string) : CHGeneric :=
  let hashKey := getHashKeyCRC32 name in
  mkCH (ch_anchorPoint c) (delete hashKey (ch_instanceMap c)) (remove_first hashKey (ch_hashPool c)).

Definition CH_RemoveAll (c : CHGeneric) : CHGeneric := mkCH (ch_anchorPoint c) ∅ [].
Definition CH_Reset (c : CHGeneric) : CHGeneric := set_anchors ∅ c.
Definition CH_DeleteBalancer (c : CHGeneric) (name : string) : CHGeneric :=
  set_anchors (delete name (ch_anchorPoint c)) c.

(** ** LimiterCHGeneric *)

(** A linked list of the nodes a function was sent to, newest first; the zero
    time is [None].  The list's head is a dummy that matches no node. *)
Record limiterNode := mkLN { ln_instanceKey : string; ln_lastTime : option Z }.

Record LimiterCHGeneric := mkLimiter {
  lc_CHGeneric : CHGeneric;
  lc_limiter : gmap string (list limiterNode);
  lc_nodeCount : Z;
  lc_limiterTime : Z
}.

Definition NewLimiterCHGeneric (limiterTime : Z) : LimiterCHGeneric :=
  mkLimiter NewCHGeneric ∅ 0 limiterTime.

(** The scan of the list: the node is stained, known, or not in the list. *)
Inductive stain := Stained | Known | Unknown.
Fixpoint stain_scan (now limiterTime : Z) (key : string) (l : list limiterNode) : stain :=
  match l with
  | [] => Unknown
  | n :: l =>
      if String.eqb (ln_instanceKey n) key then
        match ln_lastTime n with
        | Some t => if now - t <? limiterTime then Stained else Known
        | None => Known
        end
      else stain_scan now limiterTime key l
  end.

(** The loop labelled [label]: [turns] is what is left of it. *)
Fixpoint limiter_loop (turns : nat) (now : Z) (c : LimiterCHGeneric) (name : string) (moveFlag : bool)
    : option string * LimiterCHGeneric :=
  match turns with
  | O => (None, c)
  | S turns =>
      let '(instanceKey, ring) := CH_Next (lc_CHGeneric c) name moveFlag in
      let c := mkLimiter ring (lc_limiter c) (lc_nodeCount c) (lc_limiterTime c) in
      let l := default [] (lc_limiter c !! name) in
      match stain_scan now (lc_limiterTime c) instanceKey l with
      | Stained => limiter_loop turns now c name true
      | Known => (Some instanceKey, c)
      | Unknown =>
          (Some instanceKey,
           mkLimiter ring (<[name := mkLN instanceKey None :: l]> (lc_limiter c)) (lc_nodeCount c)
             (lc_limiterTime c))
      end
  end.

Definition Limiter_Next (c : LimiterCHGeneric) (now : Z) (name : string) (move : bool)
    : option string * LimiterCHGeneric :=
  let c := match lc_limiter c !! name with
           | Some _ => c
           | None => mkLimiter (lc_CHGeneric c) (<[name:=[]]> (lc_limiter c)) (lc_nodeCount c) (lc_limiterTime c)
           end in
  limiter_loop (Z.to_nat (lc_nodeCount c + 1)) now c name move.

Definition Limiter_Add (c : LimiterCHGeneric) (node : string) : LimiterCHGeneric :=
  mkLimiter (CH_Add (lc_CHGeneric c) node) (lc_limiter c) (lc_nodeCount c + 1) (lc_limiterTime c).
Definition Limiter_Remove (c : LimiterCHGeneric) (node : string) : LimiterCHGeneric :=
  mkLimiter (CH_Remove (lc_CHGeneric c) node) (lc_limiter c) (lc_nodeCount c - 1) (lc_limiterTime c).
Definition Limiter_RemoveAll (c : LimiterCHGeneric) : LimiterCHGeneric :=
  mkLimiter (CH_RemoveAll (lc_CHGeneric c)) (lc_limiter c) 0 (lc_limiterTime c).
Definition Limiter_Reset (c : LimiterCHGeneric) : LimiterCHGeneric :=
  mkLimiter (CH_Reset (lc_CHGeneric c)) ∅ (lc_nodeCount c) (lc_limiterTime c).
Definition Limiter_DeleteBalancer (c : LimiterCHGeneric) (name : string) : LimiterCHGeneric :=
  mkLimiter (CH_DeleteBalancer (lc_CHGeneric c) name) (delete name (lc_limiter c)) (lc_nodeCount c)
    (lc_limiterTime c).

Fixpoint stain_first (now : Z) (node : string) (l : list limiterNode) : list limiterNode :=
  match l with
  | [] => []
  | n :: l => if String.eqb (ln_instanceKey n) node then mkLN (ln_instanceKey n) (Some now) :: l
              else n :: stain_first now node l
  end.
Definition SetStain (c : LimiterCHGeneric) (now : Z) (function node : string) : LimiterCHGeneric :=
  mkLimiter (lc_CHGeneric c) (alter (stain_first now node) function (lc_limiter c)) (lc_nodeCount c)
    (lc_limiterTime c).

(** ** ConsistentHash: no lock, a cache of key hashes *)

Record Node {Obj : Type} := mkNode { nd_Obj : Obj; nd_Key : string; nd_hash : Z }.
Arguments Node : clear implicits.

Record ConsistentHash {Obj : Type} := mkConsistent {
  cc_nodes : list (Node Obj);
  cc_cache : gmap string Z
}.
Arguments ConsistentHash : clear implicits.

Section NoLock.
Context {Obj : Type}.
Implicit Types (c : ConsistentHash Obj).

Inductive nodeError := ErrNodeExists | ErrHashExists.

Definition CreateNoLockLB : ConsistentHash Obj := mkConsistent Obj [] ∅.

Fixpoint node_clash (key : string) (hash : Z) (l : list (Node Obj)) : option nodeError :=
  match l with
  | [] => None
  | n :: l =>
      if String.eqb (nd_Key n) key then Some ErrNodeExists
      else if nd_hash n =? hash then Some ErrHashExists
      else node_clash key hash l
  end.

Definition node_le (a b : Node Obj) : Prop := nd_hash a <= nd_hash b.
#[local] Instance node_le_dec a b : Decision (node_le a b).
Proof. unfold node_le. apply _. Defined.

Definition NoLock_Add c (obj : Obj) (key : string) : option nodeError * ConsistentHash Obj :=
  let hash := getHashKeyCRC32 key in
  match node_clash key hash (cc_nodes c) with
  | Some err => (Some err, c)
  | None =>
      (None, mkConsistent Obj (merge_sort node_le (cc_nodes c ++ [mkNode Obj obj key hash])%list) (cc_cache c))
  end.

Definition getHash c (key : string) : Z * ConsistentHash Obj :=
  match cc_cache c !! key with
  | Some h => (h, c)
  | None => let h := getHashKeyCRC32 key in (h, mkConsistent Obj (cc_nodes c) (<[key:=h]> (cc_cache c)))
  end.

Definition search c (keyHash : Z) : nat :=
  let f x := match cc_nodes c !! x with Some n => keyHash <? nd_hash n | None => false end in
  let index := Search (length (cc_nodes c)) f in
  if (length (cc_nodes c) <=? index)%nat then 0%nat else index.

Definition NoLock_Next c (key : string) : option (Node Obj) * ConsistentHash Obj :=
  if (length (cc_nodes c) =? 0)%nat then (None, c) else
  let '(keyHash, c) := getHash c key in
  (cc_nodes c !! search c keyHash, c).

Fixpoint delete_node (nodeKey : string) (l : list (Node Obj)) : option (Node Obj) * list (Node Obj) :=
  match l with
  | [] => (None, [])
  | n :: l => if String.eqb (nd_Key n) nodeKey then (Some n, l)
              else let '(r, l) := delete_node nodeKey l in (r, n :: l)
  end.
Definition NoLock_Delete c (nodeKey : string) : option (Node Obj) * ConsistentHash Obj :=
  let '(r, l) := delete_node nodeKey (cc_nodes c) in (r, mkConsistent Obj l (cc_cache c)).
End NoLock.

(** ** WNGINX: smooth weighted round robin *)

Record WeightNginx := mkWN { wn_Node : string; wn_Weight : Z; wn_CurrentWeight : Z; wn_EffectiveWeight : Z }.

Notation WNGINX := (list WeightNginx) (only parsing).

Definition WNGINX_Add (w : WNGINX) (node : string) (weight : Z) : WNGINX :=
  (w ++ [mkWN node weight 0 weight])%list.

Fixpoint WNGINX_Remove (w : WNGINX) (node : string) : WNGINX :=
  match w with
  | [] => []
  | n :: w => if String.eqb (wn_Node n) node then w else n :: WNGINX_Remove w node
  end.

Definition WNGINX_RemoveAll (w : WNGINX) : WNGINX := [].

Definition add_current (d : Z) (n : WeightNginx) : WeightNginx :=
  mkWN (wn_Node n) (wn_Weight n) (wn_CurrentWeight n + d) (wn_EffectiveWeight n).

(** The loop over the nodes: [i] counts them, [best] is a pointer to the node
    with that index.  The weights are raised before they are compared. *)
Fixpoint weighted_loop (nodes : list WeightNginx) (i : nat) (best : nat) (bestWeight total : Z)
    : nat * Z * list WeightNginx :=
  match nodes with
  | [] => (best, total, [])
  | w :: rest =>
      let w := add_current (wn_EffectiveWeight w) w in
      let total := total + wn_EffectiveWeight w in
      let '(best, bestWeight) :=
        if (i =? best)%nat then (best, wn_CurrentWeight w)
        else if bestWeight <? wn_CurrentWeight w then (i, wn_CurrentWeight w)
        else (best, bestWeight) in
      let '(best, total, rest) := weighted_loop rest (S i) best bestWeight total in
      (best, total, w :: rest)
  end.

(** The index of the chosen node. *)
Definition nextWeightedNode (nodes : list WeightNginx) : option nat * list WeightNginx :=
  match nodes with
  | [] => (None, [])
  | first :: _ =>
      let '(best, total, nodes) := weighted_loop nodes 0 0 (wn_CurrentWeight first) 0 in
      (Some best, alter (add_current (- total)) best nodes)
  end.

Definition WNGINX_Next (w : WNGINX) : option nat * WNGINX :=
  match w with
  | [] => (None, w)
  | [_] => (Some 0%nat, w)
  | _ => nextWeightedNode w
  end.

Definition WNGINX_Reset (w : WNGINX) : WNGINX :=
  (fun s => mkWN (wn_Node s) (wn_Weight s) 0 (wn_Weight s)) <$> w.

(** ** The interface LoadBalance and its factory *)

(** The result of [Next] is an [interface{}]: [None] is a nil. *)
Class LoadBalance (B : Type) := {
  lb_Next : B -> string -> bool -> option string * B;
  lb_Add : B -> string -> Z -> B;
  lb_Remove : B -> string -> B;
  lb_RemoveAll : B -> B;
  lb_Reset : B -> B;
  lb_DeleteBalancer : B -> string -> B
}.

#[global] Instance SimpleCHGeneric_LB : LoadBalance SimpleCHGeneric := {
  lb_Next c name _ := (Some (SimpleCH_Next c name), c);
  lb_Add c node _ := SimpleCH_Add c node;
  lb_Remove := SimpleCH_Remove;
  lb_RemoveAll := SimpleCH_RemoveAll;
  lb_Reset c := c;
  lb_DeleteBalancer c _ := c
}.

#[global] Instance CHGeneric_LB : LoadBalance CHGeneric := {
  lb_Next c name move := let '(node, c) := CH_Next c name move in (Some node, c);
  lb_Add c node _ := CH_Add c node;
  lb_Remove := CH_Remove;
  lb_RemoveAll := CH_RemoveAll;
  lb_Reset := CH_Reset;
  lb_DeleteBalancer := CH_DeleteBalancer
}.

#[global] Instance WNGINX_LB : LoadBalance (list WeightNginx) := {
  lb_Next w _ _ := let '(i, w') := WNGINX_Next w in (i ≫= (fun i => wn_Node <$> w !! i), w');
  lb_Add := WNGINX_Add;
  lb_Remove := WNGINX_Remove;
  lb_RemoveAll := WNGINX_RemoveAll;
  lb_Reset := WNGINX_Reset;
  lb_DeleteBalancer w _ := w
}.

(** A value of the interface. *)
Inductive AnyLB := LbWNGINX (w : list WeightNginx) | LbCH (c : CHGeneric) | LbSimpleCH (c : SimpleCHGeneric).

Definition LBFactory (t : Z) : AnyLB :=
  if t =? 0 then LbWNGINX []
  else if t =? 2 then LbCH NewCHGeneric
  else if t =? 3 then LbSimpleCH NewSimpleCHGeneric
  else LbCH NewCHGeneric.

(** ** Binary search *)

Lemma search_loop_spec f n :
  (forall a b, (a <= b < n)%nat -> f a = true -> f b = true) ->
  forall fuel i j, (i <= j <= n)%nat -> (j - i <= fuel)%nat ->
  (forall k, (k < i)%nat -> f k = false) -> (forall k, (j <= k < n)%nat -> f k = true) ->
  let r := search_loop fuel f i j in
  (r <= n)%nat /\ (forall k, (k < r)%nat -> f k = false) /\ (forall k, (r <= k < n)%nat -> f k = true).
Proof.
  intros Hmono. induction fuel as [|fuel IH]; intros i j Hij Hf Hlo Hhi; cbn [search_loop].
  - assert (i = j) as -> by lia. auto with lia.
  - destruct (Nat.ltb_spec i j) as [Hlt|Hge].
    2: { assert (i = j) as -> by lia. auto with lia. }
    set (h := ((i + j) / 2)%nat). assert (i <= h < j)%nat as Hh.
    { unfold h. split; [apply Nat.div_le_lower_bound|apply Nat.div_lt_upper_bound]; lia. }
    clearbody h. destruct (f h) eqn:Eh; cbn [negb]; apply IH; try lia.
    + intros k Hk. by apply Hlo.
    + intros k Hk. apply (Hmono h); [lia|done].
    + intros k Hk. destruct (f k) eqn:Ek; [|done]. rewrite <- Eh. symmetry. apply (Hmono k); [lia|done].
    + intros k Hk. apply Hhi. lia.
Qed.

(** On a list that is monotone in [p] the search finds the first hit. *)
Lemma Search_find {A} (l : list A) (p : A -> bool) :
  (forall i j x y, (i <= j)%nat -> l !! i = Some x -> l !! j = Some y -> p x = true -> p y = true) ->
  Search (length l) (fun i => match l !! i with Some x => p x | None => false end)
  = match list_find (fun x => p x = true) l with Some (i, _) => i | None => length l end.
Proof.
  intros Hmono. set (f := fun i => match l !! i with Some x => p x | None => false end).
  destruct (search_loop_spec f (length l)) with (fuel := length l) (i := 0%nat) (j := length l)
    as (Hr & Hlo & Hhi); [|lia..|].
  - intros a b Hab. unfold f. destruct (lookup_lt_is_Some_2 l a) as [x Hx]; [lia|].
    destruct (lookup_lt_is_Some_2 l b) as [y Hy]; [lia|]. rewrite Hx, Hy. apply (Hmono a b); [lia|done..].
  - fold (Search (length l) f) in Hr, Hlo, Hhi. set (r := Search (length l) f) in *.
    destruct (list_find (fun x => p x = true) l) as [[i x]|] eqn:E.
    + apply list_find_Some in E as (Hi & Hp & Hfirst).
      destruct (Nat.lt_trichotomy r i) as [Hlt|[?|Hgt]]; [|done|].
      * destruct (lookup_lt_is_Some_2 l r) as [y Hy]; [apply lookup_lt_Some in Hi; lia|].
        exfalso. apply (Hfirst r y Hy Hlt). specialize (Hhi r). unfold f in Hhi. rewrite Hy in Hhi.
        apply Hhi. apply lookup_lt_Some in Hi. lia.
      * specialize (Hlo i Hgt). unfold f in Hlo. rewrite Hi, Hp in Hlo. done.
    + apply list_find_None in E. rewrite Forall_lookup in E.
      destruct (Nat.lt_ge_cases r (length l)) as [Hlt|]; [|lia].
      destruct (lookup_lt_is_Some_2 l r Hlt) as [y Hy]. exfalso. apply (E r y Hy).
      specialize (Hhi r). unfold f in Hhi. rewrite Hy in Hhi. apply Hhi. lia.
Qed.

(** ** The order of the virtual nodes *)

Lemma string_lt_irrefl a : string_lt a a = false.
Proof. induction a as [|x a IH]; simpl; [done|]. by rewrite Nat.ltb_irrefl. Qed.

Lemma string_lt_trans a b c : string_lt a b = true -> string_lt b c = true -> string_lt a c = true.
Proof.
  revert b c. induction a as [|x a IH]; intros [|y b] [|z c]; simpl; try done.
  destruct (Nat.ltb_spec (nat_of_ascii x) (nat_of_ascii y)), (Nat.ltb_spec (nat_of_ascii y) (nat_of_ascii x)),
    (Nat.ltb_spec (nat_of_ascii y) (nat_of_ascii z)), (Nat.ltb_spec (nat_of_ascii z) (nat_of_ascii y)),
    (Nat.ltb_spec (nat_of_ascii x) (nat_of_ascii z)), (Nat.ltb_spec (nat_of_ascii z) (nat_of_ascii x));
    try done; try lia. apply IH.
Qed.

Lemma string_lt_total a b : string_lt a b = false -> string_lt b a = false -> a = b.
Proof.
  revert b. induction a as [|x a IH]; intros [|y b]; simpl; try done.
  destruct (Nat.ltb_spec (nat_of_ascii x) (nat_of_ascii y)), (Nat.ltb_spec (nat_of_ascii y) (nat_of_ascii x));
    try done. intros H1 H2. f_equal; [|by apply IH].
  rewrite <- (ascii_nat_embedding x), <- (ascii_nat_embedding y). f_equal. lia.
Qed.

Lemma vn_less_cases a b :
  vn_less a b = true <->
  vn_hash a < vn_hash b \/
  (vn_hash a = vn_hash b /\ string_lt (vn_owner a) (vn_owner b) = true) \/
  (vn_hash a = vn_hash b /\ vn_owner a = vn_owner b /\ vn_index a < vn_index b).
Proof.
  unfold vn_less. destruct (Z.eqb_spec (vn_hash a) (vn_hash b)) as [Eh|Eh]; simpl.
  - destruct (String.eqb_spec (vn_owner a) (vn_owner b)) as [Eo|Eo]; simpl.
    + rewrite Eo, string_lt_irrefl. split; [intros ?; zbool; auto|].
      intros [?|[[_ ?]|(_ & _ & ?)]]; [lia|done|]. by apply Z.ltb_lt.
    + split; [auto|]. intros [?|[[_ ?]|[_ [? _]]]]; [lia|done|done].
  - split; [intros ?; zbool; auto|]. intros [?|[[? _]|[? _]]]; [|lia..]. by apply Z.ltb_lt.
Qed.

Lemma vn_less_trans a b c : vn_less a b = true -> vn_less b c = true -> vn_less a c = true.
Proof.
  rewrite !vn_less_cases. intros [?|[[? ?]|(? & E & ?)]] [?|[[? ?]|(? & E' & ?)]]; try (left; lia).
  - right; left. split; [lia|]. by eapply string_lt_trans.
  - right; left. split; [lia|]. by rewrite <- E'.
  - right; left. split; [lia|]. by rewrite E.
  - right; right. split; [lia|]. split; [congruence|lia].
Qed.

Lemma vn_less_total a b : vn_less a b = false -> vn_less b a = false -> a = b.
Proof.
  intros H1 H2. assert (~ vn_less a b = true) as N1 by congruence.
  assert (~ vn_less b a = true) as N2 by congruence. rewrite vn_less_cases in N1, N2.
  assert (vn_hash a = vn_hash b) as Eh by lia.
  assert (vn_owner a = vn_owner b) as Eo.
  { apply string_lt_total; [destruct (string_lt (vn_owner a) _) eqn:E|destruct (string_lt (vn_owner b) _) eqn:E];
      try done; exfalso; [apply N1|apply N2]; right; left; split; congruence. }
  assert (vn_index a = vn_index b) as Ei.
  { destruct (Z.lt_trichotomy (vn_index a) (vn_index b)) as [?|[?|?]]; [|done|]; exfalso;
      [apply N1|apply N2]; right; right; split_and!; congruence || lia. }
  destruct a, b; simpl in *; congruence.
Qed.

#[global] Instance vn_le_total : Total vn_le.
Proof.
  intros a b. unfold vn_le. destruct (vn_less b a) eqn:E1; [|by left]. right.
  destruct (vn_less a b) eqn:E2; [|done]. pose proof (vn_less_trans _ _ _ E1 E2) as E.
  apply vn_less_cases in E. rewrite string_lt_irrefl in E. lia || naive_solver lia.
Qed.

#[global] Instance vn_le_trans : Transitive vn_le.
Proof.
  intros a b c Hab Hbc. unfold vn_le in *. destruct (vn_less c a) eqn:E; [|done].
  destruct (vn_less a b) eqn:E2.
  - by rewrite (vn_less_trans _ _ _ E E2) in Hbc.
  - by rewrite (vn_less_total _ _ E2 Hab), Hbc in E.
Qed.

#[global] Instance vn_le_antisymm : AntiSymm (=) vn_le.
Proof. intros a b Hab Hba. by apply vn_less_total. Qed.

Lemma vn_le_hash a b : vn_le a b -> vn_hash a <= vn_hash b.
Proof.
  intros Hle. destruct (Z.le_gt_cases (vn_hash a) (vn_hash b)); [done|].
  unfold vn_le in Hle. assert (vn_less b a = true) by (apply vn_less_cases; lia). congruence.
Qed.

Lemma sorted_nodes_unique l1 l2 :
  Sorted vn_le l1 -> Sorted vn_le l2 -> l1 ≡ₚ l2 -> l1 = l2.
Proof. apply (Sorted_unique vn_le). Qed.

(** ** The ring of virtual nodes *)

(** The owner of a point: the first node behind it, cyclically. *)
Definition ring_owner (nodes : list virtualNode) (key : Z) : string :=
  match list_find (fun n => (key <? vn_hash n) = true) nodes with
  | Some (_, n) => vn_owner n
  | None => from_option vn_owner "" (head nodes)
  end.

Lemma StronglySorted_lookup {A} (R : relation A) `{!Reflexive R} l i j x y :
  StronglySorted R l -> (i <= j)%nat -> l !! i = Some x -> l !! j = Some y -> R x y.
Proof.
  intros Hs. revert i j. induction Hs as [|z l Hs IH HF]; intros i j Hij Hi Hj; [done|].
  destruct i as [|i], j as [|j]; simpl in *; simplify_eq; [done| |lia|].
  - rewrite Forall_lookup in HF. eauto.
  - eapply (IH i j); [lia|done..].
Qed.

#[local] Instance vn_le_refl : Reflexive vn_le.
Proof. intros a. by destruct (vn_le_total a a). Qed.

Lemma SimpleCH_Next_owner c name :
  Sorted vn_le (sc_nodes c) -> SimpleCH_Next c name = ring_owner (sc_nodes c) (getHashKeyCRC32 name).
Proof.
  intros Hs%(Sorted_StronglySorted vn_le). unfold SimpleCH_Next, ring_owner.
  destruct (sc_nodes c) as [|n0 nodes] eqn:En; [done|]. rewrite <- En in *. clear En.
  destruct (Nat.eqb_spec (length (sc_nodes c)) 0) as [E|_].
  { apply nil_length_inv in E. by rewrite E. }
  rewrite (Search_find (sc_nodes c) (fun n => getHashKeyCRC32 name <? vn_hash n)).
  - destruct (list_find _ (sc_nodes c)) as [[i n]|] eqn:E.
    + apply list_find_Some in E as (Hi & _). pose proof (lookup_lt_Some _ _ _ Hi).
      destruct (Nat.eqb_spec i (length (sc_nodes c))); [lia|]. by rewrite Hi.
    + rewrite Nat.eqb_refl. by destruct (sc_nodes c).
  - intros i j x y Hij Hi Hj Hx. zbool. apply Z.ltb_lt.
    pose proof (vn_le_hash x y (StronglySorted_lookup vn_le _ _ _ _ _ Hs Hij Hi Hj)). lia.
Qed.

Record ring_wf (c : SimpleCHGeneric) : Prop := {
  rw_sorted : Sorted vn_le (sc_nodes c);
  rw_nodes : sc_nodes c ≡ₚ elements (sc_owners c) ≫= buildVirtualNodes
}.

Lemma NewSimpleCH_wf : ring_wf NewSimpleCHGeneric.
Proof. split; simpl; [constructor|by rewrite elements_empty]. Qed.

Lemma SimpleCH_Add_wf c name : ring_wf c -> ring_wf (SimpleCH_Add c name).
Proof.
  intros [Hs Hn]. unfold SimpleCH_Add. case_decide as Hin; [done|]. split; simpl.
  - unfold sortVirtualNodes. apply (Sorted_merge_sort vn_le).
  - unfold sortVirtualNodes. rewrite merge_sort_Permutation, elements_union_singleton by done.
    rewrite Hn. simpl. apply Permutation_app_comm.
Qed.

Lemma StronglySorted_filter {A} (R : relation A) (P : A -> Prop) `{forall x, Decision (P x)} l :
  StronglySorted R l -> StronglySorted R (filter P l).
Proof.
  induction 1 as [|x l Hs IH HF]; [constructor|]. rewrite filter_cons. case_decide; [|done].
  constructor; [done|]. rewrite Forall_forall in *. intros y [_ Hy]%list_elem_of_filter. by apply HF.
Qed.

Lemma sorted_filter (P : virtualNode -> Prop) `{forall x, Decision (P x)} l :
  Sorted vn_le l -> Sorted vn_le (filter P l).
Proof.
  intros Hs. apply StronglySorted_Sorted, StronglySorted_filter, Sorted_StronglySorted; [apply _|done].
Qed.

Lemma build_owner name n : n ∈ buildVirtualNodes name -> vn_owner n = name.
Proof. unfold buildVirtualNodes. rewrite list_elem_of_fmap. by intros (i & -> & _). Qed.

Lemma filter_build (names : list string) name :
  name ∉ names ->
  filter (fun n => vn_owner n <> name) (names ≫= buildVirtualNodes) = names ≫= buildVirtualNodes.
Proof.
  intros Hn. apply list_filter_all. rewrite Forall_forall. intros n.
  rewrite list_elem_of_bind. intros (o & Hb%build_owner & Ho). congruence.
Qed.

Lemma SimpleCH_Remove_wf c name : ring_wf c -> ring_wf (SimpleCH_Remove c name).
Proof.
  intros [Hs Hn]. unfold SimpleCH_Remove. case_decide as Hin; [|done]. split; simpl.
  - by apply sorted_filter.
  - rewrite Hn. assert (sc_owners c = {[name]} ∪ sc_owners c ∖ {[name]}) as E.
    { apply leibniz_equiv. intros x. destruct (decide (x = name)); set_solver. }
    rewrite E at 1. rewrite elements_union_singleton by set_solver. rewrite bind_cons, filter_app.
    rewrite (filter_build (elements _)) by set_solver.
    rewrite list_filter_none; [done|]. rewrite Forall_forall. intros n Hb%build_owner. auto.
Qed.

Lemma ring_run_wf ops : ring_wf (ring_run ops).
Proof.
  unfold ring_run. generalize NewSimpleCH_wf. generalize NewSimpleCHGeneric.
  induction ops as [|op ops IH]; intros c Hc; [done|]. simpl. apply IH. destruct op; simpl.
  - by apply SimpleCH_Add_wf.
  - by apply SimpleCH_Remove_wf.
  - apply NewSimpleCH_wf.
Qed.

Definition op_owners (X : gset string) (op : ring_op) : gset string :=
  match op with RingAdd n => {[n]} ∪ X | RingRemove n => X ∖ {[n]} | RingRemoveAll => ∅ end.

Lemma ring_owners ops : sc_owners (ring_run ops) = fold_left op_owners ops ∅.
Proof.
  unfold ring_run. change (∅ : gset string) with (sc_owners NewSimpleCHGeneric).
  generalize NewSimpleCHGeneric. induction ops as [|op ops IH]; intros c; [done|]. simpl. rewrite IH.
  f_equal. destruct op as [n|n|]; simpl; [| |done].
  - unfold SimpleCH_Add. case_decide; [set_solver|done].
  - unfold SimpleCH_Remove. case_decide; [done|set_solver].
Qed.

Lemma ring_nodes_unique c1 c2 :
  ring_wf c1 -> ring_wf c2 -> sc_owners c1 = sc_owners c2 -> sc_nodes c1 = sc_nodes c2.
Proof. intros [S1 N1] [S2 N2] E. apply sorted_nodes_unique; [done..|]. by rewrite N1, N2, E. Qed.

(** The ring is the same in every process.  Whatever nodes were added and
    removed and in whatever order, two rings with the same nodes agree on the
    owner of every key, hash collisions of virtual nodes included. *)
Theorem ring_deterministic ops1 ops2 name :
  sc_owners (ring_run ops1) = sc_owners (ring_run ops2) ->
  SimpleCH_Next (ring_run ops1) name = SimpleCH_Next (ring_run ops2) name.
Proof.
  intros E. pose proof (ring_run_wf ops1) as W1. pose proof (ring_run_wf ops2) as W2.
  rewrite !SimpleCH_Next_owner by (apply W1 || apply W2). by rewrite (ring_nodes_unique _ _ W1 W2 E).
Qed.

Lemma ring_deterministic_witness :
  SimpleCH_Next (ring_run [RingAdd "a"; RingAdd "b"]) "key"
  = SimpleCH_Next (ring_run [RingAdd "b"; RingAdd "c"; RingAdd "a"; RingRemove "c"]) "key".
Proof. apply ring_deterministic. rewrite !ring_owners. vm_compute. reflexivity. Defined.

(** Taking a node's points out of a sorted ring moves only its own keys. *)
Lemma ring_owner_filter nodes name key :
  ring_owner nodes key <> name ->
  ring_owner (filter (fun n => vn_owner n <> name) nodes) key = ring_owner nodes key.
Proof.
  unfold ring_owner. destruct (list_find _ nodes) as [[i n]|] eqn:E.
  - intros Hne. apply list_find_Some in E as (Hi & Hp & Hfirst).
    assert (exists l1 l2, nodes = (l1 ++ n :: l2)%list /\
              Forall (fun x => ~ (key <? vn_hash x) = true) l1) as (l1 & l2 & -> & HF).
    { exists (take i nodes), (drop (S i) nodes). split; [by rewrite take_drop_middle|].
      rewrite Forall_lookup. intros j x [Hj Hlt]%lookup_take_Some. by apply (Hfirst j). }
    rewrite filter_app, filter_cons_True by done. rewrite list_find_app_r.
    { simpl. by rewrite decide_True. }
    apply list_find_None. rewrite Forall_forall in *. intros x [_ Hx]%list_elem_of_filter. by apply HF.
  - apply list_find_None in E. intros Hne.
    assert (list_find (fun n => (key <? vn_hash n) = true) (filter (fun n => vn_owner n <> name) nodes)
            = None) as ->.
    { apply list_find_None. rewrite Forall_forall in *. intros x [_ Hx]%list_elem_of_filter. by apply E. }
    destruct nodes as [|n nodes]; [done|]. by rewrite filter_cons_True.
Qed.

Lemma SimpleCH_Remove_stable c name key :
  ring_wf c -> SimpleCH_Next c key <> name ->
  SimpleCH_Next (SimpleCH_Remove c name) key = SimpleCH_Next c key.
Proof.
  intros W Hne. pose proof (SimpleCH_Remove_wf c name W) as W'.
  rewrite !SimpleCH_Next_owner in * by (apply W || apply W').
  unfold SimpleCH_Remove. case_decide; [|done]. by apply ring_owner_filter.
Qed.

Lemma SimpleCH_Add_Remove c name :
  ring_wf c -> name ∉ sc_owners c ->
  SimpleCH_Remove (SimpleCH_Add c name) name = c.
Proof.
  intros W Hn. pose proof (SimpleCH_Remove_wf _ name (SimpleCH_Add_wf c name W)) as W'.
  assert (sc_owners (SimpleCH_Remove (SimpleCH_Add c name) name) = sc_owners c) as E.
  { unfold SimpleCH_Remove, SimpleCH_Add. rewrite (decide_False (P := name ∈ sc_owners c)) by done.
    rewrite decide_True by set_solver. simpl. set_solver. }
  pose proof (ring_nodes_unique _ _ W' W E) as E'.
  destruct (SimpleCH_Remove _ _), c. simpl in *. congruence.
Qed.

(** C21: consistent hashing.  A node that leaves moves only the keys it owned;
    a node that joins takes over some keys and leaves every other key where it
    was. *)
Theorem ring_minimal_disruption ops name key :
  let c := ring_run ops in
  (SimpleCH_Next c key <> name ->
   SimpleCH_Next (SimpleCH_Remove c name) key = SimpleCH_Next c key) /\
  (SimpleCH_Next (SimpleCH_Add c name) key = name \/
   SimpleCH_Next (SimpleCH_Add c name) key = SimpleCH_Next c key).
Proof.
  intros c. pose proof (ring_run_wf ops) as W. fold c in W. split; [by apply SimpleCH_Remove_stable|].
  destruct (decide (name ∈ sc_owners c)) as [Hin|Hin].
  { right. unfold SimpleCH_Add. by rewrite decide_True. }
  destruct (decide (SimpleCH_Next (SimpleCH_Add c name) key = name)) as [|Hne]; [by left|right].
  rewrite <- (SimpleCH_Remove_stable _ name key (SimpleCH_Add_wf c name W) Hne).
  by rewrite SimpleCH_Add_Remove.
Qed.

Lemma ring_minimal_disruption_witness :
  SimpleCH_Next (SimpleCH_Add (ring_run [RingAdd "a"]) "b") "key" = "b" \/
  SimpleCH_Next (SimpleCH_Add (ring_run [RingAdd "a"]) "b") "key"
  = SimpleCH_Next (ring_run [RingAdd "a"]) "key".
Proof. apply (ring_minimal_disruption [RingAdd "a"] "b" "key"). Defined.

(** ** CHGeneric keys its nodes by their CRC *)

(** In [CHGeneric] two nodes whose names have the same CRC-32 are one
    entry: the second one is not added, and removing it removes the first.
    Here "plumless" is in the ring, "buckeroo" comes and goes, and no node is
    left. *)
Theorem CH_collision :
  exists a b, a <> b /\
    let c := CH_Remove (CH_Add (CH_Add NewCHGeneric a) b) b in
    ch_hashPool c = [] /\ ch_instanceMap c = ∅ /\ forall key, (CH_Next c key false).1 = "".
Proof.
  exists "plumless", "buckeroo". split; [done|].
  assert (CH_Remove (CH_Add (CH_Add NewCHGeneric "plumless") "buckeroo") "buckeroo" = NewCHGeneric) as ->
    by (vm_compute; reflexivity).
  done.
Qed.

(** ** The limiter *)

Definition stain_list (c : LimiterCHGeneric) (name : string) : list limiterNode :=
  default [] (lc_limiter c !! name).

Lemma limiter_loop_spec turns now name : forall c move key c',
  limiter_loop turns now c name move = (Some key, c') ->
  stain_scan now (lc_limiterTime c) key (stain_list c name) <> Stained /\
  stain_scan now (lc_limiterTime c) key (stain_list c' name) = Known /\
  lc_limiterTime c' = lc_limiterTime c.
Proof.
  induction turns as [|turns IH]; intros c move key c'; [done|]. cbn [limiter_loop].
  destruct (CH_Next (lc_CHGeneric c) name move) as [k ring]. simpl.
  change (default [] (lc_limiter c !! name)) with (stain_list c name).
  destruct (stain_scan now (lc_limiterTime c) k (stain_list c name)) eqn:E.
  - intros H. by destruct (IH _ _ _ _ H) as (? & ? & ?).
  - intros [= <- <-]. by rewrite E.
  - intros [= <- <-]. rewrite E. split_and!; [done| |done]. unfold stain_list. simpl.
    rewrite lookup_insert_eq. simpl. by rewrite String.eqb_refl.
Qed.

Lemma stain_first_scan now t lt key l :
  stain_scan now lt key l <> Unknown -> now - t < lt ->
  stain_scan now lt key (stain_first t key l) = Stained.
Proof.
  intros Hk Hlt. induction l as [|n l IH]; simpl in *; [done|].
  destruct (String.eqb_spec (ln_instanceKey n) key) as [->|Hne]; simpl.
  - rewrite String.eqb_refl. by rewrite (proj2 (Z.ltb_lt _ _) Hlt).
  - apply String.eqb_neq in Hne. rewrite Hne. by apply IH.
Qed.

(** Whether a key is in the list does not depend on the times. *)
Lemma stain_scan_unknown now now' lt lt' key l :
  stain_scan now lt key l = Unknown -> stain_scan now' lt' key l = Unknown.
Proof. induction l as [|n l IH]; simpl; [done|]. repeat case_match; try done. Qed.

(** A stained node is avoided.  After [Next] has given a node to a function
    and the function has stained it, [Next] does not return it to that
    function again before [limiterTime] has passed, however the ring moves. *)
Theorem stained_node_avoided c0 now0 name move0 key c1 t now move :
  Limiter_Next c0 now0 name move0 = (Some key, c1) -> now - t < lc_limiterTime c0 ->
  (Limiter_Next (SetStain c1 t name key) now name move).1 <> Some key.
Proof.
  intros H1 Hlt H2. unfold Limiter_Next in H1.
  match type of H1 with limiter_loop _ _ ?c _ _ = _ =>
    assert (lc_limiterTime c = lc_limiterTime c0) as Et by (by destruct (lc_limiter c0 !! name));
    destruct (limiter_loop_spec _ _ _ c _ _ _ H1) as (_ & Hk & Et1) end.
  rewrite Et in Hk, Et1. set (c2 := SetStain c1 t name key) in *.
  destruct (lc_limiter c1 !! name) as [l|] eqn:El.
  2: { unfold stain_list in Hk. by rewrite El in Hk. }
  assert (lc_limiter c2 !! name = Some (stain_first t key l)) as El2.
  { simpl. by rewrite lookup_alter_eq, El. }
  unfold Limiter_Next in H2. rewrite El2 in H2.
  destruct (limiter_loop _ now c2 name move) as [r c3] eqn:E. simpl in H2. subst r.
  destruct (limiter_loop_spec _ _ _ _ _ _ _ E) as (Hns & _).
  apply Hns. unfold stain_list. rewrite El2. simpl. rewrite Et1. apply stain_first_scan; [|done].
  intros Hu. unfold stain_list in Hk. rewrite El in Hk. simpl in Hk.
  by rewrite (stain_scan_unknown _ now0 _ (lc_limiterTime c0) _ _ Hu) in Hk.
Qed.

Lemma stained_node_avoided_witness :
  let c := Limiter_Add (Limiter_Add (NewLimiterCHGeneric 100) "n1") "n2" in
  exists key, (Limiter_Next c 0 "f" false).1 = Some key /\
    (Limiter_Next (SetStain (Limiter_Next c 0 "f" false).2 10 "f" key) 50 "f" false).1 <> Some key.
Proof.
  intros c. destruct (Limiter_Next c 0 "f" false) as [[key|] c1] eqn:E.
  - exists key. split; [done|]. simpl. apply (stained_node_avoided c 0 "f" false key c1 10 50 false E).
    vm_compute. done.
  - exfalso. vm_compute in E. discriminate.
Defined.

(** ** The lock-free ring *)
Section NoLockSpec.
Context {Obj : Type}.
Implicit Types (c : ConsistentHash Obj).

#[local] Existing Instance node_le_dec.

Inductive nolock_op := NlAdd (obj : Obj) (key : string) | NlNext (key : string) | NlDelete (key : string).
Definition nolock_step c (op : nolock_op) : ConsistentHash Obj :=
  match op with
  | NlAdd obj key => (NoLock_Add c obj key).2
  | NlNext key => (NoLock_Next c key).2
  | NlDelete key => (NoLock_Delete c key).2
  end.
Definition nolock_run (ops : list nolock_op) : ConsistentHash Obj :=
  fold_left nolock_step ops CreateNoLockLB.

Record nolock_wf c : Prop := {
  nl_sorted : Sorted node_le (cc_nodes c);
  nl_cache : forall key h, cc_cache c !! key = Some h -> h = getHashKeyCRC32 key
}.

#[local] Instance node_le_trans : Transitive (@node_le Obj).
Proof. intros a b d. unfold node_le. lia. Qed.
#[local] Instance node_le_total : Total (@node_le Obj).
Proof. intros a b. unfold node_le. lia. Qed.
#[local] Instance node_le_refl : Reflexive (@node_le Obj).
Proof. intros a. unfold node_le. lia. Qed.

Lemma getHash_spec c key :
  nolock_wf c -> (getHash c key).1 = getHashKeyCRC32 key /\ nolock_wf (getHash c key).2 /\
  cc_nodes (getHash c key).2 = cc_nodes c.
Proof.
  intros [Hs Hc]. unfold getHash. destruct (cc_cache c !! key) as [h|] eqn:E; simpl.
  - split_and!; [by apply Hc|done|done].
  - split_and!; [done| |done]. split; [done|]. simpl.
    intros k h [[<- <-]|[_ Hk]]%lookup_insert_Some; [done|by apply Hc].
Qed.

Lemma delete_node_sublist key (l : list (Node Obj)) : sublist (delete_node key l).2 l.
Proof.
  induction l as [|n l IH]; simpl; [done|]. destruct (String.eqb _ key); simpl; [by apply sublist_cons|].
  destruct (delete_node key l) as [r l']. simpl in *. by apply sublist_skip.
Qed.

Lemma StronglySorted_sublist (l1 l2 : list (Node Obj)) :
  sublist l1 l2 -> StronglySorted node_le l2 -> StronglySorted node_le l1.
Proof.
  induction 1 as [|x l1 l2 Hsub IH|x l1 l2 Hsub IH]; intros Hs; [done| |].
  - apply StronglySorted_cons in Hs as [HF Hs]. constructor; [by apply IH|].
    rewrite Forall_forall in *. intros y Hy. apply HF. by eapply elem_of_sublist.
  - apply StronglySorted_cons in Hs as [_ Hs]. by apply IH.
Qed.

Lemma nolock_run_wf ops : nolock_wf (nolock_run ops).
Proof.
  unfold nolock_run. assert (nolock_wf CreateNoLockLB) as W by (split; [constructor|done]).
  revert W. generalize (CreateNoLockLB (Obj := Obj)). induction ops as [|op ops IH]; intros c W; [done|].
  simpl. apply IH. destruct W as [Hs Hc]. destruct op as [obj key|key|key]; simpl.
  - unfold NoLock_Add. destruct (node_clash _ _ _); [done|]. split; [|done].
    apply (Sorted_merge_sort node_le).
  - unfold NoLock_Next. destruct (_ =? _)%nat; [done|].
    destruct (getHash_spec c key) as (_ & W & _); [done|]. by destruct (getHash c key).
  - unfold NoLock_Delete. pose proof (delete_node_sublist key (cc_nodes c)) as Hsub.
    destruct (delete_node key (cc_nodes c)) as [r l]. split; [|done]. simpl.
    apply StronglySorted_Sorted. eapply StronglySorted_sublist; [done|]. by apply (Sorted_StronglySorted _).
Qed.

(** The reference: the first node behind the key's hash, cyclically. *)
Definition node_owner (nodes : list (Node Obj)) (key : string) : option (Node Obj) :=
  match list_find (fun n => (getHashKeyCRC32 key <? nd_hash n) = true) nodes with
  | Some (_, n) => Some n
  | None => head nodes
  end.

(** The cache of hashes and the binary search of the lock-free ring are
    transparent: after any operations, [Next] gives the node that a plain scan
    of the ring for the hash of the key gives. *)
Theorem NoLock_Next_reference ops key :
  (NoLock_Next (nolock_run ops) key).1 = node_owner (cc_nodes (nolock_run ops)) key.
Proof.
  pose proof (nolock_run_wf ops) as W. generalize dependent (nolock_run ops). intros c W.
  unfold NoLock_Next, node_owner. destruct (Nat.eqb_spec (length (cc_nodes c)) 0) as [E|Hne].
  { apply nil_length_inv in E. by rewrite E. }
  destruct (getHash_spec c key W) as (Eh & _ & En). destruct (getHash c key) as [h c']. simpl in *.
  subst h. unfold search. rewrite En.
  rewrite (Search_find (cc_nodes c) (fun n => getHashKeyCRC32 key <? nd_hash n)).
  - destruct (list_find _ (cc_nodes c)) as [[i n]|] eqn:E.
    + apply list_find_Some in E as (Hi & _). pose proof (lookup_lt_Some _ _ _ Hi).
      destruct (Nat.leb_spec (length (cc_nodes c)) i); [lia|done].
    + rewrite Nat.leb_refl. by destruct (cc_nodes c).
  - intros i j x y Hij Hi Hj Hx. zbool. apply Z.ltb_lt.
    pose proof (Sorted_StronglySorted _ _ (nl_sorted c W)) as Hs.
    pose proof (StronglySorted_lookup node_le _ _ _ _ _ Hs Hij Hi Hj) as Hle. unfold node_le in Hle. lia.
Qed.
End NoLockSpec.

(** ** Smooth weighted round robin *)

Fixpoint zsum (l : list Z) : Z := match l with [] => 0 | x :: l => x + zsum l end.

Definition raise (n : WeightNginx) : WeightNginx := add_current (wn_EffectiveWeight n) n.

(** Past the first node the loop keeps the first maximum of the raised weights. *)
Lemma weighted_loop_spec nodes : forall i best bw total b t l,
  (best < i)%nat -> weighted_loop nodes i best bw total = (b, t, l) ->
  l = raise <$> nodes /\ t = total + zsum (wn_EffectiveWeight <$> nodes) /\
  exists top, (forall n, n ∈ l -> wn_CurrentWeight n <= top) /\ bw <= top /\
    ((b = best /\ top = bw) \/
     (i <= b /\ exists n, l !! (b - i) = Some n /\ wn_CurrentWeight n = top)%nat).
Proof.
  induction nodes as [|w rest IH]; intros i best bw total b t l Hlt H; simpl in H.
  - injection H as <- <- <-. split; [done|]. split; [simpl; lia|]. exists bw.
    split; [by intros n Hn%elem_of_nil|]. split; [lia|auto].
  - destruct (Nat.eqb_spec i best) as [->|_]; [lia|]. fold (raise w) in H.
    set (bw' := wn_CurrentWeight (raise w)) in *.
    change (wn_CurrentWeight w + wn_EffectiveWeight w) with bw' in H.
    destruct (Z.ltb_spec bw bw') as [Hb|Hb]; destruct (weighted_loop rest _ _ _ _) as [[b' t'] l'] eqn:E;
      injection H as <- <- <-; apply IH in E as (-> & -> & top & Hall & Hle & Hpick); try lia;
      (split; [done|]); (split; [cbn; lia|]); exists top.
    + split; [|split; [lia|right]].
      * intros n [->|Hn]%elem_of_cons; [done|by apply Hall].
      * destruct Hpick as [[-> ->]|[Hi (n & Hn & Et)]].
        -- split; [lia|]. exists (raise w). by rewrite Nat.sub_diag.
        -- split; [lia|]. exists n. replace (b' - i)%nat with (S (b' - S i)) by lia. done.
    + split; [|split; [done|]].
      * intros n [->|Hn]%elem_of_cons; [fold bw'; lia|by apply Hall].
      * destruct Hpick as [|[Hi (n & Hn & Et)]]; [by left|right]. split; [lia|]. exists n.
        replace (b' - i)%nat with (S (b' - S i)) by lia. done.
Qed.

(** The pick: raise every node, take a maximal one, charge it the total. *)
Lemma nextWeightedNode_spec nodes b l :
  nextWeightedNode nodes = (Some b, l) ->
  exists nb, (raise <$> nodes) !! b = Some nb /\
    (forall n, n ∈ raise <$> nodes -> wn_CurrentWeight n <= wn_CurrentWeight nb) /\
    l = alter (add_current (- zsum (wn_EffectiveWeight <$> nodes))) b (raise <$> nodes).
Proof.
  destruct nodes as [|w rest]; [done|]. cbn [nextWeightedNode weighted_loop]. simpl Nat.eqb. cbv iota beta zeta.
  fold (raise w). set (bw := wn_CurrentWeight (raise w)).
  destruct (weighted_loop rest 1 0 bw _) as [[b' t] l'] eqn:E.
  apply weighted_loop_spec in E as (-> & -> & top & Hall & Hle & Hpick); [|lia]. intros [= <- <-].
  assert (exists nb, (raise <$> w :: rest) !! b' = Some nb /\ wn_CurrentWeight nb = top) as (nb & Hnb & Et).
  { destruct Hpick as [[-> ->]|[Hi (n & Hn & Et)]]; [by exists (raise w)|]. exists n.
    destruct b' as [|b']; [lia|]. simpl in *. by rewrite Nat.sub_0_r in Hn. }
  exists nb. split; [done|]. split; [|done]. rewrite Et.
  intros n [->|Hn]%elem_of_cons; [done|by apply Hall].
Qed.

(** [n] calls of [Next]: the indices chosen, and the balancer afterwards. *)
Fixpoint wrr_picks (n : nat) (w : list WeightNginx) : list nat * list WeightNginx :=
  match n with
  | O => ([], w)
  | S n => match WNGINX_Next w with
           | (Some b, w) => let '(l, w) := wrr_picks n w in (b :: l, w)
           | (None, w) => ([], w)
           end
  end.

Definition weights (w : list WeightNginx) : list Z := wn_Weight <$> w.

(** The state after the picks [ps]: every node has been raised once per pick
    and charged the total for each time it was chosen. *)
Definition wrr_state (w0 : list WeightNginx) (ps : list nat) : list WeightNginx :=
  imap (fun j n => mkWN (wn_Node n) (wn_Weight n)
          (Z.of_nat (length ps) * wn_Weight n
           - zsum (weights w0) * Z.of_nat (count_occ Nat.eq_dec ps j)) (wn_Weight n)) w0.

(** No node is charged below minus the total. *)
Definition wrr_bounded (w0 : list WeightNginx) (ps : list nat) : Prop :=
  forall j n, wrr_state w0 ps !! j = Some n -> - zsum (weights w0) < wn_CurrentWeight n.

Lemma zsum_app l1 l2 : zsum (l1 ++ l2)%list = zsum l1 + zsum l2.
Proof. induction l1 as [|x l1 IH]; simpl; [done|]. rewrite IH. lia. Qed.

Lemma zsum_nonpos l : Forall (fun x => x <= 0) l -> zsum l <= 0.
Proof. induction 1; simpl; lia. Qed.

Lemma zsum_linear {A} (f g h : A -> Z) a b l :
  (forall x, h x = a * f x + b * g x) -> zsum (h <$> l) = a * zsum (f <$> l) + b * zsum (g <$> l).
Proof. intros Hh. induction l as [|x l IH]; [cbn; lia|]. rewrite !fmap_cons. cbn [zsum]. rewrite IH, Hh. lia. Qed.

Lemma zsum_le_eq l1 l2 : Forall2 Z.le l1 l2 -> zsum l1 = zsum l2 -> l1 = l2.
Proof.
  assert (forall l1 l2, Forall2 Z.le l1 l2 -> zsum l1 <= zsum l2) as Hle.
  { induction 1; simpl; lia. }
  induction 1 as [|x y l1 l2 Hxy Hl IH]; simpl; intros E; [done|].
  specialize (Hle _ _ Hl). rewrite IH by lia. f_equal. lia.
Qed.

Definition occ (ps : list nat) (j : nat) : Z := Z.of_nat (count_occ Nat.eq_dec ps j).

Lemma zsum_indicator p n :
  zsum ((fun j => if Nat.eq_dec p j then 1 else 0) <$> seq 0 n) = if (p <? n)%nat then 1 else 0.
Proof.
  induction n as [|n IH]; [done|]. rewrite seq_S, fmap_app, zsum_app, IH, Nat.add_0_l.
  cbn [fmap list_fmap zsum].
  destruct (Nat.eq_dec p n), (Nat.ltb_spec p n), (Nat.ltb_spec p (S n)); lia.
Qed.

Lemma zsum_occ ps n :
  Forall (fun p => (p < n)%nat) ps -> zsum (occ ps <$> seq 0 n) = Z.of_nat (length ps).
Proof.
  induction 1 as [|p ps Hp _ IH].
  - rewrite (zsum_linear (fun _ => 0) (fun _ => 0) _ 0 0); [simpl length; lia|done].
  - rewrite (zsum_linear (fun j => if Nat.eq_dec p j then 1 else 0) (occ ps) _ 1 1).
    + rewrite zsum_indicator, IH. destruct (Nat.ltb_spec p n); [|lia]. simpl length. lia.
    + intros j. unfold occ. simpl. destruct (Nat.eq_dec p j); lia.
Qed.

Lemma zsum_imap (f : nat -> Z) a b (l : list WeightNginx) :
  zsum (imap (fun j n => a * wn_Weight n - b * f j) l)
  = a * zsum (weights l) - b * zsum (f <$> seq 0 (length l)).
Proof.
  revert f. induction l as [|x l IH]; intros f; [cbn; lia|]. rewrite imap_cons. cbn [zsum].
  unfold compose. rewrite (IH (fun j => f (S j))). unfold weights. rewrite fmap_cons. cbn [length seq zsum].
  rewrite <- fmap_S_seq, fmap_cons, <- list_fmap_compose. cbn [zsum]. unfold compose. lia.
Qed.

Section Fairness.
Context (w0 : list WeightNginx).
Hypothesis Hpos : Forall (fun n => 0 <= wn_Weight n) w0.
Hypothesis Htotal : 0 < zsum (weights w0).
Notation T := (zsum (weights w0)).

Lemma wrr_lookup ps j :
  wrr_state w0 ps !! j
  = (fun n => mkWN (wn_Node n) (wn_Weight n) (Z.of_nat (length ps) * wn_Weight n - T * occ ps j)
                (wn_Weight n)) <$> w0 !! j.
Proof. unfold wrr_state. by rewrite list_lookup_imap. Qed.

Lemma wrr_length ps : length (wrr_state w0 ps) = length w0.
Proof. apply length_imap. Qed.

Lemma wrr_effective ps : wn_EffectiveWeight <$> wrr_state w0 ps = weights w0.
Proof.
  apply list_eq. intros j. unfold weights. rewrite !list_lookup_fmap, wrr_lookup.
  by destruct (w0 !! j).
Qed.

(** After raising, the current weights add up to the total. *)
Lemma wrr_raised_sum ps :
  Forall (fun p => (p < length w0)%nat) ps ->
  zsum (wn_CurrentWeight <$> (raise <$> wrr_state w0 ps)) = T.
Proof.
  intros Hps.
  assert (wn_CurrentWeight <$> (raise <$> wrr_state w0 ps)
          = imap (fun j n => (Z.of_nat (length ps) + 1) * wn_Weight n - T * occ ps j) w0) as ->.
  { apply list_eq. intros j. rewrite !list_lookup_fmap, wrr_lookup, list_lookup_imap.
    destruct (w0 !! j); simpl; [|done]. f_equal. lia. }
  rewrite zsum_imap, (zsum_occ _ _ Hps). lia.
Qed.

Lemma wrr_step ps b l :
  Forall (fun p => (p < length w0)%nat) ps -> wrr_bounded w0 ps ->
  nextWeightedNode (wrr_state w0 ps) = (Some b, l) ->
  (b < length w0)%nat /\ l = wrr_state w0 (ps ++ [b])%list /\ wrr_bounded w0 (ps ++ [b])%list.
Proof.
  intros Hps Hbd Hn. apply nextWeightedNode_spec in Hn as (nb & Hnb & Hmax & ->).
  rewrite wrr_effective. pose proof (lookup_lt_Some _ _ _ Hnb) as Hlt.
  rewrite length_fmap, wrr_length in Hlt.
  assert (1 <= wn_CurrentWeight nb) as Hge.
  { destruct (Z.le_gt_cases 1 (wn_CurrentWeight nb)); [done|]. pose proof (wrr_raised_sum ps Hps) as Hsum.
    assert (zsum (wn_CurrentWeight <$> (raise <$> wrr_state w0 ps)) <= 0); [|lia].
    apply zsum_nonpos, Forall_fmap, Forall_forall. intros n Hn. specialize (Hmax n Hn). simpl. lia. }
  rewrite list_lookup_fmap, wrr_lookup in Hnb. destruct (w0 !! b) as [n|] eqn:Eb; [|done].
  simpl in Hnb. injection Hnb as <-. simpl in Hge.
  assert (forall j, occ (ps ++ [b])%list j = occ ps j + if Nat.eq_dec b j then 1 else 0) as Hocc.
  { intros j. unfold occ. rewrite count_occ_app. simpl. destruct (Nat.eq_dec b j); lia. }
  assert (Z.of_nat (length (ps ++ [b])%list) = Z.of_nat (length ps) + 1) as Hlen.
  { rewrite length_app. simpl. lia. }
  split_and!; [done| |].
  - apply list_eq. intros j. rewrite wrr_lookup, Hlen, Hocc.
    destruct (decide (j = b)) as [->|Hne].
    + rewrite list_lookup_alter_eq, list_lookup_fmap, wrr_lookup, Eb. simpl. f_equal.
      unfold raise, add_current. simpl. f_equal. destruct (Nat.eq_dec b b); [|done]. lia.
    + rewrite list_lookup_alter_ne, list_lookup_fmap, wrr_lookup by done.
      destruct (w0 !! j); simpl; [|done]. unfold raise, add_current. simpl. do 2 f_equal.
      destruct (Nat.eq_dec b j); [congruence|]. lia.
  - intros j m Hj. rewrite wrr_lookup, Hlen, Hocc in Hj. destruct (w0 !! j) as [m0|] eqn:Ej; [|done].
    simpl in Hj. injection Hj as <-. simpl. destruct (Nat.eq_dec b j) as [<-|Hne].
    + rewrite Eb in Ej. injection Ej as <-. lia.
    + specialize (Hbd j). rewrite wrr_lookup, Ej in Hbd. specialize (Hbd _ eq_refl). simpl in Hbd.
      rewrite Forall_lookup in Hpos. specialize (Hpos j m0 Ej). simpl in Hpos. lia.
Qed.

Lemma wrr_run : (2 <= length w0)%nat -> forall n ps,
  Forall (fun p => (p < length w0)%nat) ps -> wrr_bounded w0 ps ->
  exists l, wrr_picks n (wrr_state w0 ps) = (l, wrr_state w0 (ps ++ l)%list) /\ length l = n /\
    Forall (fun p => (p < length w0)%nat) (ps ++ l)%list /\ wrr_bounded w0 (ps ++ l)%list.
Proof.
  intros H2. induction n as [|n IH]; intros ps Hps Hbd.
  { exists []. by rewrite app_nil_r. }
  cbn [wrr_picks].
  assert (exists b, WNGINX_Next (wrr_state w0 ps) = (Some b, wrr_state w0 (ps ++ [b])%list) /\
            (b < length w0)%nat /\ wrr_bounded w0 (ps ++ [b])%list) as (b & -> & Hb & Hbd').
  { pose proof (wrr_length ps) as Hl. destruct (wrr_state w0 ps) as [|x [|y r]] eqn:E; simpl in Hl; [lia..|].
    cbn [WNGINX_Next]. rewrite <- E. destruct (nextWeightedNode (wrr_state w0 ps)) as [[b|] l] eqn:En.
    - destruct (wrr_step ps b l Hps Hbd En) as (? & -> & ?). eauto.
    - rewrite E in En. unfold nextWeightedNode in En. destruct (weighted_loop _ _ _ _ _) as [[? ?] ?]. done. }
  destruct (IH (ps ++ [b])%list) as (l & -> & Hl & HF & Hbl); [|done|].
  - apply Forall_app. split; [done|]. by repeat constructor.
  - rewrite <- app_assoc in HF, Hbl |- *. exists (b :: l). simpl in *. by rewrite Hl.
Qed.

Lemma wrr_state_nil : wrr_state w0 [] = WNGINX_Reset w0.
Proof.
  apply list_eq. intros j. rewrite wrr_lookup. unfold WNGINX_Reset. rewrite list_lookup_fmap.
  destruct (w0 !! j); simpl; [|done]. do 2 f_equal. unfold occ. simpl. lia.
Qed.

(** After a full period the charges are spread by weight. *)
Lemma wrr_period ps :
  Forall (fun p => (p < length w0)%nat) ps -> wrr_bounded w0 ps -> Z.of_nat (length ps) = T ->
  occ ps <$> seq 0 (length w0) = weights w0.
Proof.
  intros Hps Hbd Hlen. apply zsum_le_eq; [|by rewrite zsum_occ].
  apply Forall2_lookup. intros j. unfold weights. rewrite !list_lookup_fmap.
  destruct (w0 !! j) as [n|] eqn:Ej.
  - rewrite lookup_seq_lt by (by eapply lookup_lt_Some). simpl. constructor.
    specialize (Hbd j). rewrite wrr_lookup, Ej, Hlen in Hbd. specialize (Hbd _ eq_refl). simpl in Hbd. nia.
  - rewrite lookup_seq_ge by (by apply lookup_ge_None). constructor.
Qed.

End Fairness.

Lemma wrr_single n x :
  wrr_picks n (WNGINX_Reset [x]) = (replicate n 0%nat, WNGINX_Reset [x]).
Proof. induction n as [|n IH]; [done|]. simpl in *. by rewrite IH. Qed.

(** The weighted round robin is fair.  From a fresh (or reset) balancer,
    over as many calls as the weights add up to, every node is chosen exactly
    as often as its weight says, and the balancer is back where it started. *)
Theorem wrr_fair (w : list WeightNginx) :
  Forall (fun n => 0 <= wn_Weight n) w -> 0 < zsum (weights w) ->
  exists picks, wrr_picks (Z.to_nat (zsum (weights w))) (WNGINX_Reset w) = (picks, WNGINX_Reset w) /\
    forall j n, w !! j = Some n -> Z.of_nat (count_occ Nat.eq_dec picks j) = wn_Weight n.
Proof.
  intros Hpos Ht. destruct w as [|x [|y r]] eqn:Ew; [cbn in Ht; lia| |].
  - rewrite wrr_single. eexists. split; [done|]. unfold weights in *. cbn in Ht |- *.
    intros [|j] n Hj; [|done]. simpl in Hj. injection Hj as <-.
    assert (forall k, count_occ Nat.eq_dec (replicate k 0%nat) 0%nat = k) as E.
    { induction k; simpl; congruence. }
    rewrite E. lia.
  - rewrite <- Ew in *. assert (2 <= length w)%nat as H2 by (rewrite Ew; simpl; lia). clear Ew x y r.
    rewrite <- (wrr_state_nil w).
    destruct (wrr_run w Hpos Ht H2 (Z.to_nat (zsum (weights w))) []) as (l & -> & Hl & HF & Hbd).
    { constructor. }
    { intros j n Hj. rewrite wrr_lookup in Hj. destruct (w !! j); [|done]. simpl in Hj. injection Hj as <-.
      unfold occ. simpl. lia. }
    simpl in HF, Hbd |- *. pose proof (wrr_period w Ht l HF Hbd ltac:(lia)) as Hocc.
    exists l. assert (forall j n, w !! j = Some n -> occ l j = wn_Weight n) as Hj.
    { intros j n Hj. pose proof (f_equal (.!! j) Hocc) as E. unfold weights in E.
      rewrite !list_lookup_fmap, Hj, lookup_seq_lt in E by (by eapply lookup_lt_Some). by injection E. }
    split; [|exact Hj]. f_equal. apply list_eq. intros j. rewrite !wrr_lookup.
    destruct (w !! j) as [n|] eqn:E; [|done]. simpl. do 2 f_equal. rewrite (Hj j n E). unfold occ. simpl. nia.
Qed.

Lemma wrr_fair_witness :
  let w := WNGINX_Add (WNGINX_Add (WNGINX_Add [] "a" 5) "b" 1) "c" 1 in
  exists picks, wrr_picks 7 (WNGINX_Reset w) = (picks, WNGINX_Reset w) /\ count_occ Nat.eq_dec picks 0%nat = 5%nat.
Proof.
  intros w. destruct (wrr_fair w) as (picks & Hp & Hc).
  - repeat constructor; simpl; lia.
  - vm_compute. done.
  - exists picks. split; [exact Hp|]. specialize (Hc 0%nat _ eq_refl). simpl in Hc. lia.
Defined.
