(* ===== verification/AliasRoute.v ===== *)
(** * Alias routing

    pkg/common/faas_common/aliasroute: an alias of a function stands for several
    of its versions.  Requests are spread over them by weight, with the weighted
    round robin of LoadBalance, or sent to one of two versions by rules over the
    request's parameters (alias.go, expression.go).

    Weights are 64-bit floating point numbers, computed with the standard
    library's specification of IEEE 754.  Blanks are the ASCII ones.  An alias is
    a value: the map holds pointers, and what one operation changes of an alias
    (its balancer) is put back into the map. *)
From Stdlib Require Import Ascii SpecFloat.
From S2P Require Import Prelude GoStrings Urn LoadBalance.
#[local] Open Scope string_scope.
#[local] Open Scope Z_scope.

(** ** Rules *)

Definition isSpace (c : ascii) : bool :=
  let n := N_of_ascii c in (((9 <=? n) && (n <=? 13)) || (n =? 32))%N.
Fixpoint TrimLeft (s : string) : string :=
  match s with String c s' => if isSpace c then TrimLeft s' else s | "" => "" end.
Fixpoint str_rev (acc s : string) : string :=
  match s with "" => acc | String c s => str_rev (String c acc) s end.
(** [strings.TrimSpace]. *)
Definition TrimSpace (s : string) : string := str_rev "" (TrimLeft (str_rev "" (TrimLeft s))).

Record Expression := mkExpr { ex_leftVal : string; ex_operator : string; ex_rightVal : string }.

Definition compareIntegerStrings (a b : string) : option comparison :=
  match Atoi a, Atoi b with Some x, Some y => Some (x ?= y) | _, _ => None end.

Definition matchStr (str targetStr : string) : bool :=
  existsb (fun tar => negb (String.eqb tar "") && String.eqb (TrimSpace str) (TrimSpace tar)) (Split "," targetStr).

Definition Execute (params : gmap string string) (exp : Expression) : bool :=
  match params !! ex_leftVal exp with
  | None => false
  | Some val =>
      let compare ok := match compareIntegerStrings val (ex_rightVal exp) with Some c => ok c | None => false end in
      let op := ex_operator exp in
      if String.eqb op "=" then String.eqb (TrimSpace val) (TrimSpace (ex_rightVal exp))
      else if String.eqb op "!=" then negb (String.eqb (TrimSpace val) (TrimSpace (ex_rightVal exp)))
      else if String.eqb op ">" then compare (fun c => match c with Gt => true | _ => false end)
      else if String.eqb op "<" then compare (fun c => match c with Lt => true | _ => false end)
      else if String.eqb op ">=" then compare (fun c => match c with Lt => false | _ => true end)
      else if String.eqb op "<=" then compare (fun c => match c with Gt => false | _ => true end)
      else if String.eqb op "in" then matchStr val (ex_rightVal exp)
      else false
  end.

Record routingRules := mkRules { rr_RuleLogic : string; rr_Rules : list string; rr_GrayVersion : string }.
#[global] Instance routingRules_eq_dec : EqDecision routingRules.
Proof. solve_decision. Defined.

(** [None]: a rule has not three parts. *)
Fixpoint parseRules (rules : list string) : option (list Expression) :=
  match rules with
  | [] => Some []
  | value :: rules =>
      match Split ":" value with
      | [l; o; r] => cons (mkExpr l o r) <$> parseRules rules
      | _ => None
      end
  end.

Definition isMatch (matchResultList : list bool) (ruleLogic : string) : bool :=
  match matchResultList with
  | [] => false
  | [b] => b
  | b :: _ =>
      if String.eqb ruleLogic "or" then fold_left orb matchResultList b
      else if String.eqb ruleLogic "and" then fold_left andb matchResultList b
      else false
  end.
Definition matchRule (params : gmap string string) (expressions : list Expression) (ruleLogic : string) : bool :=
  match Execute params <$> expressions with [] => false | results => isMatch results ruleLogic end.

(** ** Weights *)

Notation weightRatio := (S754_finite false 7036874417766400 (-46)) (only parsing).

(** [int(f)], towards zero; out of the range of integers the result is the
    processor's. *)
Definition float_int (f : spec_float) : Z :=
  match f with
  | S754_zero _ => 0
  | S754_finite s m e =>
      let n := if 0 <=? e then Zpos m * 2 ^ e else Zpos m / 2 ^ (- e) in if s then - n else n
  | _ => - 2 ^ 63
  end.
Definition scaledWeight (w : spec_float) : Z := float_int (SFmul 53 1024 w weightRatio).
Definition positive (w : spec_float) : bool := SFltb (S754_zero false) w.

Record routingConfig := mkRouting { rc_FunctionVersionURN : string; rc_Weight : spec_float }.

Record AliasElement := mkAlias {
  ae_lb : WNGINX;
  ae_AliasURN : string;
  ae_FunctionURN : string;
  ae_FunctionVersionURN : string;
  ae_Name : string;
  ae_FunctionVersion : string;
  ae_RevisionID : string;
  ae_Description : string;
  ae_RoutingType : string;
  ae_RoutingRules : routingRules;
  ae_RoutingConfigs : list routingConfig
}.
Implicit Types (a : AliasElement).

Definition set_lb (lb : WNGINX) a : AliasElement :=
  mkAlias lb (ae_AliasURN a) (ae_FunctionURN a) (ae_FunctionVersionURN a) (ae_Name a) (ae_FunctionVersion a)
    (ae_RevisionID a) (ae_Description a) (ae_RoutingType a) (ae_RoutingRules a) (ae_RoutingConfigs a).

Definition resetRR a : AliasElement :=
  set_lb (fold_left (fun lb v => WNGINX_Add lb (rc_FunctionVersionURN v) (scaledWeight (rc_Weight v)))
            (ae_RoutingConfigs a) (WNGINX_RemoveAll (ae_lb a))) a.

(** Everything but the balancer. *)
Definition aliasUpdate (destAlias srcAlias : AliasElement) : AliasElement := set_lb (ae_lb destAlias) srcAlias.

Definition getFuncVersionURN a : string * AliasElement :=
  match WNGINX_Next (ae_lb a) with
  | (Some i, lb) => (match ae_lb a !! i with Some n => wn_Node n | None => "" end, set_lb lb a)
  | (None, lb) => ("", set_lb lb a)
  end.

Definition getFuncVersionURNByRule (params : gmap string string) a : string :=
  if decide (params = ∅) then ae_FunctionVersionURN a else
  match rr_Rules (ae_RoutingRules a) with
  | [] => ae_FunctionVersionURN a
  | rules =>
      match parseRules rules with
      | None => ae_FunctionVersionURN a
      | Some matchRules =>
          if matchRule params matchRules (rr_RuleLogic (ae_RoutingRules a))
          then rr_GrayVersion (ae_RoutingRules a) else ae_FunctionVersionURN a
      end
  end.

Definition element_GetFuncVersionURNWithParams (params : gmap string string) a : string * AliasElement :=
  if String.eqb (ae_RoutingType a) "rule" then (getFuncVersionURNByRule params a, a) else getFuncVersionURN a.

(** ** The aliases *)

Notation Aliases := (gmap string AliasElement) (only parsing).
Implicit Types (m : Aliases).

Definition AddAlias (alias : AliasElement) m : Aliases :=
  let existAlias := match m !! ae_AliasURN alias with
                    | None => set_lb [] alias
                    | Some existAlias => aliasUpdate existAlias alias
                    end in
  <[ae_AliasURN alias:=resetRR existAlias]> m.
Definition RemoveAlias (aliasURN : string) m : Aliases := delete aliasURN m.

Definition with_alias (f : AliasElement -> string * AliasElement) (urn : string) m : string * Aliases :=
  match m !! urn with None => (urn, m) | Some a => let '(r, a) := f a in (r, <[urn:=a]> m) end.
Definition GetFuncVersionURNWithParams (aliasURN : string) (params : gmap string string) m : string * Aliases :=
  with_alias (element_GetFuncVersionURNWithParams params) aliasURN m.

Definition CheckAliasRoutingChange (aliasURN oldURN : string) (params : gmap string string) m : bool :=
  match m !! aliasURN with
  | None => true
  | Some a =>
      if String.eqb (ae_RoutingType a) "rule" then negb (String.eqb oldURN (getFuncVersionURNByRule params a))
      else negb (existsb (fun c => String.eqb (rc_FunctionVersionURN c) oldURN && positive (rc_Weight c)) (ae_RoutingConfigs a))
  end.
Definition GetAliasRoutingType (aliasURN : string) m : string :=
  match m !! aliasURN with Some a => ae_RoutingType a | None => "" end.

(** What changed between two states of an alias, by function version. *)
Notation NoneUpdate := 0%Z (only parsing).
Notation UpdateAllURN := 1%Z (only parsing).
Notation UpdateMainURN := 2%Z (only parsing).
Notation UpdateWeightGreyURN := 3%Z (only parsing).

Definition isAliasWeightTypeChange (originAlias srcAlias : AliasElement) : gmap string Z :=
  if String.eqb (ae_RoutingType originAlias) "rule" || String.eqb (ae_RoutingType srcAlias) "rule" then {[ "" := NoneUpdate ]}
  else match ae_RoutingConfigs srcAlias with
  | [] => {[ "" := UpdateAllURN ]}
  | configs =>
      let changed := fold_left (fun ch c => if positive (rc_Weight c) then ch
                                            else <[rc_FunctionVersionURN c:=UpdateWeightGreyURN]> ch) configs (∅ : gmap string Z) in
      let changed := fold_left (fun ch c => if existsb (fun c' => String.eqb (rc_FunctionVersionURN c') (rc_FunctionVersionURN c)) configs
                                            then ch else <[rc_FunctionVersionURN c:=UpdateWeightGreyURN]> ch)
                       (ae_RoutingConfigs originAlias) changed in
      if String.eqb (ae_FunctionVersion originAlias) (ae_FunctionVersion srcAlias) then changed
      else <[ae_FunctionVersion originAlias:=UpdateMainURN]> changed
  end.

Definition ifAliasRoutingChanged (originAlias srcAlias : AliasElement) : gmap string Z :=
  if String.eqb (ae_RoutingType originAlias) (ae_RoutingType srcAlias) then
    if String.eqb (ae_RoutingType originAlias) "rule" then
      let changed := if decide (ae_RoutingRules originAlias = ae_RoutingRules srcAlias) then (∅ : gmap string Z)
                     else {[ rr_GrayVersion (ae_RoutingRules originAlias) := UpdateAllURN ]} in
      if String.eqb (ae_FunctionVersionURN originAlias) (ae_FunctionVersionURN srcAlias) then changed
      else <[ae_FunctionVersionURN originAlias:=UpdateMainURN]> changed
    else isAliasWeightTypeChange originAlias srcAlias
  else if String.eqb (ae_RoutingType srcAlias) "rule" then {[ "" := UpdateAllURN ]}
  else if existsb (fun c => negb (positive (rc_Weight c))) (ae_RoutingConfigs srcAlias) then {[ "" := UpdateAllURN ]}
  else match ae_RoutingConfigs srcAlias with [] => {[ "" := UpdateAllURN ]} | _ => {[ "" := NoneUpdate ]} end.

(** ** Keys and events *)

Record AliasKey := mkAliasKey {
  ak_ProductID : string; ak_AliasSign : string; ak_BusinessSign : string; ak_BusinessID : string; ak_TenantSign : string;
  ak_TenantID : string; ak_FunctionSign : string; ak_FunctionID : string; ak_AliasName : string
}.
Definition alias_ParseFrom (aliasKeyStr : string) : option AliasKey :=
  match Split "/" aliasKeyStr with
  | [_; p; al; bs; b; ts; t; fs; f; name] => Some (mkAliasKey p al bs b ts t fs f name)
  | _ => None
  end.
(** A key that is not one gives empty fields. *)
Definition FetchInfoFromAliasKey (aliasKeyStr : string) : AliasKey :=
  default (mkAliasKey "" "" "" "" "" "" "" "" "") (alias_ParseFrom aliasKeyStr).
Definition BuildURNFromAliasKey (aliasKeyStr : string) : string :=
  let k := FetchInfoFromAliasKey aliasKeyStr in
  urn_String (mkURN "sn" "cn" (ak_BusinessID k) (ak_TenantID k) "function" (ak_FunctionID k) (ak_AliasName k)).

(** [decoded]: the alias the event's value decodes to, if it does. *)
Definition ProcessUpdate (decoded : option AliasElement) m : option string * Aliases :=
  match decoded with Some alias => (Some (ae_AliasURN alias), AddAlias alias m) | None => (None, m) end.
Definition ProcessDelete (key : string) m : string * Aliases :=
  let aliasURN := BuildURNFromAliasKey key in (aliasURN, RemoveAlias aliasURN m).

Definition ResolveAliasedFunctionNameToURN (functionNameWithAlias tenantID : string) (params : gmap string string) m
    : string * Aliases :=
  match Split ":" functionNameWithAlias with
  | [_] => (BuildURNOrAliasURNTemp "yrk" tenantID (BuildStandardFunctionName functionNameWithAlias) "latest", m)
  | [name; versionOrAlias] =>
      let urn := BuildURNOrAliasURNTemp "yrk" tenantID (BuildStandardFunctionName name) versionOrAlias in
      match Atoi versionOrAlias with
      | None => if String.eqb versionOrAlias "latest" then (urn, m) else GetFuncVersionURNWithParams urn params m
      | Some _ => (urn, m)
      end
  | _ => ("", m)
  end.

(** ** Requests are spread by weight *)









Definition float60 : spec_float := S754_finite false 8444249301319680 (-47).
Definition float40 : spec_float := S754_finite false 5629499534213120 (-47).
Definition demoAlias : AliasElement :=
  mkAlias [] "sn:cn:yrk:t:function:f:blue" "sn:cn:yrk:t:function:f" "sn:cn:yrk:t:function:f:1" "blue" "1" "r" "" "weight"
    (mkRules "" [] "") [mkRouting "sn:cn:yrk:t:function:f:1" float60; mkRouting "sn:cn:yrk:t:function:f:2" float40].


(** A weight is cut to hundredths after a product that is rounded: 0.29 counts 28
    hundredths, and a weight below one hundredth counts nothing. *)
Definition float029 : spec_float := S754_finite false 5224175567749775 (-54).
Lemma weight_is_cut : scaledWeight float029 = 28.
Proof. by vm_compute. Qed.

(** ** Rules *)

Lemma fold_orb l b : fold_left orb l b = b || existsb (fun x => x) l.
Proof. revert b. induction l as [|x l IH]; intros b; simpl; [by rewrite orb_false_r|]. rewrite IH. by rewrite orb_assoc. Qed.
Lemma fold_andb l b : fold_left andb l b = b && forallb (fun x => x) l.
Proof. revert b. induction l as [|x l IH]; intros b; simpl; [by rewrite andb_true_r|]. rewrite IH. by rewrite andb_assoc. Qed.

Lemma isMatch_spec l logic :
  isMatch l logic =
  match l with
  | [] => false
  | [b] => b
  | _ => (String.eqb logic "or" && existsb (fun x => x) l) || (String.eqb logic "and" && forallb (fun x => x) l)
  end.
Proof.
  destruct l as [|b [|b' l]]; [done..|]. unfold isMatch. rewrite fold_orb, fold_andb.
  destruct (String.eqb_spec logic "or") as [->|]; simpl.
  { rewrite orb_false_r. by destruct b. }
  destruct (String.eqb logic "and"); by destruct b, b'.
Qed.

Lemma existsb_map (f : Expression -> bool) l : existsb (fun x => x) (f <$> l) = existsb f l.
Proof. induction l as [|e l IH]; [done|]. csimpl. by rewrite IH. Qed.
Lemma forallb_map (f : Expression -> bool) l : forallb (fun x => x) (f <$> l) = forallb f l.
Proof. induction l as [|e l IH]; [done|]. csimpl. by rewrite IH. Qed.

Lemma parseRules_length rules exps : parseRules rules = Some exps -> length exps = length rules.
Proof.
  revert exps. induction rules as [|r rules IH]; intros exps; simpl; [by intros [= <-]|].
  repeat case_match; try done. destruct (parseRules rules) as [es|]; [|done]. intros [= <-]. simpl. by rewrite IH.
Qed.

(** What the rules decide.  A request with parameters, for an alias with
    well-formed rules, goes to the gray version exactly when its parameters
    satisfy all of the rules (logic "and", or a single rule), or one of them
    (logic "or"); every other request goes to the version of the alias. *)
Theorem rules_decide_version params a exps :
  ae_RoutingType a = "rule" -> params <> ∅ -> parseRules (rr_Rules (ae_RoutingRules a)) = Some exps -> exps <> [] ->
  let logic := rr_RuleLogic (ae_RoutingRules a) in
  let gray := (String.eqb logic "or" && existsb (Execute params) exps) ||
              ((String.eqb logic "and" || (length exps =? 1)%nat) && forallb (Execute params) exps) in
  element_GetFuncVersionURNWithParams params a =
    (if gray then rr_GrayVersion (ae_RoutingRules a) else ae_FunctionVersionURN a, a).
Proof.
  intros Ht Hp Hr Hne logic gray. unfold element_GetFuncVersionURNWithParams. rewrite Ht. simpl.
  unfold getFuncVersionURNByRule. rewrite decide_False by done.
  pose proof (parseRules_length _ _ Hr) as Hl. destruct (rr_Rules (ae_RoutingRules a)) as [|r rules] eqn:Er.
  { by destruct exps. }
  rewrite Hr. fold logic. assert (matchRule params exps logic = gray) as ->; [|done].
  unfold matchRule, gray. destruct exps as [|e1 [|e2 es]]; [done| |].
  - csimpl. destruct (String.eqb logic "or"), (String.eqb logic "and"), (Execute params e1); done.
  - set (exps := e1 :: e2 :: es). change (Execute params <$> exps) with (Execute params e1 :: Execute params e2 :: (Execute params <$> es)).
    cbv iota. rewrite isMatch_spec. change (Execute params e1 :: Execute params e2 :: (Execute params <$> es)) with (Execute params <$> exps).
    rewrite existsb_map, forallb_map. by rewrite orb_false_r.
Qed.

Lemma rules_decide_version_witness :
  let a := mkAlias [] "al" "f" "main" "n" "1" "r" "" "rule" (mkRules "and" ["age:>=:18"; "city:in:a,b"] "gray") [] in
  element_GetFuncVersionURNWithParams {[ "age" := "20"; "city" := " b " ]} a = ("gray", a).
Proof.
  intros a. etransitivity.
  - apply (rules_decide_version {[ "age" := "20"; "city" := " b " ]} a [mkExpr "age" ">=" "18"; mkExpr "city" "in" "a,b"]);
      [reflexivity|vm_compute; discriminate|reflexivity|discriminate].
  - vm_compute. reflexivity.
Defined.

(** ** Events *)

(** The key under which etcd holds an alias. *)
Definition alias_key (business tenant function name : string) : string :=
  Join "/" [""; "sn"; "alias"; "business"; business; "tenant"; tenant; "function"; function; name].

(** A deletion removes the alias that was added.  The name built from the
    key of an alias is the one its requests are resolved to, so that after an
    update and the deletion of its key the aliases are as before, without that
    alias, and a request for it is answered with the name it asked for. *)
Theorem alias_deleted business tenant function name alias m :
  Forall (free_of "/") [business; tenant; function; name] ->
  business <> "" -> tenant <> "" -> function <> "" -> name <> "" ->
  let urn := BuildURNOrAliasURNTemp business tenant function name in
  ae_AliasURN alias = urn ->
  let m1 := (ProcessUpdate (Some alias) m).2 in
  let r := ProcessDelete (alias_key business tenant function name) m1 in
  r = (urn, delete urn m) /\ forall params, (GetFuncVersionURNWithParams urn params r.2).1 = urn.
Proof.
  intros HF Hb Ht Hf Hn urn Hu m1 r. rewrite !Forall_cons in HF. destruct HF as (H1 & H2 & H3 & H4 & _).
  assert (BuildURNFromAliasKey (alias_key business tenant function name) = urn) as Hk.
  { unfold BuildURNFromAliasKey, FetchInfoFromAliasKey, alias_ParseFrom, alias_key.
    rewrite Split_Join by (done || (repeat (apply Forall_cons; split; [done|]); done)). simpl default.
    unfold urn, BuildURNOrAliasURNTemp. rewrite !(proj2 (String.eqb_neq _ _)) by done. rewrite urn_String_fields.
    cbn [ur_FuncVersion ak_AliasName]. by rewrite (proj2 (String.eqb_neq name "")). }
  assert (r = (urn, delete urn m)) as Hr.
  { unfold r, ProcessDelete, RemoveAlias, m1, ProcessUpdate, AddAlias. rewrite Hk, Hu. cbn [snd].
    by rewrite delete_insert_eq. }
  split; [done|]. intros params. rewrite Hr. unfold GetFuncVersionURNWithParams, with_alias. cbn [snd].
  by rewrite lookup_delete_eq.
Qed.

Lemma alias_deleted_witness :
  let r := ProcessDelete "/sn/alias/business/yrk/tenant/t/function/f/blue" (ProcessUpdate (Some demoAlias) ∅).2 in
  r = ("sn:cn:yrk:t:function:f:blue", ∅).
Proof.
  assert (delete "sn:cn:yrk:t:function:f:blue" (∅ : gmap string AliasElement) = ∅) as E by done.
  intros r. rewrite <- E. apply (alias_deleted "yrk" "t" "f" "blue" demoAlias ∅); try done. repeat constructor.
Defined.
