(* ===== verification/SchedulerProxy.v ===== *)
(** * The ring of schedulers (functionscaler/selfregister/proxy.go)

    [SchedulerProxy]: the schedulers a process knows and the load balancer that
    maps a hash key to one of them; the lite scheduler asks it who owns a
    session.  The proxy is modelled over the interface [LoadBalance], and its
    theorems over the ring that [GlobalSchedulerProxy] uses.  [WaitForHash]
    (a sleep loop) and the advertised address of a process are left out.
    Names are ASCII: a blank name is one of white space only. *)
From S2P Require Import Prelude GoStrings LoadBalance LiteAlloc WheelSpec LiteSched LiteWheel.
From Stdlib Require Import Ascii.
#[local] Open Scope string_scope.
#[local] Open Scope Z_scope.

Notation GreenTokenType := ("green")%string (only parsing).
Notation BlueTokenType := ("blue")%string (only parsing).
Notation SchedulerKeyTypeModule := ("module")%string (only parsing).

(** [strings.TrimSpace(s) == ""]. *)
Definition is_space (c : ascii) : bool :=
  let n := nat_of_ascii c in ((9 <=? n) && (n <=? 13))%nat || (n =? 32)%nat.
Fixpoint blank (s : string) : bool :=
  match s with EmptyString => true | String c s => is_space c && blank s end.

(** [keyPrefixType] is that of the discovery configuration, if there is one. *)
Definition GetSchedulerProxyName (keyPrefixType : option string) (selfName selfID : string) : string :=
  match keyPrefixType with
  | Some ty => if String.eqb ty SchedulerKeyTypeModule then selfName else selfID
  | None => selfID
  end.

Section Proxy.
Context {B : Type} `{LoadBalance B}.

Record SchedulerProxy := mkProxy {
  sp_FaaSSchedulers : gmap string InstanceInfo;
  sp_GreenFaaSSchedulers : gmap string InstanceInfo;
  sp_BlueFaaSSchedulers : gmap string InstanceInfo;
  sp_loadBalance : B
}.
Implicit Types (sp : SchedulerProxy).

Definition NewSchedulerProxy (lb : B) : SchedulerProxy := mkProxy ∅ ∅ ∅ lb.

Definition store_token (name : string) (info : InstanceInfo) (tokenType : string) sp : SchedulerProxy :=
  if String.eqb tokenType GreenTokenType then
    mkProxy (sp_FaaSSchedulers sp) (<[name:=info]> (sp_GreenFaaSSchedulers sp)) (sp_BlueFaaSSchedulers sp)
      (sp_loadBalance sp)
  else if String.eqb tokenType BlueTokenType then
    mkProxy (sp_FaaSSchedulers sp) (sp_GreenFaaSSchedulers sp) (<[name:=info]> (sp_BlueFaaSSchedulers sp))
      (sp_loadBalance sp)
  else sp.

Definition Proxy_Add sp (faaSScheduler : InstanceInfo) (exclusivity tokenType : string)
    (currentVersionFlag : bool) : SchedulerProxy :=
  let name := ii_InstanceName faaSScheduler in
  let sp := store_token name faaSScheduler tokenType sp in
  if negb currentVersionFlag then sp else
  let sp := mkProxy (<[name:=faaSScheduler]> (sp_FaaSSchedulers sp)) (sp_GreenFaaSSchedulers sp)
              (sp_BlueFaaSSchedulers sp) (sp_loadBalance sp) in
  if negb (String.eqb exclusivity "") then sp else
  mkProxy (sp_FaaSSchedulers sp) (sp_GreenFaaSSchedulers sp) (sp_BlueFaaSSchedulers sp)
    (lb_Add (sp_loadBalance sp) name 0).

Definition Proxy_Remove sp (instanceName tokenType : string) (versionFlag : bool) : SchedulerProxy :=
  let sp := if versionFlag then
              mkProxy (delete instanceName (sp_FaaSSchedulers sp)) (sp_GreenFaaSSchedulers sp)
                (sp_BlueFaaSSchedulers sp) (lb_Remove (sp_loadBalance sp) instanceName)
            else sp in
  if String.eqb tokenType GreenTokenType then
    mkProxy (sp_FaaSSchedulers sp) (delete instanceName (sp_GreenFaaSSchedulers sp))
      (sp_BlueFaaSSchedulers sp) (sp_loadBalance sp)
  else if String.eqb tokenType BlueTokenType then
    mkProxy (sp_FaaSSchedulers sp) (sp_GreenFaaSSchedulers sp)
      (delete instanceName (sp_BlueFaaSSchedulers sp)) (sp_loadBalance sp)
  else sp.

Definition Proxy_Reset sp : SchedulerProxy :=
  mkProxy (sp_FaaSSchedulers sp) (sp_GreenFaaSSchedulers sp) (sp_BlueFaaSSchedulers sp)
    (lb_Reset (sp_loadBalance sp)).

Definition Proxy_Contains sp (id : string) : bool :=
  match sp_FaaSSchedulers sp !! id with Some _ => true | None => false end.

(** The balancer may move its anchors. *)
Definition selectHashOwner sp (hashKey : string) : option InstanceInfo * SchedulerProxy :=
  let '(next, lb) := lb_Next (sp_loadBalance sp) hashKey false in
  let sp := mkProxy (sp_FaaSSchedulers sp) (sp_GreenFaaSSchedulers sp) (sp_BlueFaaSSchedulers sp) lb in
  (match next with
   | None => None
   | Some name => if blank name then None else sp_FaaSSchedulers sp !! name
   end, sp).

(** [self] is [GetSchedulerProxyName()]. *)
Definition CheckHashOwner sp (self hashKey : string) : string * bool * SchedulerProxy :=
  let '(owner, sp) := selectHashOwner sp hashKey in
  match owner with
  | None => ("", false, sp)
  | Some s => (ii_InstanceID s, String.eqb (ii_InstanceName s) self, sp)
  end.

Definition CheckFuncOwner sp (self funcKey : string) : string * bool * SchedulerProxy :=
  CheckHashOwner sp self funcKey.

Definition IsFuncOwner sp (self funcKey : string) : bool * SchedulerProxy :=
  let '(_, ok, sp) := CheckFuncOwner sp self funcKey in (ok, sp).

Definition FindHashOwner sp (self hashKey : string) : option InstanceInfo * bool * SchedulerProxy :=
  let '(owner, sp) := selectHashOwner sp hashKey in
  match owner with
  | None => (None, false, sp)
  | Some s => (Some s, String.eqb (ii_InstanceName s) self, sp)
  end.

(** The map is ranged over in an order of Go's choice. *)
Definition FindByInstanceID sp (order : list string) (instanceID : string) : option InstanceInfo :=
  list_find (fun info => ii_InstanceID info = instanceID)
    (omap (fun name => sp_FaaSSchedulers sp !! name) order) ≫= (fun r => Some r.2).

Inductive proxy_op :=
  | PxAdd (info : InstanceInfo) (exclusivity tokenType : string) (current : bool)
  | PxRemove (name tokenType : string) (current : bool).
Definition proxy_step sp (op : proxy_op) : SchedulerProxy :=
  match op with
  | PxAdd info excl token current => Proxy_Add sp info excl token current
  | PxRemove name token current => Proxy_Remove sp name token current
  end.
Definition proxy_run (lb : B) (ops : list proxy_op) : SchedulerProxy :=
  fold_left proxy_step ops (NewSchedulerProxy lb).
End Proxy.
Arguments SchedulerProxy : clear implicits.

(** ** One owner per key *)

Notation RingProxy := (SchedulerProxy SimpleCHGeneric).
Notation ring_members sp := (sc_owners (sp_loadBalance sp)).

Definition ring_proxy (ops : list proxy_op) : RingProxy := proxy_run NewSimpleCHGeneric ops.

Record proxy_inv (sp : RingProxy) : Prop := {
  px_wf : ring_wf (sp_loadBalance sp);
  px_known : forall name, name ∈ ring_members sp -> is_Some (sp_FaaSSchedulers sp !! name);
  px_name : forall name info, sp_FaaSSchedulers sp !! name = Some info -> ii_InstanceName info = name
}.

Lemma add_members (c : SimpleCHGeneric) name : sc_owners (SimpleCH_Add c name) = {[name]} ∪ sc_owners c.
Proof. unfold SimpleCH_Add. case_decide; [set_solver|done]. Qed.

Lemma remove_members (c : SimpleCHGeneric) name : sc_owners (SimpleCH_Remove c name) = sc_owners c ∖ {[name]}.
Proof. unfold SimpleCH_Remove. case_decide; [done|set_solver]. Qed.

(** Only the map of all schedulers and the ring matter. *)
Lemma proxy_inv_same (sp sp' : RingProxy) :
  proxy_inv sp -> sp_FaaSSchedulers sp' = sp_FaaSSchedulers sp ->
  sp_loadBalance sp' = sp_loadBalance sp -> proxy_inv sp'.
Proof. intros [H1 H2 H3] E1 E2. split; rewrite ?E1, ?E2; done. Qed.

Lemma store_token_same name info token (sp : RingProxy) :
  sp_FaaSSchedulers (store_token name info token sp) = sp_FaaSSchedulers sp /\
  sp_loadBalance (store_token name info token sp) = sp_loadBalance sp.
Proof. unfold store_token. by repeat case_match. Qed.

Lemma Proxy_Add_inv sp info excl token current : proxy_inv sp -> proxy_inv (Proxy_Add sp info excl token current).
Proof.
  intros Hsp. unfold Proxy_Add. destruct (store_token_same (ii_InstanceName info) info token sp) as [E1 E2].
  set (sp1 := store_token _ _ _ sp) in *. assert (proxy_inv sp1) as [W K N] by (by eapply proxy_inv_same).
  destruct current; [|done]. simpl.
  assert (forall name, name ∈ {[ii_InstanceName info]} ∪ ring_members sp1 ->
            is_Some (<[ii_InstanceName info:=info]> (sp_FaaSSchedulers sp1) !! name)) as K'.
  { intros name Hn. destruct (decide (ii_InstanceName info = name)) as [<-|];
      [by rewrite lookup_insert_eq|rewrite lookup_insert_ne by done; apply K; set_solver]. }
  assert (forall name i, <[ii_InstanceName info:=info]> (sp_FaaSSchedulers sp1) !! name = Some i ->
            ii_InstanceName i = name) as N'.
  { intros name i [[<- <-]|[_ Hi]]%lookup_insert_Some; [done|by apply N]. }
  destruct (String.eqb excl ""); split; simpl; try done.
  - by apply SimpleCH_Add_wf.
  - intros name. rewrite add_members. apply K'.
  - intros name Hn. apply K'. set_solver.
Qed.

Lemma Proxy_Remove_inv sp name token current : proxy_inv sp -> proxy_inv (Proxy_Remove sp name token current).
Proof.
  intros [W K N]. unfold Proxy_Remove. set (sp1 := if current then _ else sp).
  assert (proxy_inv sp1) as Hsp1.
  { subst sp1. destruct current; [|done]. split; simpl.
    - by apply SimpleCH_Remove_wf.
    - intros n. rewrite remove_members. intros Hn. rewrite lookup_delete_ne by set_solver. apply K. set_solver.
    - intros n i [_ Hi]%lookup_delete_Some. by apply N. }
  repeat case_match; try done; by eapply proxy_inv_same.
Qed.

Lemma ring_proxy_inv ops : proxy_inv (ring_proxy ops).
Proof.
  unfold ring_proxy, proxy_run.
  assert (proxy_inv (NewSchedulerProxy NewSimpleCHGeneric)) as W.
  { split; simpl; [apply NewSimpleCH_wf|set_solver|done]. }
  revert W. generalize (NewSchedulerProxy NewSimpleCHGeneric).
  induction ops as [|op ops IH]; intros sp W; [done|]. simpl. apply IH.
  destruct op; [by apply Proxy_Add_inv|by apply Proxy_Remove_inv].
Qed.

(** A ring that is not empty answers with one of its members. *)
Lemma Next_member c key : ring_wf c -> sc_owners c <> ∅ -> SimpleCH_Next c key ∈ sc_owners c.
Proof.
  intros W Hne. rewrite SimpleCH_Next_owner by apply W.
  assert (forall n, n ∈ sc_nodes c -> vn_owner n ∈ sc_owners c) as Hin.
  { intros n. rewrite (rw_nodes c W), list_elem_of_bind. intros (o & Hb%build_owner & Ho).
    rewrite Hb. by apply elem_of_elements. }
  unfold ring_owner. destruct (list_find _ (sc_nodes c)) as [[i n]|] eqn:E.
  - apply list_find_Some in E as (Hi & _). apply Hin. by eapply list_elem_of_lookup_2.
  - destruct (sc_nodes c) as [|n nodes] eqn:En; [|simpl; apply Hin; left].
    exfalso. apply set_choose_L in Hne as [o Ho].
    pose proof (rw_nodes c W) as Hp. rewrite En in Hp.
    assert (virtual_node o 0 ∈ elements (sc_owners c) ≫= buildVirtualNodes) as Hv.
    { apply list_elem_of_bind. exists o. split; [|by apply elem_of_elements].
      apply list_elem_of_fmap. exists 0. split; [done|]. apply elem_of_seqZ. unfold virtualNodeCount. lia. }
    rewrite <- Hp in Hv. by apply elem_of_nil in Hv.
Qed.

Lemma selectHashOwner_ring (sp : RingProxy) key :
  proxy_inv sp -> ring_members sp <> ∅ -> (forall name, name ∈ ring_members sp -> blank name = false) ->
  exists info, selectHashOwner sp key = (Some info, sp) /\
    ii_InstanceName info = SimpleCH_Next (sp_loadBalance sp) key.
Proof.
  intros [W K N] Hne Hb. pose proof (Next_member _ key W Hne) as Hin. unfold selectHashOwner. simpl.
  rewrite (Hb _ Hin). destruct (K _ Hin) as [info Hi]. rewrite Hi. exists info.
  split; [by destruct sp|by apply N].
Qed.

(** One owner per key, everywhere.  If the ring has members, and none with
    a blank name, then each key has one owner among them: whatever sequence of
    registrations led another process to the same members, a process in it
    finds itself the owner exactly if it is that member. *)
Theorem hash_owner_unique ops key :
  ring_members (ring_proxy ops) <> ∅ ->
  (forall name, name ∈ ring_members (ring_proxy ops) -> blank name = false) ->
  exists owner, owner ∈ ring_members (ring_proxy ops) /\
    forall ops' self, ring_members (ring_proxy ops') = ring_members (ring_proxy ops) ->
      (CheckHashOwner (ring_proxy ops') self key).1.2 = true <-> self = owner.
Proof.
  intros Hne Hb. pose proof (ring_proxy_inv ops) as Hsp.
  exists (SimpleCH_Next (sp_loadBalance (ring_proxy ops)) key).
  split; [apply Next_member; [apply Hsp|done]|]. intros ops' self E.
  pose proof (ring_proxy_inv ops') as Hsp'.
  destruct (selectHashOwner_ring (ring_proxy ops') key Hsp') as (info & Hsel & Hname);
    [by rewrite E|by rewrite E|].
  unfold CheckHashOwner. rewrite Hsel. simpl. rewrite Hname.
  rewrite !SimpleCH_Next_owner by (apply Hsp || apply Hsp').
  rewrite (ring_nodes_unique _ _ (px_wf _ Hsp') (px_wf _ Hsp) E).
  rewrite String.eqb_eq. split; congruence.
Qed.

Definition member_step (X : gset string) (op : proxy_op) : gset string :=
  match op with
  | PxAdd info excl _ current =>
      if current && String.eqb excl "" then {[ii_InstanceName info]} ∪ X else X
  | PxRemove name _ current => if current then X ∖ {[name]} else X
  end.

Lemma ring_proxy_members ops : ring_members (ring_proxy ops) = fold_left member_step ops ∅.
Proof.
  unfold ring_proxy, proxy_run.
  change (∅ : gset string) with (sc_owners (sp_loadBalance (NewSchedulerProxy NewSimpleCHGeneric))).
  generalize (NewSchedulerProxy NewSimpleCHGeneric). induction ops as [|op ops IH]; intros sp; [done|].
  simpl. rewrite IH. f_equal. destruct op as [info excl token current|name token current]; simpl.
  - unfold Proxy_Add. destruct (store_token_same (ii_InstanceName info) info token sp) as [_ E2].
    destruct current; [|by simpl; rewrite E2]. destruct (String.eqb excl ""); simpl; rewrite E2; [|done].
    apply add_members.
  - unfold Proxy_Remove. destruct current; repeat case_match; try done; apply remove_members.
Qed.

Definition demo_join (name : string) : proxy_op := PxAdd (mkInfo name (name ++ "-id") "") "" GreenTokenType true.

Lemma hash_owner_unique_witness :
  exists owner, (owner = "a" \/ owner = "b") /\
    forall self, (CheckHashOwner (ring_proxy [demo_join "b"; demo_join "a"]) self "key").1.2 = true
                 <-> self = owner.
Proof.
  destruct (hash_owner_unique [demo_join "a"; demo_join "b"] "key") as (owner & Hin & Hown).
  - rewrite ring_proxy_members. vm_compute. discriminate.
  - rewrite ring_proxy_members. simpl. intros name. rewrite !elem_of_union, !elem_of_singleton, elem_of_empty.
    by intros [->|[->|[]]].
  - exists owner. split.
    + rewrite ring_proxy_members in Hin. simpl in Hin.
      rewrite !elem_of_union, !elem_of_singleton, elem_of_empty in Hin. naive_solver.
    + intros self. apply Hown. rewrite !ring_proxy_members. vm_compute. reflexivity.
Defined.

(** ** The owner proxy of the lite scheduler *)

Definition owner_proxy (sp : RingProxy) (self : string) : OwnerProxy :=
  mkOwner (fun key => (CheckHashOwner sp self key).1) (fun key => (FindHashOwner sp self key).1.1).

(** C26: a session is served by one scheduler.  If two schedulers whose rings
    have the same members both let the same acquire through their checks, they
    are the same scheduler: no session is handed out by two of them. *)
Theorem acquire_single_owner {W : Type} `{ExpiryWheel W} ops1 ops2 self1 self2 env1 env2
    (ls1 ls2 : LiteScheduler W) req r1 r2 :
  ev_ownerProxy env1 = Some (owner_proxy (ring_proxy ops1) self1) ->
  ev_ownerProxy env2 = Some (owner_proxy (ring_proxy ops2) self2) ->
  ring_members (ring_proxy ops1) = ring_members (ring_proxy ops2) ->
  rq_Op req = "acquire" -> rq_NeedReverseLookup req = false ->
  Process_checks env1 req ls1 = inl r1 -> Process_checks env2 req ls2 = inl r2 ->
  self1 = self2.
Proof.
  intros E1 E2 Em Hop Hn. unfold Process_checks. rewrite Hn, Hop, E1, E2. simpl.
  set (key := schedulerOwnerKey _ _ _ _).
  assert (forall ops self, (CheckHashOwner (ring_proxy ops) self key).1.2 = true ->
            self = SimpleCH_Next (sp_loadBalance (ring_proxy ops)) key) as Hself.
  { intros ops self Ht. pose proof (ring_proxy_inv ops) as [_ _ N]. unfold CheckHashOwner, selectHashOwner in Ht.
    simpl in Ht. destruct (blank _); [done|].
    destruct (sp_FaaSSchedulers (ring_proxy ops) !! _) as [info|] eqn:Hi; [|done]. simpl in Ht.
    apply String.eqb_eq in Ht. by rewrite (N _ _ Hi) in Ht. }
  pose proof (Hself ops1 self1) as H1. pose proof (Hself ops2 self2) as H2.
  destruct (CheckHashOwner (ring_proxy ops1) self1 key) as [[o1 []] p1]; [|done].
  destruct (CheckHashOwner (ring_proxy ops2) self2 key) as [[o2 []] p2]; [|done].
  intros _ _. rewrite (H1 eq_refl), (H2 eq_refl).
  pose proof (ring_proxy_inv ops1) as [W1 _ _]. pose proof (ring_proxy_inv ops2) as [W2 _ _].
  rewrite !SimpleCH_Next_owner by (apply W1 || apply W2). by rewrite (ring_nodes_unique _ _ W1 W2 Em).
Qed.

Lemma checks_pass {W : Type} `{ExpiryWheel W} env req (ls : LiteScheduler W) proxy :
  ev_ownerProxy env = Some proxy -> rq_NeedReverseLookup req = false ->
  (ow_CheckHashOwner proxy (schedulerOwnerKey (rq_TenantID req) (rq_FuncKey req) (rq_SessionID req)
                              (rq_SessionCtxID req))).2 = true ->
  Process_checks env req ls = inl req.
Proof.
  intros E Hn Ho. unfold Process_checks. rewrite Hn, E. destruct (String.eqb _ "acquire"); [|done].
  destruct (ow_CheckHashOwner _ _) as [o b]. simpl in Ho. by subst b.
Qed.

Lemma demo_single key : (CheckHashOwner (ring_proxy [demo_join "a"]) "a" key).1.2 = true.
Proof.
  assert (ring_members (ring_proxy [demo_join "a"]) = {["a"]}) as Em.
  { rewrite ring_proxy_members. vm_compute. reflexivity. }
  pose proof (ring_proxy_inv [demo_join "a"]) as Hsp.
  destruct (selectHashOwner_ring _ key Hsp) as (info & Hsel & Hname).
  - rewrite Em. apply non_empty_singleton_L.
  - rewrite Em. by intros name ->%elem_of_singleton.
  - pose proof (Next_member _ key (px_wf _ Hsp)) as Hin. rewrite Em in Hin.
    unfold CheckHashOwner. rewrite Hsel. simpl. rewrite Hname. apply String.eqb_eq.
    specialize (Hin (non_empty_singleton_L "a")). by apply elem_of_singleton in Hin.
Qed.

Lemma acquire_single_owner_witness :
  let cfg := mkLiteConfig true true [] [] 1000 1000 in
  let env := mkEnv cfg (Some (owner_proxy (ring_proxy [demo_join "a"]) "a")) "" ""
               (fun _ => None) (fun _ => None) (fun _ => None) (fun _ => ∅) in
  let req := mkReq "acquire" "t/f/v" "t" "s1" "" 60 1 [] "" "" "" false "" in
  Process_checks env req (NewLiteScheduler liteWheel) = inl req /\ "a" = "a".
Proof.
  intros cfg env req.
  pose proof (checks_pass env req (NewLiteScheduler liteWheel) _ eq_refl eq_refl (demo_single _)) as E.
  split; [exact E|].
  exact (acquire_single_owner [demo_join "a"] [demo_join "a"] "a" "a" env env
           (NewLiteScheduler liteWheel) (NewLiteScheduler liteWheel) req req req
           eq_refl eq_refl eq_refl eq_refl eq_refl E E).
Defined.
