(* ===== verification/ScaleHint.v ===== *)
(** * Scale hints (litescheduler/scalehint.go, utils/timeoutmap.go)

    The sender of scale-up hints: its deduplication window on top of
    [TimeoutMap], and the dispatch with its redirects; and the receiver,
    [scaleHintHandler] (httpserver.go) over [HandleScaleHint]
    (faasscheduler.go).  The transport with its signature, JSON, the session
    context manager and the pool manager are parameters.  [Send] takes its lock
    twice, to claim a key and to settle the claim, and posts in between: the
    critical sections of many senders interleave, as sequences of
    [dedup_event]s.  The clock is read once for the lookup and once for the
    write of a critical section.  The cleanup goroutine does not take the
    sender's lock, but a cleanup inside a critical section removes only entries
    that the section's lookup found expired or writes anew, so that it is a
    step of its own before or after. *)
From S2P Require Import Prelude GoStrings LiteAlloc LiteSched.
From Stdlib Require Import Ascii.
#[local] Open Scope string_scope.
#[local] Open Scope Z_scope.

(** ** TimeoutMap *)
Section TimeoutMap.
Context {V : Type}.

Record item := mkItem { it_value : V; it_expireTime : Z }.
Notation TimeoutMap := (gmap string item).
Implicit Types (tm : TimeoutMap).

Definition TM_Set tm (now : Z) (key : string) (value : V) (ttl : Z) : TimeoutMap :=
  <[key := mkItem value (now + ttl)]> tm.

(** [Get] up to the point where it has read the entry without the write lock:
    a result, or the entry is expired and is going to be deleted. *)
Inductive get_read := GetMiss | GetHit (v : V) | GetExpired.
Definition TM_Get_read tm (now : Z) (key : string) : get_read :=
  match tm !! key with
  | None => GetMiss
  | Some i => if it_expireTime i <? now then GetExpired else GetHit (it_value i)
  end.

Definition TM_Delete tm (key : string) : TimeoutMap := delete key tm.

(** The whole of [Get], when nothing comes between its two critical sections. *)
Definition TM_Get tm (now : Z) (key : string) : option V * TimeoutMap :=
  match TM_Get_read tm now key with
  | GetMiss => (None, tm)
  | GetHit v => (Some v, tm)
  | GetExpired => (None, TM_Delete tm key)
  end.

Definition cleanup tm (now : Z) : TimeoutMap := filter (fun kv => it_expireTime kv.2 >= now) tm.
End TimeoutMap.
Arguments item : clear implicits.

(** ** The deduplication window *)

(** [ht_timeout] is the client's timeout, [None] without a client. *)
Record httpSender := mkSender {
  ht_dedupTTL : Z;
  ht_maxRetries : Z;
  ht_timeout : option Z
}.

Definition scaleHintHTTPTimeout : Z := 1 * Second.
Notation scaleHintMaxRetries := (2)%Z (only parsing).

Definition NewHTTPSender (acquireWaitTimeoutMs : Z) : httpSender :=
  let dedupTTL := acquireWaitTimeoutMs * Millisecond in
  mkSender (if dedupTTL <=? 0 then Second else dedupTTL) scaleHintMaxRetries (Some scaleHintHTTPTimeout).

(** A token is a pointer, compared by identity: a fresh number. *)
Record dedup := mkDedup { dd_map : gmap string (item nat); dd_next : nat }.

Definition inFlightTTL (s : httpSender) : Z :=
  match ht_timeout s with
  | Some timeout =>
      if 0 <? timeout then
        let attempts := ht_maxRetries s + 1 in
        let attempts := if attempts <? 1 then 1 else attempts in
        ht_dedupTTL s + attempts * timeout
      else ht_dedupTTL s
  | None => ht_dedupTTL s
  end.

Definition reserveDedup (s : httpSender) (d : dedup) (now now' : Z) (funcKey : string)
    : option nat * dedup :=
  match TM_Get (dd_map d) now funcKey with
  | (Some _, m) => (None, mkDedup m (dd_next d))
  | (None, m) =>
      let token := dd_next d in
      (Some token, mkDedup (TM_Set m now' funcKey token (inFlightTTL s)) (S token))
  end.

Definition finishDedup (s : httpSender) (d : dedup) (now now' : Z) (funcKey : string) (token : nat)
    (accepted : bool) : dedup :=
  match TM_Get (dd_map d) now funcKey with
  | (None, m) => mkDedup m (dd_next d)
  | (Some current, m) =>
      if negb (current =? token)%nat then mkDedup m (dd_next d)
      else if accepted then mkDedup (TM_Set m now' funcKey token (ht_dedupTTL s)) (dd_next d)
      else mkDedup (TM_Delete m funcKey) (dd_next d)
  end.

(** The critical sections of many senders, and the cleanup goroutine. *)
Inductive dedup_event :=
  | DdReserve (now now' : Z) (key : string)
  | DdFinish (now now' : Z) (key : string) (token : nat) (accepted : bool)
  | DdCleanup (now : Z).

(** The lookup time of an event. *)
Definition dd_time (e : dedup_event) : Z :=
  match e with DdReserve now _ _ | DdFinish now _ _ _ _ | DdCleanup now => now end.

(** The claims that are granted, and the state afterwards. *)
Definition dedup_step (s : httpSender) (d : dedup) (e : dedup_event) : list (string * nat) * dedup :=
  match e with
  | DdReserve now now' key =>
      let '(token, d) := reserveDedup s d now now' key in
      (match token with Some t => [(key, t)] | None => [] end, d)
  | DdFinish now now' key token accepted => ([], finishDedup s d now now' key token accepted)
  | DdCleanup now => ([], mkDedup (cleanup (dd_map d) now) (dd_next d))
  end.
Fixpoint dedup_run (s : httpSender) (d : dedup) (es : list dedup_event) : list (string * nat) * dedup :=
  match es with
  | [] => ([], d)
  | e :: es =>
      let '(g, d) := dedup_step s d e in
      let '(gs, d) := dedup_run s d es in ((g ++ gs)%list, d)
  end.

(** ** Messages *)

(** The fields of a hint that steer its sender and its receiver. *)
Record ScaleHint := mkHint {
  sh_FuncKey : string;
  sh_TenantID : string;
  sh_SessionID : string;
  sh_SessionCtxID : string;
  sh_Reason : string;
  sh_RequestedConcurrency : Z;
  sh_CurrentLocalConcurrency : Z;
  sh_CurrentLocalCapacity : Z;
  sh_SchedulerID : string;
  sh_TraceID : string;
  sh_RequestID : string
}.

Record ScaleHintResponse := mkHintResp { hr_ErrorCode : Z; hr_ErrorMessage : string }.
Definition StatusOK : Z := 200.
Definition StatusAccepted : Z := 202.
Definition StatusBadRequest : Z := 400.
Definition HTTPInternalServerError : Z := 500.
Notation StatusInternalServerError := (150500)%Z (only parsing).
Notation SessionCtxDeletingErrCode := (150480)%Z (only parsing).

Definition noopSend (hint : option ScaleHint) : option ScaleHintResponse + string := inl None.

(** The key of a hint in the window. *)
Definition dedupKey (hint : ScaleHint) : string :=
  if negb (String.eqb (sh_SessionCtxID hint) "") then JoinKey [sh_FuncKey hint; sh_SessionCtxID hint]
  else sh_FuncKey hint.

Section Dispatch.
(** JSON of responses; the POST of the [attempt]-th try to an address: status,
    body, error; the proxy's lookups. *)
Context (decode : string -> option ScaleHintResponse)
  (post : nat -> string -> Z * string * option string)
  (findHashOwner findByID : string -> option InstanceInfo).

Definition parseNonOwnerRedirect (statusCode : Z) (body : string) : string :=
  if negb (statusCode =? StatusOK) then ""
  else match decode body with
       | None => ""
       | Some hintResp =>
           if hr_ErrorCode hintResp =? AcquireNonOwnerSchedulerErrorCode then hr_ErrorMessage hintResp else ""
       end.

(** What [sendWithRetry] returns for an answer that redirects nowhere. *)
Definition dropResult (respBody : string) (err : option string) : option ScaleHintResponse + string :=
  match (if negb (String.eqb respBody "") then decode respBody else None) with
  | Some response => inl (Some response)
  | None => match err with Some e => inr e | None => inr "scaleHint failed with HTTP status" end
  end.

(** [retries] is [maxRetries - attempt].  The addresses posted to come first. *)
Fixpoint sendWithRetry (retries attempt : nat) (owner : InstanceInfo)
    : list string * (option ScaleHintResponse + string) :=
  let addr := ii_Address owner in
  let '(statusCode, respBody, err) := post attempt addr in
  if match err with None => statusCode =? StatusAccepted | Some _ => false end
  then ([addr], inl (Some (mkHintResp 0 "")))
  else
    let newOwnerID := parseNonOwnerRedirect statusCode respBody in
    if String.eqb newOwnerID "" then ([addr], dropResult respBody err)
    else match retries with
         | O => ([addr], inr "scaleHint reroute retries exhausted")
         | S retries =>
             match findByID newOwnerID with
             | None => ([addr], inr "redirected scaleHint owner unavailable")
             | Some next =>
                 if String.eqb (ii_Address next) "" then ([addr], inr "redirected scaleHint owner unavailable")
                 else let '(posts, res) := sendWithRetry retries (S attempt) next in (addr :: posts, res)
             end
         end.

(** [Send] between its two critical sections; the hint has only strings and
    numbers, so that its encoding does not fail. *)
Definition Send_dispatch (s : httpSender) (hint : ScaleHint)
    : list string * (option ScaleHintResponse + string) :=
  match findHashOwner (sh_FuncKey hint) with
  | None => ([], inr "scaleHint owner not found")
  | Some owner =>
      if String.eqb (ii_Address owner) "" then ([], inr "scaleHint owner address is empty")
      else sendWithRetry (Z.to_nat (ht_maxRetries s)) 0 owner
  end.

(** [accepted], with which [Send] settles its claim. *)
Definition Send_accepted (res : option ScaleHintResponse + string) : bool :=
  match res with
  | inl None => true
  | inl (Some response) => hr_ErrorCode response =? 0
  | inr _ => false
  end.

(** [Send] when nobody comes between its critical sections: the claim is taken
    at [t0] and settled at [t1]. *)
Definition Send (s : httpSender) (d : dedup) (t0 t1 : Z) (hint : option ScaleHint)
    : list string * (option ScaleHintResponse + string) * dedup :=
  match hint with
  | None => ([], inl None, d)
  | Some hint =>
      match reserveDedup s d t0 t0 (dedupKey hint) with
      | (None, d) => ([], inl None, d)
      | (Some token, d) =>
          let '(posts, res) := Send_dispatch s hint in
          (posts, res, finishDedup s d t1 t1 (dedupKey hint) token (Send_accepted res))
      end
  end.
End Dispatch.

(** ** The receiver *)

(** An error of the session context manager, as [errors.As] and the type
    assertion see it: the code of a manager error in its chain, the code and
    text of an SNError, its text. *)
Record manager_error := mkMErr {
  me_manager : option string;
  me_sn : option (Z * string);
  me_text : string
}.

(** What a receiving scheduler consists of, for a hint. *)
Record receiver := mkReceiver {
  rc_CheckFuncOwner : string -> string * bool;
  rc_hasFuncSpec : string -> bool;
  rc_contextManager : option (ScaleHint -> string -> option manager_error);
  rc_TriggerScale : string -> Z -> option string
}.

Definition managerErrResult (err : manager_error) : bool * Z * string :=
  let other := match me_sn err with
               | Some (code, text) => (false, code, text)
               | None => (false, StatusInternalServerError, me_text err)
               end in
  match me_manager err with
  | None => other
  | Some code =>
      if String.eqb code "SESSION_CTX_DELETING" then (false, SessionCtxDeletingErrCode, code)
      else if String.eqb code "FUNCTION_NOT_FOUND" then (false, FuncMetaNotFoundErrCode, code)
      else if String.eqb code "INVALID_SESSION_CONTEXT" then (false, InstanceSessionInvalidErrCode, code)
      else other
  end.

Definition HandleScaleHint (fs : receiver) (hint : ScaleHint) (traceID : string) : bool * Z * string :=
  let traceID := if String.eqb traceID "" then sh_TraceID hint else traceID in
  let '(owner, ok) := rc_CheckFuncOwner fs (sh_FuncKey hint) in
  if negb ok then (false, AcquireNonOwnerSchedulerErrorCode, owner)
  else if negb (rc_hasFuncSpec fs (sh_FuncKey hint)) then (false, FuncMetaNotFoundErrCode, "")
  else if negb (String.eqb (sh_SessionCtxID hint) "") then
    match rc_contextManager fs with
    | None => (false, StatusInternalServerError, "SessionContext manager is unavailable")
    | Some manager =>
        match manager hint traceID with
        | Some err => managerErrResult err
        | None => (true, 0, "")
        end
    end
  else match rc_TriggerScale fs (sh_FuncKey hint) (sh_RequestedConcurrency hint) with
       | Some _ => (false, StatusInternalServerError, "")
       | None => (true, 0, "")
       end.

(** The response: status and body.  [fs] is [None] before the scheduler is
    created; a response of a number and a string does encode. *)
Definition scaleHintHandler (decodeHint : string -> option ScaleHint) (encode : ScaleHintResponse -> string)
    (isShutDown : bool) (fs : option receiver) (reqBody traceID : string) : Z * string :=
  if isShutDown then (StatusOK, "") else
  match decodeHint reqBody with
  | None => (StatusBadRequest, "")
  | Some hint =>
      if String.eqb (sh_FuncKey hint) "" then (StatusBadRequest, "") else
      match fs with
      | None => (HTTPInternalServerError, "")
      | Some fs =>
          let '(accepted, errCode, ownerID) := HandleScaleHint fs hint traceID in
          if accepted then (StatusAccepted, "") else (StatusOK, encode (mkHintResp errCode ownerID))
      end
  end.

(** ** The window holds *)

Section Window.
Context (s : httpSender).

(** [tok] holds the claim on [key] until [exp]. *)
Definition claimed (d : dedup) (key : string) (tok : nat) (exp : Z) : Prop :=
  dd_map d !! key = Some (mkItem tok exp).

(** An event that settles the claim of [tok] on [key]. *)
Definition settles (key : string) (tok : nat) (e : dedup_event) : Prop :=
  match e with DdFinish _ _ k t _ => k = key /\ t = tok | _ => False end.

Definition granted_on (key : string) (gs : list (string * nat)) : list (string * nat) :=
  filter (fun g => g.1 = key) gs.

Lemma Get_live {V} (m : gmap string (item V)) now key v exp :
  m !! key = Some (mkItem v exp) -> now <= exp -> TM_Get m now key = (Some v, m).
Proof.
  intros E H. unfold TM_Get, TM_Get_read. rewrite E. simpl.
  by destruct (Z.ltb_spec exp now); [lia|].
Qed.

Lemma Get_other {V} (m : gmap string (item V)) now key key' :
  key' <> key -> (TM_Get m now key').2 !! key = m !! key.
Proof.
  intros H. unfold TM_Get, TM_Delete. destruct (TM_Get_read m now key'); simpl; [done..|].
  by rewrite lookup_delete_ne.
Qed.

(** Until it expires a claim survives whatever does not settle it, and nobody
    else gets one for its key. *)
Lemma claimed_step d key tok exp e :
  claimed d key tok exp -> dd_time e <= exp -> ~ settles key tok e ->
  claimed (dedup_step s d e).2 key tok exp /\ granted_on key (dedup_step s d e).1 = [].
Proof.
  unfold claimed. intros Hc Ht Hs. destruct e as [now now' k|now now' k t acc|now]; simpl in *.
  - unfold reserveDedup. destruct (decide (k = key)) as [->|Hk].
    + rewrite (Get_live _ _ _ _ _ Hc Ht). done.
    + pose proof (Get_other (dd_map d) now key k Hk) as Ho.
      destruct (TM_Get (dd_map d) now k) as [[v|] m]; simpl in *; [by rewrite Ho|].
      unfold TM_Set, granted_on. rewrite lookup_insert_ne, Ho by done. split; [done|].
      by rewrite filter_cons_False, filter_nil.
  - split; [|done]. unfold finishDedup. destruct (decide (k = key)) as [->|Hk].
    + rewrite (Get_live _ _ _ _ _ Hc Ht). destruct (Nat.eqb_spec tok t) as [->|]; [naive_solver|done].
    + pose proof (Get_other (dd_map d) now key k Hk) as Ho.
      destruct (TM_Get (dd_map d) now k) as [[v|] m]; simpl in *; [|by rewrite Ho].
      unfold TM_Set, TM_Delete. repeat case_match; simpl;
        rewrite ?lookup_insert_ne, ?lookup_delete_ne by done; by rewrite Ho.
  - split; [|done]. unfold cleanup. apply map_lookup_filter_Some. simpl. split; [done|lia].
Qed.

Lemma claimed_run es : forall d key tok exp,
  claimed d key tok exp -> Forall (fun e => dd_time e <= exp /\ ~ settles key tok e) es ->
  claimed (dedup_run s d es).2 key tok exp /\ granted_on key (dedup_run s d es).1 = [].
Proof.
  induction es as [|e es IH]; intros d key tok exp Hc Hes; [done|].
  apply Forall_cons in Hes as [[Ht Hs] Hes]. simpl.
  pose proof (claimed_step d key tok exp e Hc Ht Hs) as [Hc1 Hg1].
  destruct (dedup_step s d e) as [g d1]. simpl in *.
  pose proof (IH d1 key tok exp Hc1 Hes) as [Hc2 Hg2].
  destruct (dedup_run s d1 es) as [gs d2]. simpl in *. split; [done|].
  unfold granted_on in *. by rewrite filter_app, Hg1, Hg2.
Qed.

Lemma reserve_claims d now now' key tok d1 :
  reserveDedup s d now now' key = (Some tok, d1) -> claimed d1 key tok (now' + inFlightTTL s).
Proof.
  unfold reserveDedup, claimed. destruct (TM_Get (dd_map d) now key) as [[v|] m]; [done|].
  intros [= <- <-]. simpl. unfold TM_Set. by rewrite lookup_insert_eq.
Qed.

Lemma finish_accepts d now now' key tok exp :
  claimed d key tok exp -> now <= exp ->
  claimed (finishDedup s d now now' key tok true) key tok (now' + ht_dedupTTL s).
Proof.
  intros Hc H. unfold finishDedup. rewrite (Get_live _ _ _ _ _ Hc H), Nat.eqb_refl. simpl.
  unfold claimed, TM_Set. simpl. by rewrite lookup_insert_eq.
Qed.

Lemma finish_releases d now now' key tok exp :
  claimed d key tok exp -> now <= exp -> dd_map (finishDedup s d now now' key tok false) !! key = None.
Proof.
  intros Hc H. unfold finishDedup. rewrite (Get_live _ _ _ _ _ Hc H), Nat.eqb_refl. simpl.
  unfold TM_Delete. by rewrite lookup_delete_eq.
Qed.
End Window.

(** C33: one hint per window.  A sender that is granted the claim on a key is
    alone with it: whatever other senders and the cleanup do, no other claim on
    the key is granted while it is in flight and its in-flight time has not
    passed; nor, once it settles as accepted within that time, during the
    deduplication window from then on; while if it settles as failed, the next
    sender is granted the key at once. *)
Theorem dedup_window s d now now' key tok d1 es f f' es' :
  reserveDedup s d now now' key = (Some tok, d1) ->
  Forall (fun e => dd_time e <= now' + inFlightTTL s /\ ~ settles key tok e) es ->
  f <= now' + inFlightTTL s ->
  Forall (fun e => dd_time e <= f' + ht_dedupTTL s /\ ~ settles key tok e) es' ->
  let d2 := (dedup_run s d1 es).2 in
  granted_on key (dedup_run s d1 es).1 = [] /\
  granted_on key (dedup_run s (finishDedup s d2 f f' key tok true) es').1 = [] /\
  forall t t', is_Some (reserveDedup s (finishDedup s d2 f f' key tok false) t t' key).1.
Proof.
  intros Hr Hes Hf Hes' d2. apply reserve_claims in Hr as Hc.
  destruct (claimed_run s es _ _ _ _ Hc Hes) as [Hc2 Hg].
  fold d2 in Hc2. split; [done|]. split.
  - eapply claimed_run; [by eapply finish_accepts|done].
  - intros t t'. pose proof (finish_releases s d2 f f' key tok _ Hc2 Hf) as E.
    unfold reserveDedup, TM_Get, TM_Get_read. rewrite E. by eexists.
Qed.

Lemma dedup_window_witness :
  let s := NewHTTPSender 5000 in
  let d := mkDedup ∅ 0 in
  let d1 := (reserveDedup s d 0 0 "f").2 in
  let es := [DdReserve Second Second "f"; DdReserve Second Second "g"; DdCleanup (6 * Second)] in
  let d2 := (dedup_run s d1 es).2 in
  (dedup_run s d1 es).1 = [("g", 1%nat)] /\
  granted_on "f" (dedup_run s (finishDedup s d2 (7 * Second) (7 * Second) "f" 0 true)
                    [DdReserve (12 * Second) (12 * Second) "f"]).1 = [].
Proof.
  intros s d d1 es d2. split; [vm_compute; reflexivity|].
  apply (dedup_window s d 0 0 "f" 0 d1 es (7 * Second) (7 * Second)
           [DdReserve (12 * Second) (12 * Second) "f"]).
  - vm_compute; reflexivity.
  - repeat constructor; vm_compute; intuition congruence.
  - vm_compute. congruence.
  - repeat constructor; vm_compute; intuition congruence.
Defined.

(** ** Redirects lead to the owner *)

Section Redirects.
Context (decode : string -> option ScaleHintResponse) (encode : ScaleHintResponse -> string)
  (decodeHint : string -> option ScaleHint)
  (net : string -> option receiver) (findByID : string -> option InstanceInfo)
  (hint : ScaleHint) (reqBody traceID : string).

(** A POST over a transport that does not fail, to schedulers that are up. *)
Definition net_post (attempt : nat) (addr : string) : Z * string * option string :=
  (scaleHintHandler decodeHint encode false (net addr) reqBody traceID, None).

(** [c] redirects to the first of [rest], and so on; the last one accepts. *)
Fixpoint redirect_chain (c : InstanceInfo) (rest : list InstanceInfo) : Prop :=
  match rest with
  | [] => exists fs, net (ii_Address c) = Some fs /\ HandleScaleHint fs hint traceID = (true, 0, "")
  | next :: rest =>
      (exists fs id, net (ii_Address c) = Some fs /\ rc_CheckFuncOwner fs (sh_FuncKey hint) = (id, false) /\
         id <> "" /\ findByID id = Some next /\ ii_Address next <> "") /\ redirect_chain next rest
  end.

Hypothesis hint_decodes : decodeHint reqBody = Some hint.
Hypothesis hint_key : sh_FuncKey hint <> "".
Hypothesis redirect_roundtrip : forall id,
  decode (encode (mkHintResp AcquireNonOwnerSchedulerErrorCode id)) =
  Some (mkHintResp AcquireNonOwnerSchedulerErrorCode id).

Lemma handler_up addr fs :
  net addr = Some fs ->
  scaleHintHandler decodeHint encode false (net addr) reqBody traceID =
  let '(accepted, errCode, ownerID) := HandleScaleHint fs hint traceID in
  if (accepted : bool) then (StatusAccepted, "") else (StatusOK, encode (mkHintResp errCode ownerID)).
Proof.
  intros E. unfold scaleHintHandler. rewrite hint_decodes, E.
  by destruct (String.eqb_spec (sh_FuncKey hint) "").
Qed.

Lemma handler_redirects addr fs id :
  net addr = Some fs -> rc_CheckFuncOwner fs (sh_FuncKey hint) = (id, false) ->
  scaleHintHandler decodeHint encode false (net addr) reqBody traceID =
  (StatusOK, encode (mkHintResp AcquireNonOwnerSchedulerErrorCode id)).
Proof. intros E Hc. rewrite (handler_up _ _ E). unfold HandleScaleHint. by rewrite Hc. Qed.

Lemma sendWithRetry_chain rest : forall retries attempt c,
  redirect_chain c rest ->
  sendWithRetry decode net_post findByID retries attempt c =
  if bool_decide (length rest <= retries)%nat
  then (ii_Address <$> c :: rest, inl (Some (mkHintResp 0 "")))
  else (ii_Address <$> take (S retries) (c :: rest), inr "scaleHint reroute retries exhausted").
Proof.
  induction rest as [|next rest IH]; intros retries attempt c Hc.
  - destruct Hc as (fs & Hn & Ha). rewrite bool_decide_true by (simpl; lia).
    destruct retries; cbn [sendWithRetry]; unfold net_post; by rewrite (handler_up _ _ Hn), Ha.
  - destruct Hc as [(fs & id & Hn & Ho & Hid & Hf & Had) Hc].
    assert (parseNonOwnerRedirect decode StatusOK
              (encode (mkHintResp AcquireNonOwnerSchedulerErrorCode id)) = id) as Hp.
    { unfold parseNonOwnerRedirect. simpl. by rewrite redirect_roundtrip. }
    destruct retries as [|retries]; cbn [sendWithRetry]; unfold net_post;
      rewrite (handler_redirects _ _ _ Hn Ho), Hp; simpl (StatusOK =? _); cbv iota;
      (destruct (String.eqb_spec id "") as [|_]; [done|]); [by rewrite bool_decide_false by (simpl; lia)|].
    rewrite Hf. destruct (String.eqb_spec (ii_Address next) "") as [|_]; [done|].
    fold net_post. rewrite (IH retries (S attempt) next Hc). simpl length.
    by destruct (decide (length rest <= retries)%nat);
      [rewrite !bool_decide_true by lia|rewrite !bool_decide_false by lia].
Qed.

(** Redirects lead to the owner, in bounded work.  When schedulers redirect
    a hint along a chain that ends with one that accepts it, a sender that
    starts at the chain's head posts to its members in their order, and it is
    accepted if the chain takes no more redirects than the sender's bound;
    otherwise it gives up after the bound, with one post more than that. *)
Theorem redirects_followed s c rest :
  redirect_chain c rest -> ii_Address c <> "" ->
  let '(posts, res) := Send_dispatch decode net_post (fun _ => Some c) findByID s hint in
  let bound := Z.to_nat (ht_maxRetries s) in
  posts = take (S bound) (ii_Address <$> c :: rest) /\
  (Send_accepted res = true <-> (length rest <= bound)%nat).
Proof.
  intros Hc Had. unfold Send_dispatch. destruct (String.eqb_spec (ii_Address c) "") as [|_]; [done|].
  rewrite (sendWithRetry_chain rest _ _ _ Hc).
  destruct (decide (length rest <= Z.to_nat (ht_maxRetries s))%nat) as [H|H].
  - rewrite bool_decide_true by done. split; [|done].
    by rewrite take_ge by (rewrite length_fmap; simpl; lia).
  - rewrite bool_decide_false by done. by rewrite fmap_take.
Qed.
End Redirects.

(** Three schedulers: [a] redirects to [b] and [b] to [c], which accepts. *)
Definition three_net (addr : string) : option receiver :=
  let rc id ok := mkReceiver (fun _ => (id, ok)) (fun _ => true) None (fun _ _ => None) in
  if String.eqb addr "a:1" then Some (rc "ib" false)
  else if String.eqb addr "b:1" then Some (rc "ic" false)
  else if String.eqb addr "c:1" then Some (rc "ic" true) else None.
Definition three_find (id : string) : option InstanceInfo :=
  if String.eqb id "ib" then Some (mkInfo "b" "ib" "b:1")
  else if String.eqb id "ic" then Some (mkInfo "c" "ic" "c:1") else None.
Definition small_encode (r : ScaleHintResponse) : string :=
  if hr_ErrorCode r =? AcquireNonOwnerSchedulerErrorCode then String "R"%char (hr_ErrorMessage r) else "E".
Definition small_decode (body : string) : option ScaleHintResponse :=
  match body with
  | String "R"%char m => Some (mkHintResp AcquireNonOwnerSchedulerErrorCode m)
  | _ => None
  end.
Definition small_hint : ScaleHint := mkHint "t/f/v" "t" "s1" "" "cold_start" 1 0 0 "a" "trace" "r1".

Lemma redirects_followed_witness :
  let '(posts, res) := Send_dispatch small_decode
      (net_post small_encode (fun _ => Some small_hint) three_net "hint" "trace")
      (fun _ => Some (mkInfo "a" "ia" "a:1")) three_find (NewHTTPSender 5000) small_hint in
  posts = ["a:1"; "b:1"; "c:1"] /\ (Send_accepted res = true <-> (2 <= 2)%nat).
Proof.
  apply (redirects_followed small_decode small_encode (fun _ => Some small_hint) three_net three_find
           small_hint "hint" "trace" eq_refl ltac:(discriminate) (fun _ => eq_refl)
           (NewHTTPSender 5000) (mkInfo "a" "ia" "a:1") [mkInfo "b" "ib" "b:1"; mkInfo "c" "ic" "c:1"]);
    [|discriminate].
  repeat split; eauto 10; repeat (eexists; repeat split; try reflexivity; try discriminate).
Defined.

(** ** What the window does not do *)

(** An answer that reports a failure but whose body decodes without an
    error code, such as an HTTP 500 with an empty JSON object, counts as
    accepted: the claim is kept for the whole window, and the next hint for the
    key is dropped. *)
Theorem failed_hint_keeps_claim decode findByID s hint owner body t0 t1 t2 :
  decode body = Some (mkHintResp 0 "") -> body <> "" -> ii_Address owner <> "" ->
  t1 <= t0 + inFlightTTL s -> t2 <= t1 + ht_dedupTTL s ->
  let send d t := Send decode (fun _ _ => (HTTPInternalServerError, body, None)) (fun _ => Some owner)
                    findByID s d t t (Some hint) in
  let '(posts, _, d) := Send decode (fun _ _ => (HTTPInternalServerError, body, None)) (fun _ => Some owner)
                    findByID s (mkDedup ∅ 0) t0 t1 (Some hint) in
  posts = [ii_Address owner] /\ (send d t2).1.1 = [].
Proof.
  intros Hd Hb Ha H1 H2 send. subst send. unfold Send at 1. unfold reserveDedup at 1, TM_Get, TM_Get_read.
  simpl. rewrite lookup_empty. unfold Send_dispatch at 1.
  destruct (String.eqb_spec (ii_Address owner) "") as [|_]; [done|].
  assert (sendWithRetry decode (fun _ _ => (HTTPInternalServerError, body, None)) findByID
            (Z.to_nat (ht_maxRetries s)) 0 owner = ([ii_Address owner], inl (Some (mkHintResp 0 "")))) as ->.
  { destruct (Z.to_nat _); simpl; unfold dropResult; destruct (String.eqb_spec body "") as [|_];
      [done|simpl; by rewrite Hd|done|simpl; by rewrite Hd]. }
  split; [done|]. simpl Send_accepted. set (d := finishDedup _ _ _ _ _ _ _).
  assert (claimed d (dedupKey hint) 0 (t1 + ht_dedupTTL s)) as Hc.
  { apply (finish_accepts s _ _ _ _ _ (t0 + inFlightTTL s)); [|done].
    unfold claimed, TM_Set. simpl. by rewrite lookup_insert_eq. }
  unfold Send, reserveDedup. by rewrite (Get_live _ _ _ _ _ Hc H2).
Qed.

Lemma failed_hint_keeps_claim_witness :
  let d := (Send (fun _ => Some (mkHintResp 0 "")) (fun _ _ => (HTTPInternalServerError, "{}", None))
              (fun _ => Some (mkInfo "a" "ia" "a:1")) three_find (NewHTTPSender 5000) (mkDedup ∅ 0)
              0 Second (Some small_hint)).2 in
  (Send (fun _ => Some (mkHintResp 0 "")) (fun _ _ => (HTTPInternalServerError, "{}", None))
     (fun _ => Some (mkInfo "a" "ia" "a:1")) three_find (NewHTTPSender 5000) d
     (6 * Second) (6 * Second) (Some small_hint)).1.1 = [].
Proof.
  apply (failed_hint_keeps_claim (fun _ => Some (mkHintResp 0 "")) three_find (NewHTTPSender 5000) small_hint
           (mkInfo "a" "ia" "a:1") "{}" 0 Second (6 * Second)); try discriminate; try reflexivity;
    vm_compute; congruence.
Defined.
