(* ===== verification/SessionCtx.v ===== *)
(** * Session contexts (sessioncontextmanager, sessioncontextregistry)

    The manager of persistent session contexts: a context is a history of
    turns and events in a key-value store, with a control record while it is
    being forked or deleted, and an entry in the registry of its function.
    [Fork] copies a history up to a completed turn, [Delete] removes one; both
    can fail between any two store operations and are repeated by the caller.

    The operations run in an error and state monad over [world].  The store
    is shared with the runtimes and fallible: every operation takes the next
    [outcome], and a failed write may or may not have reached the store.
    Values are kept decoded, one constructor per record type: JSON is read
    back as it was written, and [VRaw] stands for bytes that do not decode.  A
    key is only written with the record type of its kind, so that no key is
    read at another type; the model answers such a read as it does [VRaw].  The
    instance pool is asked to create and stop instances ([w_requests]); what
    it holds changes only by steps of the outside.  The locks of a context
    make the operations on one context sequential; the operations are the
    bodies that run under them.  The clock is a parameter, read once per
    [now]. *)
From S2P Require Import Prelude GoStrings LiteAlloc LiteSched ScaleHint.
From Stdlib Require Import Ascii.
#[local] Open Scope string_scope.
#[local] Open Scope Z_scope.

(** ** Records *)

Notation StateCreating := "CREATING" (only parsing).
Notation StateReady := "READY" (only parsing).
Notation StateDeleting := "DELETING" (only parsing).

Record ControlRecord := mkControl {
  cr_SchemaVersion : Z;
  cr_State : string;
  cr_ForkedFrom : string;
  cr_ForkTurnID : string;
  cr_ForkTurnIndex : Z;
  cr_ForkSeq : Z;
  cr_CopiedTurn : Z;
  cr_CopiedSeq : Z;
  cr_DeleteTurnUpperBound : Z;
  cr_DeleteSeqUpperBound : Z;
  cr_CreatedAt : string;
  cr_UpdatedAt : string
}.

Record TurnRecord := mkTurn {
  tr_SessionContextID : string;
  tr_TurnIndex : Z;
  tr_TurnID : string;
  tr_StartSeq : Z;
  tr_CreatedAt : string;
  tr_SchemaVersion : Z
}.

Record Event := mkEvent {
  ev_SessionContextID : string;
  ev_TurnID : string;
  ev_Seq : Z;
  ev_EventID : string;
  ev_Source : string;
  ev_Type : string;
  ev_Data : string;
  ev_SchemaVersion : Z;
  ev_CreatedAt : string
}.

Record ForkRequest := mkForkReq {
  fr_TenantID : string;
  fr_FuncKey : string;
  fr_FunctionURN : string;
  fr_SourceSessionCtxID : string;
  fr_TargetSessionCtxID : string;
  fr_TurnID : string;
  fr_TraceID : string
}.

Record ForkResponse := mkForkResp { fp_SessionContextID : string; fp_State : string }.

Record DeleteRequest := mkDeleteReq {
  dr_TenantID : string;
  dr_FuncKey : string;
  dr_FunctionURN : string;
  dr_SessionCtxID : string;
  dr_TraceID : string
}.

(** The registry of a function name, over all its versions. *)
Record Entry := mkEntry { en_FunctionVersion : string; en_SessionContextID : string; en_CreatedAt : string }.
Record Registry := mkRegistry { rg_SchemaVersion : Z; rg_SessionContexts : list Entry }.
Record Request := mkRequest {
  rr_TenantID : string;
  rr_RegisteredName : string;
  rr_FunctionVersion : string;
  rr_SessionContextID : string
}.

(** What the manager reads of an instance and of a function specification. *)
Record CtxInstance := mkCtxInstance {
  ci_InstanceID : string;
  ci_SessionCtxID : option string;
  ci_StatusCode : Z
}.
Record FuncMeta := mkFuncMeta { fm_Name : string; fm_Version : string }.

(** ** Keys *)

(** A string as [json.Encoder] writes it without HTML escapes; text is taken
    to be valid UTF-8 without line separators. *)
Definition json_char (c : ascii) : string :=
  let n := Z.of_nat (nat_of_ascii c) in
  let esc (d : Z) := String (ascii_of_nat 92) (String (ascii_of_nat (Z.to_nat d)) "") in
  if (n =? 34) || (n =? 92) then esc n
  else if n =? 8 then esc 98 else if n =? 12 then esc 102 else if n =? 10 then esc 110
  else if n =? 13 then esc 114 else if n =? 9 then esc 116
  else if n <? 32 then esc 117 ++ "00" ++ String (hex_digit (Z.shiftr n 4)) (String (hex_digit (Z.land n 15)) "")
  else String c "".
Fixpoint json_body (s : string) : string :=
  match s with EmptyString => "" | String c s => json_char c ++ json_body s end.
Definition quote : string := String (ascii_of_nat 34) "".
Definition json_strings (parts : list string) : string :=
  "[" ++ Join "," (map (fun s => quote ++ json_body s ++ quote) parts) ++ "]".

Definition hashParts (parts : list string) : string :=
  String.substring 0 32 (EncodeToString (SHA256.Sum256 (bytes_of (json_strings parts)))).

(** The part after the last at sign. *)
Definition runtimeFunctionName (registeredName : string) : string :=
  default registeredName (last (Split "@" registeredName)).

Definition sessionPrefix (tenantID registeredName version sessionCtxID : string) : string :=
  "ar:s:" ++ hashParts [tenantID; runtimeFunctionName registeredName; version] ++ ":" ++ hashParts [sessionCtxID].
Definition TurnKey (tenantID registeredName version sessionCtxID : string) (index : Z) : string :=
  sessionPrefix tenantID registeredName version sessionCtxID ++ ":t" ++ Itoa index.
Definition EventKey (tenantID registeredName version sessionCtxID : string) (seq : Z) : string :=
  sessionPrefix tenantID registeredName version sessionCtxID ++ ":e" ++ Itoa seq.
Definition ControlKey (tenantID registeredName version sessionCtxID : string) : string :=
  sessionPrefix tenantID registeredName version sessionCtxID ++ ":c".

(** [Key] of the registry. *)
Definition registryKey (registeredName : string) : string := "ar:i:" ++ hashParts [registeredName].

Definition operationKey (funcKey sessionCtxID : string) : string := JoinKey [funcKey; sessionCtxID].

(** ** The world of an operation *)

(** What becomes of a call to the store or the pool: it succeeds, it fails
    without effect, or it has its effect and reports a failure. *)
Inductive outcome := OutOk | OutLost | OutApplied.

Inductive value :=
| VTurn (t : TurnRecord)
| VEvent (e : Event)
| VControl (c : ControlRecord)
| VRegistry (r : Registry)
| VRaw (bytes : string).

(** The store, by tenant and key. *)
Notation DB := (gmap (string * string) value).

(** [runtimeOperation]; the channel [CreateDone] has no reader. *)
Record runtimeOperation := mkOp { op_Creating : bool; op_PendingScale : bool; op_LastError : bool }.

Inductive PoolCall :=
| PcCreate (spec : FuncMeta) (sessionCtxID : string)
| PcDelete (instanceID : string).

(** [w_outcomes] runs out into success; [w_spawned] are the hints handled by
    goroutines the operation started. *)
Record world := mkWorld {
  w_db : DB;
  w_outcomes : list outcome;
  w_ticks : nat;
  w_pool : gmap string (list CtxInstance);
  w_requests : list PoolCall;
  w_operations : gmap string runtimeOperation;
  w_spawned : list ScaleHint
}.

(** [EMgr] is [Error] with its code; [EFuel] is never raised. *)
Inductive ctx_error := EStore | EDecode | EScope | ESchema | EPool | EMgr (code : string) | EFuel.

Definition CM (A : Type) : Type := world -> (A + ctx_error) * world.

#[global] Instance CM_ret : MRet CM := fun A a w => (inl a, w).
#[global] Instance CM_bind : MBind CM := fun A B k c w =>
  match c w with
  | (inl a, w) => k a w
  | (inr e, w) => (inr e, w)
  end.
Definition raise {A} (e : ctx_error) : CM A := fun w => (inr e, w).

(** The next outcome. *)
Definition pop (w : world) : outcome * world :=
  match w_outcomes w with
  | [] => (OutOk, w)
  | o :: os => (o, mkWorld (w_db w) os (w_ticks w) (w_pool w) (w_requests w) (w_operations w) (w_spawned w))
  end.
Definition set_db (d : DB) (w : world) : world :=
  mkWorld d (w_outcomes w) (w_ticks w) (w_pool w) (w_requests w) (w_operations w) (w_spawned w).
Definition set_operations (ops : gmap string runtimeOperation) (w : world) : world :=
  mkWorld (w_db w) (w_outcomes w) (w_ticks w) (w_pool w) (w_requests w) ops (w_spawned w).

(** A write or a delete: [f] is its effect. *)
Definition st_update (f : DB -> DB) : CM () := fun w =>
  match pop w with
  | (OutOk, w) => (inl (), set_db (f (w_db w)) w)
  | (OutLost, w) => (inr EStore, w)
  | (OutApplied, w) => (inr EStore, set_db (f (w_db w)) w)
  end.

(** [DataSystemStore]: a missing key is not an error. *)
Definition st_Get (key tenantID : string) : CM (option value) := fun w =>
  match pop w with
  | (OutOk, w) => (inl (w_db w !! (tenantID, key)), w)
  | (_, w) => (inr EStore, w)
  end.
Definition st_Put (key : string) (v : value) (tenantID : string) : CM () := st_update <[(tenantID, key) := v]>.
Definition st_Delete (key tenantID : string) : CM () := st_update (delete (tenantID, key)).

(** A request to the pool. *)
Definition pool_call (c : PoolCall) : CM () := fun w =>
  match pop w with
  | (o, w) =>
      let w' := mkWorld (w_db w) (w_outcomes w) (w_ticks w) (w_pool w) (w_requests w ++ [c]) (w_operations w) (w_spawned w) in
      match o with OutOk => (inl (), w') | OutLost => (inr EPool, w) | OutApplied => (inr EPool, w') end
  end.
Definition ListInstances (funcKey : string) : CM (list CtxInstance) := fun w =>
  (inl (default [] (w_pool w !! funcKey)), w).

(** [m.operations[key]] under [opMu]. *)
Definition update_op (key : string) (f : runtimeOperation -> runtimeOperation) : CM () := fun w =>
  (inl (), set_operations (<[key := f (default (mkOp false false false) (w_operations w !! key))]> (w_operations w)) w).

Section Manager.
Context (clock : nat -> string).
Context (getFunc : string -> option FuncMeta).

Definition now : CM string := fun w =>
  (inl (clock (w_ticks w)),
   mkWorld (w_db w) (w_outcomes w) (S (w_ticks w)) (w_pool w) (w_requests w) (w_operations w) (w_spawned w)).

(** ** The registry *)

Definition incomplete (req : Request) : bool :=
  String.eqb (rr_TenantID req) "" || String.eqb (rr_RegisteredName req) ""
  || String.eqb (rr_FunctionVersion req) "" || String.eqb (rr_SessionContextID req) "".

Definition is_entry (req : Request) (entry : Entry) : bool :=
  String.eqb (en_FunctionVersion entry) (rr_FunctionVersion req)
  && String.eqb (en_SessionContextID entry) (rr_SessionContextID req).

Definition decodeRegistry (v : value) : CM Registry :=
  match v with VRegistry r => mret r | _ => raise EDecode end.

Definition Register (req : Request) : CM () :=
  if incomplete req then raise EScope else
  let key := registryKey (rr_RegisteredName req) in
  raw ← st_Get key (rr_TenantID req);
  registry ← match raw with
             | None => mret (mkRegistry 1 [])
             | Some v =>
                 registry ← decodeRegistry v;
                 if negb (rg_SchemaVersion registry =? 1) then raise ESchema else mret registry
             end;
  if existsb (is_entry req) (rg_SessionContexts registry) then mret () else
  createdAt ← now;
  let entry := mkEntry (rr_FunctionVersion req) (rr_SessionContextID req) createdAt in
  st_Put key (VRegistry (mkRegistry (rg_SchemaVersion registry) (rg_SessionContexts registry ++ [entry])))
    (rr_TenantID req).

Definition Unregister (req : Request) : CM () :=
  if incomplete req then raise EScope else
  let key := registryKey (rr_RegisteredName req) in
  raw ← st_Get key (rr_TenantID req);
  match raw with
  | None => mret ()
  | Some v =>
      registry ← decodeRegistry v;
      let entries := List.filter (fun entry => negb (is_entry req entry)) (rg_SessionContexts registry) in
      if (length entries =? length (rg_SessionContexts registry))%nat then mret () else
      st_Put key (VRegistry (mkRegistry (rg_SchemaVersion registry) entries)) (rr_TenantID req)
  end.

Definition Exists (req : Request) : CM bool :=
  if incomplete req then raise EScope else
  raw ← st_Get (registryKey (rr_RegisteredName req)) (rr_TenantID req);
  match raw with
  | None => mret false
  | Some v =>
      registry ← decodeRegistry v;
      mret (existsb (is_entry req) (rg_SessionContexts registry))
  end.

Definition registryRequest (spec : FuncMeta) (tenantID sessionCtxID : string) : Request :=
  mkRequest tenantID (fm_Name spec) (fm_Version spec) sessionCtxID.

(** ** Control records and histories *)

Definition readControl (spec : FuncMeta) (tenantID sessionCtxID : string) : CM (option ControlRecord) :=
  raw ← st_Get (ControlKey tenantID (fm_Name spec) (fm_Version spec) sessionCtxID) tenantID;
  match raw with
  | None => mret None
  | Some (VControl c) => mret (Some c)
  | Some _ => raise EDecode
  end.

Definition writeControl (spec : FuncMeta) (tenantID sessionCtxID : string) (control : ControlRecord) : CM () :=
  st_Put (ControlKey tenantID (fm_Name spec) (fm_Version spec) sessionCtxID) (VControl control) tenantID.

(** The two loops of [readHistory]: read from [index] on, up to the first
    missing key. *)
Fixpoint readTurns (fuel : nat) (spec : FuncMeta) (tenantID sessionCtxID : string) (index : Z) : CM (list TurnRecord) :=
  match fuel with
  | O => raise EFuel
  | S fuel =>
      raw ← st_Get (TurnKey tenantID (fm_Name spec) (fm_Version spec) sessionCtxID index) tenantID;
      match raw with
      | None => mret []
      | Some (VTurn turn) =>
          turns ← readTurns fuel spec tenantID sessionCtxID (index + 1);
          mret (turn :: turns)
      | Some _ => raise EDecode
      end
  end.
Fixpoint readEvents (fuel : nat) (spec : FuncMeta) (tenantID sessionCtxID : string) (seq : Z) : CM (list Event) :=
  match fuel with
  | O => raise EFuel
  | S fuel =>
      raw ← st_Get (EventKey tenantID (fm_Name spec) (fm_Version spec) sessionCtxID seq) tenantID;
      match raw with
      | None => mret []
      | Some (VEvent event) =>
          events ← readEvents fuel spec tenantID sessionCtxID (seq + 1);
          mret (event :: events)
      | Some _ => raise EDecode
      end
  end.

(** The store is finite: its size bounds both loops. *)
Definition readHistory (spec : FuncMeta) (tenantID sessionCtxID : string) : CM (list TurnRecord * list Event) := fun w =>
  let fuel := S (size (w_db w)) in
  (turns ← readTurns fuel spec tenantID sessionCtxID 1;
   events ← readEvents fuel spec tenantID sessionCtxID 1;
   mret (turns, events)) w.

Definition historyExists (spec : FuncMeta) (tenantID sessionCtxID : string) : CM bool :=
  raw ← st_Get (TurnKey tenantID (fm_Name spec) (fm_Version spec) sessionCtxID 1) tenantID;
  match raw with
  | Some _ => mret true
  | None =>
      raw ← st_Get (EventKey tenantID (fm_Name spec) (fm_Version spec) sessionCtxID 1) tenantID;
      mret (bool_decide (is_Some raw))
  end.
(** ** Fork *)

(** The turn to fork at, and the sequence number of its completion. *)
Definition forkTurn (turns : list TurnRecord) (turnID : string) : option TurnRecord :=
  List.find (fun turn => String.eqb (tr_TurnID turn) turnID) turns.
Definition completedSeq (turnID : string) (forkSeq : Z) (event : Event) : Z :=
  if String.eqb (ev_TurnID event) turnID && String.eqb (ev_Type event) "turn.completed" then ev_Seq event else forkSeq.
Definition forkSeq (events : list Event) (turnID : string) : Z := fold_left (completedSeq turnID) events 0.

Definition set_copied (turn seq : Z) (c : ControlRecord) : ControlRecord :=
  mkControl (cr_SchemaVersion c) (cr_State c) (cr_ForkedFrom c) (cr_ForkTurnID c) (cr_ForkTurnIndex c) (cr_ForkSeq c)
    turn seq (cr_DeleteTurnUpperBound c) (cr_DeleteSeqUpperBound c) (cr_CreatedAt c) (cr_UpdatedAt c).
Definition set_updated (state at_ : string) (c : ControlRecord) : ControlRecord :=
  mkControl (cr_SchemaVersion c) state (cr_ForkedFrom c) (cr_ForkTurnID c) (cr_ForkTurnIndex c) (cr_ForkSeq c)
    (cr_CopiedTurn c) (cr_CopiedSeq c) (cr_DeleteTurnUpperBound c) (cr_DeleteSeqUpperBound c) (cr_CreatedAt c) at_.
Definition set_turn_context (id : string) (t : TurnRecord) : TurnRecord :=
  mkTurn id (tr_TurnIndex t) (tr_TurnID t) (tr_StartSeq t) (tr_CreatedAt t) (tr_SchemaVersion t).
Definition set_event_context (id : string) (e : Event) : Event :=
  mkEvent id (ev_TurnID e) (ev_Seq e) (ev_EventID e) (ev_Source e) (ev_Type e) (ev_Data e) (ev_SchemaVersion e)
    (ev_CreatedAt e).

Notation copyBatchSize := 100 (only parsing).

(** Saves the progress of a copy. *)
Definition saveControl (spec : FuncMeta) (req : ForkRequest) (control : ControlRecord) : CM ControlRecord :=
  at_ ← now;
  let control := set_updated (cr_State control) at_ control in
  writeControl spec (fr_TenantID req) (fr_TargetSessionCtxID req) control;; mret control.

(** The two loops of [copyHistory]; the record is the one in memory. *)
Fixpoint copyTurns (spec : FuncMeta) (req : ForkRequest) (turns : list TurnRecord) (control : ControlRecord)
    : CM ControlRecord :=
  match turns with
  | [] => mret control
  | turn :: turns =>
      if (tr_TurnIndex turn <=? cr_CopiedTurn control) || (cr_ForkTurnIndex control <? tr_TurnIndex turn)
      then copyTurns spec req turns control
      else
        st_Put (TurnKey (fr_TenantID req) (fm_Name spec) (fm_Version spec) (fr_TargetSessionCtxID req) (tr_TurnIndex turn))
          (VTurn (set_turn_context (fr_TargetSessionCtxID req) turn)) (fr_TenantID req);;
        let control := set_copied (tr_TurnIndex turn) (cr_CopiedSeq control) control in
        control ← (if tr_TurnIndex turn %g copyBatchSize =? 0 then saveControl spec req control else mret control);
        copyTurns spec req turns control
  end.
Fixpoint copyEvents (spec : FuncMeta) (req : ForkRequest) (events : list Event) (control : ControlRecord)
    : CM ControlRecord :=
  match events with
  | [] => mret control
  | event :: events =>
      if (ev_Seq event <=? cr_CopiedSeq control) || (cr_ForkSeq control <? ev_Seq event)
      then copyEvents spec req events control
      else
        st_Put (EventKey (fr_TenantID req) (fm_Name spec) (fm_Version spec) (fr_TargetSessionCtxID req) (ev_Seq event))
          (VEvent (set_event_context (fr_TargetSessionCtxID req) event)) (fr_TenantID req);;
        let control := set_copied (cr_CopiedTurn control) (ev_Seq event) control in
        control ← (if ev_Seq event %g copyBatchSize =? 0 then saveControl spec req control else mret control);
        copyEvents spec req events control
  end.

Definition copyHistory (spec : FuncMeta) (req : ForkRequest) (turns : list TurnRecord) (events : list Event)
    (control : ControlRecord) : CM ControlRecord :=
  control ← copyTurns spec req turns control;
  control ← copyEvents spec req events control;
  saveControl spec req control.

(** The hint a fork serves once its target is ready. *)
Definition pendingHint (req : ForkRequest) : ScaleHint :=
  mkHint (fr_FuncKey req) (fr_TenantID req) "" (fr_TargetSessionCtxID req) "pending_after_fork" 0 0 0 "" (fr_TraceID req) "".

(** Takes the pending flag and starts the hint that waited. *)
Definition takePending (req : ForkRequest) : CM () := fun w =>
  let key := operationKey (fr_FuncKey req) (fr_TargetSessionCtxID req) in
  match w_operations w !! key with
  | None => (inl (), w)
  | Some op =>
      let w := set_operations (<[key := mkOp (op_Creating op) false (op_LastError op)]> (w_operations w)) w in
      (inl (), if op_PendingScale op
               then mkWorld (w_db w) (w_outcomes w) (w_ticks w) (w_pool w) (w_requests w) (w_operations w)
                      (w_spawned w ++ [pendingHint req])
               else w)
  end.

(** From the creating control record on: copy, mark ready, register. *)
Definition finishFork (spec : FuncMeta) (req : ForkRequest) (turns : list TurnRecord) (events : list Event)
    (control : ControlRecord) : CM ForkResponse :=
  control ← copyHistory spec req turns events control;
  at_ ← now;
  writeControl spec (fr_TenantID req) (fr_TargetSessionCtxID req) (set_updated StateReady at_ control);;
  Register (registryRequest spec (fr_TenantID req) (fr_TargetSessionCtxID req));;
  takePending req;;
  mret (mkForkResp (fr_TargetSessionCtxID req) "DORMANT").

(** The control record of a new fork, when its target does not exist. *)
Definition startFork (spec : FuncMeta) (req : ForkRequest) (turn : TurnRecord) (seq : Z) : CM ControlRecord :=
  exists_ ← Exists (registryRequest spec (fr_TenantID req) (fr_TargetSessionCtxID req));
  if (exists_ : bool) then raise (EMgr "TARGET_SESSION_CTX_EXISTS") else
  exists_ ← historyExists spec (fr_TenantID req) (fr_TargetSessionCtxID req);
  if (exists_ : bool) then raise (EMgr "TARGET_SESSION_CTX_EXISTS") else
  at_ ← now;
  let control := mkControl 1 StateCreating (fr_SourceSessionCtxID req) (fr_TurnID req) (tr_TurnIndex turn) seq
                   0 0 0 0 at_ at_ in
  writeControl spec (fr_TenantID req) (fr_TargetSessionCtxID req) control;;
  mret control.

Definition sameFork (req : ForkRequest) (control : ControlRecord) : bool :=
  String.eqb (cr_ForkedFrom control) (fr_SourceSessionCtxID req) && String.eqb (cr_ForkTurnID control) (fr_TurnID req).

Definition is_state (state : string) (control : option ControlRecord) : bool :=
  match control with Some c => String.eqb (cr_State c) state | None => false end.

Definition Fork (req : ForkRequest) : CM ForkResponse :=
  match getFunc (fr_FuncKey req) with
  | None => raise (EMgr "FUNCTION_NOT_FOUND")
  | Some spec =>
      sourceControl ← readControl spec (fr_TenantID req) (fr_SourceSessionCtxID req);
      if is_state StateDeleting sourceControl then raise (EMgr "SOURCE_SESSION_CTX_DELETING") else
      history ← readHistory spec (fr_TenantID req) (fr_SourceSessionCtxID req);
      let '(turns, events) := history in
      match forkTurn turns (fr_TurnID req) with
      | None => raise (EMgr "TURN_NOT_FOUND")
      | Some turn =>
          let seq := forkSeq events (fr_TurnID req) in
          if seq =? 0 then raise (EMgr "TURN_NOT_COMPLETED") else
          targetControl ← readControl spec (fr_TenantID req) (fr_TargetSessionCtxID req);
          match targetControl with
          | Some control =>
              if negb (sameFork req control) then raise (EMgr "TARGET_SESSION_CTX_EXISTS")
              else if String.eqb (cr_State control) StateReady
              then mret (mkForkResp (fr_TargetSessionCtxID req) "DORMANT")
              else finishFork spec req turns events control
          | None =>
              control ← startFork spec req turn seq;
              finishFork spec req turns events control
          end
      end
  end.

(** ** Instances of a context *)

Definition sameContext (sessionCtxID : string) (instance : CtxInstance) : bool :=
  match ci_SessionCtxID instance with Some id => String.eqb id sessionCtxID | None => false end.

(** Every status but running (3), sub-healthy (11), creating (2), scheduling
    (1) and new (0). *)
Definition isExiting (instance : CtxInstance) : bool :=
  let code := ci_StatusCode instance in
  negb (code =? 3) && negb (code =? 11) && negb (code =? 2) && negb (code =? 1) && negb (code =? 0).

(** Runs [c] and hands its result back as a value, failed or not. *)
Definition attempt {A} (c : CM A) : CM (A + ctx_error) := fun w => let '(r, w) := c w in (inl r, w).

Definition scm_HandleScaleHint (hint : option ScaleHint) : CM () :=
  match hint with
  | None => raise (EMgr "INVALID_SESSION_CONTEXT")
  | Some hint =>
      if String.eqb (sh_FuncKey hint) "" || String.eqb (sh_SessionCtxID hint) ""
      then raise (EMgr "INVALID_SESSION_CONTEXT") else
      match getFunc (sh_FuncKey hint) with
      | None => raise (EMgr "FUNCTION_NOT_FOUND")
      | Some spec =>
          let key := operationKey (sh_FuncKey hint) (sh_SessionCtxID hint) in
          let req := registryRequest spec (sh_TenantID hint) (sh_SessionCtxID hint) in
          control ← readControl spec (sh_TenantID hint) (sh_SessionCtxID hint);
          if is_state StateDeleting control then raise (EMgr "SESSION_CTX_DELETING")
          else if is_state StateCreating control
          then update_op key (fun op => mkOp (op_Creating op) true (op_LastError op))
          else
            instances ← ListInstances (sh_FuncKey hint);
            if existsb (fun i => sameContext (sh_SessionCtxID hint) i && negb (isExiting i)) instances
            then Register req
            else
              update_op key (fun op => mkOp true (op_PendingScale op) (op_LastError op));;
              created ← attempt (pool_call (PcCreate spec (sh_SessionCtxID hint));; Register req);
              update_op key (fun op => mkOp false (op_PendingScale op)
                                         (match created with inl _ => false | inr _ => true end));;
              match created with inl _ => mret () | inr e => raise e end
      end
  end.

(** The instance an item of an idle report is about. *)
Definition observed (item : IdleInstance) (instance : CtxInstance) : bool :=
  String.eqb (ci_InstanceID instance) (ie_InstanceID item) && sameContext (ie_SessionCtxID item) instance.

Fixpoint HandleIdle (report : list IdleInstance) : CM () :=
  match report with
  | [] => mret ()
  | item :: report =>
      instances ← ListInstances (ie_FuncKey item);
      match List.find (observed item) instances with
      | None => mret ()
      | Some instance => if isExiting instance then mret () else pool_call (PcDelete (ci_InstanceID instance))
      end;;
      HandleIdle report
  end.

(** ** Delete *)

Fixpoint stopInstances (instances : list CtxInstance) (sessionCtxID : string) : CM () :=
  match instances with
  | [] => mret ()
  | instance :: instances =>
      (if sameContext sessionCtxID instance then pool_call (PcDelete (ci_InstanceID instance)) else mret ());;
      stopInstances instances sessionCtxID
  end.

(** Waits for the instances to go: [polls] is what the outside does between
    two polls, as many as there is time for. *)
Fixpoint waitStopped (polls : list (world -> world)) (funcKey sessionCtxID : string) : CM () :=
  instances ← ListInstances funcKey;
  if negb (existsb (sameContext sessionCtxID) instances) then mret () else
  match polls with
  | [] => raise (EMgr "INSTANCE_STOP_TIMEOUT")
  | step :: polls => fun w => waitStopped polls funcKey sessionCtxID (step w)
  end.

(** Deletes the keys of [n] consecutive numbers from [i] on. *)
Fixpoint deleteKeys (n : nat) (key : Z -> string) (tenantID : string) (i : Z) : CM () :=
  match n with
  | O => mret ()
  | S n => st_Delete (key i) tenantID;; deleteKeys n key tenantID (i + 1)
  end.

Definition deleteBound {A} (index : A -> Z) (l : list A) : Z :=
  match last l with Some x => index x | None => Z.of_nat (length l) end.

(** The control record of a deletion, with the bounds of the history. *)
Definition startDelete (spec : FuncMeta) (req : DeleteRequest) (control : option ControlRecord)
    (turns : list TurnRecord) (events : list Event) : CM ControlRecord :=
  match control with
  | Some c => if String.eqb (cr_State c) StateDeleting then mret c else
      at_ ← now;
      let createdAt := if negb (String.eqb (cr_CreatedAt c) "") then cr_CreatedAt c else at_ in
      let c := mkControl 1 StateDeleting "" "" 0 0 0 0 (deleteBound tr_TurnIndex turns) (deleteBound ev_Seq events)
                 createdAt at_ in
      writeControl spec (dr_TenantID req) (dr_SessionCtxID req) c;; mret c
  | None =>
      at_ ← now;
      let c := mkControl 1 StateDeleting "" "" 0 0 0 0 (deleteBound tr_TurnIndex turns) (deleteBound ev_Seq events)
                 at_ at_ in
      writeControl spec (dr_TenantID req) (dr_SessionCtxID req) c;; mret c
  end.

Definition Delete (polls : list (world -> world)) (req : DeleteRequest) : CM () :=
  match getFunc (dr_FuncKey req) with
  | None => raise (EMgr "FUNCTION_NOT_FOUND")
  | Some spec =>
      control ← readControl spec (dr_TenantID req) (dr_SessionCtxID req);
      history ← readHistory spec (dr_TenantID req) (dr_SessionCtxID req);
      let '(turns, events) := history in
      registered ← Exists (registryRequest spec (dr_TenantID req) (dr_SessionCtxID req));
      if negb (bool_decide (is_Some control)) && (length turns =? 0)%nat && (length events =? 0)%nat && negb registered
      then mret () else
      control ← startDelete spec req control turns events;
      instances ← ListInstances (dr_FuncKey req);
      stopInstances instances (dr_SessionCtxID req);;
      waitStopped polls (dr_FuncKey req) (dr_SessionCtxID req);;
      deleteKeys (Z.to_nat (cr_DeleteTurnUpperBound control))
        (TurnKey (dr_TenantID req) (fm_Name spec) (fm_Version spec) (dr_SessionCtxID req)) (dr_TenantID req) 1;;
      deleteKeys (Z.to_nat (cr_DeleteSeqUpperBound control))
        (EventKey (dr_TenantID req) (fm_Name spec) (fm_Version spec) (dr_SessionCtxID req)) (dr_TenantID req) 1;;
      Unregister (registryRequest spec (dr_TenantID req) (dr_SessionCtxID req));;
      st_Delete (ControlKey (dr_TenantID req) (fm_Name spec) (fm_Version spec) (dr_SessionCtxID req)) (dr_TenantID req)
  end.

End Manager.
