(* ===== verification/SessionCtxProps.v ===== *)
(** * Forks and deletions can be repeated (sessioncontextmanager)

    A program logic for the manager's monad, whose triples cover every outcome
    of the store, and with it the invariants of [Fork] and [Delete]: whatever
    failed in earlier attempts, in this process or in one before it, an
    attempt that meets no fault completes the operation. *)
From stdpp Require Import pretty.
From Stdlib Require Import Ascii.
From S2P Require Import Prelude GoStrings LiteAlloc LiteSched ScaleHint SessionCtx.
#[local] Open Scope string_scope.
#[local] Open Scope Z_scope.

(** ** Triples *)

Definition is_fault (e : ctx_error) : bool := match e with EStore | EPool => true | _ => false end.

(** From a store in [P], [c] returns with a store in [Q] or fails with one in
    [E]; and without failing calls, no fault is reported. *)
Definition triple {A : Type} (P : DB -> Prop) (c : CM A) (Q : A -> DB -> Prop) (E : ctx_error -> DB -> Prop) : Prop :=
  forall w, P (w_db w) ->
    match c w with
    | (inl a, w') => Q a (w_db w') /\ (w_outcomes w = [] -> w_outcomes w' = [])
    | (inr e, w') => E e (w_db w') /\ (w_outcomes w = [] -> is_fault e = false)
    end.

Section Rules.
Context {A B : Type}.
Implicit Types (P : DB -> Prop) (E : ctx_error -> DB -> Prop).

Lemma triple_bind P (c : CM A) (k : A -> CM B) R Q E :
  triple P c R E -> (forall a, triple (R a) (k a) Q E) -> triple P (c ≫= k) Q E.
Proof.
  intros Hc Hk w Hw. specialize (Hc w Hw). unfold mbind, CM_bind. destruct (c w) as [[a|e] w1]; [|done].
  destruct Hc as [HR Ho]. specialize (Hk a w1 HR). destruct (k a w1) as [[b|e] w2]; naive_solver.
Qed.

Lemma triple_ret P (a : A) Q E : (forall d, P d -> Q a d) -> triple P (mret a) Q E.
Proof. intros H w Hw. simpl. auto. Qed.


Lemma triple_conseq P P' (c : CM A) Q Q' E :
  triple P' c Q' E -> (forall d, P d -> P' d) -> (forall a d, Q' a d -> Q a d) -> triple P c Q E.
Proof. intros H HP HQ w Hw. specialize (H w (HP _ Hw)). destruct (c w) as [[a|e] w']; naive_solver. Qed.

Lemma triple_prop P φ (c : CM A) Q E : (φ -> triple P c Q E) -> triple (fun d => P d /\ φ) c Q E.
Proof. intros H w [Hw Hφ]. by apply H. Qed.

Lemma triple_fact P (φ : Prop) (c : CM A) Q E : (forall d, P d -> φ) -> (φ -> triple P c Q E) -> triple P c Q E.
Proof. intros Hφ H w Hw. apply H; eauto. Qed.


(** A step that reads and writes the manager's memory only. *)
Lemma triple_memory P (c : CM A) E :
  (forall w, exists a, (c w).1 = inl a /\ w_db (c w).2 = w_db w /\ w_outcomes (c w).2 = w_outcomes w) ->
  triple P c (fun _ => P) E.
Proof.
  intros H w Hw. destruct (H w) as (a & Ha & Hd & Ho). destruct (c w) as [r w']. simpl in *. subst r.
  rewrite Hd, Ho. auto.
Qed.

Lemma triple_false (c : CM A) Q E : triple (fun _ => False) c Q E.
Proof. intros w []. Qed.
End Rules.

Lemma pop_spec w :
  w_db (pop w).2 = w_db w /\ (w_outcomes w = [] -> (pop w).1 = OutOk /\ w_outcomes (pop w).2 = []).
Proof. unfold pop. by destruct (w_outcomes w) eqn:Ho. Qed.

Lemma triple_Get P key t E :
  (forall d, P d -> E EStore d) -> triple P (st_Get key t) (fun v d => P d /\ v = d !! (t, key)) E.
Proof.
  intros HE w Hw. unfold st_Get. destruct (pop_spec w) as [Hd Ho], (pop w) as [o w']. simpl in *. rewrite <- Hd in Hw.
  destruct o; simpl; naive_solver.
Qed.

Lemma triple_update P f Q E :
  (forall d, P d -> E EStore d) -> (forall d, P d -> E EStore (f d)) -> (forall d, P d -> Q () (f d)) ->
  triple P (st_update f) Q E.
Proof.
  intros HE HE' HQ w Hw. unfold st_update. destruct (pop_spec w) as [Hd Ho], (pop w) as [o w']. simpl in *.
  rewrite <- Hd in Hw. destruct o; simpl; naive_solver.
Qed.


Lemma triple_now clock P E : triple P (now clock) (fun _ => P) E.
Proof. apply triple_memory. intros w. by eexists. Qed.

(** ** Keys do not meet *)

Lemma free_of_middle c b y : ~ free_of c (b ++ String c y).
Proof.
  induction b as [|x b IH].
  - change ("" ++ String c y) with (String c y). rewrite free_of_cons. naive_solver.
  - change (String x b ++ String c y) with (String x (b ++ String c y)). rewrite free_of_cons. naive_solver.
Qed.

(** A string is cut at its last separator in one way. *)
Lemma last_cut c a b x y :
  a ++ String c x = b ++ String c y -> free_of c x -> free_of c y -> a = b /\ x = y.
Proof.
  revert b. induction a as [|d a IH]; intros [|e b] Heq Hx Hy; injection Heq as; subst; [done|..].
  - exfalso. by eapply free_of_middle.
  - exfalso. by eapply free_of_middle.
  - destruct (IH b) as [-> ->]; done.
Qed.

Lemma Itoa_no_colon z : free_of ":" (Itoa z).
Proof. apply Itoa_free; [done|by left]. Qed.

(** The parts of a context, and their keys. *)
Inductive part := PTurn (i : Z) | PEvent (i : Z) | PControl.
#[global] Instance part_eq_dec : EqDecision part.
Proof. solve_decision. Defined.

Section Context_keys.
Context (t : string) (spec : FuncMeta).

Definition ctx_prefix (ctx : string) : string := sessionPrefix t (fm_Name spec) (fm_Version spec) ctx.
Definition ctxKey (ctx : string) (p : part) : string * string :=
  (t, match p with
      | PTurn i => TurnKey t (fm_Name spec) (fm_Version spec) ctx i
      | PEvent i => EventKey t (fm_Name spec) (fm_Version spec) ctx i
      | PControl => ControlKey t (fm_Name spec) (fm_Version spec) ctx
      end).
Definition regKey : string * string := (t, registryKey (fm_Name spec)).
Definition get (d : DB) (ctx : string) (p : part) : option value := d !! ctxKey ctx p.

Definition part_suffix (p : part) : string :=
  match p with PTurn i => "t" ++ Itoa i | PEvent i => "e" ++ Itoa i | PControl => "c" end.

Lemma ctxKey_eq ctx p : ctxKey ctx p = (t, ctx_prefix ctx ++ String ":" (part_suffix p)).
Proof. by destruct p. Qed.

Lemma part_suffix_free p : free_of ":" (part_suffix p).
Proof. destruct p; [apply (free_of_app _ "t")|apply (free_of_app _ "e")|]; try done; apply Itoa_no_colon. Qed.

Lemma ctxKey_inj ctx ctx' p p' :
  ctxKey ctx p = ctxKey ctx' p' -> ctx_prefix ctx = ctx_prefix ctx' /\ p = p'.
Proof.
  rewrite !ctxKey_eq. intros H%(f_equal snd). cbn [snd] in H. apply last_cut in H as [-> Hs]; [|apply part_suffix_free..].
  split; [done|]. destruct p, p'; simpl in Hs; simplify_eq; try done; f_equal; by apply (inj pretty).
Qed.

Lemma ctxKey_regKey ctx p : ctxKey ctx p <> regKey.
Proof. by rewrite ctxKey_eq. Qed.

Lemma get_insert d ctx p p' v : get (<[ctxKey ctx p := v]> d) ctx p' = if decide (p = p') then Some v else get d ctx p'.
Proof.
  unfold get. destruct (decide _) as [->|Hp]; [by rewrite lookup_insert_eq|].
  apply lookup_insert_ne. intros H. by apply ctxKey_inj in H as [_ ?].
Qed.
Lemma get_insert_other d ctx ctx' p p' v :
  ctx_prefix ctx <> ctx_prefix ctx' -> get (<[ctxKey ctx p := v]> d) ctx' p' = get d ctx' p'.
Proof. intros Hne. apply lookup_insert_ne. intros H. by apply ctxKey_inj in H as [? _]. Qed.
Lemma get_insert_reg d ctx p v : get (<[regKey := v]> d) ctx p = get d ctx p.
Proof. apply lookup_insert_ne. intros H. by apply (ctxKey_regKey ctx p). Qed.
Lemma reg_insert (d : DB) ctx p v : <[ctxKey ctx p := v]> d !! regKey = d !! regKey.
Proof. apply lookup_insert_ne, ctxKey_regKey. Qed.

(** ** Histories *)

(** The keys of [l], numbered from one by [P], are written, and the next is
    not. *)
Definition listed {A : Type} (P : Z -> part) (V : A -> value) (d : DB) (ctx : string) (l : list A) : Prop :=
  forall n : nat, (n <= length l)%nat -> get d ctx (P (Z.of_nat n + 1)) = V <$> l !! n.

Definition history (d : DB) (ctx : string) (ts : list TurnRecord) (es : list Event) : Prop :=
  listed PTurn VTurn d ctx ts /\ listed PEvent VEvent d ctx es.

(** Records are numbered consecutively from one. *)
Definition numbered {A : Type} (index : A -> Z) (l : list A) : Prop :=
  forall (n : nat) x, l !! n = Some x -> index x = Z.of_nat n + 1.

(** The store holds at least as many entries as a list of its keys. *)
Lemma keys_bounded (P : Z -> part) d ctx n :
  (forall i j, P i = P j -> i = j) ->
  (forall m, (m < n)%nat -> is_Some (get d ctx (P (Z.of_nat m + 1)))) -> (n <= size d)%nat.
Proof.
  intros HP Hin. set (ks := map (fun m => ctxKey ctx (P (Z.of_nat m + 1))) (seq 0 n)).
  assert (Hnd : NoDup ks).
  { apply (NoDup_fmap_2_strong (fun m => ctxKey ctx (P (Z.of_nat m + 1)))); [|apply NoDup_seq].
    intros x y _ _ H. apply ctxKey_inj in H as [_ H]. apply HP in H. lia. }
  assert (Hsub : list_to_set ks ⊆ dom d).
  { intros k. rewrite elem_of_list_to_set, elem_of_dom. unfold ks. rewrite list_elem_of_In, in_map_iff.
    intros (m & <- & Hm). apply in_seq in Hm. apply Hin. lia. }
  apply subseteq_size in Hsub. rewrite size_list_to_set, size_dom in Hsub by done.
  unfold ks in Hsub. by rewrite length_map, length_seq in Hsub.
Qed.

(** ** Reading *)

Lemma readTurns_spec (P : DB -> Prop) (E : ctx_error -> DB -> Prop) ctx ts n fuel :
  (forall d, P d -> E EStore d) -> (forall d, P d -> listed PTurn VTurn d ctx ts) ->
  (n <= length ts)%nat -> (length ts - n < fuel)%nat ->
  triple P (readTurns fuel spec t ctx (Z.of_nat n + 1)) (fun l d => P d /\ l = drop n ts) E.
Proof.
  intros HE HP. revert n. induction fuel as [|fuel IH]; intros n Hn Hf; [lia|]. cbn [readTurns].
  eapply triple_bind; [by apply triple_Get|]. intros raw.
  apply triple_conseq with (P' := fun d => P d /\ raw = VTurn <$> ts !! n) (Q' := fun l d => P d /\ l = drop n ts);
    [|intros d [Hd ->]; split; [done|]; apply (HP d Hd n Hn)|done].
  apply triple_prop. intros ->. destruct (ts !! n) as [turn|] eqn:Hl; simpl.
  - pose proof (lookup_lt_Some _ _ _ Hl). eapply triple_bind.
    { replace (Z.of_nat n + 1 + 1) with (Z.of_nat (S n) + 1) by lia. apply (IH (S n)); lia. }
    intros l. apply triple_ret. intros d [Hd ->]. split; [done|]. symmetry. by apply drop_S.
  - apply triple_ret. intros d Hd. split; [done|]. apply lookup_ge_None in Hl. by rewrite drop_ge.
Qed.

Lemma readEvents_spec (P : DB -> Prop) (E : ctx_error -> DB -> Prop) ctx es n fuel :
  (forall d, P d -> E EStore d) -> (forall d, P d -> listed PEvent VEvent d ctx es) ->
  (n <= length es)%nat -> (length es - n < fuel)%nat ->
  triple P (readEvents fuel spec t ctx (Z.of_nat n + 1)) (fun l d => P d /\ l = drop n es) E.
Proof.
  intros HE HP. revert n. induction fuel as [|fuel IH]; intros n Hn Hf; [lia|]. cbn [readEvents].
  eapply triple_bind; [by apply triple_Get|]. intros raw.
  apply triple_conseq with (P' := fun d => P d /\ raw = VEvent <$> es !! n) (Q' := fun l d => P d /\ l = drop n es);
    [|intros d [Hd ->]; split; [done|]; apply (HP d Hd n Hn)|done].
  apply triple_prop. intros ->. destruct (es !! n) as [event|] eqn:Hl; simpl.
  - pose proof (lookup_lt_Some _ _ _ Hl). eapply triple_bind.
    { replace (Z.of_nat n + 1 + 1) with (Z.of_nat (S n) + 1) by lia. apply (IH (S n)); lia. }
    intros l. apply triple_ret. intros d [Hd ->]. split; [done|]. symmetry. by apply drop_S.
  - apply triple_ret. intros d Hd. split; [done|]. apply lookup_ge_None in Hl. by rewrite drop_ge.
Qed.

Lemma listed_size {A : Type} (P : Z -> part) (V : A -> value) d ctx l :
  (forall i j, P i = P j -> i = j) -> listed P V d ctx l -> (length l <= size d)%nat.
Proof.
  intros HP Hl. apply (keys_bounded P d ctx _ HP). intros m Hm. rewrite Hl by lia.
  destruct (lookup_lt_is_Some_2 l m Hm) as [x ->]. by eexists.
Qed.

(** The size of the store is enough fuel: [readHistory] reads the whole of a
    history, and never stops short. *)
Lemma readHistory_spec (P : DB -> Prop) (E : ctx_error -> DB -> Prop) ctx ts es :
  (forall d, P d -> E EStore d) -> (forall d, P d -> history d ctx ts es) ->
  triple P (readHistory spec t ctx) (fun h d => P d /\ h = (ts, es)) E.
Proof.
  intros HE HP w Hw. destruct (HP _ Hw) as [Ht He].
  assert (length ts <= size (w_db w))%nat by (by eapply (listed_size PTurn); [intros ?? [= ->]|]).
  assert (length es <= size (w_db w))%nat by (by eapply (listed_size PEvent); [intros ?? [= ->]|]).
  unfold readHistory. set (fuel := S (size (w_db w))). assert (Hfuel : fuel = S (size (w_db w))) by done.
  clearbody fuel. cbv zeta. apply (fun H => H w Hw).
  change (triple P (turns ← readTurns fuel spec t ctx 1; events ← readEvents fuel spec t ctx 1; mret (turns, events))
            (fun h d => P d /\ h = (ts, es)) E).
  eapply triple_bind; [apply (readTurns_spec P E ctx ts 0); try lia; naive_solver|].
  intros l. apply triple_prop. intros ->.
  eapply triple_bind; [apply (readEvents_spec P E ctx es 0); try lia; naive_solver|].
  intros l. apply triple_prop. intros ->. by apply triple_ret.
Qed.

Lemma readControl_spec (P : DB -> Prop) (E : ctx_error -> DB -> Prop) ctx :
  (forall d, P d -> E EStore d) ->
  (forall d, P d -> exists c, get d ctx PControl = VControl <$> c) ->
  triple P (readControl spec t ctx) (fun c d => P d /\ get d ctx PControl = VControl <$> c) E.
Proof.
  intros HE HP. eapply triple_bind; [by apply triple_Get|]. intros raw w [Hw Hr].
  change (raw = get (w_db w) ctx PControl) in Hr.
  destruct (HP _ Hw) as [[c|] Hc]; rewrite Hc in Hr; subst raw; cbn; auto.
Qed.

(** The registry of the function decodes. *)
Definition registry_good (d : DB) : Prop :=
  d !! regKey = None \/ exists r, d !! regKey = Some (VRegistry r) /\ rg_SchemaVersion r = 1.
Definition registered (d : DB) (ctx : string) : bool :=
  match d !! regKey with
  | Some (VRegistry r) => existsb (is_entry (registryRequest spec t ctx)) (rg_SessionContexts r)
  | _ => false
  end.
Definition complete (ctx : string) : Prop := t <> "" /\ fm_Name spec <> "" /\ fm_Version spec <> "" /\ ctx <> "".

Lemma complete_spec ctx : complete ctx -> incomplete (registryRequest spec t ctx) = false.
Proof.
  intros (H1 & H2 & H3 & H4). unfold incomplete. simpl.
  by rewrite !(proj2 (String.eqb_neq _ _)).
Qed.

Lemma Exists_spec (P : DB -> Prop) (E : ctx_error -> DB -> Prop) ctx :
  complete ctx -> (forall d, P d -> E EStore d) -> (forall d, P d -> registry_good d) ->
  triple P (Exists (registryRequest spec t ctx)) (fun b d => P d /\ b = registered d ctx) E.
Proof.
  intros Hc HE HP. unfold Exists. rewrite complete_spec by done.
  eapply triple_bind; [by apply triple_Get|]. intros raw w [Hw Hr]. cbn [registryRequest rr_RegisteredName rr_TenantID] in Hr.
  unfold registered, regKey. destruct (HP _ Hw) as [Hn|(r & Hs & _)]; unfold regKey in *.
  - rewrite Hn in Hr. subst raw. simpl. by rewrite Hn.
  - rewrite Hs in Hr. subst raw. simpl. by rewrite Hs.
Qed.

Lemma Register_spec (clock : nat -> string) (P : DB -> Prop) (E : ctx_error -> DB -> Prop) ctx :
  complete ctx -> (forall d, P d -> E EStore d) -> (forall d, P d -> registry_good d) ->
  (forall d r, P d -> rg_SchemaVersion r = 1 -> P (<[regKey := VRegistry r]> d)) ->
  triple P (Register clock (registryRequest spec t ctx)) (fun _ => P) E.
Proof.
  intros Hc HE HP Hframe. unfold Register. rewrite complete_spec by done.
  eapply triple_bind; [by apply triple_Get|]. intros raw.
  eapply (triple_bind _ _ _ (fun r d => P d /\ rg_SchemaVersion r = 1)).
  - intros w [Hw Hr]. cbn [registryRequest rr_RegisteredName rr_TenantID] in Hr.
    destruct (HP _ Hw) as [Hn|(r & Hs & Hv)]; unfold regKey in *.
    + rewrite Hn in Hr. subst raw. by simpl.
    + rewrite Hs in Hr. subst raw. unfold mbind, CM_bind. cbn -[Z.eqb]. by rewrite Hv.
  - intros r. apply triple_prop. intros Hv. destruct (existsb _ _); [by apply triple_ret|].
    eapply triple_bind; [apply triple_now|]. intros at_. apply triple_update; eauto.
Qed.
End Context_keys.

(** ** Fork *)

Section Forks.
Context (clock : nat -> string) (getFunc : string -> option FuncMeta) (req : ForkRequest) (spec : FuncMeta).
Context (ts : list TurnRecord) (es : list Event) (turn : TurnRecord).
Notation t := (fr_TenantID req).
Notation src := (fr_SourceSessionCtxID req).
Notation tgt := (fr_TargetSessionCtxID req).
Notation k := (tr_TurnIndex turn).
Notation q := (forkSeq es (fr_TurnID req)).
Notation getp := (get t spec).

(** The function is known, the contexts have keys of their own, and the fork
    is at a completed turn of a source numbered as it is stored. *)
Record forkable : Prop := {
  fk_func : getFunc (fr_FuncKey req) = Some spec;
  fk_complete : complete t spec tgt;
  fk_distinct : ctx_prefix t spec tgt <> ctx_prefix t spec src;
  fk_turns : numbered tr_TurnIndex ts;
  fk_events : numbered ev_Seq es;
  fk_turn : forkTurn ts (fr_TurnID req) = Some turn;
  fk_seq : q <> 0
}.

(** The first [bound] records of [l] are in the target. *)
Definition upto {A : Type} (P : Z -> part) (V : A -> value) (l : list A) (bound : Z) (d : DB) : Prop :=
  forall (n : nat) x, l !! n = Some x -> Z.of_nat n < bound -> getp d tgt (P (Z.of_nat n + 1)) = Some (V x).
(** The target has no others. *)
Definition only {A : Type} (P : Z -> part) (V : A -> value) (l : list A) (bound : Z) (d : DB) : Prop :=
  forall i v, getp d tgt (P i) = Some v ->
    exists (n : nat) x, i = Z.of_nat n + 1 /\ Z.of_nat n < bound /\ l !! n = Some x /\ v = V x.

Definition turn_copy (x : TurnRecord) : value := VTurn (set_turn_context tgt x).
Definition event_copy (x : Event) : value := VEvent (set_event_context tgt x).
Definition copied (a b : Z) (d : DB) : Prop :=
  upto PTurn turn_copy ts a d /\ upto PEvent event_copy es b d /\
  only PTurn turn_copy ts k d /\ only PEvent event_copy es q d.

Definition fork_control (state : string) (c : ControlRecord) : Prop :=
  cr_State c = state /\ cr_ForkedFrom c = src /\ cr_ForkTurnID c = fr_TurnID req /\
  cr_ForkTurnIndex c = k /\ cr_ForkSeq c = q /\ 0 <= cr_CopiedTurn c /\ 0 <= cr_CopiedSeq c.

(** What every attempt leaves alone. *)
Definition base (d : DB) : Prop :=
  history t spec d src ts es /\
  (exists c, getp d src PControl = VControl <$> c /\ is_state StateDeleting c = false) /\
  registry_good t spec d.

Definition fresh (d : DB) : Prop := (forall p, getp d tgt p = None) /\ registered t spec d tgt = false.
Definition creating (d : DB) : Prop :=
  exists c, getp d tgt PControl = Some (VControl c) /\ fork_control StateCreating c /\
            copied (cr_CopiedTurn c) (cr_CopiedSeq c) d.
Definition ready (d : DB) : Prop :=
  exists c, getp d tgt PControl = Some (VControl c) /\ fork_control StateReady c /\ copied k q d.
Definition fork_inv (d : DB) : Prop := base d /\ (fresh d \/ creating d \/ ready d).

(** Attempts fail with a fault of the store and keep the invariant. *)
Definition fork_fails (e : ctx_error) (d : DB) : Prop := e = EStore /\ fork_inv d.

Context (FK : forkable).

Lemma forkTurn_bounds : 1 <= k <= Z.of_nat (length ts).
Proof.
  pose proof (fk_turn FK) as H. apply List.find_some in H as [H _]. apply list_elem_of_In, list_elem_of_lookup in H as [n Hn].
  pose proof (lookup_lt_Some _ _ _ Hn). rewrite (fk_turns FK n turn Hn). lia.
Qed.

Lemma forkSeq_in l s0 :
  fold_left (completedSeq (fr_TurnID req)) l s0 = s0 \/
  exists x, x ∈ l /\ fold_left (completedSeq (fr_TurnID req)) l s0 = ev_Seq x.
Proof.
  revert s0. induction l as [|x l IH]; intros s0; [by left|]. simpl.
  destruct (IH (completedSeq (fr_TurnID req) s0 x)) as [->|(y & Hy & ->)].
  - unfold completedSeq. destruct (_ && _); [|by left]. right. exists x. split; [left|done].
  - right. exists y. split; [by right|done].
Qed.

Lemma forkSeq_bounds : 1 <= q <= Z.of_nat (length es).
Proof.
  pose proof (fk_seq FK) as Hq. destruct (forkSeq_in es 0) as [H|(x & Hx & H)]; [done|].
  apply list_elem_of_lookup in Hx as [n Hn]. pose proof (lookup_lt_Some _ _ _ Hn).
  unfold forkSeq. rewrite H, (fk_events FK n x Hn). lia.
Qed.

(** *** Frames *)

Lemma base_put d p v : base d -> base (<[ctxKey t spec tgt p := v]> d).
Proof.
  intros ((Ht & He) & Hc & Hr). pose proof (fk_distinct FK) as Hne. split; [split|split].
  - intros n Hn. rewrite get_insert_other by done. by apply Ht.
  - intros n Hn. rewrite get_insert_other by done. by apply He.
  - by rewrite get_insert_other.
  - unfold registry_good. by rewrite reg_insert.
Qed.

Lemma base_reg d r : base d -> rg_SchemaVersion r = 1 -> base (<[regKey t spec := VRegistry r]> d).
Proof.
  intros ((Ht & He) & Hc & Hr) Hv. split; [split|split].
  - intros n Hn. rewrite get_insert_reg. by apply Ht.
  - intros n Hn. rewrite get_insert_reg. by apply He.
  - by rewrite get_insert_reg.
  - right. exists r. by rewrite lookup_insert_eq.
Qed.

(** A write to another part of the target. *)
Lemma upto_frame {A : Type} (P : Z -> part) (V : A -> value) l c d p v :
  (forall i, p <> P i) -> upto P V l c d -> upto P V l c (<[ctxKey t spec tgt p := v]> d).
Proof. intros Hp H n x Hx Hn. rewrite get_insert, decide_False by done. auto. Qed.
Lemma only_frame {A : Type} (P : Z -> part) (V : A -> value) l c d p v :
  (forall i, p <> P i) -> only P V l c d -> only P V l c (<[ctxKey t spec tgt p := v]> d).
Proof. intros Hp H i u. rewrite get_insert, decide_False by done. apply H. Qed.

(** A record of the list, the next one or one that was copied before. *)
Lemma upto_put {A : Type} (P : Z -> part) (V : A -> value) l c c' d (n : nat) x :
  (forall i j, P i = P j -> i = j) -> l !! n = Some x -> upto P V l c d ->
  c' <= c \/ c = Z.of_nat n /\ c' = Z.of_nat n + 1 ->
  upto P V l c' (<[ctxKey t spec tgt (P (Z.of_nat n + 1)) := V x]> d).
Proof.
  intros HP Hx Hc Hc' m y Hy Hm. rewrite get_insert. destruct (decide _) as [Heq%HP|Hne].
  - assert (m = n) as -> by lia. congruence.
  - apply Hc; [done|]. destruct (decide (m = n)) as [->|]; [done|lia].
Qed.
Lemma only_put {A : Type} (P : Z -> part) (V : A -> value) l c d (n : nat) x :
  (forall i j, P i = P j -> i = j) -> l !! n = Some x -> Z.of_nat n < c ->
  only P V l c d -> only P V l c (<[ctxKey t spec tgt (P (Z.of_nat n + 1)) := V x]> d).
Proof.
  intros HP Hx Hn Hc i v. rewrite get_insert. destruct (decide _) as [Heq%HP|Hne]; [|apply Hc].
  intros [= <-]. by exists n, x.
Qed.

Lemma copied_put_control a b d v : copied a b d -> copied a b (<[ctxKey t spec tgt PControl := v]> d).
Proof. intros (H1 & H2 & H3 & H4). repeat split; by (apply upto_frame || apply only_frame). Qed.

Lemma copied_put_reg a b d v : copied a b d -> copied a b (<[regKey t spec := v]> d).
Proof.
  intros (H1 & H2 & H3 & H4).
  repeat split; [intros n x|intros n x|intros i u|intros i u]; rewrite get_insert_reg; auto.
Qed.

Lemma copied_weaken a b a' b' d : copied a b d -> a' <= a -> b' <= b -> copied a' b' d.
Proof.
  intros (H1 & H2 & H3 & H4) Ha Hb. repeat split; try done; intros n x Hx Hn; [apply H1|apply H2]; auto; lia.
Qed.

Lemma copied_put_turn a a' b d (n : nat) x :
  copied a b d -> ts !! n = Some x -> Z.of_nat n < k -> a' <= a \/ a = Z.of_nat n /\ a' = Z.of_nat n + 1 ->
  copied a' b (<[ctxKey t spec tgt (PTurn (Z.of_nat n + 1)) := turn_copy x]> d).
Proof.
  intros (H1 & H2 & H3 & H4) Hx Hk Ha. assert (HP : forall i j, PTurn i = PTurn j -> i = j) by (by intros ?? [= ->]).
  split; [by eapply upto_put|]. split; [by apply upto_frame|]. split; [by apply only_put|by apply only_frame].
Qed.
Lemma copied_put_event a b b' d (n : nat) x :
  copied a b d -> es !! n = Some x -> Z.of_nat n < q -> b' <= b \/ b = Z.of_nat n /\ b' = Z.of_nat n + 1 ->
  copied a b' (<[ctxKey t spec tgt (PEvent (Z.of_nat n + 1)) := event_copy x]> d).
Proof.
  intros (H1 & H2 & H3 & H4) Hx Hk Ha. assert (HP : forall i j, PEvent i = PEvent j -> i = j) by (by intros ?? [= ->]).
  split; [by apply upto_frame|]. split; [by eapply upto_put|]. split; [by apply only_frame|by apply only_put].
Qed.

(** *** The copy *)

(** In the middle of an attempt: [c] is the record in memory. *)
Definition copying (c : ControlRecord) (d : DB) : Prop :=
  base d /\ creating d /\ fork_control StateCreating c /\ copied (cr_CopiedTurn c) (cr_CopiedSeq c) d.

Lemma copying_fails c d : copying c d -> fork_fails EStore d.
Proof. intros (Hb & Hc & _). split; [done|]. split; [done|]. by right; left. Qed.

Lemma copying_control c d : base d -> fork_control StateCreating c -> copied (cr_CopiedTurn c) (cr_CopiedSeq c) d ->
  copying c (<[ctxKey t spec tgt PControl := VControl c]> d).
Proof.
  intros Hb Hf Hc. pose proof (copied_put_control _ _ _ (VControl c) Hc).
  split; [by apply base_put|]. split; [|done]. exists c. by rewrite get_insert, decide_True.
Qed.

Lemma saveControl_spec c :
  triple (copying c) (saveControl clock spec req c)
    (fun c' d => copying c' d /\ (cr_CopiedTurn c' = cr_CopiedTurn c /\ cr_CopiedSeq c' = cr_CopiedSeq c)) fork_fails.
Proof.
  eapply triple_bind; [apply triple_now|]. intros at_. set (c' := set_updated _ _ _).
  assert (Hput : forall d, copying c d -> copying c' (<[ctxKey t spec tgt PControl := VControl c']> d)).
  { intros d (Hb & _ & Hf & Hc). by apply copying_control. }
  eapply triple_bind.
  - apply (triple_update _ _ (fun _ => copying c')); eauto using copying_fails.
  - intros u. by apply triple_ret.
Qed.

Lemma copying_put c c' d p v :
  copying c d -> p <> PControl -> fork_control StateCreating c' ->
  (forall a b, copied a b d -> copied a b (<[ctxKey t spec tgt p := v]> d)) ->
  copied (cr_CopiedTurn c') (cr_CopiedSeq c') (<[ctxKey t spec tgt p := v]> d) ->
  copying c' (<[ctxKey t spec tgt p := v]> d).
Proof.
  intros (Hb & (c0 & Hg & Hf0 & Hc0) & _ & _) Hp Hf Hframe Hc. split; [by apply base_put|]. split; [|done].
  exists c0. rewrite get_insert, decide_False by done. auto.
Qed.

Lemma copyTurns_spec n c :
  (n <= length ts)%nat -> Z.min (Z.of_nat n) k <= cr_CopiedTurn c ->
  triple (copying c) (copyTurns clock spec req (drop n ts) c)
    (fun c' d => copying c' d /\ k <= cr_CopiedTurn c') fork_fails.
Proof.
  remember (length ts - n)%nat as m eqn:Hm. revert n c Hm. induction m as [|m IH]; intros n c Hm Hn Hmin.
  - rewrite drop_ge by lia. apply triple_ret. intros d Hd. pose proof forkTurn_bounds. split; [done|lia].
  - destruct (lookup_lt_is_Some_2 ts n) as [x Hx]; [lia|]. rewrite (drop_S _ _ _ Hx). cbn [copyTurns].
    rewrite (fk_turns FK n x Hx). apply triple_fact with (φ := cr_ForkTurnIndex c = k);
      [by intros d (_ & _ & (_ & _ & _ & ? & _) & _)|].
    intros Hk. rewrite Hk. destruct (_ || _) eqn:Hskip;
      [apply (IH (S n)); zbool; try lia; apply orb_true_iff in Hskip as [?|?]; zbool; lia|].
    zbool. set (c' := set_copied _ _ c).
    eapply triple_bind with (R := fun _ => copying c').
    { assert (Hput : forall d, copying c d -> copying c' (<[ctxKey t spec tgt (PTurn (Z.of_nat n + 1)) := turn_copy x]> d)).
      { intros d Hd. pose proof Hd as (_ & _ & (F1 & F2 & F3 & F4 & F5 & F6 & F7) & Hc).
        eapply copying_put; [done|done|by repeat split; simpl; try done; lia| |].
        - intros a b Hab. eapply copied_put_turn; [done|done|lia|lia].
        - eapply copied_put_turn; [done|done|lia|]. simpl. lia. }
      apply triple_update; eauto using copying_fails. }
    intros u. eapply triple_bind with (R := fun c1 d => copying c1 d /\ cr_CopiedTurn c1 = Z.of_nat n + 1).
    { destruct (_ =? 0); [|by apply triple_ret]. eapply triple_conseq; [apply saveControl_spec|done|]. simpl. naive_solver. }
    intros c1. apply triple_prop. intros Hc1. apply (IH (S n)); lia.
Qed.

Lemma copyEvents_spec n c :
  (n <= length es)%nat -> Z.min (Z.of_nat n) q <= cr_CopiedSeq c -> k <= cr_CopiedTurn c ->
  triple (copying c) (copyEvents clock spec req (drop n es) c)
    (fun c' d => copying c' d /\ (k <= cr_CopiedTurn c' /\ q <= cr_CopiedSeq c')) fork_fails.
Proof.
  remember (length es - n)%nat as m eqn:Hm. revert n c Hm. induction m as [|m IH]; intros n c Hm Hn Hmin Hall.
  - rewrite drop_ge by lia. apply triple_ret. intros d Hd. pose proof forkSeq_bounds. split; [done|lia].
  - destruct (lookup_lt_is_Some_2 es n) as [x Hx]; [lia|]. rewrite (drop_S _ _ _ Hx). cbn [copyEvents].
    rewrite (fk_events FK n x Hx). apply triple_fact with (φ := cr_ForkSeq c = q);
      [by intros d (_ & _ & (_ & _ & _ & _ & ? & _) & _)|].
    intros Hk. rewrite Hk. destruct (_ || _) eqn:Hskip;
      [apply (IH (S n)); zbool; try lia; apply orb_true_iff in Hskip as [?|?]; zbool; lia|].
    zbool. set (c' := set_copied _ _ c).
    eapply triple_bind with (R := fun _ => copying c').
    { assert (Hput : forall d, copying c d -> copying c' (<[ctxKey t spec tgt (PEvent (Z.of_nat n + 1)) := event_copy x]> d)).
      { intros d Hd. pose proof Hd as (_ & _ & (F1 & F2 & F3 & F4 & F5 & F6 & F7) & Hc).
        eapply copying_put; [done|done|by repeat split; simpl; try done; lia| |].
        - intros a b Hab. eapply copied_put_event; [done|done|lia|lia].
        - eapply copied_put_event; [done|done|lia|]. simpl. lia. }
      apply triple_update; eauto using copying_fails. }
    intros u. eapply triple_bind with (R := fun c1 d => copying c1 d /\
      (cr_CopiedTurn c1 = cr_CopiedTurn c /\ cr_CopiedSeq c1 = Z.of_nat n + 1)).
    { destruct (_ =? 0); [|by apply triple_ret]. eapply triple_conseq; [apply saveControl_spec|done|]. simpl. naive_solver. }
    intros c1. apply triple_prop. intros [Hc1 Hc2]. apply (IH (S n)); lia.
Qed.

Lemma copyHistory_spec c :
  triple (copying c) (copyHistory clock spec req ts es c)
    (fun c' d => copying c' d /\ (k <= cr_CopiedTurn c' /\ q <= cr_CopiedSeq c')) fork_fails.
Proof.
  apply triple_fact with (φ := 0 <= cr_CopiedTurn c /\ 0 <= cr_CopiedSeq c).
  { by intros d (_ & _ & (_ & _ & _ & _ & _ & ? & ?) & _). }
  intros [H1 H2]. pose proof forkTurn_bounds. pose proof forkSeq_bounds.
  eapply triple_bind; [apply (copyTurns_spec 0); lia|]. intros c1. apply triple_prop. intros Hc1.
  apply triple_fact with (φ := 0 <= cr_CopiedSeq c1); [by intros d (_ & _ & (_ & _ & _ & _ & _ & ? & ?) & _)|]. intros Hs1.
  eapply triple_bind; [apply (copyEvents_spec 0); lia|]. intros c2. apply triple_prop. intros [Hc2 Hs2].
  eapply triple_conseq; [apply saveControl_spec|done|]. simpl. intros c3 d (Hd & H3 & H4). rewrite H3, H4. auto.
Qed.

Definition done_ (d : DB) : Prop := base d /\ ready d.
Definition dormant : ForkResponse := mkForkResp tgt "DORMANT".

Lemma done_fails d : done_ d -> fork_fails EStore d.
Proof. intros [Hb Hr]. split; [done|]. split; [done|]. by right; right. Qed.

Lemma done_reg d r : done_ d -> rg_SchemaVersion r = 1 -> done_ (<[regKey t spec := VRegistry r]> d).
Proof.
  intros [Hb (c & Hg & Hf & Hc)] Hv. split; [by apply base_reg|]. exists c. rewrite get_insert_reg.
  split; [done|]. split; [done|]. by apply copied_put_reg.
Qed.

Lemma finishFork_spec c :
  triple (copying c) (finishFork clock spec req ts es c) (fun r d => done_ d /\ r = dormant) fork_fails.
Proof.
  eapply triple_bind; [apply copyHistory_spec|]. intros c1. apply triple_prop. intros [Ht1 Hs1].
  eapply triple_bind; [apply triple_now|]. intros at_. set (c2 := set_updated _ _ _).
  assert (Hput : forall d, copying c1 d -> done_ (<[ctxKey t spec tgt PControl := VControl c2]> d)).
  { intros d (Hb & _ & (F1 & F2) & Hc). split; [by apply base_put|]. exists c2. rewrite get_insert, decide_True by done.
    split; [done|]. split; [by split|]. apply copied_put_control. by eapply copied_weaken. }
  eapply triple_bind with (R := fun _ => done_).
  { apply triple_update; eauto using copying_fails, done_fails. }
  intros u. eapply triple_bind with (R := fun _ => done_).
  { apply Register_spec; eauto using done_fails, done_reg; [apply FK|]. by intros d [(_ & _ & ?) _]. }
  intros u'. eapply triple_bind with (R := fun _ => done_).
  { apply triple_memory. intros w. exists (). unfold takePending. destruct (w_operations w !! _) as [op|]; [|done].
    by destruct (op_PendingScale op). }
  intros u''. by apply triple_ret.
Qed.

Lemma startFork_spec :
  triple (fun d => base d /\ fresh d) (startFork clock spec req turn q) copying fork_fails.
Proof.
  assert (HE : forall d, base d /\ fresh d -> fork_fails EStore d) by (intros d []; split; [done|]; split; [done|by left]).
  assert (HR : forall d, base d /\ fresh d -> registry_good t spec d) by (by intros d [(_ & _ & ?) _]).
  eapply triple_bind; [apply Exists_spec; eauto; apply FK|]. intros b.
  apply triple_fact with (φ := b = false); [intros d [[_ [_ Hr]] ->]; done|]. intros ->.
  eapply triple_bind with (R := fun b d => (base d /\ fresh d) /\ b = false).
  { eapply triple_bind; [apply triple_Get; naive_solver|]. intros raw.
    apply triple_fact with (φ := raw = None); [intros d [[[_ [Hp _]] _] ->]; apply (Hp (PTurn 1))|]. intros ->.
    eapply triple_bind; [apply triple_Get; naive_solver|]. intros raw. apply triple_ret.
    intros d [[[[Hb Hf] _] _] Hraw]. split; [done|]. change (raw = getp d tgt (PEvent 1)) in Hraw.
    rewrite (proj1 Hf) in Hraw. by subst raw. }
  intros b'. apply triple_prop. intros ->. eapply triple_bind; [apply triple_now|]. intros at_.
  set (c := mkControl _ _ _ _ _ _ _ _ _ _ _ _).
  assert (Hput : forall d, base d /\ fresh d -> copying c (<[ctxKey t spec tgt PControl := VControl c]> d)).
  { intros d [Hb [Hf _]]. apply copying_control; [done|by repeat split|].
    split; [intros n x _ Hn; simpl in Hn; lia|]. split; [intros n x _ Hn; simpl in Hn; lia|].
    split; intros i v; by rewrite Hf. }
  eapply triple_bind with (R := fun _ => copying c); [apply triple_update; eauto using copying_fails|].
  intros u. by apply triple_ret.
Qed.

(** The control record of the target is that of this fork. *)
Lemma fork_inv_control c d : fork_inv d -> getp d tgt PControl = Some (VControl c) ->
  sameFork req c = true /\ (cr_State c = StateReady /\ done_ d \/ cr_State c = StateCreating /\ copying c d).
Proof.
  assert (Hsame : forall state c0, fork_control state c0 -> sameFork req c0 = true).
  { intros state c0 (_ & H1 & H2 & _). unfold sameFork. by rewrite H1, H2, !String.eqb_refl. }
  intros [Hb [[Hf _]|[(c0 & Hg & Hf & Hc)|(c0 & Hg & Hf & Hc)]]] Hn; [by rewrite Hf in Hn|..]; rewrite Hg in Hn;
    simplify_eq; (split; [by eapply Hsame|]).
  - right. split; [apply Hf|]. split; [done|]. split; [by exists c|done].
  - left. split; [apply Hf|]. split; [done|by exists c].
Qed.

(** An attempt in any state of the target: it completes the fork or fails
    with a fault of the store, and can be repeated. *)
Lemma Fork_spec : triple fork_inv (Fork clock getFunc req) (fun r d => done_ d /\ r = dormant) fork_fails.
Proof.
  assert (HE : forall d, fork_inv d -> fork_fails EStore d) by done.
  unfold Fork. rewrite (fk_func FK).
  eapply triple_bind; [apply readControl_spec; [done|by intros d [(_ & (c & ? & _) & _) _]; exists c]|]. intros oc.
  apply triple_fact with (φ := is_state StateDeleting oc = false).
  { intros d [[(_ & (c & Hg & Hc) & _) _] Hoc]. rewrite Hg in Hoc. by destruct c, oc; simplify_eq/=. }
  intros ->. apply triple_conseq with (P' := fork_inv) (Q' := fun r d => done_ d /\ r = dormant); [|by intros d []|done].
  eapply triple_bind; [apply readHistory_spec; [done|by intros d [(? & _) _]]|].
  intros h. apply triple_prop. intros ->. rewrite (fk_turn FK). rewrite (proj2 (Z.eqb_neq _ _) (fk_seq FK)).
  eapply triple_bind; [apply readControl_spec with (P := fork_inv)|]; [done| |].
  { intros d [_ [[Hf _]|[(c & Hg & _)|(c & Hg & _)]]]; [exists None; by rewrite Hf|exists (Some c); by rewrite Hg..]. }
  intros [c|].
  - apply triple_fact with (φ := sameFork req c = true); [intros d [Hd Hg]; by apply (fork_inv_control c d)|].
    intros ->. cbn [negb]. destruct (String.eqb_spec (cr_State c) StateReady) as [Hs|Hs].
    + apply triple_ret. intros d [Hd Hg]. apply fork_inv_control in Hg as [_ [[_ ?]|[Hs' _]]]; [done|congruence|done].
    + eapply triple_conseq; [apply finishFork_spec| |done]. intros d [Hd Hg].
      apply fork_inv_control in Hg as [_ [[? _]|[_ ?]]]; done.
  - eapply triple_bind; [|apply finishFork_spec]. eapply triple_conseq; [apply startFork_spec| |done].
    intros d [[Hb [Hf|[(c & Hg & _)|(c & Hg & _)]]] Hn]; [done|by rewrite Hg in Hn..].
Qed.

Lemma ready_history d : ready d ->
  history t spec d tgt (set_turn_context tgt <$> take (Z.to_nat k) ts) (set_event_context tgt <$> take (Z.to_nat q) es).
Proof.
  intros (c & _ & _ & H1 & H2 & H3 & H4). pose proof forkTurn_bounds. pose proof forkSeq_bounds.
  split; intros n; rewrite length_fmap, length_take; intros Hn; rewrite list_lookup_fmap.
  - destruct (decide (Z.of_nat n < k)).
    + rewrite lookup_take_lt by lia. destruct (lookup_lt_is_Some_2 ts n) as [x Hx]; [lia|]. rewrite Hx. by apply H1.
    + rewrite lookup_take_ge by lia. destruct (getp d tgt _) eqn:Hg; [|done]. apply H3 in Hg as (m & x & ? & ? & _). lia.
  - destruct (decide (Z.of_nat n < q)).
    + rewrite lookup_take_lt by lia. destruct (lookup_lt_is_Some_2 es n) as [x Hx]; [lia|]. rewrite Hx. by apply H2.
    + rewrite lookup_take_ge by lia. destruct (getp d tgt _) eqn:Hg; [|done]. apply H4 in Hg as (m & x & ? & ? & _). lia.
Qed.
End Forks.

(** Attempts one after the other, each with a memory, outcomes and pool of
    its own: the store is what lasts from one to the next. *)
Definition attempts {A : Type} (cs : list (CM A * world)) (d : DB) : DB :=
  fold_left (fun d cw => w_db (cw.1 (set_db d cw.2)).2) cs d.

Lemma attempts_inv {A : Type} (I : DB -> Prop) (cs : list (CM A * world)) d :
  (forall cw d, cw ∈ cs -> I d -> I (w_db (cw.1 (set_db d cw.2)).2)) -> I d -> I (attempts cs d).
Proof.
  revert d. induction cs as [|cw cs IH]; intros d Hc Hd; [done|]. apply IH; [|apply Hc; [left|done]].
  intros cw' d' Hin. apply Hc. by right.
Qed.

(** C12: Forking a session context can be repeated until it succeeds: after
    any number of attempts, each of which may have failed at any operation of
    the store, with or without its effect, and may have run in a process that
    was lost, the source is as it was; the next attempt either fails with a
    fault of the store or reports the target dormant, with a history that is
    exactly the source's up to the turn and the event that completed it; and
    it does not fail when the store does not. *)
Theorem fork_resumes clock getFunc req spec ts es turn d ws :
  forkable getFunc req spec ts es turn -> base req spec ts es d -> fresh req spec d ->
  let tgt := fr_TargetSessionCtxID req in
  let d1 := attempts (map (fun w => (Fork clock getFunc req, w)) ws) d in
  history (fr_TenantID req) spec d1 (fr_SourceSessionCtxID req) ts es /\
  forall w, let r := Fork clock getFunc req (set_db d1 w) in
    (r.1 = inr EStore \/
     r.1 = inl (mkForkResp tgt "DORMANT") /\
     history (fr_TenantID req) spec (w_db r.2) tgt
       (set_turn_context tgt <$> take (Z.to_nat (tr_TurnIndex turn)) ts)
       (set_event_context tgt <$> take (Z.to_nat (forkSeq es (fr_TurnID req))) es)) /\
    (w_outcomes w = [] -> r.1 <> inr EStore).
Proof.
  intros FK Hb Hf tgt d1.
  assert (Hinv : fork_inv req spec ts es turn d1).
  { apply attempts_inv; [|split; [done|by left]]. intros cw d' (w & -> & _)%list_elem_of_fmap Hd'. cbn [fst snd].
    pose proof (Fork_spec clock getFunc req spec ts es turn FK (set_db d' w) Hd') as H.
    destruct (Fork _ _ _ _) as [[r|e] w']; [|by destruct H as [[_ ?] _]].
    destruct H as [[[Hb' Hr] _] _]. split; [done|]. by right; right. }
  split; [apply Hinv|]. intros w r.
  pose proof (Fork_spec clock getFunc req spec ts es turn FK (set_db d1 w) Hinv) as H. fold r in H.
  destruct r as [[r|e] w']; cbn [fst snd]; destruct H as [H Ho].
  - split; [|done]. right. destruct H as [[_ Hr] ->]. split; [done|]. by eapply ready_history.
  - destruct H as [-> _]. split; [by left|]. intros Hw. by specialize (Ho Hw).
Qed.

(** ** Delete *)





Section Deletes.
Context (clock : nat -> string) (getFunc : string -> option FuncMeta) (req : DeleteRequest) (spec : FuncMeta) (d0 : DB).
Notation t := (dr_TenantID req).
Notation ctx := (dr_SessionCtxID req).
Notation getp d p := (get t spec d ctx p).
Context (Hfunc : getFunc (dr_FuncKey req) = Some spec).
Context (Hcomplete : complete t spec ctx).















Section Steps.
Context (S : DB -> Prop) (E : ctx_error -> DB -> Prop).
Context (HStore : forall d, S d -> E EStore d).





End Steps.




End Deletes.


(** ** Scale hints and idle reports *)

(** A hint follows the life of its context: it is refused while the context is
    deleted, and waits while it is forked; neither asks the pool for an
    instance. *)
Theorem hint_follows_lifecycle clock getFunc hint spec c w :
  let key := operationKey (sh_FuncKey hint) (sh_SessionCtxID hint) in
  let r := scm_HandleScaleHint clock getFunc (Some hint) w in
  sh_FuncKey hint <> "" -> sh_SessionCtxID hint <> "" -> getFunc (sh_FuncKey hint) = Some spec -> w_outcomes w = [] ->
  get (sh_TenantID hint) spec (w_db w) (sh_SessionCtxID hint) PControl = Some (VControl c) ->
  (cr_State c = StateDeleting -> r = (inr (EMgr "SESSION_CTX_DELETING"), w)) /\
  (cr_State c = StateCreating ->
     r.1 = inl () /\ w_requests r.2 = w_requests w /\ op_PendingScale <$> w_operations r.2 !! key = Some true).
Proof.
  intros key r Hf Hc Hg Ho Hctl.
  assert (Hr : readControl spec (sh_TenantID hint) (sh_SessionCtxID hint) w = (inl (Some c), w)).
  { unfold readControl, mbind, CM_bind, st_Get, pop. rewrite Ho.
    change (w_db w !! _) with (get (sh_TenantID hint) spec (w_db w) (sh_SessionCtxID hint) PControl). by rewrite Hctl. }
  subst r. unfold scm_HandleScaleHint. rewrite !(proj2 (String.eqb_neq _ _)) by done. cbn [orb]. rewrite Hg.
  split; intros Hs; cbv zeta; unfold mbind, CM_bind; rewrite Hr; cbn [is_state]; rewrite Hs; [done|].
  cbn -[operationKey]. fold key. by rewrite lookup_insert_eq.
Qed.

(** The instances an idle report is about, those already on their way out
    apart. *)
Definition idle_stops (pool : gmap string (list CtxInstance)) (item : IdleInstance) : option PoolCall :=
  i ← List.find (observed item) (default [] (pool !! ie_FuncKey item));
  if isExiting i then None else Some (PcDelete (ci_InstanceID i)).

Lemma HandleIdle_stops report w : w_outcomes w = [] ->
  (HandleIdle report w).1 = inl () /\
  w_requests (HandleIdle report w).2 = (w_requests w ++ omap (idle_stops (w_pool w)) report)%list.
Proof.
  revert w. induction report as [|item report IH]; intros w Ho; [by rewrite app_nil_r|].
  cbn [HandleIdle]. unfold mbind, CM_bind, ListInstances. cbn [omap list_omap]. unfold idle_stops at 1.
  destruct (List.find _ _) as [i|]; cbn [mbind option_bind]; [|by apply IH].
  destruct (isExiting i); [by apply IH|]. unfold pool_call, pop. rewrite Ho.
  edestruct IH as [-> ->]; [done|]. split; [done|]. cbn. by rewrite <- app_assoc.
Qed.

(** ** A context of two turns *)

#[local] Opaque SHA256.Sum256 ctx_prefix ctxKey.

Definition demo_clock (n : nat) : string := Itoa (Z.of_nat n).
Definition demo_spec : FuncMeta := mkFuncMeta "0@svc@hello" "1".
Definition demo_func (_ : string) : option FuncMeta := Some demo_spec.
Definition turn1 : TurnRecord := mkTurn "s" 1 "u1" 1 "" 1.
Definition turn2 : TurnRecord := mkTurn "s" 2 "u2" 2 "" 1.
Definition event1 : Event := mkEvent "s" "u1" 1 "e1" "agent" "turn.completed" "null" 1 "".
Definition event2 : Event := mkEvent "s" "u2" 2 "e2" "agent" "turn.started" "null" 1 "".
Definition demo_fork : ForkRequest := mkForkReq "t" "t/f/1" "" "s" "copy" "u1" "".
Definition demo_delete (ctx : string) : DeleteRequest := mkDeleteReq "t" "t/f/1" "" ctx "".
Definition demo_world (d : DB) (outcomes : list outcome) (pool : list CtxInstance)
    (ops : gmap string runtimeOperation) : world := mkWorld d outcomes 0 {["t/f/1" := pool]} [] ops [].

Lemma get_empty t spec ctx p : get t spec ∅ ctx p = None.
Proof. apply lookup_empty. Qed.

(** A store of two turns and two events of one context. *)
Definition two_of (t : string) (spec : FuncMeta) (ctx : string) (v1 v2 v3 v4 : value) : DB :=
  <[ctxKey t spec ctx (PTurn 1) := v1]> (<[ctxKey t spec ctx (PTurn 2) := v2]> (
  <[ctxKey t spec ctx (PEvent 1) := v3]> (<[ctxKey t spec ctx (PEvent 2) := v4]> ∅))).
Lemma two_of_get t spec ctx v1 v2 v3 v4 p : get t spec (two_of t spec ctx v1 v2 v3 v4) ctx p =
  match p with
  | PTurn i => if decide (1 = i) then Some v1 else if decide (2 = i) then Some v2 else None
  | PEvent i => if decide (1 = i) then Some v3 else if decide (2 = i) then Some v4 else None
  | PControl => None
  end.
Proof.
  unfold two_of. rewrite !get_insert, get_empty.
  destruct p as [i|i|]; repeat case_decide; simplify_eq; done.
Qed.
Lemma two_of_other t spec ctx ctx' v1 v2 v3 v4 p :
  ctx_prefix t spec ctx <> ctx_prefix t spec ctx' -> get t spec (two_of t spec ctx v1 v2 v3 v4) ctx' p = None.
Proof. intros H. unfold two_of. by rewrite !get_insert_other, get_empty. Qed.

Definition demo_db : DB := two_of "t" demo_spec "s" (VTurn turn1) (VTurn turn2) (VEvent event1) (VEvent event2).
Lemma demo_forkable : forkable demo_func demo_fork demo_spec [turn1; turn2] [event1; event2] turn1.
Proof.
  split; [done|done| |..].
  - by vm_compute.
  - intros [|[|n]] x Hx; by simplify_eq/=.
  - intros [|[|n]] x Hx; by simplify_eq/=.
  - done.
  - done.
Qed.

Definition small_db : DB :=
  <[ctxKey "t" demo_spec "s" (PTurn 1) := VTurn turn1]> {[ctxKey "t" demo_spec "s" (PEvent 1) := VEvent event1]}.

Lemma demo_get p : get "t" demo_spec demo_db "s" p =
  match p with
  | PTurn i => if decide (1 = i) then Some (VTurn turn1) else if decide (2 = i) then Some (VTurn turn2) else None
  | PEvent i => if decide (1 = i) then Some (VEvent event1) else if decide (2 = i) then Some (VEvent event2) else None
  | PControl => None
  end.
Proof. apply two_of_get. Qed.

Lemma demo_no_registry : demo_db !! regKey "t" demo_spec = None.
Proof. unfold demo_db, two_of. rewrite !reg_insert. apply lookup_empty. Qed.
Lemma demo_registry : registry_good "t" demo_spec demo_db.
Proof. left. apply demo_no_registry. Qed.

Lemma demo_base : base demo_fork demo_spec [turn1; turn2] [event1; event2] demo_db.
Proof.
  split; [split|split]; [intros n Hn..|exists None|]; rewrite ?demo_get.
  - destruct n as [|[|[|n]]]; [done..|simpl in Hn; lia].
  - destruct n as [|[|[|n]]]; [done..|simpl in Hn; lia].
  - done.
  - apply demo_registry.
Qed.

Lemma demo_fresh : fresh demo_fork demo_spec demo_db.
Proof.
  split; [|unfold registered; by rewrite (demo_no_registry : demo_db !! regKey (fr_TenantID demo_fork) demo_spec = None)].
  intros p. apply two_of_other. intros H%eq_sym.
  by apply (fk_distinct _ _ _ _ _ _ demo_forkable).
Qed.

(** A fork whose first attempt loses the answer to its control record. *)
Lemma fork_resumes_witness :
  let w1 := demo_world demo_db (repeat OutOk 11 ++ [OutApplied]) [] ∅ in
  let w2 := demo_world demo_db [] [] ∅ in
  let d1 := attempts (map (fun w => (Fork demo_clock demo_func demo_fork, w)) [w1]) demo_db in
  (Fork demo_clock demo_func demo_fork (set_db d1 w2)).1 <> inr EStore.
Proof.
  intros w1 w2 d1.
  pose proof (fork_resumes demo_clock demo_func demo_fork demo_spec [turn1; turn2] [event1; event2] turn1 demo_db [w1]
                demo_forkable demo_base demo_fresh) as [_ H].
  apply (H w2). done.
Defined.




(** ** What a repeated operation does not do *)

(** A fork that fails at its last step, the entry in the registry, is complete
    for the next attempt: that attempt reports success at once, so that the
    target is never registered, and a scale hint that waited for the fork is
    never served. *)
Theorem fork_retry_skips_registration :
  let op := operationKey "t/f/1" "copy" in
  let w := demo_world small_db (repeat OutOk 15 ++ [OutLost]) [] {[op := mkOp false true false]} in
  (let '(r1, w1) := Fork demo_clock demo_func demo_fork w in
   let '(r2, w2) := Fork demo_clock demo_func demo_fork w1 in
   (r1, r2, registered "t" demo_spec (w_db w2) "copy", w_spawned w2, op_PendingScale <$> w_operations w2 !! op))
  = (inr EStore, inl (mkForkResp "copy" "DORMANT"), false, [], Some true).
Proof. by vm_compute. Qed.

(** [Delete] fixes the end of the history before it stops the instances: a
    turn the runtime finishes while it is stopped stays behind a deletion that
    reports success. *)
Theorem late_turn_survives_delete :
  let late := VTurn (mkTurn "s" 2 "u2" 2 "" 1) in
  let stops w := set_db (<[ctxKey "t" demo_spec "s" (PTurn 2) := late]> (w_db w))
                   (mkWorld (w_db w) (w_outcomes w) (w_ticks w) ∅ (w_requests w) (w_operations w) (w_spawned w)) in
  (let '(r, w) := Delete demo_clock demo_func [stops] (demo_delete "s")
                    (demo_world small_db [] [mkCtxInstance "i1" (Some "s") 3] ∅) in
   (r, w_requests w, get "t" demo_spec (w_db w) "s" PControl, get "t" demo_spec (w_db w) "s" (PTurn 2)))
  = (inl (), [PcDelete "i1"], None, Some late).
Proof. by vm_compute. Qed.

(** An instance that was created for a context whose entry in the registry
    could not be written is unknown to [Delete]: it reports success and leaves
    the instance running. *)
Theorem unregistered_instance_survives_delete :
  let hint := mkHint "t/f/1" "t" "" "new" "cold_start" 1 0 0 "" "" "" in
  (let '(r1, w1) := scm_HandleScaleHint demo_clock demo_func (Some hint)
                      (demo_world ∅ [OutOk; OutOk; OutOk; OutLost] [] ∅) in
   let '(r2, w2) := Delete demo_clock demo_func [] (demo_delete "new")
                      (demo_world (w_db w1) [] [mkCtxInstance "i1" (Some "new") 3] ∅) in
   (r1, w_requests w1, r2, w_requests w2)) = (inr EStore, [PcCreate demo_spec "new"], inl (), []).
Proof. by vm_compute. Qed.
