(* ===== verification/TenantQuota.v ===== *)
(** * Tenant quotas (functionscaler/tenantquota)

    Every scheduler process counts the instances of a tenant, on-demand and
    reserved ones ("reversed" in the source), before it creates one and after
    it removed one.  The count that is common to the processes lies in etcd
    under a lock; each process also keeps the last count it saw in a cache, and
    works with the larger of the two.

    An operation has two sections: it reads quota and cache, and then, under the
    etcd lock, reads, decides and writes.  Sections of all processes interleave.
    etcd is a map by tenant; whether a session, a read and a write succeed is
    given by [etcd_answers], and a value that does not decode is a failed read.
    Counts are unbounded integers. *)
From S2P Require Import Prelude.
#[local] Open Scope string_scope.
#[local] Open Scope Z_scope.

Record tenantQuota := mkQuota { tq_maxOnDemandInstance : Z; tq_maxReversedInstance : Z }.
Record tenantInstance := mkTenantIns { tn_onDemandInsNum : Z; tn_reversedInsNum : Z }.
Record TenantInsInfo := mkInsInfo { ti_OnDemandInsNum : Z; ti_ReversedInsNum : Z }.

(** The cache with the process's default quota. *)
Record tenantCache := mkTenantCache {
  tc_tenantQuotaList : gmap string tenantQuota;
  tc_tenantInstanceList : gmap string tenantInstance;
  tc_default : tenantQuota
}.
Notation etcd := (gmap string TenantInsInfo).
Implicit Types (tc : tenantCache) (id : string).

Definition set_instances tc (l : gmap string tenantInstance) : tenantCache :=
  mkTenantCache (tc_tenantQuotaList tc) l (tc_default tc).
Definition set_quotas tc (l : gmap string tenantQuota) : tenantCache :=
  mkTenantCache l (tc_tenantInstanceList tc) (tc_default tc).

Definition getOrCreateTenantInstance tc id : tenantInstance * tenantCache :=
  match tc_tenantInstanceList tc !! id with
  | Some n => (n, tc)
  | None => (mkTenantIns 0 0, set_instances tc (<[id := mkTenantIns 0 0]> (tc_tenantInstanceList tc)))
  end.

Definition getTenantInstanceNum tc id : (Z * Z) * tenantCache :=
  let '(n, tc) := getOrCreateTenantInstance tc id in ((tn_onDemandInsNum n, tn_reversedInsNum n), tc).

(** The method of the cache; a tenant without instances has no entry. *)
Definition cache_updateTenantInstance tc id (onDemandInsNum reversedInsNum : Z) : tenantCache :=
  if (reversedInsNum =? 0) && (onDemandInsNum =? 0)
  then set_instances tc (delete id (tc_tenantInstanceList tc))
  else set_instances tc (<[id := mkTenantIns onDemandInsNum reversedInsNum]> (tc_tenantInstanceList tc)).

Definition GetTenantQuotaNum tc id : Z * Z :=
  let q := default (tc_default tc) (tc_tenantQuotaList tc !! id) in
  (tq_maxOnDemandInstance q, tq_maxReversedInstance q).

Definition DeleteTenantQuota tc id : tenantCache := set_quotas tc (delete id (tc_tenantQuotaList tc)).
Definition UpdateOrAddTenantQuota tc id (metaInfo : tenantQuota) : tenantCache :=
  set_quotas tc (<[id := metaInfo]> (tc_tenantQuotaList tc)).
Definition UpdateDefaultQuota tc (metaInfo : tenantQuota) : tenantCache :=
  mkTenantCache (tc_tenantQuotaList tc) (tc_tenantInstanceList tc) metaInfo.

(** ** Counting *)

Notation defaultUnlimitedInstanceNumPerTenant := (-1)%Z (only parsing).

Record etcd_answers := mkAnswers { ea_session : bool; ea_get : bool; ea_put : bool }.

Definition getTenantInsInfoFromETCD (ans : etcd_answers) (e : etcd) id : TenantInsInfo :=
  if ea_get ans then default (mkInsInfo 0 0) (e !! id) else mkInsInfo 0 0.
Definition etcd_updateTenantInstance (ans : etcd_answers) (e : etcd) id (onDemandInsNum reversedInsNum : Z) : etcd :=
  if ea_put ans then <[id := mkInsInfo onDemandInsNum reversedInsNum]> e else e.

(** What a section under the lock starts from: the larger of both counts. *)
Definition merged (ans : etcd_answers) (e : etcd) id (onDemandInsNum reversedInsNum : Z) : TenantInsInfo :=
  let info := getTenantInsInfoFromETCD ans e id in
  mkInsInfo (Z.max (ti_OnDemandInsNum info) onDemandInsNum) (Z.max (ti_ReversedInsNum info) reversedInsNum).

(** The first section of [IncreaseTenantInstanceNum]: an unlimited tenant is
    done, else the numbers it goes on with. *)
Definition increase_read tc id : option ((Z * Z) * (Z * Z)) * tenantCache :=
  let '(maxOnDemandInstance, maxReversedInstance) := GetTenantQuotaNum tc id in
  if (maxOnDemandInstance =? defaultUnlimitedInstanceNumPerTenant)
     || (maxReversedInstance =? defaultUnlimitedInstanceNumPerTenant)
  then (None, tc)
  else let '(nums, tc) := getTenantInstanceNum tc id in
       (Some ((maxOnDemandInstance, maxReversedInstance), nums), tc).

(** The second: whether the on-demand and the reserved limit is reached. *)
Definition increase_act (ans : etcd_answers) (e : etcd) tc id (isReserved : bool) (maxs nums : Z * Z)
    : (bool * bool) * etcd * tenantCache :=
  let '(maxOnDemandInstance, maxReversedInstance) := maxs in
  let '(onDemandInsNum, reversedInsNum) := nums in
  if negb (ea_session ans) then
    let reach := negb isReserved && (maxOnDemandInstance <? onDemandInsNum + 1) in
    let onDemandInsNum := if isReserved || reach then onDemandInsNum else onDemandInsNum + 1 in
    let reversedInsNum := if isReserved then reversedInsNum + 1 else reversedInsNum in
    ((reach, maxReversedInstance <? reversedInsNum), e,
     cache_updateTenantInstance tc id onDemandInsNum reversedInsNum)
  else
    let info := merged ans e id onDemandInsNum reversedInsNum in
    if negb isReserved && (maxOnDemandInstance <? ti_OnDemandInsNum info + 1) then
      ((true, maxReversedInstance <? ti_ReversedInsNum info), e,
       cache_updateTenantInstance tc id (ti_OnDemandInsNum info) (ti_ReversedInsNum info))
    else
      let onDemand := if isReserved then ti_OnDemandInsNum info else ti_OnDemandInsNum info + 1 in
      let reversed := if isReserved then ti_ReversedInsNum info + 1 else ti_ReversedInsNum info in
      ((false, maxReversedInstance <? reversed), etcd_updateTenantInstance ans e id onDemand reversed,
       cache_updateTenantInstance tc id onDemand reversed).

Definition IncreaseTenantInstanceNum (ans : etcd_answers) (e : etcd) tc id (isReserved : bool)
    : (bool * bool) * etcd * tenantCache :=
  match increase_read tc id with
  | (None, tc) => ((false, false), e, tc)
  | (Some (maxs, nums), tc) => increase_act ans e tc id isReserved maxs nums
  end.

Definition decrease_act (ans : etcd_answers) (e : etcd) tc id (isReserved : bool) (nums : Z * Z) : etcd * tenantCache :=
  let '(onDemandInsNum, reversedInsNum) := nums in
  let info := if ea_session ans then merged ans e id onDemandInsNum reversedInsNum
              else mkInsInfo onDemandInsNum reversedInsNum in
  let onDemand := if isReserved then ti_OnDemandInsNum info else ti_OnDemandInsNum info - 1 in
  let reversed := if isReserved then ti_ReversedInsNum info - 1 else ti_ReversedInsNum info in
  (if ea_session ans then etcd_updateTenantInstance ans e id onDemand reversed else e,
   cache_updateTenantInstance tc id onDemand reversed).

Definition DecreaseTenantInstance (ans : etcd_answers) (e : etcd) tc id (isReserved : bool) : etcd * tenantCache :=
  let '(nums, tc) := getTenantInstanceNum tc id in decrease_act ans e tc id isReserved nums.

(** ** A cluster of scheduler processes *)

(** An operation between its sections. *)
Inductive pending_op :=
| PInc (p : nat) (isReserved : bool) (maxs nums : Z * Z)
| PDec (p : nat) (isReserved : bool) (nums : Z * Z).

(** [cl_running] are the on-demand instances of the tenant that were allowed
    and not given back. *)
Record cluster := mkCluster {
  cl_etcd : etcd;
  cl_caches : gmap nat tenantCache;
  cl_pending : list pending_op;
  cl_running : Z
}.
Implicit Types (c : cluster).

Definition new_cache : tenantCache := mkTenantCache ∅ ∅ (mkQuota 1000 1000).
Definition cache_of c (p : nat) : tenantCache := default new_cache (cl_caches c !! p).

Inductive quota_event :=
| QIncrease (p : nat) (isReserved : bool)
| QDecrease (p : nat) (isReserved : bool)
| QLocked (i : nat) (ans : etcd_answers)
| QQuota (p : nat) (metaInfo : tenantQuota).

Section Cluster.
Context (id : string).

Definition quota_step c (ev : quota_event) : cluster :=
  match ev with
  | QIncrease p isReserved =>
      match increase_read (cache_of c p) id with
      | (None, tc) => mkCluster (cl_etcd c) (<[p := tc]> (cl_caches c)) (cl_pending c)
                        (if isReserved then cl_running c else cl_running c + 1)
      | (Some (maxs, nums), tc) =>
          mkCluster (cl_etcd c) (<[p := tc]> (cl_caches c)) (cl_pending c ++ [PInc p isReserved maxs nums])%list (cl_running c)
      end
  | QDecrease p isReserved =>
      let '(nums, tc) := getTenantInstanceNum (cache_of c p) id in
      mkCluster (cl_etcd c) (<[p := tc]> (cl_caches c)) (cl_pending c ++ [PDec p isReserved nums])%list
        (if isReserved then cl_running c else cl_running c - 1)
  | QLocked i ans =>
      match cl_pending c !! i with
      | None => c
      | Some (PInc p isReserved maxs nums) =>
          let '(r, e, tc) := increase_act ans (cl_etcd c) (cache_of c p) id isReserved maxs nums in
          mkCluster e (<[p := tc]> (cl_caches c)) (delete i (cl_pending c))
            (if isReserved || r.1 then cl_running c else cl_running c + 1)
      | Some (PDec p isReserved nums) =>
          let '(e, tc) := decrease_act ans (cl_etcd c) (cache_of c p) id isReserved nums in
          mkCluster e (<[p := tc]> (cl_caches c)) (delete i (cl_pending c)) (cl_running c)
      end
  | QQuota p metaInfo =>
      mkCluster (cl_etcd c) (<[p := UpdateOrAddTenantQuota (cache_of c p) id metaInfo]> (cl_caches c)) (cl_pending c)
        (cl_running c)
  end.
Definition quota_run (evs : list quota_event) c : cluster := fold_left quota_step evs c.
End Cluster.

(** ** The quota holds *)

Definition count (e : etcd) id : TenantInsInfo := default (mkInsInfo 0 0) (e !! id).
Definition cached tc id : Z * Z :=
  let n := default (mkTenantIns 0 0) (tc_tenantInstanceList tc !! id) in (tn_onDemandInsNum n, tn_reversedInsNum n).
Definition reliable : etcd_answers := mkAnswers true true true.

Lemma count_put id e a b : count (etcd_updateTenantInstance reliable e id a b) id = mkInsInfo a b.
Proof. unfold count, etcd_updateTenantInstance. cbn [ea_put reliable]. by rewrite lookup_insert_eq. Qed.

Lemma getTenantInstanceNum_spec tc id :
  (getTenantInstanceNum tc id).1 = cached tc id /\ cached (getTenantInstanceNum tc id).2 id = cached tc id /\
  tc_tenantQuotaList (getTenantInstanceNum tc id).2 = tc_tenantQuotaList tc /\
  tc_default (getTenantInstanceNum tc id).2 = tc_default tc.
Proof.
  unfold getTenantInstanceNum, getOrCreateTenantInstance, cached. destruct (tc_tenantInstanceList tc !! id) eqn:E; simpl.
  - by rewrite E.
  - by rewrite lookup_insert_eq.
Qed.

Lemma cached_update tc id a b : cached (cache_updateTenantInstance tc id a b) id = (a, b).
Proof.
  unfold cached, cache_updateTenantInstance. destruct (_ && _) eqn:E; zbool; subst; simpl.
  - by rewrite lookup_delete_eq.
  - by rewrite lookup_insert_eq.
Qed.
Lemma quota_update tc id a b : GetTenantQuotaNum (cache_updateTenantInstance tc id a b) id = GetTenantQuotaNum tc id.
Proof. unfold cache_updateTenantInstance. by destruct (_ && _). Qed.

(** A quota that limits, and by no more than [M]. *)
Definition limits (M : Z) (q : Z * Z) : Prop := q.1 <> -1 /\ q.2 <> -1 /\ q.1 <= M.

Lemma increase_read_limited M tc id : limits M (GetTenantQuotaNum tc id) ->
  exists tc', increase_read tc id = (Some (GetTenantQuotaNum tc id, cached tc id), tc') /\
    cached tc' id = cached tc id /\ GetTenantQuotaNum tc' id = GetTenantQuotaNum tc id.
Proof.
  intros (H1 & H2 & _). unfold increase_read. destruct (GetTenantQuotaNum tc id) as [a b] eqn:Hq. simpl in H1, H2.
  rewrite !(proj2 (Z.eqb_neq _ _)) by done. cbn [orb].
  destruct (getTenantInstanceNum_spec tc id) as (Hn & Hc & Hl & Hd). destruct (getTenantInstanceNum tc id) as [nums tc'].
  simpl in *. subst nums. exists tc'. split; [done|]. split; [done|]. rewrite <- Hq. unfold GetTenantQuotaNum. by rewrite Hl, Hd.
Qed.

Section Quota.
Context (id : string) (M : Z).

Definition dec_pending (op : pending_op) : Z := match op with PDec _ false _ => 1 | _ => 0 end.
Definition decs (l : list pending_op) : Z := foldr (fun op n => dec_pending op + n) 0 l.

Lemma decs_app l l' : decs (l ++ l')%list = decs l + decs l'.
Proof. induction l as [|op l IH]; simpl; [lia|]. rewrite IH. lia. Qed.
Lemma decs_nonneg l : 0 <= decs l.
Proof. induction l as [|[| ? [] ?] l IH]; simpl in *; lia. Qed.
Lemma decs_delete l i op : l !! i = Some op -> decs (delete i l) = decs l - dec_pending op.
Proof.
  intros H. rewrite delete_take_drop. rewrite <- (take_drop_middle l i op H) at 3. rewrite !decs_app. simpl. lia.
Qed.

(** The count is at least what runs or is about to be given back. *)
Record quota_inv c : Prop := {
  qi_count : cl_running c + decs (cl_pending c) <= ti_OnDemandInsNum (count (cl_etcd c) id);
  qi_running : cl_running c <= M;
  qi_quota p : limits M (GetTenantQuotaNum (cache_of c p) id);
  qi_pending p r maxs nums : PInc p r maxs nums ∈ cl_pending c -> maxs.1 <= M
}.

(** The tenant is limited, and etcd answers. *)
Definition orderly (ev : quota_event) : Prop :=
  match ev with
  | QLocked _ ans => ans = reliable
  | QQuota _ q => limits M (tq_maxOnDemandInstance q, tq_maxReversedInstance q)
  | _ => True
  end.

Lemma cache_of_insert c e p tc l n p' :
  cache_of (mkCluster e (<[p := tc]> (cl_caches c)) l n) p' = if decide (p = p') then tc else cache_of c p'.
Proof. unfold cache_of. simpl. destruct (decide _) as [->|]; [by rewrite lookup_insert_eq|by rewrite lookup_insert_ne]. Qed.

Lemma quotas_kept c e p tc l n :
  (forall p, limits M (GetTenantQuotaNum (cache_of c p) id)) -> limits M (GetTenantQuotaNum tc id) ->
  forall p', limits M (GetTenantQuotaNum (cache_of (mkCluster e (<[p := tc]> (cl_caches c)) l n) p') id).
Proof. intros H Ht p'. rewrite cache_of_insert. by destruct (decide _). Qed.

Lemma merged_ge e a b : ti_OnDemandInsNum (count e id) <= ti_OnDemandInsNum (merged reliable e id a b).
Proof. unfold merged, getTenantInsInfoFromETCD. cbn [ea_get reliable ti_OnDemandInsNum]. unfold count. lia. Qed.

Lemma increase_act_spec e tc r maxs nums :
  let '(res, e', tc') := increase_act reliable e tc id r maxs nums in
  ti_OnDemandInsNum (count e id) + (if r || res.1 then 0 else 1) <= ti_OnDemandInsNum (count e' id) /\
  (r || res.1 = false -> ti_OnDemandInsNum (count e' id) <= maxs.1) /\
  GetTenantQuotaNum tc' id = GetTenantQuotaNum tc id.
Proof.
  destruct maxs as [m1 m2], nums as [a b]. unfold increase_act. cbn [ea_session reliable negb].
  set (info := merged _ _ _ _ _). assert (Hi : ti_OnDemandInsNum (count e id) <= ti_OnDemandInsNum info) by apply merged_ge.
  destruct r; cbn [negb andb orb]; [|destruct (Z.ltb_spec m1 (ti_OnDemandInsNum info + 1))]; cbn [fst snd];
    rewrite ?count_put, quota_update; cbn [ti_OnDemandInsNum]; (split; [lia|split; [|done]]); intros; try done; lia.
Qed.

Lemma decrease_act_spec e tc r nums :
  let '(e', tc') := decrease_act reliable e tc id r nums in
  ti_OnDemandInsNum (count e id) - (if r then 0 else 1) <= ti_OnDemandInsNum (count e' id) /\
  GetTenantQuotaNum tc' id = GetTenantQuotaNum tc id.
Proof.
  destruct nums as [a b]. unfold decrease_act. cbn [ea_session reliable]. set (info := merged _ _ _ _ _).
  assert (Hi : ti_OnDemandInsNum (count e id) <= ti_OnDemandInsNum info) by apply merged_ge.
  rewrite count_put, quota_update. destruct r; cbn [ti_OnDemandInsNum]; split; done || lia.
Qed.

Lemma quota_step_inv c ev : orderly ev -> quota_inv c -> quota_inv (quota_step id c ev).
Proof.
  intros Ho [H1 H2 H3 H4]. destruct ev as [p r|p r|i ans|p q]; cbn [quota_step].
  - destruct (increase_read_limited M (cache_of c p) id (H3 p)) as (tc & -> & _ & Hq).
    assert (limits M (GetTenantQuotaNum tc id)) by (by rewrite Hq).
    split; cbn [cl_running cl_pending cl_etcd]; [rewrite decs_app; simpl; lia|done|by apply quotas_kept|].
    intros p' r' maxs nums [Hin|Hin]%elem_of_app; [by eapply H4|]. apply list_elem_of_singleton in Hin.
    injection Hin as -> -> -> ->. apply (H3 p).
  - destruct (getTenantInstanceNum_spec (cache_of c p) id) as (_ & _ & Hl & Hd).
    destruct (getTenantInstanceNum (cache_of c p) id) as [nums tc]. simpl in Hl, Hd.
    assert (limits M (GetTenantQuotaNum tc id)) by (unfold GetTenantQuotaNum; rewrite Hl, Hd; apply H3).
    split; cbn [cl_running cl_pending cl_etcd]; [rewrite decs_app; destruct r; simpl; lia|destruct r; lia|by apply quotas_kept|].
    intros p' r' maxs nums' [Hin|Hin]%elem_of_app; [by eapply H4|]. apply list_elem_of_singleton in Hin. done.
  - simpl in Ho. subst ans. destruct (cl_pending c !! i) as [op|] eqn:Hop; [|done].
    pose proof (decs_delete _ _ _ Hop) as Hdel. pose proof (decs_nonneg (delete i (cl_pending c))).
    assert (Hsub : forall op', op' ∈ delete i (cl_pending c) -> op' ∈ cl_pending c).
    { intros op'. rewrite delete_take_drop. rewrite <- (take_drop_middle _ _ _ Hop) at 3. set_solver. }
    destruct op as [p r maxs nums|p r nums].
    + pose proof (increase_act_spec (cl_etcd c) (cache_of c p) r maxs nums) as Hs.
      pose proof (H4 _ _ _ _ (list_elem_of_lookup_2 _ _ _ Hop)).
      destruct (increase_act _ _ _ _ _ _ _) as [[res e] tc]. destruct Hs as (S1 & S2 & S3). simpl in Hdel.
      split; cbn [cl_running cl_pending cl_etcd]; [destruct (r || res.1); lia|destruct (r || res.1); [done|]; lia| |by eauto].
      apply quotas_kept; [done|by rewrite S3].
    + pose proof (decrease_act_spec (cl_etcd c) (cache_of c p) r nums) as Hs.
      destruct (decrease_act _ _ _ _ _ _) as [e tc]. destruct Hs as (S1 & S3). simpl in Hdel.
      split; cbn [cl_running cl_pending cl_etcd]; [destruct r; lia|done| |by eauto].
      apply quotas_kept; [done|by rewrite S3].
  - split; cbn [cl_running cl_pending cl_etcd]; [done..| |done]. apply quotas_kept; [done|].
    unfold GetTenantQuotaNum, UpdateOrAddTenantQuota. simpl. by rewrite lookup_insert_eq.
Qed.
End Quota.

(** C5: The quota of a tenant holds across scheduler processes: while etcd
    answers, whatever the interleaving of the processes' operations, no more
    on-demand instances of the tenant run than the largest of its quotas, and no
    more than the common count says. *)
Theorem quota_never_exceeded id M caches evs :
  0 <= M -> (forall p, limits M (GetTenantQuotaNum (default new_cache (caches !! p)) id)) -> Forall (orderly M) evs ->
  let c := quota_run id evs (mkCluster ∅ caches [] 0) in
  cl_running c <= M /\ cl_running c <= ti_OnDemandInsNum (count (cl_etcd c) id).
Proof.
  intros HM Hq Ho c. assert (Hi : quota_inv id M c).
  { subst c. unfold quota_run. assert (H0 : quota_inv id M (mkCluster ∅ caches [] 0)).
    { split; [done|done|apply Hq|]. intros p r maxs nums Hin. by apply elem_of_nil in Hin. }
    revert H0. generalize (mkCluster ∅ caches [] 0). induction Ho as [|ev evs He Ho IH]; intros c Hc; [done|].
    apply IH. by apply quota_step_inv. }
  pose proof (decs_nonneg (cl_pending c)). pose proof (qi_count id M c Hi). split; [apply Hi|lia].
Qed.

Lemma quota_never_exceeded_witness :
  let quota := QQuota 0 (mkQuota 1 5) in
  let evs := [quota; QIncrease 0 false; QIncrease 1 false; QLocked 1 reliable; QLocked 0 reliable] in
  let c := quota_run "t" evs (mkCluster ∅ ∅ [] 0) in cl_running c = 1 /\ cl_running c <= 1000.
Proof.
  intros quota evs c. split; [by vm_compute|].
  apply (quota_never_exceeded "t" 1000 ∅ evs); [lia| |].
  - intros p. rewrite lookup_empty. by split; [|split].
  - repeat constructor; done.
Defined.

(** ** One process at a time *)

(** Whole operations of one process. *)
Definition solo_op id (ec : etcd * tenantCache * Z) (op : bool * bool) : etcd * tenantCache * Z :=
  let '(e, tc, running) := ec in
  let '(increase, isReserved) := op in
  if (increase : bool) then
    let '(r, e, tc) := IncreaseTenantInstanceNum reliable e tc id isReserved in
    (e, tc, if isReserved || r.1 then running else running + 1)
  else
    let '(e, tc) := DecreaseTenantInstance reliable e tc id isReserved in
    (e, tc, if isReserved then running else running - 1).

(** The cache and the number of instances that run agree with the count. *)
Definition agrees id (M : Z) (ec : etcd * tenantCache * Z) : Prop :=
  let '(e, tc, running) := ec in
  limits M (GetTenantQuotaNum tc id) /\ ti_OnDemandInsNum (count e id) = running /\
  cached tc id = (ti_OnDemandInsNum (count e id), ti_ReversedInsNum (count e id)).

Lemma merged_same e id :
  merged reliable e id (ti_OnDemandInsNum (count e id)) (ti_ReversedInsNum (count e id)) = count e id.
Proof.
  unfold merged, getTenantInsInfoFromETCD. cbn [ea_get reliable]. fold (count e id). rewrite !Z.max_id. by destruct (count e id).
Qed.

Lemma solo_op_agrees id M ec op : agrees id M ec -> agrees id M (solo_op id ec op).
Proof.
  destruct ec as [[e tc] n], op as [inc r]. intros (Hq & Hn & Hc). unfold solo_op. destruct inc.
  - unfold IncreaseTenantInstanceNum. destruct (increase_read_limited M tc id Hq) as (tc1 & -> & Hc1 & Hq1).
    rewrite Hc. destruct (GetTenantQuotaNum tc id) as [m1 m2]. unfold increase_act. cbn [ea_session reliable negb].
    rewrite merged_same. destruct r; cbn [negb andb orb]; [|destruct (Z.ltb_spec m1 (ti_OnDemandInsNum (count e id) + 1))];
      unfold agrees; cbn [fst snd]; rewrite quota_update, cached_update, ?count_put, Hq1; cbn [ti_OnDemandInsNum]; auto with lia.
  - unfold DecreaseTenantInstance. destruct (getTenantInstanceNum_spec tc id) as (Hn1 & _ & Hl & Hd).
    destruct (getTenantInstanceNum tc id) as [nums tc1]. cbn [fst snd] in *. subst nums. rewrite Hc.
    unfold decrease_act. cbn [ea_session reliable]. rewrite merged_same. unfold agrees.
    rewrite quota_update, cached_update, count_put. cbn [ti_OnDemandInsNum].
    unfold GetTenantQuotaNum in *. rewrite Hl, Hd. destruct r; auto with lia.
Qed.

(** In one process whose operations do not overlap the count is exact: it is
    the number of instances that run, and the cache agrees with it. *)
Theorem solo_count_exact id M tc ops :
  limits M (GetTenantQuotaNum tc id) -> cached tc id = (0, 0) -> agrees id M (fold_left (solo_op id) ops (∅, tc, 0)).
Proof.
  intros Hq Hc. assert (H : agrees id M (∅, tc, 0)) by done. revert H. generalize (∅ : etcd, tc, 0).
  induction ops as [|op ops IH]; intros ec H; [done|]. by apply IH, solo_op_agrees.
Qed.

(** ** Where the count goes wrong *)

(** A process that was refused once stays refused: the refusal leaves the
    count at the limit in its cache, and since it works with the larger of the
    two counts it refuses every later on-demand instance, whatever etcd says by
    then and even if nothing runs any more, until it gives back an instance of
    its own. *)
Theorem refusal_sticks id tc e e' M ans :
  limits M (GetTenantQuotaNum tc id) -> ea_session ans = true ->
  let '(r, _, tc1) := IncreaseTenantInstanceNum reliable e tc id false in
  r.1 = true ->
  let '(r', _, tc2) := IncreaseTenantInstanceNum ans e' tc1 id false in
  r'.1 = true /\ (GetTenantQuotaNum tc2 id).1 <= (cached tc2 id).1.
Proof.
  intros Hq Hs.
  assert (Hfull : forall tc e ans, limits M (GetTenantQuotaNum tc id) -> ea_session ans = true ->
    let '(r, _, tc1) := IncreaseTenantInstanceNum ans e tc id false in
    ((GetTenantQuotaNum tc id).1 <= (cached tc id).1 -> r.1 = true) /\
    (r.1 = true -> (GetTenantQuotaNum tc1 id).1 <= (cached tc1 id).1) /\ GetTenantQuotaNum tc1 id = GetTenantQuotaNum tc id).
  { clear. intros tc e ans Hq Hs. unfold IncreaseTenantInstanceNum.
    destruct (increase_read_limited M tc id Hq) as (tc1 & -> & Hc1 & Hq1).
    destruct (GetTenantQuotaNum tc id) as [m1 m2], (cached tc id) as [a b]. unfold increase_act. rewrite Hs. cbn [negb andb].
    set (info := merged _ _ _ _ _). assert (a <= ti_OnDemandInsNum info) by (unfold info, merged; cbn [ti_OnDemandInsNum]; lia).
    destruct (Z.ltb_spec m1 (ti_OnDemandInsNum info + 1)); cbn [fst]; rewrite quota_update, cached_update, Hq1; cbn [fst];
      (split; [|split; [|done]]); intros; try done; lia. }
  pose proof (Hfull tc e reliable Hq eq_refl) as H1.
  destruct (IncreaseTenantInstanceNum reliable e tc id false) as [[r e1] tc1]. destruct H1 as (_ & H1 & Hq1). intros Hr.
  pose proof (Hfull tc1 e' ans ltac:(by rewrite Hq1) Hs) as H2.
  destruct (IncreaseTenantInstanceNum ans e' tc1 id false) as [[r' e2] tc2]. destruct H2 as (H2 & H3 & _).
  assert (r'.1 = true) by auto. auto.
Qed.

Lemma refusal_sticks_witness :
  let tc := UpdateOrAddTenantQuota new_cache "t" (mkQuota 1 5) in
  let '(_, _, tc1) := IncreaseTenantInstanceNum reliable {["t" := mkInsInfo 1 0]} tc "t" false in
  (IncreaseTenantInstanceNum reliable ∅ tc1 "t" false).1.1.1 = true.
Proof.
  intros tc. pose proof (refusal_sticks "t" tc {["t" := mkInsInfo 1 0]} ∅ 1 reliable) as H.
  assert (Hl : limits 1 (GetTenantQuotaNum tc "t")) by (by split; [|split]).
  specialize (H Hl eq_refl). destruct (IncreaseTenantInstanceNum reliable {["t" := mkInsInfo 1 0]} tc "t" false) as [[r e] tc1] eqn:E.
  assert (Hr : r.1 = true) by (vm_compute in E; by injection E as <- _ _). specialize (H Hr).
  destruct (IncreaseTenantInstanceNum reliable ∅ tc1 "t" false) as [[r' e'] tc2]. apply H.
Defined.

(** Two processes that each start and give back an instance, one after the
    other, leave the count one too high every time. *)
Definition two_cycle : list quota_event :=
  [QIncrease 0 false; QLocked 0 reliable; QIncrease 1 false; QLocked 0 reliable;
   QDecrease 0 false; QLocked 0 reliable; QDecrease 1 false; QLocked 0 reliable].
Theorem phantom_instances :
  let c := quota_run "t" (concat (replicate 3 two_cycle)) (mkCluster ∅ ∅ [] 0) in
  cl_running c = 0 /\ cl_pending c = [] /\ count (cl_etcd c) "t" = mkInsInfo 3 0.
Proof. by vm_compute. Qed.

(** While a tenant is not limited its instances are not counted when they are
    created, but they are when they are given back: with a limit again, it can
    run more instances than the limit. *)
Theorem unlimited_tenant_gets_credit :
  let free := QQuota 0 (mkQuota (-1) (-1)) in
  let limited := QQuota 0 (mkQuota 1 1) in
  let start_stop := [QIncrease 0 false; QDecrease 0 false; QLocked 0 reliable] in
  let start := [QIncrease 0 false; QLocked 0 reliable] in
  let c := quota_run "t" ([free] ++ start_stop ++ start_stop ++ [limited] ++ start ++ start ++ start)
             (mkCluster ∅ ∅ [] 0) in
  cl_running c = 3.
Proof. by vm_compute. Qed.
