(* ===== verification/RoundRobin.v ===== *)
(** * The round robin scheduler (scheduler/roundrobinscheduler)

    [RoundRobinScheduler] hands out the instances of a function in turn, those
    of the preferred availability zone first, and keeps sub-healthy instances
    aside.  It tells the scaler it is connected with about threads that come and
    go.

    Every operation is its critical section; [HandleInstanceUpdate] has two, of
    which the first looks where the instance is and the second moves it, and
    [AcquireInstance] waits between two with the lock released.  The order of an
    iteration over the map of sub-healthy instances is an argument.  Instances
    are values: the scheduler compares their identifiers only. *)
From S2P Require Import Prelude SchedErrors InsQueue ConcSched ReplicaScaler.
#[local] Open Scope string_scope.
#[local] Open Scope list_scope.
#[local] Open Scope Z_scope.

(** What observers are told; [instanceObserver] is the scaler. *)
Inductive rr_publication :=
| RpTrigger (minConcurrency : Z)
| RpTotal (diff : Z)
| RpCreateError (err : option goError).

Record RoundRobinScheduler := mkRR {
  rr_instanceQueue : list Instance;
  rr_subHealthInstance : gmap string Instance;
  rr_coldStartTraceQueue : list (string * string);
  rr_priorityAZ : string;
  rr_priorityHealthyCount : Z;
  rr_prioritySubHealthCnt : Z;
  rr_curIndex : nat;
  rr_isReserve : bool;
  rr_published : list rr_publication
}.
Implicit Types (s : RoundRobinScheduler) (i : Instance).

Definition NewRoundRobinScheduler (isReserve : bool) : RoundRobinScheduler := mkRR [] ∅ [] "" 0 0 0 isReserve [].

Definition rr_set_queue (q : list Instance) (n : Z) s : RoundRobinScheduler :=
  mkRR q (rr_subHealthInstance s) (rr_coldStartTraceQueue s) (rr_priorityAZ s) n (rr_prioritySubHealthCnt s)
    (rr_curIndex s) (rr_isReserve s) (rr_published s).
Definition rr_set_sub (m : gmap string Instance) (n : Z) s : RoundRobinScheduler :=
  mkRR (rr_instanceQueue s) m (rr_coldStartTraceQueue s) (rr_priorityAZ s) (rr_priorityHealthyCount s) n
    (rr_curIndex s) (rr_isReserve s) (rr_published s).
Definition rr_set_index (n : nat) s : RoundRobinScheduler :=
  mkRR (rr_instanceQueue s) (rr_subHealthInstance s) (rr_coldStartTraceQueue s) (rr_priorityAZ s)
    (rr_priorityHealthyCount s) (rr_prioritySubHealthCnt s) n (rr_isReserve s) (rr_published s).
Definition rr_set_traces (l : list (string * string)) s : RoundRobinScheduler :=
  mkRR (rr_instanceQueue s) (rr_subHealthInstance s) l (rr_priorityAZ s)
    (rr_priorityHealthyCount s) (rr_prioritySubHealthCnt s) (rr_curIndex s) (rr_isReserve s) (rr_published s).
Definition publishInsThdEvent (p : rr_publication) s : RoundRobinScheduler :=
  mkRR (rr_instanceQueue s) (rr_subHealthInstance s) (rr_coldStartTraceQueue s) (rr_priorityAZ s)
    (rr_priorityHealthyCount s) (rr_prioritySubHealthCnt s) (rr_curIndex s) (rr_isReserve s) (rr_published s ++ [p]).

Definition rr_GetInstanceNumber s : nat := (length (rr_instanceQueue s) + size (rr_subHealthInstance s))%nat.

(** ** Healthy and sub-healthy instances *)

Definition isPriorityAZInstance s i : bool :=
  negb (String.eqb (rr_priorityAZ s) "") && String.eqb (in_AZ i) (rr_priorityAZ s).

Definition getHealthyInstance (targetID : string) s : option Instance :=
  List.find (fun i => String.eqb (in_InstanceID i) targetID) (rr_instanceQueue s).
Definition getSubHealthyInstance (targetID : string) s : option Instance := rr_subHealthInstance s !! targetID.

Definition addHealthyInstance i s : RoundRobinScheduler :=
  rr_set_queue (rr_instanceQueue s ++ [i])
    (if isPriorityAZInstance s i then rr_priorityHealthyCount s + 1 else rr_priorityHealthyCount s) s.

(** The queue without its first instance that satisfies [P]. *)
Fixpoint remove_first (P : Instance -> bool) (l : list Instance) : option (Instance * list Instance) :=
  match l with
  | [] => None
  | i :: l => if P i then Some (i, l) else
      match remove_first P l with Some (x, l) => Some (x, i :: l) | None => None end
  end.

Definition delHealthyInstance (targetID : string) s : RoundRobinScheduler :=
  match remove_first (fun i => String.eqb (in_InstanceID i) targetID) (rr_instanceQueue s) with
  | None => s
  | Some (i, q) =>
      rr_set_queue q (if isPriorityAZInstance s i then rr_priorityHealthyCount s - 1 else rr_priorityHealthyCount s) s
  end.

(** From the back of the queue. *)
Definition popHealthyInstanceByPriority (priority : bool) s : option Instance * RoundRobinScheduler :=
  match remove_first (fun i => Bool.eqb (isPriorityAZInstance s i) priority) (rev (rr_instanceQueue s)) with
  | None => (None, s)
  | Some (i, q) =>
      (Some i, rr_set_queue (rev q) (if priority then rr_priorityHealthyCount s - 1 else rr_priorityHealthyCount s) s)
  end.
Definition popHealthyInstance s : option Instance * RoundRobinScheduler :=
  match popHealthyInstanceByPriority false s with
  | (Some i, s) => (Some i, s)
  | (None, s) => popHealthyInstanceByPriority true s
  end.

(** The first instance of the preferred zone from [startIndex] on, looked for at
    [fuel] offsets. *)
Fixpoint firstPriority (fuel : nat) s (startIndex offset : nat) : option (nat * Instance) :=
  match fuel with
  | O => None
  | S fuel =>
      let index := ((startIndex + offset) mod length (rr_instanceQueue s))%nat in
      match rr_instanceQueue s !! index with
      | Some i => if isPriorityAZInstance s i then Some (index, i) else firstPriority fuel s startIndex (S offset)
      | None => None
      end
  end.

Definition selectHealthyInstance s : option Instance * RoundRobinScheduler :=
  let queLen := length (rr_instanceQueue s) in
  if (queLen =? 0)%nat then (None, s) else
  let startIndex := (if (queLen <=? rr_curIndex s)%nat then rr_curIndex s mod queLen else rr_curIndex s)%nat in
  let plain := (rr_instanceQueue s !! startIndex, rr_set_index (S startIndex mod queLen) s) in
  if negb (String.eqb (rr_priorityAZ s) "") && (0 <? rr_priorityHealthyCount s) then
    match firstPriority queLen s startIndex 0 with
    | Some (index, i) => (Some i, rr_set_index (S index mod queLen) s)
    | None => plain
    end
  else plain.

Definition addSubHealthyInstance i s : RoundRobinScheduler :=
  rr_set_sub (<[in_InstanceID i := i]> (rr_subHealthInstance s))
    (if isPriorityAZInstance s i then rr_prioritySubHealthCnt s + 1 else rr_prioritySubHealthCnt s) s.

Definition delSubHealthyInstance (targetID : string) s : RoundRobinScheduler :=
  match rr_subHealthInstance s !! targetID with
  | None => s
  | Some i =>
      rr_set_sub (delete targetID (rr_subHealthInstance s))
        (if isPriorityAZInstance s i then rr_prioritySubHealthCnt s - 1 else rr_prioritySubHealthCnt s) s
  end.

(** The first sub-healthy instance, in the order of an iteration, that is in the
    preferred zone or is not. *)
Fixpoint findSub (order : list string) (priority : bool) s : option (string * Instance) :=
  match order with
  | [] => None
  | id :: order =>
      match rr_subHealthInstance s !! id with
      | Some i => if Bool.eqb (isPriorityAZInstance s i) priority then Some (id, i) else findSub order priority s
      | None => findSub order priority s
      end
  end.
Definition popSubHealthyInstance (order1 order2 : list string) s : option Instance * RoundRobinScheduler :=
  match findSub order1 false s with
  | Some (id, i) => (Some i, rr_set_sub (delete id (rr_subHealthInstance s)) (rr_prioritySubHealthCnt s) s)
  | None =>
      if rr_prioritySubHealthCnt s =? 0 then (None, s) else
      match findSub order2 true s with
      | Some (id, i) => (Some i, rr_set_sub (delete id (rr_subHealthInstance s)) (rr_prioritySubHealthCnt s - 1) s)
      | None => (None, s)
      end
  end.

(** How many are in the preferred zone. *)
Definition priority_in_queue s : Z := Z.of_nat (length (List.filter (isPriorityAZInstance s) (rr_instanceQueue s))).
Definition priority_in_sub s : Z := msum (fun _ i => if isPriorityAZInstance s i then 1 else 0) (rr_subHealthInstance s).

Definition refreshPriorityCountersLocked s : RoundRobinScheduler :=
  rr_set_sub (rr_subHealthInstance s) (priority_in_sub s) (rr_set_queue (rr_instanceQueue s) (priority_in_queue s) s).

(** ** Operations *)

Definition rr_CheckInstanceExist i s : bool :=
  bool_decide (is_Some (getSubHealthyInstance (in_InstanceID i) s))
  || bool_decide (is_Some (getHealthyInstance (in_InstanceID i) s)).

Definition rr_recordColdStartTrace (traceID traceParent : string) s : RoundRobinScheduler :=
  if String.eqb traceID "" && String.eqb traceParent "" then s
  else rr_set_traces (rr_coldStartTraceQueue s ++ [(traceID, traceParent)]) s.

Definition rr_PopColdStartTrace s : option (string * string) * RoundRobinScheduler :=
  match rr_coldStartTraceQueue s with
  | [] => (None, s)
  | t :: l => (Some t, rr_set_traces l s)
  end.

Definition acquireInstanceDesignateInstanceID (id : string) s : Instance + schError :=
  match getSubHealthyInstance id s with
  | Some _ => inr ErrInsSubHealthy
  | None => match getHealthyInstance id s with Some i => inl i | None => inr ErrInsNotExist end
  end.

Record rr_request := mkRRReq { rq_DesignateInstanceID : string; rq_TraceID : string; rq_TraceParent : string }.

(** The waiting loop: [polls] are the scaler's answers and what happens until
    the next poll, as many as there is time for. *)
Fixpoint awaitInstance (polls : list (Z * (RoundRobinScheduler -> RoundRobinScheduler))) s : RoundRobinScheduler :=
  match polls with
  | [] => s
  | (expect, step) :: polls =>
      let currentInstanceNum := Z.of_nat (rr_GetInstanceNumber s) in
      if (0 <? currentInstanceNum) || (expect <=? currentInstanceNum) then s
      else awaitInstance polls (step s)
  end.

(** [expect] is the scaler's first answer; the identifier of the allocation is
    made from the instance's, the time and a random number. *)
Definition rr_AcquireInstance (wiseCloud : bool) (req : rr_request) (expect : Z)
    (polls : list (Z * (RoundRobinScheduler -> RoundRobinScheduler))) s : (Instance + schError) * RoundRobinScheduler :=
  if negb (String.eqb (rq_DesignateInstanceID req) "")
  then (acquireInstanceDesignateInstanceID (rq_DesignateInstanceID req) s, s) else
  let s := if expect <=? 0
           then publishInsThdEvent (RpTrigger 0) (rr_recordColdStartTrace (rq_TraceID req) (rq_TraceParent req) s)
           else s in
  if wiseCloud && negb (rr_isReserve s) then (inr ErrNoInsAvailable, s) else
  let s := awaitInstance polls s in
  match selectHealthyInstance s with
  | (Some i, s) => (inl i, s)
  | (None, s) => (inr ErrNoInsAvailable, s)
  end.

Definition rr_AddInstance i s : option schError * RoundRobinScheduler :=
  if rr_CheckInstanceExist i s then (Some ErrInsAlreadyExist, s) else
  if in_StatusCode i =? KernelInstanceStatusSubHealth
  then (None, publishInsThdEvent (RpTotal (in_ConcurrentNum i)) (addSubHealthyInstance i s))
  else if in_StatusCode i =? KernelInstanceStatusRunning
  then (None, publishInsThdEvent (RpTotal (in_ConcurrentNum i)) (addHealthyInstance i s))
  else (Some ErrInternal, s).

Definition rr_PopInstance (order1 order2 : list string) s : option Instance * RoundRobinScheduler :=
  let r := match popSubHealthyInstance order1 order2 s with
           | (Some i, s) => (Some i, s)
           | (None, s) => popHealthyInstance s
           end in
  match r with
  | (Some i, s) => (Some i, publishInsThdEvent (RpTotal (- in_ConcurrentNum i)) s)
  | (None, s) => (None, s)
  end.

Definition rr_DelInstance i s : option schError * RoundRobinScheduler :=
  match getSubHealthyInstance (in_InstanceID i) s with
  | Some inQueIns =>
      (None, publishInsThdEvent (RpTotal (- in_ConcurrentNum inQueIns)) (delSubHealthyInstance (in_InstanceID i) s))
  | None =>
      match getHealthyInstance (in_InstanceID i) s with
      | None => (Some ErrInsNotExist, s)
      | Some inQueIns =>
          (None, publishInsThdEvent (RpTotal (- in_ConcurrentNum inQueIns)) (delHealthyInstance (in_InstanceID i) s))
      end
  end.

Definition rr_HandleFuncSpecUpdate (priorityAZ : string) s : RoundRobinScheduler :=
  if String.eqb (rr_priorityAZ s) priorityAZ then s else
  refreshPriorityCountersLocked
    (mkRR (rr_instanceQueue s) (rr_subHealthInstance s) (rr_coldStartTraceQueue s) priorityAZ
       (rr_priorityHealthyCount s) (rr_prioritySubHealthCnt s) (rr_curIndex s) (rr_isReserve s) (rr_published s)).

(** Where an update finds its instance: healthy, sub-healthy.  [None] when the
    status is ignored. *)
Definition update_read i s : option (bool * bool) :=
  if negb ((in_StatusCode i =? KernelInstanceStatusRunning) || (in_StatusCode i =? KernelInstanceStatusSubHealth)) then None
  else Some (bool_decide (is_Some (getHealthyInstance (in_InstanceID i) s)),
             bool_decide (is_Some (getSubHealthyInstance (in_InstanceID i) s))).
Definition update_act i (found : bool * bool) s : RoundRobinScheduler :=
  match found with
  | (true, false) =>
      if in_StatusCode i =? KernelInstanceStatusSubHealth
      then addSubHealthyInstance i (delHealthyInstance (in_InstanceID i) s) else s
  | (false, true) =>
      if in_StatusCode i =? KernelInstanceStatusSubHealth then s
      else addHealthyInstance i (delSubHealthyInstance (in_InstanceID i) s)
  | (false, false) => (rr_AddInstance i s).2
  | (true, true) => s
  end.
Definition rr_HandleInstanceUpdate i s : RoundRobinScheduler :=
  match update_read i s with None => s | Some found => update_act i found s end.

Definition rr_HandleCreateError (err : option goError) s : RoundRobinScheduler := publishInsThdEvent (RpCreateError err) s.
Definition rr_TriggerScale (minConcurrency : Z) s : RoundRobinScheduler := publishInsThdEvent (RpTrigger minConcurrency) s.

(** [ConnectWithInstanceScaler], with a replica scaler; a nil error is not an
    [error] for the type assertion. *)
Definition rr_hear rs (p : rr_publication) : ReplicaScaler :=
  match p with
  | RpTrigger _ => (rs_TriggerScale rs).1
  | RpTotal diff => (rs_HandleInsThdUpdate diff rs).1
  | RpCreateError None => rs
  | RpCreateError err => (rs_HandleCreateError err rs).1
  end.

(** ** Counters and identifiers *)

Definition prio (az : string) i : bool := negb (String.eqb az "") && String.eqb (in_AZ i) az.
Definition prios (az : string) (l : list Instance) : Z := Z.of_nat (length (List.filter (prio az) l)).
Definition one_if (b : bool) : Z := if b then 1 else 0.

Definition sub_prios (az : string) (m : gmap string Instance) : Z := msum (fun _ i => one_if (prio az i)) m.

Lemma prios_app az l l' : prios az (l ++ l') = prios az l + prios az l'.
Proof. unfold prios. rewrite List.filter_app, length_app. lia. Qed.
Lemma prios_cons az i l : prios az (i :: l) = one_if (prio az i) + prios az l.
Proof. unfold prios. simpl. destruct (prio az i); simpl; lia. Qed.

(** An identifier is in one place, and the counters are right. *)
Record rr_inv s : Prop := {
  ri_nodup : NoDup (in_InstanceID <$> rr_instanceQueue s);
  ri_disjoint i : i ∈ rr_instanceQueue s -> rr_subHealthInstance s !! in_InstanceID i = None;
  ri_keys id i : rr_subHealthInstance s !! id = Some i -> in_InstanceID i = id;
  ri_healthy : rr_priorityHealthyCount s = prios (rr_priorityAZ s) (rr_instanceQueue s);
  ri_sub : rr_prioritySubHealthCnt s = sub_prios (rr_priorityAZ s) (rr_subHealthInstance s)
}.

Lemma remove_first_Some P l x l' : remove_first P l = Some (x, l') ->
  exists l1 l2, l = l1 ++ x :: l2 /\ l' = l1 ++ l2 /\ P x = true.
Proof.
  revert l'. induction l as [|i l IH]; intros l'; [done|]. simpl. destruct (P i) eqn:E.
  - intros [= -> ->]. by exists [], l'.
  - destruct (remove_first P l) as [[y k]|]; [|done]. intros [= -> <-].
    destruct (IH k eq_refl) as (l1 & l2 & -> & -> & HP). by exists (i :: l1), l2.
Qed.
Lemma remove_first_None P l : remove_first P l = None -> forall x, x ∈ l -> P x = false.
Proof.
  induction l as [|i l IH]; simpl; [intros _ x Hx; by apply elem_of_nil in Hx|]. destruct (P i) eqn:E; [done|].
  destruct (remove_first P l) as [[]|]; [done|]. intros _ x [->|Hx]%elem_of_cons; [done|auto].
Qed.

Lemma getHealthy_Some id s i : getHealthyInstance id s = Some i -> i ∈ rr_instanceQueue s /\ in_InstanceID i = id.
Proof.
  intros [Hin He]%List.find_some. apply String.eqb_eq in He. split; [by apply list_elem_of_In|done].
Qed.
Lemma getHealthy_None id s : getHealthyInstance id s = None -> id ∉ in_InstanceID <$> rr_instanceQueue s.
Proof.
  intros Hn (i & -> & Hi)%list_elem_of_fmap. apply list_elem_of_In in Hi.
  pose proof (List.find_none _ _ Hn i Hi) as H. simpl in H. by rewrite String.eqb_refl in H.
Qed.

(** Taking an instance out of the queue. *)
Lemma rr_inv_take s l1 x l2 :
  rr_inv s -> rr_instanceQueue s = l1 ++ x :: l2 ->
  rr_inv (rr_set_queue (l1 ++ l2) (rr_priorityHealthyCount s - one_if (isPriorityAZInstance s x)) s) /\
  in_InstanceID x ∉ in_InstanceID <$> (l1 ++ l2).
Proof.
  intros [H1 H2 H3 H4 H5] Hq.
  assert (Hp : in_InstanceID <$> rr_instanceQueue s ≡ₚ in_InstanceID x :: (in_InstanceID <$> (l1 ++ l2))).
  { rewrite Hq, !fmap_app, fmap_cons. by rewrite Permutation_middle. }
  rewrite Hp in H1. apply NoDup_cons in H1 as [Hn Hnd]. split; [|done].
  split; cbn [rr_set_queue rr_instanceQueue rr_subHealthInstance rr_priorityHealthyCount rr_prioritySubHealthCnt]; try done.
  - intros i Hi. apply H2. rewrite Hq. set_solver.
  - rewrite H4, Hq. cbn [rr_set_queue rr_priorityAZ]. change (isPriorityAZInstance s x) with (prio (rr_priorityAZ s) x).
    rewrite !prios_app, prios_cons. lia.
Qed.

Lemma rr_inv_addHealthy s i :
  rr_inv s -> in_InstanceID i ∉ in_InstanceID <$> rr_instanceQueue s -> rr_subHealthInstance s !! in_InstanceID i = None ->
  rr_inv (addHealthyInstance i s).
Proof.
  intros [H1 H2 H3 H4 H5] Hn Hs.
  split; cbn [addHealthyInstance rr_set_queue rr_instanceQueue rr_subHealthInstance rr_priorityHealthyCount rr_prioritySubHealthCnt]; try done.
  - rewrite fmap_app. simpl. apply NoDup_app. split; [done|]. split; [set_solver|apply NoDup_singleton].
  - intros j [Hj|Hj]%elem_of_app; [auto|]. apply list_elem_of_singleton in Hj. by subst j.
  - rewrite H4. change (rr_priorityAZ (addHealthyInstance i s)) with (rr_priorityAZ s). rewrite prios_app, prios_cons.
    change (isPriorityAZInstance s i) with (prio (rr_priorityAZ s) i). change (prios _ []) with 0.
    destruct (prio _ i); unfold one_if; lia.
Qed.

Lemma rr_inv_addSub s i :
  rr_inv s -> in_InstanceID i ∉ in_InstanceID <$> rr_instanceQueue s -> rr_subHealthInstance s !! in_InstanceID i = None ->
  rr_inv (addSubHealthyInstance i s).
Proof.
  intros [H1 H2 H3 H4 H5] Hn Hs.
  split; cbn [addSubHealthyInstance rr_set_sub rr_instanceQueue rr_subHealthInstance rr_priorityHealthyCount rr_prioritySubHealthCnt rr_priorityAZ]; try done.
  - intros j Hj. rewrite lookup_insert_ne; [auto|]. intros Heq. apply Hn. rewrite Heq. by apply list_elem_of_fmap_2.
  - intros id j. destruct (decide (in_InstanceID i = id)) as [<-|Hne]; [|rewrite lookup_insert_ne by done; apply H3].
    rewrite lookup_insert_eq. by intros [= <-].
  - rewrite H5. unfold sub_prios. rewrite msum_insert by done.
    change (isPriorityAZInstance s i) with (prio (rr_priorityAZ s) i). unfold one_if at 3. destruct (prio _ i); lia.
Qed.

(** Taking a sub-healthy instance. *)
Lemma rr_inv_takeSub s id x :
  rr_inv s -> rr_subHealthInstance s !! id = Some x ->
  rr_inv (rr_set_sub (delete id (rr_subHealthInstance s)) (rr_prioritySubHealthCnt s - one_if (isPriorityAZInstance s x)) s).
Proof.
  intros [H1 H2 H3 H4 H5] Hx.
  split; cbn [rr_set_sub rr_instanceQueue rr_subHealthInstance rr_priorityHealthyCount rr_prioritySubHealthCnt rr_priorityAZ]; try done.
  - intros j Hj. rewrite lookup_delete_None. auto.
  - intros id' j [_ Hj]%lookup_delete_Some. auto.
  - rewrite H5. unfold sub_prios. rewrite (msum_delete _ _ _ _ Hx). done.
Qed.

Lemma delHealthy_spec s i :
  rr_inv s -> getHealthyInstance (in_InstanceID i) s <> None ->
  let s' := delHealthyInstance (in_InstanceID i) s in
  rr_inv s' /\ in_InstanceID i ∉ in_InstanceID <$> rr_instanceQueue s' /\
  rr_subHealthInstance s' = rr_subHealthInstance s /\ S (length (rr_instanceQueue s')) = length (rr_instanceQueue s) /\
  (forall P, Forall P (rr_instanceQueue s) -> Forall P (rr_instanceQueue s')) /\ rr_published s' = rr_published s.
Proof.
  intros Hi Hg s'. subst s'. unfold delHealthyInstance. destruct (remove_first _ _) as [[x q]|] eqn:E.
  - apply remove_first_Some in E as (l1 & l2 & Hq & -> & Hx). apply String.eqb_eq in Hx.
    destruct (rr_inv_take s l1 x l2 Hi Hq) as [Hinv Hn]. rewrite Hx in Hn.
    replace (if isPriorityAZInstance s x then _ else _) with (rr_priorityHealthyCount s - one_if (isPriorityAZInstance s x))
      by (destruct (isPriorityAZInstance s x); simpl; lia).
    split; [done|]. split; [done|]. split; [done|]. simpl. rewrite Hq, !length_app. simpl. split; [lia|]. split; [|done].
    intros P. rewrite !Forall_app, Forall_cons. naive_solver.
  - exfalso. apply Hg. destruct (getHealthyInstance _ _) as [x|] eqn:G; [|done]. apply getHealthy_Some in G as [Hin Hid].
    pose proof (remove_first_None _ _ E x Hin) as H. simpl in H. by rewrite Hid, String.eqb_refl in H.
Qed.

Lemma delSub_spec s id x :
  rr_inv s -> rr_subHealthInstance s !! id = Some x ->
  let s' := delSubHealthyInstance id s in
  rr_inv s' /\ rr_subHealthInstance s' = delete id (rr_subHealthInstance s) /\ rr_instanceQueue s' = rr_instanceQueue s /\
  rr_published s' = rr_published s.
Proof.
  intros Hi Hx s'. subst s'. unfold delSubHealthyInstance. rewrite Hx.
  replace (if isPriorityAZInstance s x then _ else _) with (rr_prioritySubHealthCnt s - one_if (isPriorityAZInstance s x))
    by (destruct (isPriorityAZInstance s x); simpl; lia).
  split; [by apply rr_inv_takeSub|done].
Qed.

(** ** The scaler's view *)

Section Counted.
Context (c : Z) (Hc : c <> 0) (rs0 : ReplicaScaler).

Definition heard s : ReplicaScaler := fold_left rr_hear (rr_published s) rs0.
Definition has_conc i : Prop := in_ConcurrentNum i = c.

(** Every instance runs [c] threads, and the scaler that heard everything counts
    the scheduler's instances. *)
Record rr_counted s : Prop := {
  rc_queue : Forall has_conc (rr_instanceQueue s);
  rc_sub id i : rr_subHealthInstance s !! id = Some i -> has_conc i;
  rc_conc : rs_concurrentNum (heard s) = c;
  rc_current : rs_currentRsvInsNum (heard s) = Z.of_nat (rr_GetInstanceNumber s)
}.
Definition rr_good s : Prop := rr_inv s /\ rr_counted s.

Lemma heard_publish p s : heard (publishInsThdEvent p s) = rr_hear (heard s) p.
Proof. unfold heard. simpl. by rewrite fold_left_app. Qed.

Lemma hear_total rs d : rs_concurrentNum rs = c -> rs_concurrentNum (rr_hear rs (RpTotal (d * c))) = c /\
  rs_currentRsvInsNum (rr_hear rs (RpTotal (d * c))) = rs_currentRsvInsNum rs + d.
Proof.
  intros Hn. simpl. unfold rs_HandleInsThdUpdate. destruct (Z.eqb_spec (d * c) 0); simpl; [split; [done|nia]|].
  rewrite Hn. split; [done|]. unfold go_quot. by rewrite Z.quot_mul.
Qed.

(** An operation that publishes the difference it makes. *)
Lemma counted_publish d s s' :
  rr_counted s -> rr_published s' = rr_published s -> Forall has_conc (rr_instanceQueue s') ->
  (forall id i, rr_subHealthInstance s' !! id = Some i -> has_conc i) ->
  Z.of_nat (rr_GetInstanceNumber s') = Z.of_nat (rr_GetInstanceNumber s) + d ->
  rr_counted (publishInsThdEvent (RpTotal (d * c)) s').
Proof.
  intros [_ _ H3 H4] Hp Hq Hs Hn. assert (Hh : heard s' = heard s) by (unfold heard; by rewrite Hp).
  split; [done|done|..]; rewrite heard_publish, Hh; [by apply hear_total|].
  destruct (hear_total (heard s) d H3) as [_ ->]. rewrite H4. change (rr_GetInstanceNumber (publishInsThdEvent _ s')) with (rr_GetInstanceNumber s').
  lia.
Qed.
(** One that makes none. *)
Lemma counted_quiet s s' :
  rr_counted s -> rr_published s' = rr_published s -> Forall has_conc (rr_instanceQueue s') ->
  (forall id i, rr_subHealthInstance s' !! id = Some i -> has_conc i) ->
  rr_GetInstanceNumber s' = rr_GetInstanceNumber s -> rr_counted s'.
Proof.
  intros [_ _ H3 H4] Hp Hq Hs Hn. assert (Hh : heard s' = heard s) by (unfold heard; by rewrite Hp).
  split; [done|done|by rewrite Hh|by rewrite Hh, H4, Hn].
Qed.

Lemma rr_inv_publish p s : rr_inv s -> rr_inv (publishInsThdEvent p s).
Proof. by intros []; split. Qed.

Lemma CheckInstanceExist_false i s : rr_CheckInstanceExist i s = false ->
  rr_subHealthInstance s !! in_InstanceID i = None /\ in_InstanceID i ∉ in_InstanceID <$> rr_instanceQueue s.
Proof.
  unfold rr_CheckInstanceExist. intros [H1 H2]%orb_false_elim. apply bool_decide_eq_false_1 in H1, H2.
  split; [by apply eq_None_not_Some|]. apply getHealthy_None. by apply eq_None_not_Some.
Qed.

Lemma sub_conc_insert i s : has_conc i -> (forall id j, rr_subHealthInstance s !! id = Some j -> has_conc j) ->
  forall id j, <[in_InstanceID i := i]> (rr_subHealthInstance s) !! id = Some j -> has_conc j.
Proof. intros Hi H id j [[_ <-]|[_ ?]]%lookup_insert_Some; eauto. Qed.

Lemma good_add i s : has_conc i -> rr_good s -> rr_good (rr_AddInstance i s).2.
Proof.
  intros Hi [Hinv Hcnt]. unfold rr_AddInstance. destruct (rr_CheckInstanceExist i s) eqn:E; [done|].
  apply CheckInstanceExist_false in E as [E1 E2]. replace (in_ConcurrentNum i) with (1 * c) by (rewrite Hi; lia).
  destruct (_ =? _); [|destruct (_ =? _); [|done]]; cbn [snd].
  - split; [by apply rr_inv_publish, rr_inv_addSub|]. apply (counted_publish 1 s); try done; [apply Hcnt| |].
    + apply sub_conc_insert; [done|apply Hcnt].
    + unfold rr_GetInstanceNumber. simpl. rewrite map_size_insert_None by done. lia.
  - split; [by apply rr_inv_publish, rr_inv_addHealthy|]. apply (counted_publish 1 s); try done; [|apply Hcnt|].
    + simpl. apply Forall_app. split; [apply Hcnt|by constructor].
    + unfold rr_GetInstanceNumber. simpl. rewrite length_app. simpl. lia.
Qed.

Lemma good_del i s : rr_good s -> rr_good (rr_DelInstance i s).2.
Proof.
  intros [Hinv Hcnt]. unfold rr_DelInstance. destruct (getSubHealthyInstance _ s) as [x|] eqn:E; cbn [snd].
  - destruct (delSub_spec s (in_InstanceID i) x Hinv E) as (H1 & H2 & H3 & H4).
    replace (- in_ConcurrentNum x) with (-1 * c) by (rewrite (rc_sub _ Hcnt _ _ E); lia).
    split; [by apply rr_inv_publish|]. apply (counted_publish (-1) s); try done; rewrite ?H2, ?H3; [apply Hcnt| |].
    + intros id j [_ Hj]%lookup_delete_Some. by eapply Hcnt.
    + unfold rr_GetInstanceNumber. rewrite H2, H3, map_size_delete_Some by done.
      pose proof (map_size_non_empty_iff (rr_subHealthInstance s)) as Hz.
      assert (size (rr_subHealthInstance s) <> 0)%nat by (apply Hz; intros H0; unfold getSubHealthyInstance in E; by rewrite H0, lookup_empty in E).
      lia.
  - destruct (getHealthyInstance _ s) as [x|] eqn:G; [|done]. cbn [snd].
    destruct (delHealthy_spec s i Hinv) as (H1 & H2 & H3 & H4 & H5 & H6); [by rewrite G|].
    apply getHealthy_Some in G as [Hin _]. pose proof (proj1 (Forall_forall _ _) (rc_queue _ Hcnt) x Hin) as Hx.
    replace (- in_ConcurrentNum x) with (-1 * c) by (rewrite Hx; lia).
    split; [by apply rr_inv_publish|]. apply (counted_publish (-1) s); try done; rewrite ?H3; [apply H5, Hcnt|apply Hcnt|].
    unfold rr_GetInstanceNumber. rewrite H3. lia.
Qed.

Lemma good_update i s : has_conc i -> rr_good s -> rr_good (rr_HandleInstanceUpdate i s).
Proof.
  intros Hi [Hinv Hcnt]. unfold rr_HandleInstanceUpdate, update_read. destruct (negb _); [done|].
  destruct (getHealthyInstance (in_InstanceID i) s) as [x|] eqn:G, (getSubHealthyInstance (in_InstanceID i) s) as [y|] eqn:E;
    cbn -[Z.eqb]; [done| | |by apply good_add].
  - destruct (_ =? _); [|done]. destruct (delHealthy_spec s i Hinv) as (H1 & H2 & H3 & H4 & H5 & H6); [by rewrite G|].
    unfold getSubHealthyInstance in E. split; [apply rr_inv_addSub; [done..|by rewrite H3]|].
    apply (counted_quiet s); try done; simpl; rewrite ?H3; [apply H5, Hcnt|apply sub_conc_insert; [done|apply Hcnt]|].
    unfold rr_GetInstanceNumber. simpl. rewrite H3, map_size_insert_None by done. lia.
  - destruct (_ =? _); [done|]. unfold getSubHealthyInstance in E.
    destruct (delSub_spec s (in_InstanceID i) y Hinv E) as (H1 & H2 & H3 & H4).
    split; [apply rr_inv_addHealthy; [done|rewrite H3; by apply getHealthy_None|by rewrite H2, lookup_delete_eq]|].
    apply (counted_quiet s); try done; simpl; rewrite ?H2, ?H3.
    + apply Forall_app. split; [apply Hcnt|by constructor].
    + intros id j [_ Hj]%lookup_delete_Some. by eapply Hcnt.
    + unfold rr_GetInstanceNumber. simpl. rewrite H2, H3, length_app, map_size_delete_Some by done. simpl.
      assert (size (rr_subHealthInstance s) <> 0)%nat; [|lia].
      apply map_size_non_empty_iff. intros H0. by rewrite H0, lookup_empty in E.
Qed.

Lemma size_taken (m : gmap string Instance) id x : m !! id = Some x -> S (size (delete id m)) = size m.
Proof.
  intros H. rewrite map_size_delete_Some by done. enough (size m <> 0)%nat by lia.
  apply map_size_non_empty_iff. intros ->. by rewrite lookup_empty in H.
Qed.

Lemma findSub_Some order b s id x : findSub order b s = Some (id, x) ->
  rr_subHealthInstance s !! id = Some x /\ isPriorityAZInstance s x = b.
Proof.
  induction order as [|o order IH]; [done|]. simpl. destruct (rr_subHealthInstance s !! o) as [y|] eqn:E; [|done].
  destruct (Bool.eqb (isPriorityAZInstance s y) b) eqn:Hb; [|done]. intros [= -> ->]. by apply eqb_prop in Hb.
Qed.

(** A pop takes an instance the scheduler has, and only that. *)
Lemma popSub_spec o1 o2 s : rr_inv s ->
  match popSubHealthyInstance o1 o2 s with
  | (Some x, s') => rr_inv s' /\ rr_instanceQueue s' = rr_instanceQueue s /\ rr_published s' = rr_published s /\
      exists id, rr_subHealthInstance s !! id = Some x /\ rr_subHealthInstance s' = delete id (rr_subHealthInstance s)
  | (None, s') => s' = s
  end.
Proof.
  intros Hi. unfold popSubHealthyInstance. destruct (findSub o1 false s) as [[id x]|] eqn:E1.
  - apply findSub_Some in E1 as [Hx Hp]. pose proof (rr_inv_takeSub s id x Hi Hx) as H. rewrite Hp, Z.sub_0_r in H.
    split; [done|]. split; [done|]. split; [done|]. by exists id.
  - destruct (_ =? 0); [done|]. destruct (findSub o2 true s) as [[id x]|] eqn:E2; [|done].
    apply findSub_Some in E2 as [Hx Hp]. pose proof (rr_inv_takeSub s id x Hi Hx) as H. rewrite Hp in H.
    split; [done|]. split; [done|]. split; [done|]. by exists id.
Qed.

Lemma popHealthy_spec s : rr_inv s ->
  match popHealthyInstance s with
  | (Some x, s') => rr_inv s' /\ rr_subHealthInstance s' = rr_subHealthInstance s /\ rr_published s' = rr_published s /\
      exists l1 l2, rr_instanceQueue s = l1 ++ x :: l2 /\ rr_instanceQueue s' = l1 ++ l2
  | (None, s') => s' = s /\ rr_instanceQueue s = []
  end.
Proof.
  intros Hi. unfold popHealthyInstance, popHealthyInstanceByPriority.
  assert (Htake : forall b x q, remove_first (fun i => Bool.eqb (isPriorityAZInstance s i) b) (rev (rr_instanceQueue s)) = Some (x, q) ->
    exists l1 l2, rr_instanceQueue s = l1 ++ x :: l2 /\ rev q = l1 ++ l2 /\ isPriorityAZInstance s x = b).
  { intros b x q (l1 & l2 & Hq & -> & Hb)%remove_first_Some. exists (rev l2), (rev l1). apply eqb_prop in Hb.
    rewrite rev_app_distr. split; [|done]. rewrite <- (rev_involutive (rr_instanceQueue s)), Hq, rev_app_distr. simpl.
    by rewrite <- app_assoc. }
  destruct (remove_first _ (rev (rr_instanceQueue s))) as [[x q]|] eqn:E1.
  - apply Htake in E1 as (l1 & l2 & Hq & Hr & Hb). rewrite Hr.
    destruct (rr_inv_take s l1 x l2 Hi Hq) as [H _]. rewrite Hb, Z.sub_0_r in H.
    split; [done|]. split; [done|]. split; [done|]. by exists l1, l2.
  - destruct (remove_first (fun i => Bool.eqb (isPriorityAZInstance s i) true) _) as [[x q]|] eqn:E2.
    + apply Htake in E2 as (l1 & l2 & Hq & Hr & Hb). rewrite Hr.
      destruct (rr_inv_take s l1 x l2 Hi Hq) as [H _]. rewrite Hb in H.
      split; [done|]. split; [done|]. split; [done|]. by exists l1, l2.
    + split; [done|]. destruct (rev (rr_instanceQueue s)) as [|x q] eqn:Hr; [by rewrite <- (rev_involutive (rr_instanceQueue s)), Hr|].
      pose proof (remove_first_None _ _ E1 x ltac:(left)) as F1. pose proof (remove_first_None _ _ E2 x ltac:(left)) as F2.
      simpl in F1, F2. by destruct (isPriorityAZInstance s x).
Qed.

Lemma good_pop o1 o2 s : rr_good s -> rr_good (rr_PopInstance o1 o2 s).2.
Proof.
  intros [Hinv Hcnt]. unfold rr_PopInstance. pose proof (popSub_spec o1 o2 s Hinv) as Hs.
  destruct (popSubHealthyInstance o1 o2 s) as [[x|] s'].
  - destruct Hs as (H1 & H2 & H3 & id & Hx & H4). replace (- in_ConcurrentNum x) with (-1 * c) by (rewrite (rc_sub _ Hcnt _ _ Hx); lia).
    split; [by apply rr_inv_publish|]. apply (counted_publish (-1) s); try done; rewrite ?H2, ?H4; [apply Hcnt| |].
    + intros id' j [_ Hj]%lookup_delete_Some. by eapply Hcnt.
    + unfold rr_GetInstanceNumber. rewrite H2, H4. pose proof (size_taken _ _ _ Hx). lia.
  - subst s'. pose proof (popHealthy_spec s Hinv) as Hh. destruct (popHealthyInstance s) as [[x|] s']; [|destruct Hh as [-> _]; done].
    destruct Hh as (H1 & H2 & H3 & l1 & l2 & Hq & H4). pose proof (rc_queue _ Hcnt) as Hf. rewrite Hq in Hf.
    apply Forall_app in Hf as [Hf1 [Hx Hf2]%Forall_cons]. replace (- in_ConcurrentNum x) with (-1 * c) by (rewrite Hx; lia).
    split; [by apply rr_inv_publish|]. apply (counted_publish (-1) s); try done; rewrite ?H2, ?H4; [by apply Forall_app|apply Hcnt|].
    unfold rr_GetInstanceNumber. rewrite H2, H4, Hq, !length_app. simpl. lia.
Qed.

Lemma good_spec az s : rr_good s -> rr_good (rr_HandleFuncSpecUpdate az s).
Proof.
  intros [Hinv Hcnt]. unfold rr_HandleFuncSpecUpdate. destruct (String.eqb _ _); [done|].
  destruct Hinv as [H1 H2 H3 _ _]. split; [|by destruct Hcnt; split]. split; try done.
Qed.

Lemma selectHealthy_frame s :
  let s' := (selectHealthyInstance s).2 in
  rr_instanceQueue s' = rr_instanceQueue s /\ rr_subHealthInstance s' = rr_subHealthInstance s /\
  rr_published s' = rr_published s /\ (rr_inv s -> rr_inv s').
Proof.
  unfold selectHealthyInstance. destruct (_ =? 0)%nat; [done|].
  assert (H : forall n, rr_inv s -> rr_inv (rr_set_index n s)) by (by intros n []; split).
  destruct (_ && _); [destruct (firstPriority _ _ _ _) as [[]|]|]; simpl; auto.
Qed.

Inductive rr_event :=
| ReAdd i
| RePop (order1 order2 : list string)
| ReDel i
| ReUpdate i
| ReSpec (priorityAZ : string)
| ReAcquire (wiseCloud : bool) (req : rr_request) (expect : Z)
| ReTrigger (minConcurrency : Z)
| ReCreateError (err : option goError).

Definition rr_step s (ev : rr_event) : RoundRobinScheduler :=
  match ev with
  | ReAdd i => (rr_AddInstance i s).2
  | RePop order1 order2 => (rr_PopInstance order1 order2 s).2
  | ReDel i => (rr_DelInstance i s).2
  | ReUpdate i => rr_HandleInstanceUpdate i s
  | ReSpec priorityAZ => rr_HandleFuncSpecUpdate priorityAZ s
  | ReAcquire wiseCloud req expect => (rr_AcquireInstance wiseCloud req expect [] s).2
  | ReTrigger minConcurrency => rr_TriggerScale minConcurrency s
  | ReCreateError err => rr_HandleCreateError err s
  end.
Definition rr_run (evs : list rr_event) s : RoundRobinScheduler := fold_left rr_step evs s.

Definition conc_ok (ev : rr_event) : Prop := match ev with ReAdd i | ReUpdate i => has_conc i | _ => True end.

Lemma good_other p s : (forall d, p <> RpTotal d) -> rr_good s -> rr_good (publishInsThdEvent p s).
Proof.
  intros Hp [Hinv [H1 H2 H3 H4]]. split; [by apply rr_inv_publish|]. split; try done; rewrite heard_publish.
  - destruct p as [n|d|[e|]]; simpl; try done; [by destruct (Hp d)|]. unfold rs_HandleCreateError. by destruct (_ && _).
  - destruct p as [n|d|[e|]]; simpl; try done; [by destruct (Hp d)|]. unfold rs_HandleCreateError. by destruct (_ && _).
Qed.

Lemma good_acquire wc req n s : rr_good s -> rr_good (rr_AcquireInstance wc req n [] s).2.
Proof.
  intros Hg. unfold rr_AcquireInstance. destruct (negb _); [done|].
  set (s1 := if n <=? 0 then _ else s). assert (Hg1 : rr_good s1).
  { subst s1. destruct (n <=? 0); [|done]. apply good_other; [done|]. unfold rr_recordColdStartTrace.
    destruct (_ && _); [done|]. destruct Hg as [[] []]. by split; split. }
  clearbody s1. destruct (wc && _); [done|]. cbn [awaitInstance].
  destruct (selectHealthy_frame s1) as (H1 & H2 & H3 & H4), (selectHealthyInstance s1) as [[x|] s2]; cbn [snd] in *;
    (split; [apply H4, Hg1|]); apply (counted_quiet s1); try done; try apply Hg1; rewrite ?H1, ?H2; try apply Hg1;
    unfold rr_GetInstanceNumber; by rewrite H1, H2.
Qed.

Lemma rr_step_good ev s : conc_ok ev -> rr_good s -> rr_good (rr_step s ev).
Proof.
  destruct ev; cbn [rr_step conc_ok]; intros Hok Hg;
    [by apply good_add|by apply good_pop|by apply good_del|by apply good_update|by apply good_spec|by apply good_acquire|..];
    by apply good_other.
Qed.
End Counted.

(** C15: The round robin scheduler and its scaler agree.  Let all instances of
    the function run the number of threads the replica scaler divides by.  After
    any sequence of operations, none of which overlaps an instance update, no
    identifier is in two places, the counters of the preferred zone are right,
    and the scaler, which heard only what was published, counts the healthy and
    the sub-healthy instances. *)
Theorem rr_scaler_agrees c rs reserve evs :
  c <> 0 -> rs_concurrentNum rs = c -> rs_currentRsvInsNum rs = 0 -> Forall (conc_ok c) evs ->
  let s := rr_run evs (NewRoundRobinScheduler reserve) in
  rr_inv s /\ rs_currentRsvInsNum (heard rs s) = Z.of_nat (rr_GetInstanceNumber s).
Proof.
  intros Hc Hn H0 Hok s. assert (Hg : rr_good c rs s).
  { subst s. unfold rr_run. assert (Hnew : rr_good c rs (NewRoundRobinScheduler reserve)).
    { split; [split; try done; apply NoDup_nil_2|]. by split. }
    revert Hnew. generalize (NewRoundRobinScheduler reserve). induction Hok as [|ev evs He Hok IH]; intros s Hs; [done|].
    apply IH. by apply rr_step_good. }
  destruct Hg as [Hi Hcnt]. split; [done|apply Hcnt].
Qed.

(** ** Turns *)

Section Turns.
Context (len : nat) (Hlen : len <> 0%nat).

(** The indices in the order of a search from [c] on. *)
Definition cyc (c : nat) : list nat := map (fun o => (c + o) mod len)%nat (seq 0 len).

Lemma cyc_perm c : cyc c ≡ₚ seq 0 len.
Proof.
  apply submseteq_length_Permutation; [|unfold cyc; by rewrite length_map].
  apply NoDup_submseteq.
  - unfold cyc. apply (NoDup_fmap_2_strong (fun o => (c + o) mod len)%nat); [|apply NoDup_seq].
    intros x y Hx%elem_of_seq Hy%elem_of_seq H.
    pose proof (Nat.div_mod_eq (c + x) len) as Ex. pose proof (Nat.div_mod_eq (c + y) len) as Ey. cbv beta in H.
    rewrite H in Ex. destruct (Nat.lt_trichotomy ((c + x) / len) ((c + y) / len)) as [?|[E|?]]; [nia| |nia].
    rewrite E in Ex. lia.
  - intros x (o & -> & _)%list_elem_of_fmap. apply elem_of_seq. pose proof (Nat.mod_upper_bound (c + o) len Hlen). lia.
Qed.

(** After [h] was taken the search starts behind it. *)
Lemma cyc_next c l1 h l2 : cyc c = l1 ++ h :: l2 -> cyc (S h mod len) = l2 ++ l1 ++ [h].
Proof.
  intros H. set (f := fun o => ((c + o) mod len)%nat). set (j := length l1).
  assert (Hj : (j < len)%nat).
  { apply (f_equal length) in H. unfold cyc in H. rewrite length_map, length_seq, length_app in H. simpl in H. lia. }
  assert (Hs : seq 0 len = seq 0 j ++ j :: seq (S j) (len - S j)).
  { replace len with (j + S (len - S j))%nat at 1 by lia. by rewrite seq_app. }
  unfold cyc in H. rewrite Hs, map_app in H. simpl in H.
  apply app_inj_1 in H as [H1 [= Hh H2]]; [|by rewrite length_map, length_seq].
  assert (Hnext : forall o, ((S h mod len + o) mod len = f (S j + o))%nat).
  { intros o. subst h. unfold f. rewrite Nat.Div0.add_mod_idemp_l.
    replace (S ((c + j) mod len) + o)%nat with ((c + j) mod len + S o)%nat by lia.
    rewrite Nat.Div0.add_mod_idemp_l. f_equal. lia. }
  unfold cyc. rewrite (map_ext _ _ Hnext). replace len with ((len - S j) + S j)%nat at 1 by lia. rewrite seq_app, map_app.
  f_equal.
  - rewrite <- H2. rewrite <- (Nat.add_0_r (S j)) at 2. rewrite <- (fmap_add_seq (S j) 0). by rewrite <- list_fmap_compose.
  - rewrite <- H1, <- Hh. change [(c + j) mod len]%nat with (map f [j]). rewrite <- map_app, <- seq_S.
    replace (0 + (len - S j))%nat with (len - S j + 0)%nat by lia. rewrite <- (fmap_add_seq (len - S j) 0), <- list_fmap_compose.
    apply map_ext. intros o. unfold f. cbn [compose]. replace (c + (S j + (len - S j + o)))%nat with (c + o + 1 * len)%nat by lia.
    apply Nat.Div0.mod_add.
Qed.
End Turns.

(** The instances that take turns: those of the preferred zone, if there are
    any. *)
Definition takes_turn s i : bool :=
  if negb (String.eqb (rr_priorityAZ s) "") && (0 <? rr_priorityHealthyCount s) then isPriorityAZInstance s i else true.
Definition candidates s : list Instance := List.filter (takes_turn s) (rr_instanceQueue s).

Definition turn_at s (index : nat) : bool :=
  match rr_instanceQueue s !! index with Some i => takes_turn s i | None => false end.
(** The indices of the candidates, in the order of the coming turns. *)
Definition turn_order s : list nat := List.filter (turn_at s) (cyc (length (rr_instanceQueue s)) (rr_curIndex s)).

Definition same_turns s s' : Prop :=
  rr_instanceQueue s' = rr_instanceQueue s /\ rr_priorityAZ s' = rr_priorityAZ s /\
  rr_priorityHealthyCount s' = rr_priorityHealthyCount s.

Lemma takes_turn_same s s' i : same_turns s s' -> takes_turn s' i = takes_turn s i.
Proof. intros (Hq & Ha & Hc). unfold takes_turn, isPriorityAZInstance. by rewrite Ha, Hc. Qed.

Lemma turn_order_same s s' : same_turns s s' -> rr_curIndex s' = rr_curIndex s -> turn_order s' = turn_order s.
Proof.
  intros H Hi. unfold turn_order. rewrite Hi. destruct (H) as (Hq & _ & _). rewrite Hq. apply List.filter_ext.
  intros x. unfold turn_at. rewrite Hq. destruct (_ !! x); [|done]. by apply takes_turn_same.
Qed.

Lemma filter_split {A : Type} (P : A -> bool) l h t : List.filter P l = h :: t ->
  exists l1 l2, l = l1 ++ h :: l2 /\ List.filter P l1 = [] /\ List.filter P l2 = t /\ P h = true.
Proof.
  induction l as [|x l IH]; [done|]. simpl. destruct (P x) eqn:E.
  - intros [= -> <-]. by exists [], l.
  - intros H. destruct (IH H) as (l1 & l2 & -> & H1 & H2 & H3). exists (x :: l1), l2. simpl. by rewrite E.
Qed.

Lemma firstPriority_find s start off fuel :
  rr_instanceQueue s <> [] ->
  (forall i, takes_turn s i = isPriorityAZInstance s i) ->
  firstPriority fuel s start off =
    index ← head (List.filter (turn_at s) (map (fun o => (start + o) mod length (rr_instanceQueue s))%nat (seq off fuel)));
    i ← rr_instanceQueue s !! index; Some (index, i).
Proof.
  intros Hq Ht. revert off. induction fuel as [|fuel IH]; intros off; [done|]. cbn [firstPriority seq map List.filter].
  set (index := ((start + off) mod length (rr_instanceQueue s))%nat).
  destruct (lookup_lt_is_Some_2 (rr_instanceQueue s) index) as [i Hi].
  { apply Nat.mod_upper_bound. by destruct (rr_instanceQueue s). }
  unfold turn_at at 1. rewrite Hi, Ht. destruct (isPriorityAZInstance s i); [|apply IH]. cbn. by rewrite Hi.
Qed.

Lemma cyc_mod len c : cyc len (c mod len) = cyc len c.
Proof. unfold cyc. apply map_ext. intros o. apply Nat.Div0.add_mod_idemp_l. Qed.

Lemma select_turn s h t :
  turn_order s = h :: t ->
  exists i, rr_instanceQueue s !! h = Some i /\
    selectHealthyInstance s = (Some i, rr_set_index (S h mod length (rr_instanceQueue s)) s) /\
    turn_order (rr_set_index (S h mod length (rr_instanceQueue s)) s) = t ++ [h].
Proof.
  intros H. set (len := length (rr_instanceQueue s)).
  assert (Hlen : len <> 0%nat) by (intros E; unfold turn_order in H; fold len in H; by rewrite E in H).
  assert (Hq : rr_instanceQueue s <> []) by (intros E; apply Hlen; unfold len; by rewrite E).
  destruct (filter_split _ _ _ _ H) as (l1 & l2 & Hc & H1 & H2 & Hh). unfold turn_at in Hh.
  destruct (rr_instanceQueue s !! h) as [i|] eqn:Hi; [|done]. exists i. split; [done|]. split.
  - unfold selectHealthyInstance. fold len. rewrite (proj2 (Nat.eqb_neq _ _)) by done.
    set (start := if (len <=? rr_curIndex s)%nat then _ else _).
    assert (Hstart : start = (rr_curIndex s mod len)%nat).
    { unfold start. destruct (Nat.leb_spec len (rr_curIndex s)); [done|]. by rewrite Nat.mod_small. }
    destruct (negb _ && _) eqn:Hp.
    + assert (Ht : forall i, takes_turn s i = isPriorityAZInstance s i) by (intros; unfold takes_turn; by rewrite Hp).
      rewrite firstPriority_find by done. fold len. fold (cyc len start). rewrite Hstart, cyc_mod.
      unfold turn_order in H. fold len in H. rewrite H. cbn. by rewrite Hi.
    + assert (Ht : forall x, x ∈ cyc len (rr_curIndex s) -> turn_at s x = true).
      { intros x Hx. rewrite (cyc_perm len Hlen) in Hx. apply elem_of_seq in Hx.
        unfold turn_at, takes_turn. rewrite Hp. destruct (lookup_lt_is_Some_2 (rr_instanceQueue s) x) as [? ->]; [lia|done]. }
      destruct l1 as [|x l1]; [|fold len in Hc; simpl in H1; rewrite Ht in H1; [done|rewrite Hc; by left]].
      assert (h = start) as ->; [|by rewrite Hi]. fold len in Hc. unfold cyc in Hc. destruct len; [done|]. simpl in Hc.
      rewrite Hstart. injection Hc as <- _. by rewrite Nat.add_0_r.
  - unfold turn_order at 1. cbn [rr_set_index rr_instanceQueue rr_curIndex]. fold len. fold len in Hc.
    rewrite (cyc_next len Hlen _ _ _ _ Hc), !List.filter_app.
    change (turn_at (rr_set_index _ s)) with (turn_at s). rewrite H1, H2. simpl. unfold turn_at at 1. by rewrite Hi, Hh.
Qed.

(** A request for any instance, with the scaler's answers while it waits. *)
Record acquire_call := mkAcquire {
  ac_req : rr_request;
  ac_expect : Z;
  ac_polls : list (Z * (RoundRobinScheduler -> RoundRobinScheduler))
}.
Fixpoint acquire_all (calls : list acquire_call) s : list (Instance + schError) * RoundRobinScheduler :=
  match calls with
  | [] => ([], s)
  | a :: calls =>
      let '(r, s) := rr_AcquireInstance false (ac_req a) (ac_expect a) (ac_polls a) s in
      let '(rs, s) := acquire_all calls s in (r :: rs, s)
  end.

Lemma acquire_turn a s h t :
  rq_DesignateInstanceID (ac_req a) = "" -> turn_order s = h :: t ->
  exists i s', rr_AcquireInstance false (ac_req a) (ac_expect a) (ac_polls a) s = (inl i, s') /\
    rr_instanceQueue s !! h = Some i /\ same_turns s s' /\ turn_order s' = t ++ [h].
Proof.
  intros Ha H. unfold rr_AcquireInstance. rewrite Ha. cbn [negb String.eqb andb].
  set (s1 := if ac_expect a <=? 0 then _ else s).
  assert (Hs1 : same_turns s s1 /\ rr_curIndex s1 = rr_curIndex s).
  { subst s1. unfold rr_recordColdStartTrace. destruct (ac_expect a <=? 0); [|done]. by destruct (String.eqb (rq_TraceID _) "" && _). }
  destruct Hs1 as [Hs1 Hi1]. clearbody s1. rewrite <- (turn_order_same s s1) in H by done.
  destruct (select_turn s1 h t H) as (i & Hq & Hsel & Ht).
  assert (awaitInstance (ac_polls a) s1 = s1) as ->.
  { destruct (ac_polls a) as [|[e step] polls]; [done|]. simpl. unfold rr_GetInstanceNumber.
    apply lookup_lt_Some in Hq. by rewrite (proj2 (Z.ltb_lt _ _)) by lia. }
  rewrite Hsel. exists i, (rr_set_index (S h mod length (rr_instanceQueue s1)) s1).
  split; [done|]. split; [by destruct Hs1 as [<- _]|]. split; [done|done].
Qed.

Lemma acquire_turns l1 l2 calls s :
  Forall (fun a => rq_DesignateInstanceID (ac_req a) = "") calls -> length calls = length l1 -> turn_order s = l1 ++ l2 ->
  exists out s', acquire_all calls s = (inl <$> out, s') /\ Some <$> out = (rr_instanceQueue s !!.) <$> l1 /\
    same_turns s s' /\ turn_order s' = l2 ++ l1.
Proof.
  revert l1 l2 s. induction calls as [|a calls IH]; intros [|h l1] l2 s Hd Hl Ho; try done.
  - exists [], s. rewrite app_nil_r. by repeat split.
  - apply Forall_cons in Hd as [Ha Hd]. destruct (acquire_turn a s h (l1 ++ l2) Ha Ho) as (i & s1 & E & Hi & Hs & Ht).
    rewrite <- app_assoc in Ht. destruct (IH l1 (l2 ++ [h]) s1 Hd ltac:(simpl in Hl; lia) Ht) as (out & s2 & E2 & Hm & Hs2 & Ht2).
    exists (i :: out), s2. cbn [acquire_all]. rewrite E, E2. split; [done|]. destruct Hs as (Hq & Haz & Hc), Hs2 as (Hq2 & Haz2 & Hc2).
    split; [|split; [split; [congruence|split; congruence]|by rewrite Ht2, <- app_assoc]].
    rewrite !fmap_cons, Hi, Hm, Hq. done.
Qed.

Lemma omap_filter {A B : Type} (g : A -> option B) (P : B -> bool) l :
  omap g (List.filter (fun x => match g x with Some y => P y | None => false end) l) = List.filter P (omap g l).
Proof.
  induction l as [|x l IH]; [done|]. cbn [List.filter omap list_omap]. destruct (g x) as [y|] eqn:E; [|done].
  cbn [List.filter]. destruct (P y); [|done]. cbn [omap list_omap]. rewrite E. by rewrite <- IH.
Qed.
Lemma omap_lookup_seq {A : Type} (l : list A) : omap (l !!.) (seq 0 (length l)) = l.
Proof.
  induction l as [|x l IH]; [done|]. cbn [length seq omap list_omap]. rewrite <- fmap_S_seq. simpl. f_equal.
  rewrite <- IH at 2. generalize (seq 0 (length l)). intros k. induction k as [|n k IHk]; [done|].
  rewrite fmap_cons. cbn [omap list_omap]. simpl. destruct (l !! n); [f_equal|]; apply IHk.
Qed.
#[local] Instance filter_Permutation {A : Type} (P : A -> bool) : Proper (Permutation ==> Permutation) (List.filter P).
Proof.
  intros l l' H. induction H as [|x l l' H IH|x y l|l l' l'' H1 IH1 H2 IH2]; simpl; [done| | |by etrans].
  - destruct (P x); [by constructor|done].
  - destruct (P x), (P y); try done. constructor.
Qed.

Lemma turn_order_candidates s out :
  Some <$> out = (rr_instanceQueue s !!.) <$> turn_order s -> out ≡ₚ candidates s.
Proof.
  intros H. destruct (decide (rr_instanceQueue s = [])) as [Hq|Hq].
  { unfold turn_order, candidates in *. rewrite Hq in *. simpl in *. by destruct out. }
  assert (out = omap (rr_instanceQueue s !!.) (turn_order s)) as ->.
  { revert H. generalize (turn_order s). induction out as [|i out IH]; intros [|n l] H; try done.
    rewrite !fmap_cons in H. injection H as Hn H. cbn [omap list_omap]. rewrite <- Hn. f_equal. by apply IH. }
  unfold turn_order. unfold turn_at. rewrite (omap_filter (rr_instanceQueue s !!.) (takes_turn s)). unfold candidates.
  apply filter_Permutation. rewrite cyc_perm; [by rewrite omap_lookup_seq|]. by destruct (rr_instanceQueue s).
Qed.

Lemma candidates_same s s' : same_turns s s' -> candidates s' = candidates s.
Proof.
  intros H. unfold candidates. destruct (H) as (-> & _ & _). apply List.filter_ext. intros i. by apply takes_turn_same.
Qed.

Lemma acquire_all_app c1 c2 s :
  acquire_all (c1 ++ c2) s =
    ((acquire_all c1 s).1 ++ (acquire_all c2 (acquire_all c1 s).2).1, (acquire_all c2 (acquire_all c1 s).2).2).
Proof.
  revert s. induction c1 as [|a c1 IH]; intros s; simpl; [by destruct (acquire_all c2 s)|].
  destruct (rr_AcquireInstance _ _ _ _ _) as [r s1]. rewrite IH. destruct (acquire_all c1 s1) as [rs s2]. simpl. done.
Qed.

Lemma candidates_spec s : rr_inv s ->
  candidates s = (if bool_decide (List.filter (isPriorityAZInstance s) (rr_instanceQueue s) = []) then rr_instanceQueue s
                  else List.filter (isPriorityAZInstance s) (rr_instanceQueue s)).
Proof.
  intros Hi. pose proof (ri_healthy _ Hi) as Hn. unfold prios in Hn.
  change (List.filter (prio (rr_priorityAZ s))) with (List.filter (isPriorityAZInstance s)) in Hn.
  unfold candidates. case_bool_decide as E.
  - rewrite E in Hn. apply List.forallb_filter_id, List.forallb_forall. intros x _. unfold takes_turn. rewrite Hn. by rewrite andb_false_r.
  - apply List.filter_ext. intros x. unfold takes_turn.
    destruct (List.filter _ (rr_instanceQueue s)) as [|y l] eqn:F; [done|].
    rewrite Hn. assert (0 <? Z.of_nat (length (y :: l)) = true) as -> by (apply Z.ltb_lt; simpl; lia).
    destruct (String.eqb (rr_priorityAZ s) "") eqn:Ez; [|done].
    exfalso. assert (Hy : y ∈ y :: l) by left. rewrite <- F in Hy. apply list_elem_of_In, List.filter_In in Hy as [_ Hy].
    unfold isPriorityAZInstance in Hy. by rewrite Ez in Hy.
Qed.

Lemma turn_order_length s : length (turn_order s) = length (candidates s).
Proof.
  assert (H : exists out, Some <$> out = (rr_instanceQueue s !!.) <$> turn_order s).
  { assert (Hf : Forall (fun n => is_Some (rr_instanceQueue s !! n)) (turn_order s)).
    { apply Forall_forall. intros n [_ Hn]%list_elem_of_In%List.filter_In. unfold turn_at in Hn.
      destruct (rr_instanceQueue s !! n); [by eexists|done]. }
    induction Hf as [|n l [i Hi] _ [out IH]]; [by exists []|]. exists (i :: out). by rewrite !fmap_cons, Hi, IH. }
  destruct H as [out H]. rewrite <- (Permutation_length (turn_order_candidates s out H)).
  apply (f_equal length) in H. rewrite !length_fmap in H. done.
Qed.

(** Instances take turns.  While the instances of a function stay as they
    are, every run of requests for any instance is served, by the instances of
    the preferred zone if there are healthy ones there and by all instances
    otherwise; and a run of [k] times as many requests as there are such
    instances is served by each of them exactly [k] times, wherever it starts. *)
Theorem rr_fair s k calls :
  rr_inv s -> rr_instanceQueue s <> [] ->
  Forall (fun a => rq_DesignateInstanceID (ac_req a) = "") calls -> length calls = (k * length (candidates s))%nat ->
  candidates s <> [] /\
  candidates s = (if bool_decide (List.filter (isPriorityAZInstance s) (rr_instanceQueue s) = []) then rr_instanceQueue s
                  else List.filter (isPriorityAZInstance s) (rr_instanceQueue s)) /\
  exists out, (acquire_all calls s).1 = inl <$> out /\ out ≡ₚ concat (replicate k (candidates s)).
Proof.
  intros Hi Hq Hd Hl. pose proof (candidates_spec s Hi) as Hc.
  split; [rewrite Hc; by case_bool_decide|]. split; [done|]. clear Hc Hi.
  revert s calls Hq Hd Hl. induction k as [|k IH]; intros s calls Hq Hd Hl.
  { destruct calls; [|done]. by exists []. }
  rewrite <- (take_drop (length (candidates s)) calls) in Hd |- *. apply Forall_app in Hd as [Hd1 Hd2].
  set (c1 := take _ _) in *. set (c2 := drop _ _) in *.
  destruct (acquire_turns (turn_order s) [] c1 s Hd1) as (out & s' & E & Hm & Hs & _).
  { rewrite turn_order_length. unfold c1. rewrite length_take. lia. }
  { by rewrite app_nil_r. }
  destruct (IH s' c2) as (out2 & E2 & Hp2); [by destruct Hs as [-> _]|done| |].
  { rewrite (candidates_same _ _ Hs). unfold c2. rewrite length_drop. lia. }
  exists (out ++ out2). rewrite acquire_all_app, E. cbn [fst snd]. rewrite E2, fmap_app. split; [done|].
  cbn [replicate concat]. rewrite (candidates_same _ _ Hs) in Hp2. by rewrite (turn_order_candidates s out Hm), Hp2.
Qed.

(** ** Runs *)

Definition rr_instance (id az : string) (status : Z) : Instance := mkInstance id 2 status "" az None false "".
Definition rr_replica : ReplicaScaler := mkReplica 2 0 0 0 None true.
Definition any_instance : acquire_call := mkAcquire (mkRRReq "" "" "") 1 [].

Lemma rr_scaler_agrees_witness :
  let evs := [ReAdd (rr_instance "a" "z1" 3); ReAdd (rr_instance "b" "z2" 11); ReSpec "z1";
              ReUpdate (rr_instance "a" "z1" 11); ReAdd (rr_instance "c" "z1" 3); RePop ["a"; "b"] []] in
  let s := rr_run evs (NewRoundRobinScheduler true) in
  rr_GetInstanceNumber s = 2%nat /\ rs_currentRsvInsNum (heard rr_replica s) = Z.of_nat (rr_GetInstanceNumber s).
Proof.
  intros evs s. split; [by vm_compute|]. apply (rr_scaler_agrees 2 rr_replica true evs); [done..|].
  repeat constructor.
Defined.

(** Two of three instances are in the preferred zone. *)
Definition rr_three : RoundRobinScheduler :=
  rr_run [ReAdd (rr_instance "a" "z1" 3); ReAdd (rr_instance "b" "z2" 3); ReAdd (rr_instance "c" "z1" 3); ReSpec "z1"]
    (NewRoundRobinScheduler true).

Lemma rr_three_inv : rr_inv rr_three.
Proof.
  split; [by apply (bool_decide_unpack _); vm_compute|..]; [|done|done|done].
  intros i _. apply lookup_empty.
Qed.

Lemma rr_fair_witness :
  exists out, (acquire_all (replicate 4 any_instance) rr_three).1 = inl <$> out /\
    out ≡ₚ concat (replicate 2 [rr_instance "a" "z1" 3; rr_instance "c" "z1" 3]).
Proof.
  apply (rr_fair rr_three 2 (replicate 4 any_instance)); [apply rr_three_inv|done| |done].
  by repeat constructor.
Defined.

(** An update looks where its instance is and moves it later: an instance that
    is popped in between, to be removed, comes back as a sub-healthy one, and
    the scaler does not hear of it. *)
Theorem popped_instance_returns :
  let s0 := rr_run [ReAdd (rr_instance "a" "" 3)] (NewRoundRobinScheduler true) in
  let update := rr_instance "a" "" 11 in
  let '(popped, s1) := rr_PopInstance [] [] s0 in
  let s2 := match update_read update s0 with Some found => update_act update found s1 | None => s1 end in
  popped = Some (rr_instance "a" "" 3) /\ rr_GetInstanceNumber s2 = 1%nat /\
  rs_currentRsvInsNum (heard rr_replica s2) = 0.
Proof. by vm_compute. Qed.
