(* ===== verification/MicroService.v ===== *)
(** * The micro-service scheduler (scheduler/microservicescheduler)

    [MicroServiceScheduler] hands out running instances in turn, or, with the
    policy of least connections, the one with the fewest requests on it.  Every
    operation is its critical section; [HandleInstanceUpdate] looks whether it
    has the instance before it calls the operation that checks again, so that it
    is that operation or nothing.  The scheduler publishes nothing. *)
From S2P Require Import Prelude SchedErrors InsQueue ConcSched RoundRobin.
#[local] Open Scope string_scope.
#[local] Open Scope list_scope.
#[local] Open Scope Z_scope.

Notation LeastConnections := "LC" (only parsing).
Notation policyRoundRobin := "RR" (only parsing).
Notation MaxInt32 := 2147483647 (only parsing).

Record msElement := mkMs { me_instance : Instance; me_requestCount : Z }.
Record MicroServiceScheduler := mkMicro {
  ms_instanceQueue : list msElement;
  ms_SchedulePolicy : string;
  ms_curIndex : nat
}.
Implicit Types (s : MicroServiceScheduler) (e : msElement).

Definition NewMicroServiceScheduler (schedulePolicy : string) : MicroServiceScheduler := mkMicro [] schedulePolicy 0.
Definition ms_set_queue (q : list msElement) s : MicroServiceScheduler := mkMicro q (ms_SchedulePolicy s) (ms_curIndex s).
Definition me_id e : string := in_InstanceID (me_instance e).

Definition ms_GetInstanceNumber s : nat := length (ms_instanceQueue s).
Definition ms_getInstance (targetID : string) s : option msElement :=
  List.find (fun e => String.eqb (me_id e) targetID) (ms_instanceQueue s).
Definition ms_CheckInstanceExist (i : Instance) s : bool := bool_decide (is_Some (ms_getInstance (in_InstanceID i) s)).

(** Changes the first element with an identifier, to nothing with [None]. *)
Fixpoint alter_first (f : msElement -> option msElement) (id : string) (q : list msElement) : list msElement :=
  match q with
  | [] => []
  | e :: q => if String.eqb (me_id e) id then match f e with Some e => e :: q | None => q end
              else e :: alter_first f id q
  end.

Definition ms_addInstance (i : Instance) s : MicroServiceScheduler := ms_set_queue (ms_instanceQueue s ++ [mkMs i 0]) s.
Definition ms_delInstance (targetID : string) s : MicroServiceScheduler :=
  ms_set_queue (alter_first (fun _ => None) targetID (ms_instanceQueue s)) s.

(** The first element with the fewest requests, below a bound. *)
Definition lessUsed (chosen : Z * option (nat * msElement)) (ne : nat * msElement) : Z * option (nat * msElement) :=
  if me_requestCount ne.2 <? chosen.1 then (me_requestCount ne.2, Some ne) else chosen.
Definition selectInstanceWithLC s : (Instance + schError) * MicroServiceScheduler :=
  match (fold_left lessUsed (imap pair (ms_instanceQueue s)) (MaxInt32, None)).2 with
  | Some (n, e) =>
      (inl (me_instance e), ms_set_queue (<[n := mkMs (me_instance e) (me_requestCount e + 1)]> (ms_instanceQueue s)) s)
  | None => (inr ErrNoInsAvailable, s)
  end.

Definition selectInstanceWithRR s : (Instance + schError) * MicroServiceScheduler :=
  let len := length (ms_instanceQueue s) in
  let curIndex := (if (len <=? ms_curIndex s)%nat then ms_curIndex s mod len else ms_curIndex s)%nat in
  match ms_instanceQueue s !! curIndex with
  | Some e => (inl (me_instance e), mkMicro (ms_instanceQueue s) (ms_SchedulePolicy s) (S curIndex))
  | None => (inr ErrNoInsAvailable, s)
  end.

(** The identifier of the allocation is made from the instance's and a random
    string. *)
Definition ms_AcquireInstance s : (Instance + schError) * MicroServiceScheduler :=
  if (length (ms_instanceQueue s) =? 0)%nat then (inr ErrNoInsAvailable, s)
  else if String.eqb (ms_SchedulePolicy s) policyRoundRobin then selectInstanceWithRR s
  else if String.eqb (ms_SchedulePolicy s) LeastConnections then selectInstanceWithLC s
  else selectInstanceWithRR s.

Definition released e : option msElement :=
  Some (if 0 <? me_requestCount e then mkMs (me_instance e) (me_requestCount e - 1) else e).
Definition ms_ReleaseInstance (instanceID : string) s : MicroServiceScheduler :=
  if String.eqb (ms_SchedulePolicy s) LeastConnections
  then ms_set_queue (alter_first released instanceID (ms_instanceQueue s)) s else s.

Definition ms_AddInstance (i : Instance) s : option schError * MicroServiceScheduler :=
  if ms_CheckInstanceExist i s then (Some ErrInsAlreadyExist, s)
  else if in_StatusCode i =? KernelInstanceStatusRunning then (None, ms_addInstance i s)
  else (Some ErrInternal, s).

(** From the back of the queue. *)
Definition ms_PopInstance s : option Instance * MicroServiceScheduler :=
  match last (ms_instanceQueue s) with
  | None => (None, s)
  | Some e => (Some (me_instance e), ms_set_queue (removelast (ms_instanceQueue s)) s)
  end.

Definition ms_DelInstance (i : Instance) s : option schError * MicroServiceScheduler :=
  if ms_CheckInstanceExist i s then (None, ms_delInstance (in_InstanceID i) s) else (Some ErrInsNotExist, s).

Definition ms_HandleInstanceUpdate (i : Instance) s : MicroServiceScheduler :=
  let exist := ms_CheckInstanceExist i s in
  if in_StatusCode i =? KernelInstanceStatusRunning then if exist then s else (ms_AddInstance i s).2
  else if in_StatusCode i =? KernelInstanceStatusEvicting then if exist then (ms_DelInstance i s).2 else s
  else s.

(** ** Least connections *)

(** Events of a scheduler with that policy; [held] counts the allocations on an
    instance that were acquired and not released. *)
Inductive ms_event :=
| MsAcquire
| MsRelease (id : string)
| MsAdd (i : Instance)
| MsPop
| MsDel (i : Instance)
| MsUpdate (i : Instance).
Notation holding := (string -> Z).
Implicit Types (held : holding).

Definition held_by (id : string) (d : Z) held : holding := fun x => if String.eqb x id then held x + d else held x.

Definition ms_step (sh : MicroServiceScheduler * holding) (ev : ms_event) : MicroServiceScheduler * holding :=
  let '(s, held) := sh in
  match ev with
  | MsAcquire => match ms_AcquireInstance s with
                 | (inl i, s) => (s, held_by (in_InstanceID i) 1 held)
                 | (inr _, s) => (s, held)
                 end
  | MsRelease id => (ms_ReleaseInstance id s, held_by id (-1) held)
  | MsAdd i => ((ms_AddInstance i s).2, held)
  | MsPop => ((ms_PopInstance s).2, held)
  | MsDel i => ((ms_DelInstance i s).2, held)
  | MsUpdate i => (ms_HandleInstanceUpdate i s, held)
  end.
Definition ms_run (evs : list ms_event) sh := fold_left ms_step evs sh.

(** What is released was acquired, and an instance that comes back after it was
    gone has no allocations left. *)
Definition ms_fair (sh : MicroServiceScheduler * holding) (ev : ms_event) : Prop :=
  match ev with
  | MsRelease id => 0 < sh.2 id
  | MsAdd i | MsUpdate i => ms_CheckInstanceExist i sh.1 = true \/ sh.2 (in_InstanceID i) = 0
  | _ => True
  end.
Fixpoint ms_orderly (evs : list ms_event) sh : Prop :=
  match evs with [] => True | ev :: evs => ms_fair sh ev /\ ms_orderly evs (ms_step sh ev) end.

Record lc_inv (sh : MicroServiceScheduler * holding) : Prop := {
  lc_policy : ms_SchedulePolicy sh.1 = LeastConnections;
  lc_nodup : NoDup (me_id <$> ms_instanceQueue sh.1);
  lc_counts : Forall (fun e => me_requestCount e = sh.2 (me_id e)) (ms_instanceQueue sh.1);
  lc_nonneg id : 0 <= sh.2 id
}.

Lemma fold_lessUsed (l : list (nat * msElement)) b o :
  match (fold_left lessUsed l (b, o)) with
  | (m, Some ne) => (Some ne = o /\ m = b \/ ne ∈ l /\ m = me_requestCount ne.2 /\ m < b) /\
                    Forall (fun x => m <= me_requestCount x.2) l
  | (m, None) => o = None /\ m = b /\ Forall (fun x => b <= me_requestCount x.2) l
  end.
Proof.
  revert b o. induction l as [|x l IH]; intros b o; simpl; [by destruct o; naive_solver|].
  unfold lessUsed at 2. simpl. destruct (Z.ltb_spec (me_requestCount x.2) b) as [Hlt|Hge].
  - specialize (IH (me_requestCount x.2) (Some x)). destruct (fold_left _ _ _) as [m [ne|]]; [|naive_solver].
    destruct IH as [[[[= ->] ->]|(? & -> & ?)] Hf]; (split; [right; split; [set_solver|lia]|constructor; [lia|done]]).
  - specialize (IH b o). destruct (fold_left _ _ _) as [m [ne|]]; [|naive_solver].
    destruct IH as [[[? ->]|(? & -> & ?)] Hf]; (split; [set_solver|constructor; [lia|done]]).
Qed.

(** The instance chosen is one with the fewest requests. *)
Lemma selectLC_spec s :
  match selectInstanceWithLC s with
  | (inl i, s') => exists n e, ms_instanceQueue s !! n = Some e /\ me_instance e = i /\
      s' = ms_set_queue (<[n := mkMs i (me_requestCount e + 1)]> (ms_instanceQueue s)) s /\
      Forall (fun x => me_requestCount e <= me_requestCount x) (ms_instanceQueue s) /\ me_requestCount e < MaxInt32
  | (inr err, s') => err = ErrNoInsAvailable /\ s' = s /\ Forall (fun x => MaxInt32 <= me_requestCount x) (ms_instanceQueue s)
  end.
Proof.
  unfold selectInstanceWithLC. pose proof (fold_lessUsed (imap pair (ms_instanceQueue s)) MaxInt32 None) as H.
  assert (Himap : forall P : msElement -> Prop, Forall (fun x => P x.2) (imap pair (ms_instanceQueue s)) -> Forall P (ms_instanceQueue s)).
  { intros P HP. apply Forall_lookup. intros n e He. rewrite Forall_lookup in HP. specialize (HP n (n, e)).
    rewrite list_lookup_imap, He in HP. by apply HP. }
  destruct (fold_left _ _ _) as [m [[n e]|]] eqn:E; simpl.
  - destruct H as ([[? _]|(Hin & -> & Hb)] & Hf); [done|]. apply elem_of_lookup_imap_1 in Hin as (k & x & [= <- <-] & Hx).
    exists n, e. split; [done|]. split; [done|]. split; [done|]. split; [by apply (Himap (fun x => me_requestCount e <= me_requestCount x))|].
    done.
  - destruct H as (_ & _ & Hf). split; [done|]. split; [done|]. by apply (Himap (fun x => MaxInt32 <= me_requestCount x)).
Qed.

Lemma submseteq_NoDup {A : Type} (l k : list A) : l ⊆+ k -> NoDup k -> NoDup l.
Proof. intros [k' ->]%submseteq_Permutation H. by apply NoDup_app in H as [? _]. Qed.

Lemma alter_first_ids f id q :
  (forall e e', f e = Some e' -> me_id e' = me_id e) -> me_id <$> alter_first f id q ⊆+ me_id <$> q.
Proof.
  intros Hf. induction q as [|e q IH]; [done|]. cbn [alter_first]. destruct (String.eqb_spec (me_id e) id).
  - destruct (f e) as [e'|] eqn:E; [|rewrite fmap_cons; by apply submseteq_cons].
    by rewrite !fmap_cons, (Hf _ _ E).
  - rewrite !fmap_cons. by apply submseteq_skip.
Qed.

Lemma alter_first_Forall f id q (P Q : msElement -> Prop) :
  NoDup (me_id <$> q) -> Forall P q -> (forall e e', P e -> me_id e = id -> f e = Some e' -> Q e') ->
  (forall e, P e -> me_id e <> id -> Q e) -> Forall Q (alter_first f id q).
Proof.
  intros Hnd Hp Hf Hq. induction Hp as [|e q He Hp IH]; [constructor|]. rewrite fmap_cons in Hnd.
  apply NoDup_cons in Hnd as [Hn Hnd]. cbn [alter_first]. destruct (String.eqb_spec (me_id e) id) as [Hid|Hid].
  - assert (Hrest : Forall Q q).
    { apply Forall_forall. intros x Hx. rewrite Forall_forall in Hp. apply Hq; [by apply Hp|].
      intros Heq. apply Hn. rewrite Hid, <- Heq. by apply list_elem_of_fmap_2. }
    destruct (f e) as [e'|] eqn:E; [|done]. constructor; [|done]. by eapply Hf.
  - constructor; [by apply Hq|]. by apply IH.
Qed.

Lemma CheckInstanceExist_ms i s : ms_CheckInstanceExist i s = false -> in_InstanceID i ∉ me_id <$> ms_instanceQueue s.
Proof.
  unfold ms_CheckInstanceExist. intros H%bool_decide_eq_false_1%eq_None_not_Some (e & He & Hin)%list_elem_of_fmap.
  apply list_elem_of_In in Hin. pose proof (List.find_none _ _ H e Hin) as Hn. simpl in Hn. by rewrite He, String.eqb_refl in Hn.
Qed.

Lemma lc_add i s held :
  lc_inv (s, held) -> ms_CheckInstanceExist i s = true \/ held (in_InstanceID i) = 0 -> lc_inv ((ms_AddInstance i s).2, held).
Proof.
  intros [H1 H2 H3 H4] Hf. unfold ms_AddInstance. destruct (ms_CheckInstanceExist i s) eqn:E; [done|].
  destruct Hf as [?|Hf]; [done|]. apply CheckInstanceExist_ms in E. destruct (_ =? _); [|done]. split; simpl in *; try done.
  - rewrite fmap_app. apply NoDup_app. split; [done|]. split; [|apply NoDup_singleton]. simpl. set_solver.
  - apply Forall_app. split; [done|]. by constructor.
Qed.

Lemma lc_del i s held : lc_inv (s, held) -> lc_inv ((ms_DelInstance i s).2, held).
Proof.
  intros [H1 H2 H3 H4]. unfold ms_DelInstance. destruct (ms_CheckInstanceExist i s); [|done]. split; simpl in *; try done.
  - eapply submseteq_NoDup; [|done]. by apply alter_first_ids.
  - by eapply alter_first_Forall.
Qed.

Lemma lc_step sh ev : ms_fair sh ev -> lc_inv sh -> lc_inv (ms_step sh ev).
Proof.
  destruct sh as [s held]. intros Hf Hi. pose proof Hi as [H1 H2 H3 H4]. simpl in H1, H2, H3, H4.
  destruct ev as [|id|i| |i|i]; cbn [ms_step].
  - unfold ms_AcquireInstance. destruct (_ =? 0)%nat; [done|]. rewrite H1. cbn [String.eqb Ascii.eqb Bool.eqb].
    pose proof (selectLC_spec s) as Hs. destruct (selectInstanceWithLC s) as [[i|err] s']; [|by destruct Hs as (_ & -> & _)].
    destruct Hs as (n & e & Hn & <- & -> & _). split; simpl; try done.
    + rewrite list_fmap_insert. unfold me_id at 1. simpl. rewrite list_insert_id; [done|].
      by rewrite list_lookup_fmap, Hn.
    + apply Forall_lookup. intros m x Hx. rewrite list_lookup_insert_Some in Hx.
      destruct Hx as [(<- & <- & _)|[Hne Hx]]; unfold held_by, me_id; simpl.
      * rewrite String.eqb_refl. by rewrite (proj1 (Forall_lookup _ _) H3 n e Hn).
      * rewrite (proj2 (String.eqb_neq _ _)); [apply (proj1 (Forall_lookup _ _) H3 m x Hx)|].
        intros Heq. apply Hne. eapply (NoDup_lookup _ n m _ H2); by rewrite list_lookup_fmap, ?Hn, ?Hx; simpl; unfold me_id; rewrite ?Heq.
    + intros id. unfold held_by. specialize (H4 id). destruct (String.eqb _ _); lia.
  - simpl in Hf. unfold ms_ReleaseInstance. rewrite H1. cbn [String.eqb Ascii.eqb Bool.eqb]. split; simpl; try done.
    + eapply submseteq_NoDup; [|done]. apply alter_first_ids. intros e e' [= <-]. by destruct (0 <? _).
    + eapply alter_first_Forall; [done|done| |].
      * intros e e' He Hid [= <-]. unfold held_by. destruct (Z.ltb_spec 0 (me_requestCount e)); [|rewrite He, Hid in *; lia].
        unfold me_id in *. simpl. rewrite Hid, String.eqb_refl. rewrite He, Hid. lia.
      * intros e He Hid. unfold held_by. by rewrite (proj2 (String.eqb_neq _ _)).
    + intros id'. unfold held_by. specialize (H4 id'). destruct (String.eqb_spec id' id) as [->|]; lia.
  - by apply lc_add.
  - unfold ms_PopInstance. destruct (last _) as [e|] eqn:E; [|done]. split; simpl; try done.
    + apply last_Some in E as [l Hl]. rewrite Hl in H2 |- *. rewrite removelast_last. rewrite fmap_app in H2.
      by apply NoDup_app in H2 as [? _].
    + apply last_Some in E as [l Hl]. rewrite Hl in H3 |- *. rewrite removelast_last. by apply Forall_app in H3 as [? _].
  - by apply lc_del.
  - unfold ms_HandleInstanceUpdate. destruct (_ =? _); [|destruct (_ =? _); [|done]].
    + destruct (ms_CheckInstanceExist i s) eqn:E; [done|]. by apply lc_add.
    + destruct (ms_CheckInstanceExist i s); [by apply lc_del|done].
Qed.

(** C29: Least connections is what it says.  In a run in which allocations are
    released once and an instance does not come back while it has allocations,
    the count of every instance is the number of allocations on it, a request is
    given an instance with the fewest, and it is refused only when there is no
    instance or every instance has as many as an int32 holds. *)
Theorem least_connections evs :
  let new := (NewMicroServiceScheduler LeastConnections, fun _ => 0) in
  ms_orderly evs new ->
  let '(s, held) := ms_run evs new in
  Forall (fun e => me_requestCount e = held (me_id e)) (ms_instanceQueue s) /\
  match (ms_AcquireInstance s).1 with
  | inl i => i ∈ me_instance <$> ms_instanceQueue s /\
             Forall (fun e => held (in_InstanceID i) <= held (me_id e)) (ms_instanceQueue s)
  | inr err => err = ErrNoInsAvailable /\ Forall (fun e => MaxInt32 <= held (me_id e)) (ms_instanceQueue s)
  end.
Proof.
  intros new Ho. assert (Hi : lc_inv (ms_run evs new)).
  { assert (Hn : lc_inv new) by (split; simpl; done || apply NoDup_nil_2).
    revert Hn Ho. generalize new. unfold ms_run. induction evs as [|ev evs IH]; intros sh Hn Ho; [done|].
    destruct Ho as [Hf Ho]. apply IH; [by apply lc_step|done]. }
  destruct (ms_run evs new) as [s held]. destruct Hi as [H1 _ H3 _]. simpl in H1, H3. split; [done|].
  unfold ms_AcquireInstance. destruct (Nat.eqb_spec (length (ms_instanceQueue s)) 0) as [H0|H0].
  { apply nil_length_inv in H0. by rewrite H0. }
  rewrite H1. cbn [String.eqb Ascii.eqb Bool.eqb]. pose proof (selectLC_spec s) as Hs.
  assert (Hc : forall P : Z -> Prop, Forall (fun e => P (me_requestCount e)) (ms_instanceQueue s) ->
    Forall (fun e => P (held (me_id e))) (ms_instanceQueue s)).
  { intros P HP. rewrite Forall_forall in *. intros e He. rewrite <- H3 by done. by apply HP. }
  destruct (selectInstanceWithLC s) as [[i|err] s']; cbn [fst].
  - destruct Hs as (n & e & Hn & <- & _ & Hf & _). apply list_elem_of_lookup_2 in Hn. split; [by apply list_elem_of_fmap_2|].
    rewrite Forall_forall in H3. change (in_InstanceID (me_instance e)) with (me_id e). rewrite <- (H3 e Hn).
    by apply (Hc (fun z => me_requestCount e <= z)).
  - destruct Hs as (-> & _ & Hf). split; [done|]. by apply (Hc (fun z => MaxInt32 <= z)).
Qed.

Definition ms_instance (id : string) (status : Z) : Instance := mkInstance id 1 status "" "" None false "".
Definition ms_two : list ms_event :=
  [MsAdd (ms_instance "a" 3); MsAdd (ms_instance "b" 3); MsAcquire; MsAcquire; MsAcquire; MsRelease "a"; MsRelease "a"].

Lemma least_connections_witness :
  let '(s, held) := ms_run ms_two (NewMicroServiceScheduler LeastConnections, fun _ => 0) in
  (ms_AcquireInstance s).1 = inl (ms_instance "a" 3) /\
  Forall (fun e => me_requestCount e = held (me_id e)) (ms_instanceQueue s).
Proof.
  pose proof (least_connections ms_two) as H. specialize (H ltac:(vm_compute; tauto)).
  destruct (ms_run ms_two (NewMicroServiceScheduler LeastConnections, fun _ => 0)) as [s held] eqn:E.
  split; [|apply H]. vm_compute in E. by injection E as <- _.
Defined.

(** An instance that is evicted and comes back starts from zero, while releases
    of its old allocations count against the new ones: with one allocation on
    it, it is preferred to another with none. *)
Theorem stale_release_undercounts :
  let old := [MsAdd (ms_instance "a" 3); MsAcquire; MsUpdate (ms_instance "a" 9)] in
  let back := [MsUpdate (ms_instance "a" 3); MsAcquire; MsRelease "a"; MsAdd (ms_instance "b" 3)] in
  let '(s, held) := ms_run (old ++ back) (NewMicroServiceScheduler LeastConnections, fun _ => 0) in
  held "a" = 1 /\ held "b" = 0 /\ (ms_AcquireInstance s).1 = inl (ms_instance "a" 3).
Proof. by vm_compute. Qed.

(** ** The policy in turn *)





