(* ===== verification/PredictScaler.v ===== *)
(** * The predictive scaler

    [PredictScaler] (pkg/functionscaler/scaler/predictscaler.go) scales to a
    prediction of the requests that come: it removes what the current window
    does not need and, a cold start ahead of the next window, creates what that
    one needs.  Beside it a passive loop scales as the auto scaler does.

    Metrics and predictions are exact fractions; the rounding of floating point
    numbers is not modelled.  The fields the code reads without the lock are read
    in the step that reads them.  The two loops and the watcher that handles a
    prediction are step functions: a step is one case of a select, or the next
    section up to a lock, a sleep or a channel.  The decoder of predictions, the
    owner of a function and the time are arguments. *)
From Stdlib Require Import QArith Qround Qminmax Lqa.
From S2P Require Import Prelude GoStrings ConcSched AutoScaler.
#[local] Open Scope Z_scope.

Notation longColdStartTime := (3 * 60 * 1000 * Millisecond)%Z (only parsing).
Notation DefaultReqDelay := 3000 (only parsing).
Notation millisecondToMinute := (60 * 1000)%Z (only parsing).

Record PredictScaler := mkPredict {
  ps_funcKeyWithRes : string;
  ps_scaleUpWindow : Z;
  ps_scaleDownWindow : Z;
  ps_coldStartTime : Z;
  ps_concurrentNum : Z;
  ps_pendingInsThdNum : Z;
  ps_inUseInsThdNum : Z;
  ps_totalInsThdNum : Z;
  ps_predictInsNum : Z;
  ps_predictDownDiff : Z;
  ps_predictUpDiff : Z;
  ps_minRsvInsNum : Z;
  ps_minScaleDemand : Z;
  ps_predictScaleUpFlag : bool;
  ps_predictScaleDownFlag : bool;
  ps_predictUpChanFlag : bool;
  ps_predictDownChanFlag : bool;
  ps_scaleUpChan : nat;
  ps_scaleDownChan : nat;
  ps_scaleUpTriggerCh : nat;
  ps_scaleDownTriggerCh : nat;
  ps_stopCh : bool;
  ps_registered : bool
}.
Implicit Types (s : PredictScaler).

(** Every field, in order: the updates below name what they change. *)
Definition ps_set (key : string) (cold conc min : Z) (stop reg : bool) s : PredictScaler :=
  mkPredict key (ps_scaleUpWindow s) (ps_scaleDownWindow s) cold conc (ps_pendingInsThdNum s) (ps_inUseInsThdNum s)
    (ps_totalInsThdNum s) (ps_predictInsNum s) (ps_predictDownDiff s) (ps_predictUpDiff s) min (ps_minScaleDemand s)
    (ps_predictScaleUpFlag s) (ps_predictScaleDownFlag s) (ps_predictUpChanFlag s) (ps_predictDownChanFlag s)
    (ps_scaleUpChan s) (ps_scaleDownChan s) (ps_scaleUpTriggerCh s) (ps_scaleDownTriggerCh s) stop reg.
Definition ps_set_threads (pending inUse total demand : Z) s : PredictScaler :=
  mkPredict (ps_funcKeyWithRes s) (ps_scaleUpWindow s) (ps_scaleDownWindow s) (ps_coldStartTime s) (ps_concurrentNum s)
    pending inUse total (ps_predictInsNum s) (ps_predictDownDiff s) (ps_predictUpDiff s) (ps_minRsvInsNum s) demand
    (ps_predictScaleUpFlag s) (ps_predictScaleDownFlag s) (ps_predictUpChanFlag s) (ps_predictDownChanFlag s)
    (ps_scaleUpChan s) (ps_scaleDownChan s) (ps_scaleUpTriggerCh s) (ps_scaleDownTriggerCh s) (ps_stopCh s) (ps_registered s).
Definition ps_set_plan (insNum downDiff upDiff : Z) s : PredictScaler :=
  mkPredict (ps_funcKeyWithRes s) (ps_scaleUpWindow s) (ps_scaleDownWindow s) (ps_coldStartTime s) (ps_concurrentNum s)
    (ps_pendingInsThdNum s) (ps_inUseInsThdNum s) (ps_totalInsThdNum s) insNum downDiff upDiff (ps_minRsvInsNum s)
    (ps_minScaleDemand s) (ps_predictScaleUpFlag s) (ps_predictScaleDownFlag s) (ps_predictUpChanFlag s)
    (ps_predictDownChanFlag s) (ps_scaleUpChan s) (ps_scaleDownChan s) (ps_scaleUpTriggerCh s) (ps_scaleDownTriggerCh s)
    (ps_stopCh s) (ps_registered s).
Definition ps_set_flags (up down upChan downChan : bool) s : PredictScaler :=
  mkPredict (ps_funcKeyWithRes s) (ps_scaleUpWindow s) (ps_scaleDownWindow s) (ps_coldStartTime s) (ps_concurrentNum s)
    (ps_pendingInsThdNum s) (ps_inUseInsThdNum s) (ps_totalInsThdNum s) (ps_predictInsNum s) (ps_predictDownDiff s)
    (ps_predictUpDiff s) (ps_minRsvInsNum s) (ps_minScaleDemand s) up down upChan downChan
    (ps_scaleUpChan s) (ps_scaleDownChan s) (ps_scaleUpTriggerCh s) (ps_scaleDownTriggerCh s) (ps_stopCh s) (ps_registered s).
Definition ps_set_chans (up down upTrigger downTrigger : nat) s : PredictScaler :=
  mkPredict (ps_funcKeyWithRes s) (ps_scaleUpWindow s) (ps_scaleDownWindow s) (ps_coldStartTime s) (ps_concurrentNum s)
    (ps_pendingInsThdNum s) (ps_inUseInsThdNum s) (ps_totalInsThdNum s) (ps_predictInsNum s) (ps_predictDownDiff s)
    (ps_predictUpDiff s) (ps_minRsvInsNum s) (ps_minScaleDemand s) (ps_predictScaleUpFlag s) (ps_predictScaleDownFlag s)
    (ps_predictUpChanFlag s) (ps_predictDownChanFlag s) up down upTrigger downTrigger (ps_stopCh s) (ps_registered s).
Definition ps_set_pending (pending : Z) s : PredictScaler :=
  ps_set_threads pending (ps_inUseInsThdNum s) (ps_totalInsThdNum s) (ps_minScaleDemand s) s.

Definition NewPredictScaler (funcKeyWithRes : string) (slaQuota scaleDownTime : Z) : PredictScaler :=
  let scaleUpWindow := if slaQuota * Millisecond <? minSLATime then minSLATime else slaQuota * Millisecond in
  let scaleDownWindow := if scaleDownTime * Millisecond <? scaleUpWindow then scaleUpWindow else scaleDownTime * Millisecond in
  mkPredict funcKeyWithRes scaleUpWindow scaleDownWindow 0 0 0 0 0 0 0 0 0 0 false false false false 0 0 0 0 false false.

(** ** Operations *)

(** [None]: the send blocks with the lock held. *)
Definition ps_TriggerScale (minConcurrency : Z) s : option PredictScaler :=
  let s := if ps_minScaleDemand s <? minConcurrency
           then ps_set_threads (ps_pendingInsThdNum s) (ps_inUseInsThdNum s) (ps_totalInsThdNum s) minConcurrency s else s in
  if ps_predictScaleUpFlag s then Some s else
  match ps_scaleUpTriggerCh s with
  | O => Some (ps_set_chans (ps_scaleUpChan s) (ps_scaleDownChan s) 1 (ps_scaleDownTriggerCh s)
                 (ps_set_flags true (ps_predictScaleDownFlag s) (ps_predictUpChanFlag s) (ps_predictDownChanFlag s) s))
  | S _ => None
  end.

Definition ps_CheckScaling s : bool := ps_predictScaleUpFlag s || ps_predictScaleDownFlag s.

Definition ps_HandleInsThdUpdate (inUseInsThdDiff totalInsThdDiff : Z) s : PredictScaler :=
  let s := ps_set_threads (ps_pendingInsThdNum s) (ps_inUseInsThdNum s + inUseInsThdDiff)
             (ps_totalInsThdNum s + totalInsThdDiff) (ps_minScaleDemand s) s in
  if ps_concurrentNum s <=? ps_totalInsThdNum s - ps_inUseInsThdNum s
  then ps_set_chans (ps_scaleUpChan s) (ps_scaleDownChan s) (ps_scaleUpTriggerCh s) 1 s else s.

Definition ps_HandleFuncSpecUpdate (concurrentNum timeout : Z) (funcKeyWithRes : string) s : PredictScaler :=
  ps_set funcKeyWithRes (timeout * Second) (GetConcurrentNum concurrentNum) (ps_minRsvInsNum s) (ps_stopCh s) (ps_registered s) s.

(** The first update starts the watcher of predictions. *)
Definition ps_HandleInsConfigUpdate (minInstance : Z) s : PredictScaler :=
  ps_set (ps_funcKeyWithRes s) (ps_coldStartTime s) (ps_concurrentNum s) (Z.max minInstance 0) (ps_stopCh s) true s.

Definition ps_GetExpectInstanceNumber s : Z := (ps_totalInsThdNum s + ps_pendingInsThdNum s) /g ps_concurrentNum s.

Definition ps_Destroy s : PredictScaler :=
  ps_set (ps_funcKeyWithRes s) (ps_coldStartTime s) (ps_concurrentNum s) (ps_minRsvInsNum s) true (ps_registered s) s.

Definition ps_handlePendingInsNumIncrease (insDiff : Z) s : PredictScaler :=
  ps_set_flags (ps_predictScaleUpFlag s) (ps_predictScaleDownFlag s) (ps_predictUpChanFlag s) false
    (ps_set_pending (ps_pendingInsThdNum s + insDiff * ps_concurrentNum s) s).
Definition ps_handlePendingInsNumDecrease (insDiff : Z) s : PredictScaler :=
  ps_set_flags (ps_predictScaleUpFlag s) (ps_predictScaleDownFlag s) false (ps_predictDownChanFlag s)
    (ps_set_pending (ps_pendingInsThdNum s - insDiff * ps_concurrentNum s) s).

(** ** Predictions *)

Record PredictResult := mkPredictResult { pr_DataSetTimeWindow : list Z; pr_QPSResult : list (string * list Q) }.

(** [now] in milliseconds; [window] is the configured [PredictGroupWindow]. *)
Definition checkPredictResultValid (window now : Z) (r : PredictResult) (startTime : Z) : bool :=
  match pr_DataSetTimeWindow r with
  | [start; _] =>
      if window <? startTime /g Millisecond then false
      else if (now <? start) || (start + window - startTime /g Millisecond <? now) then false
      else true
  | _ => false
  end.

Definition filterPredictFunction (isFuncOwner : string -> bool) (r : PredictResult) : PredictResult :=
  mkPredictResult (pr_DataSetTimeWindow r) (List.filter (fun kv => isFuncOwner kv.1) (pr_QPSResult r)).

Definition Qsum (l : list Q) : Q := fold_right Qplus 0%Q l.

(** The sum of the entries from [i + 1] to [i + step - 1], over [step].  [None]
    when the loop has not ended after [fuel] rounds. *)
Fixpoint groupLoop (fuel : nat) (qps : list Q) (step : Z) (i : Z) : option (list Q) :=
  if negb (i <? Z.of_nat (length qps)) then Some [] else
  match fuel with
  | O => None
  | S fuel =>
      let totalNum := Qsum (take (Z.to_nat (step - 1)) (drop (Z.to_nat (i + 1)) qps)) in
      rest ← groupLoop fuel qps step (i + step);
      Some ((totalNum / inject_Z step)%Q :: rest)
  end.
Definition groupQPSNumByPredictWindow (fuel : nat) (qps : list Q) (predictWindow : Z) : option (list Q) :=
  if predictWindow =? 0 then Some [] else groupLoop fuel qps (predictWindow /g millisecondToMinute) 0.

Definition CalSleepTime (window now coldStartTime : Z) : Z :=
  window * Millisecond - coldStartTime - (now %g window) * Millisecond.

(** The instances the requests of a minute need. *)
Definition predicted (qps avgProcTime : Q) s : Z :=
  Qceiling (qps * avgProcTime / (inject_Z (ps_concurrentNum s) * 60 * 1000))%Q.

(** [HandlePredictUpdate] up to its send to [scaleDownChan]; the result is the
    number for the next window, and whether it sends.  [None]: not this
    scaler's prediction. *)
Definition predict_plan (funcKey : string) (groups : list Q) (avgProcTime : option Q) s : option (bool * Z * PredictScaler) :=
  match groups with
  | [q0; q1] =>
      if negb (HasPrefix (ps_funcKeyWithRes s) funcKey) then None else
      let avg := default (inject_Z DefaultReqDelay) avgProcTime in
      let predictInsNum0 := predicted q0 avg s in
      let predictInsNum1 := predicted q1 avg s in
      let currentInsNum := ps_GetExpectInstanceNumber s + ps_minRsvInsNum s in
      let s := ps_set_plan (Z.max predictInsNum0 predictInsNum1) 0 0 s in
      let predictInsNum0 := Z.max predictInsNum0 (ps_minRsvInsNum s) in
      if predictInsNum0 <? currentInsNum then
        Some (true, predictInsNum1,
              ps_set_flags (ps_predictScaleUpFlag s) (ps_predictScaleDownFlag s) (ps_predictUpChanFlag s) true
                (ps_set_plan (ps_predictInsNum s) (currentInsNum - predictInsNum0) 0 s))
      else Some (false, predictInsNum1, s)
  | _ => None
  end.

(** After the sleep, up to the send to [scaleUpChan]. *)
Definition predict_ahead (predictInsNum1 : Z) s : bool * PredictScaler :=
  let currentInsNum := ps_GetExpectInstanceNumber s + ps_minRsvInsNum s in
  if currentInsNum <? predictInsNum1
  then (true, ps_set_plan (ps_predictInsNum s) (ps_predictDownDiff s) (predictInsNum1 - currentInsNum) s) else (false, s).

(** ** How much the passive loops ask for *)

Definition getScaleUpInstancesNum (queuedDemand : Z) s : Z * PredictScaler :=
  let pendingInsThdReqNum := Z.max queuedDemand (ps_minScaleDemand s) in
  let scaleInsThdNum := Z.max (pendingInsThdReqNum - Z.max (ps_pendingInsThdNum s) 0) 0 in
  let scaleInsNum := ceilDiv scaleInsThdNum (ps_concurrentNum s) in
  (if 0 <? scaleInsNum then scaleInsNum else 0,
   ps_set_threads (ps_pendingInsThdNum s) (ps_inUseInsThdNum s) (ps_totalInsThdNum s) 0 s).

Definition getScaleDownInstancesNum (metrics : option invokeMetrics) s : Z :=
  match metrics with
  | None => 1
  | Some m =>
      if Qeq_bool (im_insThdProcNumPS m) 0 then -1 else
      let win := Seconds (ps_scaleDownWindow s) in
      let procNumExcess := (im_insThdProcNumPS m * inject_Z (ps_totalInsThdNum s - ps_inUseInsThdNum s) * win
                            - im_insThdReqNumPS m * win + inject_Z (Z.min (ps_pendingInsThdNum s) 0))%Q in
      Qceiling (procNumExcess / im_insThdProcNumPS m / win) / ps_concurrentNum s
  end.

(** [getScaleNum]: the call of the handler, if it is called; its two sections
    are taken together, the callbacks in between only move [pending]. *)
Definition getScaleNum (queuedDemand : Z) s : option Z * PredictScaler :=
  let '(scaleInsNum, s) := getScaleUpInstancesNum queuedDemand s in
  if 0 <? scaleInsNum then (Some scaleInsNum, ps_set_pending (ps_pendingInsThdNum s + scaleInsNum * ps_concurrentNum s) s)
  else (None, s).

(** What the passive scale-down removes: not below the prediction. *)
Definition down_to_prediction (scaleInsNum : Z) s : Z :=
  Z.min scaleInsNum (Z.max (ps_totalInsThdNum s /g ps_concurrentNum s + ps_minRsvInsNum s - ps_predictInsNum s) 0).

(** ** The loops *)

(** [scaleUp]: in its select, a prediction taken, a token of its own channel
    taken, a trigger taken, sleeping, blocked in a send to its own channel,
    returned. *)
Inductive pu_pc := PuSelect | PuPredict | PuTaken | PuTriggered | PuSleep | PuBlocked | PuGone.
Record pu_loop := mkPu { pu_pc_ : pu_pc; pu_chan : nat; pu_ticking : bool; pu_tick : nat }.
Implicit Types (l : pu_loop).
Inductive pu_choice := PuTakePredict | PuTakeScaleUp | PuTakeTrigger | PuTakeTick | PuTakeStop.

Definition pu_send (ticking : bool) (tick : nat) l : pu_loop :=
  match pu_chan l with
  | O => mkPu PuSelect 1 ticking tick
  | S _ => mkPu PuBlocked (pu_chan l) (pu_ticking l) tick
  end.

Definition stopScale s l : PredictScaler * pu_loop :=
  (ps_set_flags false (ps_predictScaleDownFlag s) (ps_predictUpChanFlag s) (ps_predictDownChanFlag s) s,
   mkPu PuSelect (pu_chan l) false 0).

(** The step, with the instances it asks the queue to create. *)
Definition ps_scaleUp (choice : pu_choice) (reqNum : Z) s l : option Z * (PredictScaler * pu_loop) :=
  let goto pc := mkPu pc (pu_chan l) (pu_ticking l) (pu_tick l) in
  match pu_pc_ l with
  | PuSelect =>
      match choice with
      | PuTakePredict =>
          match ps_scaleUpChan s with
          | O => (None, (s, l))
          | S n => (None, (ps_set_chans n (ps_scaleDownChan s) (ps_scaleUpTriggerCh s) (ps_scaleDownTriggerCh s) s, goto PuPredict))
          end
      | PuTakeScaleUp =>
          match pu_chan l with O => (None, (s, l)) | S n => (None, (s, mkPu PuTaken n (pu_ticking l) (pu_tick l))) end
      | PuTakeTrigger =>
          match ps_scaleUpTriggerCh s with
          | O => (None, (s, l))
          | S n => (None, (ps_set_chans (ps_scaleUpChan s) (ps_scaleDownChan s) n (ps_scaleDownTriggerCh s) s, goto PuTriggered))
          end
      | PuTakeTick => match pu_tick l with O => (None, (s, l)) | S n => (None, (s, pu_send (pu_ticking l) n l)) end
      | PuTakeStop => (None, (s, if ps_stopCh s then goto PuGone else l))
      end
  | PuPredict =>
      (Some (ps_predictUpDiff s),
       (ps_set_pending (ps_pendingInsThdNum s + ps_predictUpDiff s * ps_concurrentNum s) s, goto PuSelect))
  | PuTaken =>
      if (reqNum =? 0) && (ps_minScaleDemand s =? 0) then (None, stopScale s l)
      else let '(call, s) := getScaleNum reqNum s in (call, (s, goto PuSelect))
  | PuTriggered =>
      let hasExternalDemand := 0 <? ps_minScaleDemand s in
      if (longColdStartTime <? ps_coldStartTime s) && negb hasExternalDemand then (None, (s, goto PuSelect))
      else if (ps_predictUpChanFlag s || ps_predictDownChanFlag s) && negb hasExternalDemand then (None, (s, goto PuSelect))
      else (None, (s, goto PuSleep))
  | PuSleep => (None, (s, pu_send true 0 l))
  | PuBlocked | PuGone => (None, (s, l))
  end.

(** [scaleDown]: in its select, a prediction taken, the timer fired, a trigger
    taken, returned. *)
Inductive pd_pc := PdSelect | PdPredict | PdTimer | PdTriggered | PdGone.
Record pd_loop := mkPd { pd_pc_ : pd_pc; pd_armed : bool; pd_fired : nat }.
Inductive pd_choice := PdTakePredict | PdTakeTimer | PdTakeTrigger | PdTakeStop.

Definition ps_scaleDown (choice : pd_choice) (metrics : option invokeMetrics) s (d : pd_loop)
    : option Z * (PredictScaler * pd_loop) :=
  let goto pc := mkPd pc (pd_armed d) (pd_fired d) in
  let flag b s := ps_set_flags (ps_predictScaleUpFlag s) b (ps_predictUpChanFlag s) (ps_predictDownChanFlag s) s in
  match pd_pc_ d with
  | PdSelect =>
      match choice with
      | PdTakePredict =>
          match ps_scaleDownChan s with
          | O => (None, (s, d))
          | S n => (None, (ps_set_chans (ps_scaleUpChan s) n (ps_scaleUpTriggerCh s) (ps_scaleDownTriggerCh s) s, goto PdPredict))
          end
      | PdTakeTimer =>
          match pd_fired d with O => (None, (s, d)) | S n => (None, (s, mkPd PdTimer (pd_armed d) n)) end
      | PdTakeTrigger =>
          match ps_scaleDownTriggerCh s with
          | O => (None, (s, d))
          | S n => (None, (ps_set_chans (ps_scaleUpChan s) (ps_scaleDownChan s) (ps_scaleUpTriggerCh s) n s, goto PdTriggered))
          end
      | PdTakeStop => (None, (s, if ps_stopCh s then goto PdGone else d))
      end
  | PdPredict =>
      (Some (ps_predictDownDiff s),
       (ps_set_pending (ps_pendingInsThdNum s - ps_predictDownDiff s * ps_concurrentNum s) s, goto PdSelect))
  | PdTimer =>
      let scaleInsNum := getScaleDownInstancesNum metrics s in
      if 0 <? scaleInsNum then
        let n := down_to_prediction scaleInsNum s in
        (Some n, (flag false (ps_set_pending (ps_pendingInsThdNum s - n * ps_concurrentNum s) s), mkPd PdSelect false 0))
      else (None, (flag false s, mkPd PdSelect false 0))
  | PdTriggered =>
      if longColdStartTime <? ps_coldStartTime s then (None, (s, goto PdSelect))
      else if ps_predictUpChanFlag s || ps_predictDownChanFlag s then (None, (s, goto PdSelect))
      else (None, (flag true s, mkPd PdSelect true 0))
  | PdGone => (None, (s, d))
  end.

(** ** The scaler with its loops and its watcher *)

(** The watcher: the predictions of an event it still has to handle, and where
    it is in one: sending to [scaleDownChan], px_asleep, sending to [scaleUpChan]. *)
Inductive pw_pc := PwNext | PwSendDown (next : Z) | PwSleep (next : Z) | PwSendUp.
Record predictor := mkPredictor {
  px_scaler : PredictScaler;
  px_up : pu_loop;
  px_down : pd_loop;
  px_watch : pw_pc;
  px_jobs : list (string * list Q)
}.
Implicit Types (x : predictor).

Section Predictor.
Context (decode : string -> option PredictResult) (isFuncOwner : string -> bool) (window : Z).

(** [watcherHandler] of an event that puts a value: the predictions it goes
    through; it panics where it logs the bounds of a window that has none, and
    the grouping may not end. *)
Inductive watched := Jobs (jobs : list (string * list Q)) | WatchPanic | WatchLoops.
Definition watcherHandler (fuel : nat) (value : string) (now : Z) s : watched :=
  match (if String.eqb value "" then None else decode value) with
  | None => Jobs []
  | Some r =>
      if negb (checkPredictResultValid window now r (ps_coldStartTime s)) then
        (if (length (pr_DataSetTimeWindow r) <? 2)%nat then WatchPanic else Jobs [])
      else
        match mapM (fun kv => groups ← groupQPSNumByPredictWindow fuel kv.2 window; Some (kv.1, groups))
                (pr_QPSResult (filterPredictFunction isFuncOwner r)) with
        | Some jobs => Jobs jobs
        | None => WatchLoops
        end
  end.

(** [HandlePredictUpdate], a step of the watcher. *)
Definition HandlePredictUpdate (avgProcTime : option Q) x : predictor :=
  let s := px_scaler x in
  let set s pc jobs := mkPredictor s (px_up x) (px_down x) pc jobs in
  match px_watch x with
  | PwNext =>
      match px_jobs x with
      | [] => x
      | (funcKey, groups) :: jobs =>
          match predict_plan funcKey groups avgProcTime s with
          | None => set s PwNext jobs
          | Some (true, next, s) => set s (PwSendDown next) jobs
          | Some (false, next, s) => set s (PwSleep next) jobs
          end
      end
  | PwSendDown next =>
      match ps_scaleDownChan s with
      | O => set (ps_set_chans (ps_scaleUpChan s) 1 (ps_scaleUpTriggerCh s) (ps_scaleDownTriggerCh s) s) (PwSleep next) (px_jobs x)
      | S _ => x
      end
  | PwSleep next =>
      match predict_ahead next s with
      | (true, s) => set s PwSendUp (px_jobs x)
      | (false, s) => set s PwNext (px_jobs x)
      end
  | PwSendUp =>
      match ps_scaleUpChan s with
      | O => set (ps_set_chans 1 (ps_scaleDownChan s) (ps_scaleUpTriggerCh s) (ps_scaleDownTriggerCh s) s) PwNext (px_jobs x)
      | S _ => x
      end
  end.

Inductive px_event :=
| PxTrigger (minConcurrency : Z)
| PxThreads (inUseDiff totalDiff : Z)
| PxSpec (concurrentNum timeout : Z) (funcKeyWithRes : string)
| PxConfig (minInstance : Z)
| PxDestroy
| PxCreated (insDiff : Z)
| PxRemoved (insDiff : Z)
| PxPut (fuel : nat) (value : string) (now : Z)
| PxWatch (avgProcTime : option Q)
| PxUp (choice : pu_choice) (reqNum : Z)
| PxDown (choice : pd_choice) (metrics : option invokeMetrics)
| PxTick
| PxTimer.

Inductive px_call := PxNone | PxScaleUp (n : Z) | PxScaleDown (n : Z).

(** [None]: [TriggerScale] blocks with the lock held, or the watcher panics or
    does not end.  The watcher takes the next event when it has handled the last. *)
Definition px_step x (ev : px_event) : option (px_call * predictor) :=
  let s := px_scaler x in
  let set s := Some (PxNone, mkPredictor s (px_up x) (px_down x) (px_watch x) (px_jobs x)) in
  match ev with
  | PxTrigger k => ps_TriggerScale k s ≫= set
  | PxThreads i t => set (ps_HandleInsThdUpdate i t s)
  | PxSpec c t k => set (ps_HandleFuncSpecUpdate c t k s)
  | PxConfig n => set (ps_HandleInsConfigUpdate n s)
  | PxDestroy => set (ps_Destroy s)
  | PxCreated n => set (ps_handlePendingInsNumDecrease n s)
  | PxRemoved n => set (ps_handlePendingInsNumIncrease n s)
  | PxPut fuel value now =>
      match px_watch x, px_jobs x with
      | PwNext, [] =>
          if negb (ps_registered s) then Some (PxNone, x) else
          match watcherHandler fuel value now s with
          | Jobs jobs => Some (PxNone, mkPredictor s (px_up x) (px_down x) PwNext jobs)
          | WatchPanic | WatchLoops => None
          end
      | _, _ => Some (PxNone, x)
      end
  | PxWatch avg => Some (PxNone, HandlePredictUpdate avg x)
  | PxUp c r => let '(call, (s, l)) := ps_scaleUp c r s (px_up x) in
                Some (match call with Some n => PxScaleUp n | None => PxNone end,
                      mkPredictor s l (px_down x) (px_watch x) (px_jobs x))
  | PxDown c m => let '(call, (s, d)) := ps_scaleDown c m s (px_down x) in
                  Some (match call with Some n => PxScaleDown n | None => PxNone end,
                        mkPredictor s (px_up x) d (px_watch x) (px_jobs x))
  | PxTick => let l := px_up x in
              Some (PxNone, mkPredictor s (if pu_ticking l then mkPu (pu_pc_ l) (pu_chan l) true 1 else l)
                              (px_down x) (px_watch x) (px_jobs x))
  | PxTimer => let d := px_down x in
               Some (PxNone, mkPredictor s (px_up x) (if pd_armed d then mkPd (pd_pc_ d) false 1 else d)
                               (px_watch x) (px_jobs x))
  end.
Fixpoint px_run x (evs : list px_event) : option (list px_call * predictor) :=
  match evs with
  | [] => Some ([], x)
  | ev :: evs => '(c, x) ← px_step x ev; '(cs, x) ← px_run x evs; Some (c :: cs, x)
  end.

Definition px_new (funcKeyWithRes : string) (slaQuota scaleDownTime concurrentNum timeout : Z) : predictor :=
  mkPredictor (ps_HandleFuncSpecUpdate concurrentNum timeout funcKeyWithRes (NewPredictScaler funcKeyWithRes slaQuota scaleDownTime))
    (mkPu PuSelect 0 false 0) (mkPd PdSelect false 0) PwNext [].

(** ** A trigger that is ignored *)

(** The passive loop is off: the flag says that it runs, nothing wakes it. *)
Record px_asleep x : Prop := {
  sl_flag : ps_predictScaleUpFlag (px_scaler x) = true;
  sl_trigger : ps_scaleUpTriggerCh (px_scaler x) = 0%nat;
  sl_chan : pu_chan (px_up x) = 0%nat;
  sl_ticks : pu_ticking (px_up x) = false /\ pu_tick (px_up x) = 0%nat;
  sl_pc : pu_pc_ (px_up x) = PuSelect \/ pu_pc_ (px_up x) = PuPredict \/ pu_pc_ (px_up x) = PuGone
}.

Lemma HandlePredictUpdate_frame avg x :
  px_up (HandlePredictUpdate avg x) = px_up x /\
  ps_predictScaleUpFlag (px_scaler (HandlePredictUpdate avg x)) = ps_predictScaleUpFlag (px_scaler x) /\
  ps_scaleUpTriggerCh (px_scaler (HandlePredictUpdate avg x)) = ps_scaleUpTriggerCh (px_scaler x).
Proof.
  unfold HandlePredictUpdate. destruct (px_watch x) as [|n|n|].
  - destruct (px_jobs x) as [|[k g] jobs]; [done|]. unfold predict_plan.
    destruct g as [|q0 [|q1 [|]]]; try done. destruct (negb _); [done|]. by destruct (_ <? _).
  - by destruct (ps_scaleDownChan _).
  - unfold predict_ahead. by destruct (_ <? _).
  - by destruct (ps_scaleUpChan _).
Qed.

(** Once it is off it stays off, and only predictions create instances. *)
Lemma px_asleep_step x ev c x' :
  px_asleep x -> px_step x ev = Some (c, x') ->
  px_asleep x' /\ (forall n, c = PxScaleUp n -> pu_pc_ (px_up x) = PuPredict /\ n = ps_predictUpDiff (px_scaler x)).
Proof.
  intros [H1 H2 H3 [H4 H4'] H5] Hs. destruct ev; cbn [px_step] in Hs; try (injection Hs as <- <-; by split).
  - unfold ps_TriggerScale in Hs. destruct (_ <? _); cbn [ps_predictScaleUpFlag ps_set_threads] in Hs; rewrite H1 in Hs;
      injection Hs as <- <-; by split.
  - injection Hs as <- <-. split; [|done]. unfold ps_HandleInsThdUpdate. destruct (_ <=? _); by split.
  - destruct (px_watch x), (px_jobs x); try (injection Hs as <- <-; by split).
    destruct (negb _); [injection Hs as <- <-; by split|].
    destruct (watcherHandler _ _ _ _); [|done..]. injection Hs as <- <-. by split.
  - injection Hs as <- <-. split; [|done]. destruct (HandlePredictUpdate_frame avgProcTime x) as (F1 & F2 & F3).
    split; rewrite ?F1, ?F2, ?F3; done.
  - unfold ps_scaleUp in Hs. destruct H5 as [H5|[H5|H5]]; rewrite H5 in Hs.
    + destruct choice; [destruct (ps_scaleUpChan _)|rewrite H3 in Hs|rewrite H2 in Hs|rewrite H4' in Hs|];
        injection Hs as <- <-; try (split; [split; by auto|done]).
      split; [|done]. destruct (ps_stopCh _); split; by auto.
    + injection Hs as <- <-. split; [split; try done; by left|]. intros n [= <-]. done.
    + injection Hs as <- <-. split; [|done]. split; try done. by right; right.
  - destruct (ps_scaleDown _ _ _ _) as [call [s' d']] eqn:E. injection Hs as <- <-. split; [|by destruct call].
    assert (F : ps_predictScaleUpFlag s' = ps_predictScaleUpFlag (px_scaler x) /\
                ps_scaleUpTriggerCh s' = ps_scaleUpTriggerCh (px_scaler x)).
    { unfold ps_scaleDown in E. repeat case_match; simplify_eq/=; done. }
    destruct F as [F1 F2]. split; simpl; rewrite ?F1, ?F2; done.
  - injection Hs as <- <-. split; [|done]. split; simpl; rewrite ?H4; done.
Qed.

Lemma px_asleep_run evs : forall x cs x', px_asleep x -> px_run x evs = Some (cs, x') -> px_asleep x'.
Proof.
  induction evs as [|ev evs IH]; intros x cs x' Hx Hr; cbn [px_run] in Hr; [by injection Hr as <- <-|].
  destruct (px_step x ev) as [[c y]|] eqn:E; [|done]. cbn in Hr.
  destruct (px_run y evs) as [[cs' y']|] eqn:E'; [|done]. injection Hr as <- <-.
  apply (IH y cs' y'); [|done]. by eapply px_asleep_step.
Qed.

Lemma px_run_app evs1 evs2 x :
  px_run x (evs1 ++ evs2) =
  ('(cs1, y) ← px_run x evs1; '(cs2, z) ← px_run y evs2; Some (cs1 ++ cs2, z)).
Proof.
  revert x. induction evs1 as [|ev evs1 IH]; intros x; cbn.
  - by destruct (px_run x evs2) as [[]|].
  - destruct (px_step x ev) as [[c y]|]; [cbn|done]. rewrite IH. destruct (px_run y evs1) as [[cs1 z]|]; [cbn|done].
    by destruct (px_run z evs2) as [[]|].
Qed.

Lemma trigger_ignored key slaQuota scaleDownTime concurrentNum timeout reqNum choice reqNum' :
  longColdStartTime < timeout * Second ->
  exists y, px_run (px_new key slaQuota scaleDownTime concurrentNum timeout)
              [PxTrigger 0; PxUp PuTakeTrigger reqNum; PxUp choice reqNum'] = Some ([PxNone; PxNone; PxNone], y) /\ px_asleep y.
Proof.
  intros Hc%Z.ltb_lt. unfold px_new, NewPredictScaler. set (up := if _ <? minSLATime then _ else _).
  set (down := if _ <? up then _ else _). cbn [ps_HandleFuncSpecUpdate]. unfold ps_HandleFuncSpecUpdate, ps_set. cbn [ps_scaleUpWindow].
  set (cold := timeout * Second) in *. set (c := GetConcurrentNum concurrentNum).
  cbn [px_run px_step]. unfold ps_TriggerScale at 1. cbn -[Z.ltb ps_scaleUp]. change (0 <? 0) with false.
  cbn -[Z.ltb ps_scaleUp]. unfold ps_scaleUp. cbn -[Z.ltb]. rewrite Hc. eexists. split; [reflexivity|]. by split; auto.
Qed.

(** C37: a signal of the queue that the passive loop ignores turns that loop off
    for good.  A function with a long cold start ignores the first signal with
    the flag left set: after it, whatever happens (demands of any size by
    [TriggerScale] included), the loop never asks for an instance again; every
    instance created is one that a prediction asked for. *)
Theorem ignored_trigger key slaQuota scaleDownTime concurrentNum timeout reqNum choice reqNum' evs cs x ev n x' :
  longColdStartTime < timeout * Second ->
  px_run (px_new key slaQuota scaleDownTime concurrentNum timeout)
    (PxTrigger 0 :: PxUp PuTakeTrigger reqNum :: PxUp choice reqNum' :: evs) = Some (cs, x) ->
  px_step x ev = Some (PxScaleUp n, x') ->
  pu_pc_ (px_up x) = PuPredict /\ n = ps_predictUpDiff (px_scaler x).
Proof.
  intros Hc Hr Hs. destruct (trigger_ignored key slaQuota scaleDownTime concurrentNum timeout reqNum choice reqNum' Hc) as (y & Hy & Ha).
  rewrite (px_run_app [PxTrigger 0; PxUp PuTakeTrigger reqNum; PxUp choice reqNum'] evs), Hy in Hr.
  cbn in Hr. destruct (px_run y evs) as [[cs' z]|] eqn:E; [|done]. injection Hr as <- <-.
  apply px_asleep_run in E; [|done]. eapply px_asleep_step in Hs as [_ Hn]; [by apply Hn|done].
Qed.
End Predictor.

(** A signal ignored, a demand of 100 threads that stays unserved, a prediction
    of five instances that are created. *)
Definition eight_minutes : string -> option PredictResult :=
  fun _ => Some (mkPredictResult [0; 480000] [("f", [0; 0; 0; 0; 0; 400; 0; 0]%Q)]).
Lemma ignored_trigger_witness :
  exists cs x x',
    let step := px_step eight_minutes (fun _ => true) 240000 in
    px_run eight_minutes (fun _ => true) 240000 (px_new "f" 1000 1000 1 200)
      [PxTrigger 0; PxUp PuTakeTrigger 1; PxUp PuTakeTrigger 1; PxTrigger 100; PxConfig 0; PxPut 3 "v" 0;
       PxWatch None; PxWatch None; PxWatch None; PxUp PuTakePredict 1] = Some (cs, x) /\
    ps_minScaleDemand (px_scaler x) = 100 /\
    step x (PxUp PuTakePredict 1) = Some (PxScaleUp 5, x') /\
    pu_pc_ (px_up x) = PuPredict /\ 5 = ps_predictUpDiff (px_scaler x).
Proof.
  eexists _, _, _. cbn zeta. split; [vm_compute; reflexivity|]. split; [reflexivity|]. split; [vm_compute; reflexivity|].
  eapply (ignored_trigger eight_minutes (fun _ => true) 240000 "f" 1000 1000 1 200 1 PuTakeTrigger 1
            [PxTrigger 100; PxConfig 0; PxPut 3 "v" 0; PxWatch None; PxWatch None; PxWatch None; PxUp PuTakePredict 1] _ _
            (PxUp PuTakePredict 1)); [vm_compute; reflexivity|vm_compute; reflexivity|vm_compute; reflexivity].
Defined.

(** ** What the loops ask for *)

(** A scaler that asks for instances asks for what the demand needs beyond what
    is on its way, in whole instances. *)
Lemma getScaleNum_fits reqNum s n s' :
  0 < ps_concurrentNum s ->
  getScaleNum reqNum s = (Some n, s') ->
  let demand := Z.max reqNum (ps_minScaleDemand s) in
  ps_pendingInsThdNum s' = ps_pendingInsThdNum s + n * ps_concurrentNum s /\ ps_minScaleDemand s' = 0 /\
  demand <= Z.max (ps_pendingInsThdNum s) 0 + n * ps_concurrentNum s < demand + ps_concurrentNum s.
Proof.
  intros Hc Hs demand. unfold getScaleNum, getScaleUpInstancesNum in Hs. fold demand in Hs.
  pose proof (ceilDiv_bounds (Z.max (demand - Z.max (ps_pendingInsThdNum s) 0) 0) (ps_concurrentNum s) Hc) as Hb.
  set (k := ceilDiv _ _) in *. destruct (0 <? k) eqn:E; [rewrite E in Hs|done].
  apply Z.ltb_lt in E. injection Hs as <- <-. cbn. split; [done|]. split; [done|]. nia.
Qed.

(** The passive scale-down leaves what the prediction asks for. *)
Lemma down_to_prediction_floor k s :
  0 < k ->
  let current := ps_totalInsThdNum s /g ps_concurrentNum s + ps_minRsvInsNum s in
  0 <= down_to_prediction k s <= k /\
  (Z.min current (ps_predictInsNum s) <= current - down_to_prediction k s).
Proof. intros Hk current. unfold down_to_prediction. fold current. lia. Qed.

(** ** Grouping *)

Lemma groupLoop_length fuel : forall qps step i groups,
  0 < step -> 0 <= i -> groupLoop fuel qps step i = Some groups ->
  Z.of_nat (length groups) = Z.max 0 (ceilDiv (Z.of_nat (length qps) - i) step).
Proof.
  induction fuel as [|fuel IH]; intros qps step i groups Hs Hi Hg; cbn [groupLoop] in Hg;
    pose proof (ceilDiv_bounds (Z.of_nat (length qps) - i) step Hs);
    destruct (Z.ltb_spec i (Z.of_nat (length qps))) as [Hlt|Hge]; cbn [negb] in Hg; try done;
    try (injection Hg as <-; cbn; nia).
  destruct (groupLoop fuel qps step (i + step)) as [rest|] eqn:E; [|done]. injection Hg as <-. cbn [length].
  apply IH in E; [|lia..]. pose proof (ceilDiv_bounds (Z.of_nat (length qps) - (i + step)) step Hs). nia.
Qed.
Lemma groupLoop_ends fuel : forall qps step i,
  0 < step -> Z.of_nat (length qps) - i <= Z.of_nat fuel -> is_Some (groupLoop fuel qps step i).
Proof.
  induction fuel as [|fuel IH]; intros qps step i Hs Hf; cbn [groupLoop];
    destruct (Z.ltb_spec i (Z.of_nat (length qps))); cbn [negb]; try done; try lia.
  destruct (IH qps step (i + step) Hs ltac:(lia)) as [rest ->]. done.
Qed.
Lemma groupLoop_stuck fuel : forall qps i, i < Z.of_nat (length qps) -> groupLoop fuel qps 0 i = None.
Proof.
  induction fuel as [|fuel IH]; intros qps i Hi; cbn [groupLoop]; rewrite (proj2 (Z.ltb_lt _ _) Hi); cbn [negb]; [done|].
  by rewrite IH by lia.
Qed.

(** A window of a minute or more gives one group for every window the
    predictions begin; with a shorter one the loop does not end. *)
Theorem grouping_ends qps window :
  (forall fuel, 60000 <= window -> (length qps <= fuel)%nat ->
    exists groups, groupQPSNumByPredictWindow fuel qps window = Some groups /\
                   Z.of_nat (length groups) = ceilDiv (Z.of_nat (length qps)) (window / 60000)) /\
  (forall fuel, 0 < window < 60000 -> qps <> [] -> groupQPSNumByPredictWindow fuel qps window = None).
Proof.
  unfold groupQPSNumByPredictWindow. split; intros fuel Hw Hf; rewrite (proj2 (Z.eqb_neq window 0)) by lia;
    rewrite go_quot_nonneg by lia; change (60 * 1000) with 60000.
  - assert (Hs : 0 < window / 60000) by (apply Z.div_str_pos; lia).
    destruct (groupLoop_ends fuel qps (window / 60000) 0 Hs ltac:(lia)) as [groups E]. exists groups. split; [done|].
    rewrite (groupLoop_length _ _ _ 0 _ Hs (Z.le_refl 0) E), Z.sub_0_r.
    pose proof (ceilDiv_bounds (Z.of_nat (length qps)) (window / 60000) Hs). nia.
  - rewrite Z.div_small by lia. apply groupLoop_stuck. destruct qps; [done|cbn; lia].
Qed.

(** ** The prediction is met *)




(** A value without a time window stops the process: the line that reports it
    reads the bounds it does not have. *)
Example watcher_panics isFuncOwner window fuel now s :
  watcherHandler (fun _ => Some (mkPredictResult [] [])) isFuncOwner window fuel "v" now s = WatchPanic.
Proof. reflexivity. Qed.

(** The prediction of version 1 is taken by the scaler of version 10. *)
Example prediction_of_another_version :
  let s := px_scaler (px_new "tenant/f/10-cpu" 1000 1000 1 200) in
  exists next s', predict_plan "tenant/f/1" [0; 100]%Q None s = Some (false, next, s') /\ ps_predictInsNum s' = 5.
Proof. eexists _, _. split; vm_compute; reflexivity. Qed.
