(* ===== verification/StateLease.v ===== *)
(** * Leases on the instance of a state

    [Leaser] (pkg/functionscaler/stateinstance/lease.go): the instance of a state
    has a number of leases, each with a timer that releases it; without a lease
    a timer runs that gives the instance up.  Timers are [time.AfterFunc]: an
    armed one fires at a moment the outside chooses, which starts a goroutine
    that runs the callback when it gets the lock; stopping a timer that has
    fired does nothing. *)
From S2P Require Import Prelude SchedErrors.

Inductive lease_cb := CbRelease (id : Z) | CbScaleDown.

(** [le_Leases] holds the timer of every lease; [le_armed] the timers that run,
    [le_fired] those whose goroutine has not run yet, [le_done] the others that
    have fired. *)
Record Leaser := mkLeaser {
  le_Leases : gmap Z nat;
  le_nextID : Z;
  le_maxLeases : Z;
  le_timer : option nat;
  le_armed : gmap nat lease_cb;
  le_fired : gmap nat lease_cb;
  le_done : gset nat;
  le_nextTimer : nat
}.
Implicit Types (l : Leaser) (id : Z) (t : nat).

Definition NewLeaser (maxLeases : Z) : Leaser := mkLeaser ∅ 0 maxLeases None ∅ ∅ ∅ 0.

Definition AfterFunc (cb : lease_cb) l : nat * Leaser :=
  (le_nextTimer l,
   mkLeaser (le_Leases l) (le_nextID l) (le_maxLeases l) (le_timer l) (<[le_nextTimer l := cb]> (le_armed l)) (le_fired l)
     (le_done l) (S (le_nextTimer l))).
Definition timer_Stop t l : Leaser :=
  mkLeaser (le_Leases l) (le_nextID l) (le_maxLeases l) (le_timer l) (delete t (le_armed l)) (le_fired l) (le_done l)
    (le_nextTimer l).
Definition stop_idle l : Leaser := match le_timer l with Some t => timer_Stop t l | None => l end.
Definition set_idle (timer : option nat) l : Leaser :=
  mkLeaser (le_Leases l) (le_nextID l) (le_maxLeases l) timer (le_armed l) (le_fired l) (le_done l) (le_nextTimer l).
Definition set_leases (m : gmap Z nat) (next : Z) l : Leaser :=
  mkLeaser m next (le_maxLeases l) (le_timer l) (le_armed l) (le_fired l) (le_done l) (le_nextTimer l).
Definition arm_idle l : Leaser := let '(t, l) := AfterFunc CbScaleDown (stop_idle l) in set_idle (Some t) l.

Definition Leaser_Recover l : Leaser := arm_idle l.
Definition Terminate l : Leaser := set_idle None (stop_idle l).

Definition AcquireLease l : (Z + goError) * Leaser :=
  if le_maxLeases l <=? Z.of_nat (size (le_Leases l)) then (inr (SNError 4025 "maximum number of leases reached"), l) else
  let id := le_nextID l in
  let '(t, l) := AfterFunc (CbRelease id) l in
  (inl id, set_idle None (stop_idle (set_leases (<[id := t]> (le_Leases l)) (id + 1) l))).

Definition ReleaseLease id l : Leaser :=
  let l := match le_Leases l !! id with
           | Some t => set_leases (delete id (le_Leases l)) (le_nextID l) (timer_Stop t l)
           | None => l
           end in
  if decide (le_Leases l = ∅) then arm_idle l else l.

Definition RetainLease id l : bool * Leaser :=
  match le_Leases l !! id with
  | None => (false, l)
  | Some t =>
      let '(t', l) := AfterFunc (CbRelease id) (timer_Stop t l) in
      (true, set_leases (<[id := t']> (le_Leases l)) (le_nextID l) l)
  end.

(** A timer fires; its goroutine gets the lock, or calls
    [deleteStateInstance] (the second result). *)
Definition timer_fires t l : Leaser :=
  match le_armed l !! t with
  | Some cb => mkLeaser (le_Leases l) (le_nextID l) (le_maxLeases l) (le_timer l) (delete t (le_armed l))
                 (<[t := cb]> (le_fired l)) (le_done l) (le_nextTimer l)
  | None => l
  end.
Definition unfire t l : Leaser :=
  mkLeaser (le_Leases l) (le_nextID l) (le_maxLeases l) (le_timer l) (le_armed l) (delete t (le_fired l))
    ({[t]} ∪ le_done l) (le_nextTimer l).
Definition callback_runs t l : Leaser * bool :=
  match le_fired l !! t with
  | None => (l, false)
  | Some (CbRelease id) => (ReleaseLease id (unfire t l), false)
  | Some CbScaleDown => (unfire t l, true)
  end.

Inductive lease_event := LvAcquire | LvRelease id | LvRetain id | LvFire t | LvRun t | LvTerminate.
Definition lease_step l (ev : lease_event) : Leaser :=
  match ev with
  | LvAcquire => (AcquireLease l).2
  | LvRelease id => ReleaseLease id l
  | LvRetain id => (RetainLease id l).2
  | LvFire t => timer_fires t l
  | LvRun t => (callback_runs t l).1
  | LvTerminate => Terminate l
  end.
Definition lease_run (evs : list lease_event) l : Leaser := fold_left lease_step evs l.

(** ** The invariant *)



















(** A lease that is granted after the timer has fired is a lease on an instance
    that is given up all the same. *)
Theorem late_lease_on_given_up_instance :
  let l := lease_run [LvAcquire; LvRelease 0; LvFire 1] (NewLeaser 1) in
  let '(r, l') := AcquireLease l in
  r = inl 1 /\ callback_runs 1 l' = (unfire 1 l', true) /\ le_Leases (callback_runs 1 l').1 = {[1 := 2%nat]}.
Proof. by vm_compute. Qed.
(** Retaining a lease whose timer has fired succeeds, and it is released. *)
Theorem late_retain_is_released :
  let l := lease_run [LvAcquire; LvFire 0] (NewLeaser 1) in
  (RetainLease 0 l).1 = true /\ le_Leases (callback_runs 0 (RetainLease 0 l).2).1 = ∅.
Proof. by vm_compute. Qed.
