(* ===== verification/StateRoute.v ===== *)
(** * The instances of states

    [StateRoute] (pkg/functionscaler/instancepool/stateroute.go) gives every
    state of a stateful function an instance of its own and leases it
    ([StateLease]); what it knows is written to etcd through a queue
    (pkg/functionscaler/state/state.go) and read back at a start
    (instancepool/poolmanager.go).

    A lock per state serialises acquiring and deleting; the events of instances
    take the route's lock only.  A goroutine is cut at every lock it takes and at
    every call of the outside, and may be overtaken there.  The objects in the
    route are shared, so they are addresses; locks and leasers are too. *)
From Stdlib Require Import Ascii.
From S2P Require Import Prelude GoStrings SchedErrors StateLease.
#[local] Open Scope string_scope.
#[local] Open Scope list_scope.
#[local] Open Scope Z_scope.

Notation InstanceExit := 2 (only parsing).
Notation InstanceAbnormal := 1 (only parsing).
Notation InstanceOk := 0 (only parsing).
Notation InstanceTypeState := "state"%string (only parsing).
Notation StatusExited := (-1) (only parsing).
Notation StatusRunning := 3 (only parsing).
Notation StatusFatal := 6 (only parsing).
Notation defaultHandlerQueueSize := 2000%nat (only parsing).

Record stInstance := mkStIns {
  sn_InstanceID : string; sn_FuncKey : string; sn_FuncSig : string; sn_InstanceType : string; sn_Code : Z
}.
Record StateInstance := mkStateIns { si_StateID : string; si_status : Z; si_instance : option stInstance }.

(** [InstancePoolStateInput], as it is queued with its tag. *)
Record stateInput := mkInput {
  ip_StateID : string; ip_FuncKey : string; ip_FuncSig : string; ip_InstanceType : string; ip_InstanceID : string;
  ip_StatusCode : Z
}.
Inductive stateTag := StateUpdate | StateDelete.

Record StateRoute := mkRoute {
  sr_heap : gmap nat StateInstance;
  sr_stateRoute : gmap string nat;
  sr_stateLocks : gmap string nat;
  sr_held : gset nat;
  sr_stateLeaseManager : gmap string nat;
  sr_leasers : gmap nat (string * string * Leaser);
  sr_queue : list (stateInput * stateTag);
  sr_next : nat
}.
Implicit Types (r : StateRoute) (p k : nat).

Definition set_route heap route locks next r : StateRoute :=
  mkRoute heap route locks (sr_held r) (sr_stateLeaseManager r) (sr_leasers r) (sr_queue r) next.
Definition set_held held r : StateRoute :=
  mkRoute (sr_heap r) (sr_stateRoute r) (sr_stateLocks r) held (sr_stateLeaseManager r) (sr_leasers r) (sr_queue r) (sr_next r).
Definition set_leasers mgr leasers next r : StateRoute :=
  mkRoute (sr_heap r) (sr_stateRoute r) (sr_stateLocks r) (sr_held r) mgr leasers (sr_queue r) next.
Definition set_queue q r : StateRoute :=
  mkRoute (sr_heap r) (sr_stateRoute r) (sr_stateLocks r) (sr_held r) (sr_stateLeaseManager r) (sr_leasers r) q (sr_next r).

(** [state.Update]: a full queue drops what is pushed. *)
Definition state_Update (i : stateInput) (tag : stateTag) r : StateRoute :=
  if (length (sr_queue r) <? defaultHandlerQueueSize)%nat then set_queue (sr_queue r ++ [(i, tag)]) r else r.

Definition getStateInstance (stateID : string) r : option nat := sr_stateRoute r !! stateID.
Definition setStateInstance (stateID : string) p r : StateRoute :=
  set_route (sr_heap r) (<[stateID := p]> (sr_stateRoute r)) (sr_stateLocks r) (sr_next r) r.
Definition deleteStateInstance (stateID : string) r : StateRoute :=
  set_route (sr_heap r) (delete stateID (sr_stateRoute r)) (sr_stateLocks r) (sr_next r) r.

Inductive opType := stateUpdate | stateDelete | stateInstanceDelete.

Definition input_of (o : StateInstance) (stateID : string) : stateInput :=
  match si_instance o with
  | Some i => mkInput stateID (sn_FuncKey i) (sn_FuncSig i) (sn_InstanceType i) (sn_InstanceID i) (sn_Code i)
  | None => mkInput stateID "" "" "" "" 0
  end.
Definition input_exited (i : stateInput) : stateInput :=
  mkInput (ip_StateID i) (ip_FuncKey i) (ip_FuncSig i) (ip_InstanceType i) (ip_InstanceID i) StatusExited.

(** [consistent]: the life cycle of the function's states is that of their
    instances. *)
Definition processStateRoute (consistent : bool) p (stateID : string) (op : opType) r : StateRoute :=
  match sr_heap r !! p with
  | None => r
  | Some o =>
      let input := input_of o stateID in
      match op with
      | stateUpdate => state_Update input StateUpdate (setStateInstance stateID p r)
      | stateDelete =>
          state_Update input StateDelete
            (set_route (sr_heap r) (delete stateID (sr_stateRoute r)) (delete stateID (sr_stateLocks r)) (sr_next r) r)
      | stateInstanceDelete =>
          if consistent then
            let q := sr_next r in
            let r := set_route (<[q := mkStateIns (si_StateID o) InstanceExit None]> (sr_heap r)) (sr_stateRoute r)
                       (sr_stateLocks r) (S q) r in
            state_Update (input_exited input) StateUpdate (setStateInstance stateID q r)
          else state_Update input StateDelete (deleteStateInstance stateID r)
      end
  end.

(** [HandleInstanceUpdate] up to the end of its locked section: the state it has
    found, in the order the map is gone through, its object changed in place. *)
Definition names (instanceID : string) r (stateID : string) : bool :=
  match sr_stateRoute r !! stateID with
  | Some p => match sr_heap r !! p with
              | Some (mkStateIns _ _ (Some i)) => String.eqb (sn_InstanceID i) instanceID
              | _ => false
              end
  | None => false
  end.
Definition findState (order : list string) (instanceID : string) r : option (string * nat) :=
  match List.find (names instanceID r) order with
  | Some stateID => match sr_stateRoute r !! stateID with Some p => Some (stateID, p) | None => None end
  | None => None
  end.
Definition status_of (code : Z) : Z := if code =? StatusRunning then InstanceOk else InstanceAbnormal.
Definition update_found (i : stInstance) p r : StateRoute :=
  match sr_heap r !! p with
  | Some o => set_route (<[p := mkStateIns (si_StateID o) (status_of (sn_Code i)) (Some i)]> (sr_heap r)) (sr_stateRoute r)
                (sr_stateLocks r) (sr_next r) r
  | None => r
  end.

(** [generateStateLease]: the leaser of the instance. *)
Definition leaser_of (concurrentNum : Z) (stateID instanceID : string) r : nat * StateRoute :=
  match sr_stateLeaseManager r !! instanceID with
  | Some a => (a, r)
  | None =>
      let a := sr_next r in
      (a, set_leasers (<[instanceID := a]> (sr_stateLeaseManager r)) (<[a := (stateID, instanceID, NewLeaser concurrentNum)]> (sr_leasers r))
            (S a) r)
  end.
Definition on_leaser {A : Type} a (f : Leaser -> A * Leaser) r : option (A * StateRoute) :=
  match sr_leasers r !! a with
  | Some (s, i, l) => let '(x, l) := f l in
                      Some (x, set_leasers (sr_stateLeaseManager r) (<[a := (s, i, l)]> (sr_leasers r)) (sr_next r) r)
  | None => None
  end.

(** ** Goroutines *)

Inductive sr_op := OpAcquire (stateID : string) | OpGetAndDelete (stateID : string) | OpScaleDown (stateID instanceID : string).
Definition op_state (op : sr_op) : string :=
  match op with OpAcquire s | OpGetAndDelete s | OpScaleDown s _ => s end.

(** Before its lock is looked up; waiting for it; holding it; creating an
    instance; with the instance created; with the object to lease; with the
    leaser; with the object to remove; before unlocking, with the object and the
    instance to delete; before the deletion.  Then the parts of the events that
    hold no lock. *)
Inductive sr_pc :=
| PcEnter (op : sr_op)
| PcWait k (op : sr_op)
| PcHeld k (op : sr_op)
| PcCreate k (stateID : string)
| PcCreated k (stateID : string) (i : stInstance)
| PcLease k p
| PcGrant k (i : stInstance) (a : nat)
| PcRemove k (op : sr_op) p
| PcUnlock k (todo : option (nat * option string))
| PcDelete p (only : option string)
| PcUpdate p (stateID : string)
| PcGone (stateID : string)
| PcGoneFound p (stateID : string).

(** The parts of the scheduler that deal with states: [pm_leasers] is the
    [stateLeaseManager] of the pool manager, [sv_saved] what is written to etcd,
    and beside them the calls that delete instances, the answers to acquires
    and the instances that were created, with their states. *)
Record states := mkStates {
  ss_route : StateRoute;
  ss_pm : gmap string nat;
  ss_threads : gmap nat sr_pc;
  ss_saved : gmap string (gmap string stInstance);
  ss_deleted : list string;
  ss_results : list (nat * (string + goError));
  ss_created : gmap string string
}.
Implicit Types (x : states) (tid : nat).
Definition ss_set r threads x : states :=
  mkStates r (ss_pm x) threads (ss_saved x) (ss_deleted x) (ss_results x) (ss_created x).
Definition ss_goto r tid (pc : sr_pc) x : states := ss_set r (<[tid := pc]> (ss_threads x)) x.
Definition ss_answer r tid (res : string + goError) x : states :=
  mkStates r (ss_pm x) (delete tid (ss_threads x)) (ss_saved x) (ss_deleted x) (ss_results x ++ [(tid, res)]) (ss_created x).
Definition ss_delete tid (ids : list string) x : states :=
  mkStates (ss_route x) (ss_pm x) (delete tid (ss_threads x)) (ss_saved x) (ss_deleted x ++ ids) (ss_results x) (ss_created x).

Definition unlock k r : StateRoute := set_held (sr_held r ∖ {[k]}) r.
Definition allocationID (instanceID : string) (leaseID : Z) : string := (instanceID ++ "-stateThread" ++ Itoa leaseID)%string.

Section Steps.
Context (consistent : bool) (concurrentNum : Z).

(** What [acquireStateInstanceThread], [GetAndDeleteState] and
    [DeleteStateInstance] look up with the lock of the state, and what the last
    two do after they gave it back.  [None]: nil is dereferenced. *)
Definition acquire_held tid k (stateID : string) x : option states :=
  let r := ss_route x in
  match getStateInstance stateID r ≫= fun p => o ← sr_heap r !! p; Some (p, o) with
  | Some (p, o) =>
      if si_status o =? InstanceOk then Some (ss_goto r tid (PcLease k p) x)
      else if si_status o =? InstanceAbnormal
      then Some (ss_answer (unlock k r) tid (inr (SNError 150427 "instance status is abnormal")) x)
      else if consistent
      then Some (ss_answer (unlock k r) tid (inr (SNError 4028 "state instance not existed")) x)
      else Some (ss_goto r tid (PcCreate k stateID) x)
  | None => Some (ss_goto r tid (PcCreate k stateID) x)
  end.
Definition getAndDelete_held tid k (stateID : string) x : option states :=
  let r := ss_route x in
  match getStateInstance stateID r with
  | Some p => Some (ss_goto r tid (PcRemove k (OpGetAndDelete stateID) p) x)
  | None => Some (ss_goto r tid (PcUnlock k None) x)
  end.
Definition scaleDown_held tid k (stateID instanceID : string) x : option states :=
  let r := ss_route x in
  match getStateInstance stateID r ≫= fun p => o ← sr_heap r !! p; Some (p, o) with
  | Some (p, o) =>
      match si_instance o with
      | None => None
      | Some i => if String.eqb (sn_InstanceID i) instanceID then Some (ss_goto r tid (PcRemove k (OpScaleDown stateID instanceID) p) x)
                  else Some (ss_goto r tid (PcUnlock k None) x)
      end
  | None => Some (ss_goto r tid (PcUnlock k None) x)
  end.
Definition delete_unlocked tid p (only : option string) x : option states :=
  let r := ss_route x in
  match sr_heap r !! p with
  | None => None
  | Some o =>
      match only, si_instance o with
      | None, Some i => Some (ss_delete tid (if si_status o =? InstanceExit then [] else [sn_InstanceID i]) x)
      | None, None => if si_status o =? InstanceExit then Some (ss_delete tid [] x) else None
      | Some instanceID, Some i =>
          Some (ss_delete tid (if String.eqb (sn_InstanceID i) instanceID then [instanceID] else []) x)
      | Some _, None => None
      end
  end.

(** The next step of a goroutine; [created] answers a call that creates an
    instance.  [None]: the goroutine dereferences nil, and the process ends. *)
Definition thread_step tid (created : option stInstance) x : option states :=
  let r := ss_route x in
  match ss_threads x !! tid with
  | None => Some x
  | Some (PcEnter op) =>
      match sr_stateLocks r !! op_state op with
      | Some k => Some (ss_goto r tid (PcWait k op) x)
      | None => let k := sr_next r in
                Some (ss_goto (set_route (sr_heap r) (sr_stateRoute r) (<[op_state op := k]> (sr_stateLocks r)) (S k) r)
                        tid (PcWait k op) x)
      end
  | Some (PcWait k op) =>
      if decide (k ∈ sr_held r) then Some x else Some (ss_goto (set_held ({[k]} ∪ sr_held r) r) tid (PcHeld k op) x)
  | Some (PcHeld k (OpAcquire stateID)) =>
      acquire_held tid k stateID x
  | Some (PcHeld k (OpGetAndDelete stateID)) =>
      getAndDelete_held tid k stateID x
  | Some (PcHeld k (OpScaleDown stateID instanceID)) =>
      scaleDown_held tid k stateID instanceID x
  | Some (PcCreate k stateID) =>
      match created with
      | Some i =>
          Some (mkStates r (ss_pm x) (<[tid := PcCreated k stateID i]> (ss_threads x)) (ss_saved x) (ss_deleted x) (ss_results x)
                  (<[sn_InstanceID i := stateID]> (ss_created x)))
      | None => Some (ss_answer (unlock k r) tid (inr (SNError 150431 "")) x)
      end
  | Some (PcCreated k stateID i) =>
      let p := sr_next r in
      let r := set_route (<[p := mkStateIns stateID InstanceOk (Some i)]> (sr_heap r)) (sr_stateRoute r) (sr_stateLocks r) (S p) r in
      Some (ss_goto (processStateRoute consistent p stateID stateUpdate r) tid (PcLease k p) x)
  | Some (PcLease k p) =>
      match sr_heap r !! p ≫= (fun o => i ← si_instance o; Some (si_StateID o, i)) with
      | Some (stateID, i) => let '(a, r) := leaser_of concurrentNum stateID (sn_InstanceID i) r in
                             Some (ss_goto r tid (PcGrant k i a) x)
      | None => None
      end
  | Some (PcGrant k i a) =>
      match on_leaser a AcquireLease r with
      | Some (inl id, r) => Some (ss_answer (unlock k r) tid (inl (allocationID (sn_InstanceID i) id)) x)
      | Some (inr e, r) => Some (ss_answer (unlock k r) tid (inr e) x)
      | None => None
      end
  | Some (PcRemove k op p) =>
      match op with
      | OpScaleDown stateID instanceID =>
          Some (ss_goto (processStateRoute consistent p stateID stateInstanceDelete r) tid (PcUnlock k (Some (p, Some instanceID))) x)
      | OpGetAndDelete stateID | OpAcquire stateID =>
          Some (ss_goto (processStateRoute consistent p stateID stateDelete r) tid (PcUnlock k (Some (p, None))) x)
      end
  | Some (PcUnlock k todo) =>
      match todo with
      | Some (p, only) => Some (ss_goto (unlock k r) tid (PcDelete p only) x)
      | None => Some (ss_set (unlock k r) (delete tid (ss_threads x)) x)
      end
  | Some (PcDelete p only) =>
      delete_unlocked tid p only x
  | Some (PcUpdate p stateID) =>
      Some (ss_set (processStateRoute consistent p stateID stateUpdate r) (delete tid (ss_threads x)) x)
  | Some (PcGone stateID) =>
      match getStateInstance stateID r with
      | Some p => Some (ss_goto r tid (PcGoneFound p stateID) x)
      | None => Some (ss_set r (delete tid (ss_threads x)) x)
      end
  | Some (PcGoneFound p stateID) =>
      Some (ss_set (processStateRoute consistent p stateID stateInstanceDelete r) (delete tid (ss_threads x)) x)
  end.

(** [updateState]: what is queued is applied and written. *)
Definition updateInstancePool (i : stateInput) (m : gmap string (gmap string stInstance)) : option (gmap string (gmap string stInstance)) :=
  if String.eqb (ip_InstanceType i) InstanceTypeState then
    match m !! ip_FuncKey i with
    | None => None
    | Some pool => Some (<[ip_FuncKey i := <[ip_StateID i := mkStIns (ip_InstanceID i) (ip_FuncKey i) (ip_FuncSig i) InstanceTypeState
                                                                 (ip_StatusCode i)]> pool]> m)
    end
  else Some m.
Definition deleteInstancePool (i : stateInput) (m : gmap string (gmap string stInstance)) : option (gmap string (gmap string stInstance)) :=
  if negb (String.eqb (ip_StateID i) "") && String.eqb (ip_InstanceType i) InstanceTypeState then
    match m !! ip_FuncKey i with
    | None => None
    | Some pool => Some (<[ip_FuncKey i := delete (ip_StateID i) pool]> m)
    end
  else Some (delete (ip_FuncKey i) m).
Definition updateState x : option states :=
  match sr_queue (ss_route x) with
  | [] => Some x
  | (i, tag) :: q =>
      m ← match tag with StateUpdate => updateInstancePool i (ss_saved x) | StateDelete => deleteInstancePool i (ss_saved x) end;
      Some (mkStates (set_queue q (ss_route x)) (ss_pm x) (ss_threads x) m (ss_deleted x) (ss_results x) (ss_created x))
  end.

(** [StateRoute.Destroy]. *)
Definition to_destroy r : list string :=
  omap (fun kp : string * nat =>
          match sr_heap r !! kp.2 with
          | Some o => if si_status o =? InstanceExit then None else sn_InstanceID <$> si_instance o
          | None => None
          end) (map_to_list (sr_stateRoute r)).
Definition Destroy x : states :=
  let r := ss_route x in
  mkStates (set_route (sr_heap r) ∅ (sr_stateLocks r) (sr_next r) r) (ss_pm x) (ss_threads x) (ss_saved x)
    (ss_deleted x ++ to_destroy r) (ss_results x) (ss_created x).

(** ** The pool manager's part *)

Fixpoint Replace1 (old s : string) : string :=
  match s with
  | EmptyString => ""
  | String c s' => if HasPrefix s old then String.substring (String.length old) (String.length s - String.length old) s
                   else String c (Replace1 old s')
  end.
Definition getLeaseIdFromAllocationId (allocationId : string) : option Z :=
  match last (Split "-"%char allocationId) with Some part => Atoi (Replace1 "stateThread" part) | None => None end.

(** The answers: no leaser, a malformed identifier, or that of the leaser. *)
Inductive pm_answer := LeaserNil | BadAllocation | LeaseUnknown | LeaseDone.
Definition with_leaser (instanceID alloc : string) (f : Z -> Leaser -> bool * Leaser) x : pm_answer * states :=
  match ss_pm x !! instanceID with
  | None => (LeaserNil, x)
  | Some a =>
      match getLeaseIdFromAllocationId alloc with
      | None => (BadAllocation, x)
      | Some id => match on_leaser a (f id) (ss_route x) with
                   | Some (ok, r) => (if ok : bool then LeaseDone else LeaseUnknown, ss_set r (ss_threads x) x)
                   | None => (LeaserNil, x)
                   end
      end
  end.
Definition ReleaseStateThread (instanceID alloc : string) x : pm_answer * states :=
  with_leaser instanceID alloc (fun id l => (true, ReleaseLease id l)) x.
Definition RetainStateThread (instanceID alloc : string) x : pm_answer * states :=
  with_leaser instanceID alloc RetainLease x.

Definition updateStateLeaseMgrForHandleInstanceEvent (deleted : bool) (i : stInstance) x : states :=
  if deleted || (sn_Code i =? StatusFatal) then
    match ss_pm x !! sn_InstanceID i with
    | Some a => match on_leaser a (fun l => (tt, Terminate l)) (ss_route x) with
                | Some (_, r) => mkStates r (delete (sn_InstanceID i) (ss_pm x)) (ss_threads x) (ss_saved x) (ss_deleted x)
                                   (ss_results x) (ss_created x)
                | None => x
                end
    | None => x
    end
  else x.

(** A start: what was saved for the function is read, with the status that etcd
    knows of; the route and the pool manager's leasers are made from it. *)
Definition filterStateInstanceMap (etcd : option (gmap string Z)) (i : stInstance) : stInstance :=
  match etcd with
  | None => i
  | Some codes => mkStIns (sn_InstanceID i) (sn_FuncKey i) (sn_FuncSig i) (sn_InstanceType i)
                    (default StatusExited (codes !! sn_InstanceID i))
  end.
Definition recover_status (code : Z) : Z := if code =? StatusExited then InstanceExit else status_of code.
Definition recover1 (si : string * stInstance) r : StateRoute :=
  let p := sr_next r in
  set_route (<[p := mkStateIns si.1 (recover_status (sn_Code si.2)) (Some si.2)]> (sr_heap r)) (<[si.1 := p]> (sr_stateRoute r))
    (sr_stateLocks r) (S p) r.
Definition recover (l : list (string * stInstance)) r : StateRoute := foldr recover1 r l.
Definition recoverLeaser1 (si : string * stInstance) (rp : StateRoute * gmap string nat) : StateRoute * gmap string nat :=
  if sn_Code si.2 =? StatusExited then rp else
  let '(r, pm) := rp in
  let a := sr_next r in
  (set_leasers (sr_stateLeaseManager r)
     (<[a := (si.1, sn_InstanceID si.2, Leaser_Recover (NewLeaser concurrentNum))]> (sr_leasers r)) (S a) r,
   <[sn_InstanceID si.2 := a]> pm).
Definition recoverStateLeaser (l : list (string * stInstance)) (rp : StateRoute * gmap string nat) : StateRoute * gmap string nat :=
  foldr recoverLeaser1 rp l.
Definition new_route : StateRoute := mkRoute ∅ ∅ ∅ ∅ ∅ ∅ [] 0.
Definition RecoverInstancePool (funcKey : string) (etcd : option (gmap string Z)) (saved : gmap string (gmap string stInstance)) : states :=
  let l := map_to_list (filterStateInstanceMap etcd <$> default ∅ (saved !! funcKey)) in
  let '(r, pm) := recoverStateLeaser l (recover l new_route, ∅) in
  mkStates r pm ∅ saved [] [] ∅.
Definition new_states (saved : gmap string (gmap string stInstance)) : states := mkStates new_route ∅ ∅ saved [] [] ∅.

(** ** Steps *)

Inductive st_event :=
| EvRequest tid (op : sr_op)
| EvStep tid (created : option stInstance)
| EvUpdate tid (i : stInstance) (order : list string)
| EvGone tid (instanceID : string) (order : list string)
| EvFire (a t : nat)
| EvCallback tid (a t : nat)
| EvSave
| EvRelease (instanceID alloc : string)
| EvRetain (instanceID alloc : string)
| EvInstanceEvent (deleted : bool) (i : stInstance)
| EvDestroy.

Definition spawn tid (pc : sr_pc) r x : states :=
  match ss_threads x !! tid with None => ss_goto r tid pc x | Some _ => x end.

(** The events of an instance, up to where they give the route's lock back. *)
Definition sr_HandleInstanceUpdate tid (i : stInstance) (order : list string) x : states :=
  match ss_threads x !! tid, findState order (sn_InstanceID i) (ss_route x) with
  | None, Some (stateID, p) =>
      if String.eqb (sn_InstanceType i) InstanceTypeState
      then ss_goto (update_found i p (ss_route x)) tid (PcUpdate p stateID) x else x
  | _, _ => x
  end.
Definition DeleteStateInstanceByInstanceID tid (instanceID : string) (order : list string) x : states :=
  match findState order instanceID (ss_route x) with
  | Some (stateID, _) => spawn tid (PcGone stateID) (ss_route x) x
  | None => x
  end.

Definition st_step x (ev : st_event) : option states :=
  let r := ss_route x in
  match ev with
  | EvRequest tid op => Some (spawn tid (PcEnter op) r x)
  | EvStep tid created => thread_step tid created x
  | EvUpdate tid i order => Some (sr_HandleInstanceUpdate tid i order x)
  | EvGone tid instanceID order => Some (DeleteStateInstanceByInstanceID tid instanceID order x)
  | EvFire a t =>
      match on_leaser a (fun l => (tt, timer_fires t l)) r with
      | Some (_, r) => Some (ss_set r (ss_threads x) x)
      | None => Some x
      end
  | EvCallback tid a t =>
      match ss_threads x !! tid, on_leaser a (fun l => let '(l, b) := callback_runs t l in (b, l)) r, sr_leasers r !! a with
      | None, Some (gives_up, r), Some (stateID, instanceID, _) =>
          Some (if gives_up : bool then ss_goto r tid (PcEnter (OpScaleDown stateID instanceID)) x else ss_set r (ss_threads x) x)
      | _, _, _ => Some x
      end
  | EvSave => updateState x
  | EvRelease i alloc => Some (ReleaseStateThread i alloc x).2
  | EvRetain i alloc => Some (RetainStateThread i alloc x).2
  | EvInstanceEvent d i => Some (updateStateLeaseMgrForHandleInstanceEvent d i x)
  | EvDestroy => Some (Destroy x)
  end.
Fixpoint st_run (evs : list st_event) x : option states :=
  match evs with [] => Some x | ev :: evs => st_step x ev ≫= st_run evs end.
End Steps.

(** Opens a goroutine's step. *)
Ltac step_in H := unfold thread_step, acquire_held, getAndDelete_held, scaleDown_held, delete_unlocked in H.

(** ** No instance is lost

    A calm run: states are not deleted by request, and an event of an instance is
    handled without another step in between. *)

Inductive calm_event :=
| CeAcquire tid (stateID : string)
| CeStep tid (created : option stInstance)
| CeUpdate tid (i : stInstance) (order : list string)
| CeGone tid (instanceID : string) (order : list string)
| CeFire (a t : nat)
| CeCallback tid (a t : nat)
| CeSave
| CeRelease (instanceID alloc : string)
| CeRetain (instanceID alloc : string)
| CeInstanceEvent (deleted : bool) (i : stInstance).
Definition calm_steps (c : calm_event) : list st_event :=
  match c with
  | CeAcquire tid s => [EvRequest tid (OpAcquire s)]
  | CeStep tid created => [EvStep tid created]
  | CeUpdate tid i order => [EvUpdate tid i order; EvStep tid None]
  | CeGone tid iid order => [EvGone tid iid order; EvStep tid None; EvStep tid None]
  | CeFire a t => [EvFire a t]
  | CeCallback tid a t => [EvCallback tid a t]
  | CeSave => [EvSave]
  | CeRelease i alloc => [EvRelease i alloc]
  | CeRetain i alloc => [EvRetain i alloc]
  | CeInstanceEvent d i => [EvInstanceEvent d i]
  end.
Definition calm_ids (c : calm_event) : list string :=
  match c with CeStep _ (Some i) => [sn_InstanceID i] | _ => [] end.
Definition calm_gone (c : calm_event) : list string := match c with CeGone _ iid _ => [iid] | _ => [] end.
Definition calm_run (consistent : bool) (concurrentNum : Z) (cs : list calm_event) x : option states :=
  st_run consistent concurrentNum (concat (map calm_steps cs)) x.

(** The instance an object has; a state whose object has none. *)
Definition idat r p : option string := sr_heap r !! p ≫= fun o => sn_InstanceID <$> si_instance o.
Definition vacant r (s : string) : Prop := forall q, sr_stateRoute r !! s = Some q -> idat r q = None.

Definition lock_of (pc : sr_pc) : option nat :=
  match pc with
  | PcHeld k _ | PcCreate k _ | PcCreated k _ _ | PcLease k _ | PcGrant k _ _ | PcRemove k _ _ | PcUnlock k _ => Some k
  | _ => None
  end.
Definition pc_ok r (pc : sr_pc) : Prop :=
  match pc with
  | PcEnter op => match op with OpGetAndDelete _ => False | _ => True end
  | PcWait k op | PcHeld k op =>
      match op with OpGetAndDelete _ => False | _ => sr_stateLocks r !! op_state op = Some k end
  | PcCreate k s | PcCreated k s _ => sr_stateLocks r !! s = Some k /\ vacant r s
  | PcLease _ _ | PcGrant _ _ _ => True
  | PcRemove k op p =>
      match op with
      | OpScaleDown s iid => sr_stateLocks r !! s = Some k /\ idat r p = Some iid /\
                             (forall q, sr_stateRoute r !! s = Some q -> q = p \/ idat r q = None)
      | _ => False
      end
  | PcUnlock _ None => True
  | PcUnlock _ (Some (p, Some iid)) | PcDelete p (Some iid) => idat r p = Some iid
  | PcUnlock _ (Some (_, None)) | PcDelete _ None => False
  | PcUpdate _ _ | PcGone _ | PcGoneFound _ _ => False
  end.

Record route_ok r : Prop := {
  ro_locks s1 s2 k : sr_stateLocks r !! s1 = Some k -> sr_stateLocks r !! s2 = Some k -> s1 = s2;
  ro_lock_old s k : sr_stateLocks r !! s = Some k -> (k < sr_next r)%nat;
  ro_heap_old p o : sr_heap r !! p = Some o -> (p < sr_next r)%nat;
  ro_route s p : sr_stateRoute r !! s = Some p -> is_Some (sr_heap r !! p);
  ro_status p o i : sr_heap r !! p = Some o -> si_instance o = Some i -> si_status o = InstanceOk \/ si_status o = InstanceAbnormal
}.

(** Who has an instance: the route, or a goroutine that will route or delete it. *)
Definition carries (pc : sr_pc) (s iid : string) : Prop :=
  match pc with
  | PcCreated _ s' i => s' = s /\ sn_InstanceID i = iid
  | PcUnlock _ (Some (_, Some iid')) | PcDelete _ (Some iid') => iid' = iid
  | _ => False
  end.
Definition routed r (s iid : string) : Prop := exists p, sr_stateRoute r !! s = Some p /\ idat r p = Some iid.
Definition accounted (gone : list string) x (iid s : string) : Prop :=
  iid ∈ ss_deleted x \/ iid ∈ gone \/ routed (ss_route x) s iid \/
  exists tid pc, ss_threads x !! tid = Some pc /\ carries pc s iid.

Record calm_inv (gone : list string) x : Prop := {
  ci_route : route_ok (ss_route x);
  ci_threads tid pc : ss_threads x !! tid = Some pc -> pc_ok (ss_route x) pc;
  ci_held tid pc k : ss_threads x !! tid = Some pc -> lock_of pc = Some k -> k ∈ sr_held (ss_route x);
  ci_excl t1 t2 pc1 pc2 k : ss_threads x !! t1 = Some pc1 -> ss_threads x !! t2 = Some pc2 ->
    lock_of pc1 = Some k -> lock_of pc2 = Some k -> t1 = t2;
  ci_accounted iid s : ss_created x !! iid = Some s -> accounted gone x iid s
}.

(** *** Changes that leave the other goroutines' assumptions alone *)

Record ext r r' : Prop := {
  ex_locks s k : sr_stateLocks r !! s = Some k -> sr_stateLocks r' !! s = Some k;
  ex_id p : is_Some (sr_heap r !! p) -> idat r' p = idat r p;
  ex_route s : sr_stateRoute r' !! s = sr_stateRoute r !! s \/ vacant r' s
}.

Lemma vacant_ext r r' s : route_ok r -> ext r r' -> vacant r s -> vacant r' s.
Proof.
  intros Hr [_ Hi Hs] Hv. destruct (Hs s) as [E|]; [|done]. intros q Hq. rewrite E in Hq.
  rewrite Hi by (by eapply ro_route). by apply Hv.
Qed.
Lemma idat_ext r r' p iid : ext r r' -> idat r p = Some iid -> idat r' p = Some iid.
Proof. intros He Hp. rewrite (ex_id _ _ He); [done|]. unfold idat in Hp. by destruct (sr_heap r !! p). Qed.

Lemma pc_ok_ext r r' pc : route_ok r -> ext r r' -> pc_ok r pc -> pc_ok r' pc.
Proof.
  intros Hr He. pose proof (ex_locks _ _ He) as Hl.
  destruct pc as [op|k op|k op|k s|k s i|k p|k i a|k op p|k [[p [iid|]]|]|p [iid|]|p s|s|p s]; cbn; try done;
    try (destruct op; cbn; by auto); try (intros [H1 H2]; split; [by apply Hl|by eapply vacant_ext]); try by apply idat_ext.
  destruct op as [s|s|s iid]; try done. intros (H1 & H2 & H3). split; [by apply Hl|]. split; [by eapply idat_ext|].
  intros q Hq. destruct (ex_route _ _ He s) as [E|Hv]; [|right; by apply Hv]. rewrite E in Hq.
  rewrite (ex_id _ _ He) by (by eapply ro_route). by apply H3.
Qed.
Lemma route_ext_refl r r' :
  sr_stateLocks r' = sr_stateLocks r -> sr_heap r' = sr_heap r -> sr_stateRoute r' = sr_stateRoute r -> ext r r'.
Proof. intros H1 H2 H3. split; unfold idat; rewrite ?H1, ?H2; auto. intros s. left. by rewrite H3. Qed.

(** *** One goroutine's step *)

Section Calm.
Context (gone gone' : list string) (x x' : states) (tid : nat).
Hypothesis Hinv : calm_inv gone x.
Hypothesis Hothers : forall t, t <> tid -> ss_threads x' !! t = ss_threads x !! t.

Lemma accounted_step iid s :
  ss_created x !! iid = Some s -> ss_deleted x ⊆ ss_deleted x' -> gone ⊆ gone' ->
  (routed (ss_route x) s iid -> accounted gone' x' iid s) ->
  (forall pc, ss_threads x !! tid = Some pc -> carries pc s iid -> accounted gone' x' iid s) ->
  accounted gone' x' iid s.
Proof.
  intros Hc Hd Hg Hr Ht. destruct (ci_accounted _ _ Hinv _ _ Hc) as [H|[H|[H|(t & pc & Hp & Hc')]]].
  - left. by apply Hd.
  - right; left. by apply Hg.
  - by apply Hr.
  - destruct (decide (t = tid)) as [->|Hne]; [by eapply Ht|]. right; right; right. exists t, pc. by rewrite Hothers.
Qed.

Lemma calm_step_inv :
  route_ok (ss_route x') ->
  (forall t pc, t <> tid -> ss_threads x !! t = Some pc -> pc_ok (ss_route x') pc) ->
  (forall pc, ss_threads x' !! tid = Some pc -> pc_ok (ss_route x') pc /\
     forall k, lock_of pc = Some k -> k ∈ sr_held (ss_route x') /\
       (k ∉ sr_held (ss_route x) \/ exists pc0, ss_threads x !! tid = Some pc0 /\ lock_of pc0 = Some k)) ->
  (forall k, k ∈ sr_held (ss_route x) ->
     k ∈ sr_held (ss_route x') \/ exists pc0, ss_threads x !! tid = Some pc0 /\ lock_of pc0 = Some k) ->
  (forall iid s, ss_created x' !! iid = Some s -> accounted gone' x' iid s) ->
  calm_inv gone' x'.
Proof.
  intros Hr Ho Ht Hh Ha. destruct Hinv as [I1 I2 I3 I4 I5].
  assert (Hfresh : forall t pc k pc', t <> tid -> ss_threads x !! t = Some pc -> lock_of pc = Some k ->
            ss_threads x' !! tid = Some pc' -> lock_of pc' = Some k -> False).
  { intros t pc k pc' Hne Hp Hk Hp' Hk'. destruct (Ht _ Hp') as [_ Hl]. destruct (Hl _ Hk') as [_ [Hn|(pc0 & H0 & Hk0)]].
    - by apply Hn, (I3 t pc).
    - by apply Hne, (I4 t tid pc pc0 k). }
  split; [done| | | |done].
  - intros t pc Hp. destruct (decide (t = tid)) as [->|Hne]; [by apply Ht|]. rewrite Hothers in Hp by done. by apply (Ho t).
  - intros t pc k Hp Hk. destruct (decide (t = tid)) as [->|Hne]; [by eapply (Ht pc)|]. rewrite Hothers in Hp by done.
    destruct (Hh k (I3 _ _ _ Hp Hk)) as [?|(pc0 & H0 & Hk0)]; [done|]. destruct Hne. by apply (I4 t tid pc pc0 k).
  - intros t1 t2 pc1 pc2 k H1 H2 Hk1 Hk2. destruct (decide (t1 = tid)) as [->|N1], (decide (t2 = tid)) as [->|N2]; [done| | |].
    + rewrite (Hothers t2) in H2 by done. by destruct (Hfresh t2 pc2 k pc1 N2).
    + rewrite (Hothers t1) in H1 by done. by destruct (Hfresh t1 pc1 k pc2 N1).
    + rewrite Hothers in H1, H2 by done. by apply (I4 t1 t2 pc1 pc2 k).
Qed.
End Calm.

(** Steps that leave the route alone. *)
Record same_route r r' : Prop := {
  sm_heap : sr_heap r' = sr_heap r; sm_route : sr_stateRoute r' = sr_stateRoute r; sm_locks : sr_stateLocks r' = sr_stateLocks r;
  sm_next : (sr_next r <= sr_next r')%nat
}.
Lemma route_ok_same r r' : same_route r r' -> route_ok r -> route_ok r'.
Proof.
  intros [H1 H2 H3 H4] [R1 R2 R3 R4 R5]. split; rewrite ?H1, ?H2, ?H3; try done.
  - intros s k Hk. specialize (R2 s k Hk). lia.
  - intros p o Hp. specialize (R3 p o Hp). lia.
Qed.
Lemma same_ext r r' : same_route r r' -> ext r r'.
Proof. intros [H1 H2 H3 _]. by apply route_ext_refl. Qed.
Lemma routed_same r r' s iid : same_route r r' -> routed r s iid -> routed r' s iid.
Proof. intros [H1 H2 _ _] (p & Hp & Hi). exists p. unfold idat in *. by rewrite H1, H2. Qed.

Lemma calm_simple gone x x' tid :
  calm_inv gone x -> same_route (ss_route x) (ss_route x') ->
  (forall t, t <> tid -> ss_threads x' !! t = ss_threads x !! t) ->
  ss_created x' = ss_created x -> ss_deleted x' = ss_deleted x ->
  (forall pc, ss_threads x' !! tid = Some pc -> pc_ok (ss_route x) pc /\
     forall k, lock_of pc = Some k -> k ∈ sr_held (ss_route x') /\
       (k ∉ sr_held (ss_route x) \/ exists pc0, ss_threads x !! tid = Some pc0 /\ lock_of pc0 = Some k)) ->
  (forall k, k ∈ sr_held (ss_route x) ->
     k ∈ sr_held (ss_route x') \/ exists pc0, ss_threads x !! tid = Some pc0 /\ lock_of pc0 = Some k) ->
  (forall pc s iid, ss_threads x !! tid = Some pc -> carries pc s iid ->
     exists pc', ss_threads x' !! tid = Some pc' /\ carries pc' s iid) ->
  calm_inv gone x'.
Proof.
  intros H Hs Ho Hc Hd Hp Hh Hcar. pose proof (same_ext _ _ Hs) as He. pose proof (ci_route _ _ H) as Hr.
  apply (calm_step_inv gone gone x x' tid H Ho).
  - by apply (route_ok_same _ _ Hs).
  - intros t pc _ Ht. eapply pc_ok_ext; [done..|]. by eapply ci_threads.
  - intros pc Hpc. destruct (Hp pc Hpc) as [Hok Hk]. split; [|done]. by eapply pc_ok_ext.
  - done.
  - intros iid s Hcr. rewrite Hc in Hcr. apply (accounted_step gone gone x x' tid H Ho); [done|by rewrite Hd|done| |].
    + intros Hrt. right; right; left. by eapply routed_same.
    + intros pc Ht Hca. right; right; right. destruct (Hcar pc s iid Ht Hca) as (pc' & ? & ?). eauto.
Qed.

Lemma calm_goto gone x tid pc0 pc r :
  calm_inv gone x -> ss_threads x !! tid = Some pc0 -> same_route (ss_route x) r -> sr_held r = sr_held (ss_route x) ->
  pc_ok (ss_route x) pc -> (lock_of pc = None \/ lock_of pc = lock_of pc0) ->
  (forall s iid, carries pc0 s iid -> carries pc s iid) ->
  calm_inv gone (ss_goto r tid pc x).
Proof.
  intros H Ht Hs Hh Hok Hl Hc. apply (calm_simple gone x _ tid); cbn; try done.
  - intros t Hne. by rewrite lookup_insert_ne.
  - intros pc'. rewrite lookup_insert_eq. intros [= <-]. split; [done|]. intros k Hk. destruct Hl as [Hl|Hl]; [congruence|].
    rewrite Hh. split; [|right; exists pc0; split; congruence]. eapply (ci_held _ _ H); [done|congruence].
  - intros k Hk. left. by rewrite Hh.
  - intros pc' s iid Ht' Hca. exists pc. rewrite lookup_insert_eq. split; [done|]. apply Hc. congruence.
Qed.
Lemma calm_unlocked gone x x' tid pc0 k :
  calm_inv gone x -> ss_threads x !! tid = Some pc0 -> lock_of pc0 = Some k -> same_route (ss_route x) (ss_route x') ->
  sr_held (ss_route x') = sr_held (ss_route x) ∖ {[k]} ->
  (forall t, t <> tid -> ss_threads x' !! t = ss_threads x !! t) ->
  (forall pc, ss_threads x' !! tid = Some pc -> pc_ok (ss_route x) pc /\ lock_of pc = None) ->
  ss_created x' = ss_created x -> ss_deleted x' = ss_deleted x ->
  (forall s iid, carries pc0 s iid -> exists pc, ss_threads x' !! tid = Some pc /\ carries pc s iid) ->
  calm_inv gone x'.
Proof.
  intros H Ht Hk Hs Hh Ho Hp Hc Hd Hca. apply (calm_simple gone x _ tid); try done.
  - intros pc Hpc. destruct (Hp pc Hpc) as [Hok Hl]. split; [done|]. congruence.
  - intros j Hj. destruct (decide (j = k)) as [->|]; [right; eauto|left; rewrite Hh; set_solver].
  - intros pc s iid Ht' Hca'. apply Hca. congruence.
Qed.
Lemma calm_answer gone x tid pc0 k r res :
  calm_inv gone x -> ss_threads x !! tid = Some pc0 -> lock_of pc0 = Some k -> same_route (ss_route x) r ->
  sr_held r = sr_held (ss_route x) -> (forall s iid, ~ carries pc0 s iid) ->
  calm_inv gone (ss_answer (unlock k r) tid res x).
Proof.
  intros H Ht Hk [] Hh Hc. apply (calm_unlocked gone x _ tid pc0 k); cbn; try done.
  - by rewrite Hh.
  - intros t Hne. by rewrite lookup_delete_ne.
  - intros pc. by rewrite lookup_delete_eq.
  - intros s iid Hca. by apply Hc in Hca.
Qed.

Lemma same_refl r : same_route r r.
Proof. by split. Qed.
#[local] Hint Resolve same_refl : core.

(** *** Steps that change the route *)

Lemma idat_insert r p o q route locks next :
  idat (set_route (<[p := o]> (sr_heap r)) route locks next r) q =
  if decide (q = p) then sn_InstanceID <$> si_instance o else idat r q.
Proof. unfold idat; cbn. destruct (decide (q = p)) as [->|]; [by rewrite lookup_insert_eq|by rewrite lookup_insert_ne]. Qed.

Lemma route_ok_push r p o s route :
  route_ok r -> p = sr_next r -> (forall i, si_instance o = Some i -> si_status o = InstanceOk \/ si_status o = InstanceAbnormal) ->
  (route = <[s := p]> (sr_stateRoute r)) ->
  route_ok (set_route (<[p := o]> (sr_heap r)) route (sr_stateLocks r) (S p) r).
Proof.
  intros [R1 R2 R3 R4 R5] -> Hst ->. split; cbn; try done.
  - intros s' k Hk. specialize (R2 s' k Hk). lia.
  - intros q o' [[<- _]|[_ Hq]]%lookup_insert_Some; [lia|]. specialize (R3 q o' Hq). lia.
  - intros s' q [[<- <-]|[_ Hq]]%lookup_insert_Some; [rewrite lookup_insert_eq; eauto|].
    destruct (decide (q = sr_next r)) as [->|]; [rewrite lookup_insert_eq; eauto|rewrite lookup_insert_ne by done; by eapply R4].
  - intros q o' i [[<- <-]|[_ Hq]]%lookup_insert_Some Hi; eauto.
Qed.

Lemma same_update i tag r : same_route r (state_Update i tag r) /\ sr_held (state_Update i tag r) = sr_held r.
Proof. unfold state_Update. destruct (_ <? _)%nat; by split. Qed.

Lemma route_ok_delete s r : route_ok r -> route_ok (deleteStateInstance s r).
Proof.
  intros [R1 R2 R3 R4 R5]. split; cbn; try done. intros s' q [_ Hq]%lookup_delete_Some. by eapply R4.
Qed.
Lemma routed_update r r' i tag s iid : routed r' s iid -> routed (state_Update i tag r') s iid.
Proof. apply routed_same, same_update. Qed.

(** Removing the instance of a state. *)
Lemma removed_facts consistent p s r :
  route_ok r -> is_Some (sr_heap r !! p) ->
  let r' := processStateRoute consistent p s stateInstanceDelete r in
  route_ok r' /\ ext r r' /\ sr_held r' = sr_held r /\ (forall s' iid, s' <> s -> routed r s' iid -> routed r' s' iid).
Proof.
  intros Hr [o Ho]. unfold processStateRoute. rewrite Ho. destruct consistent; cbn zeta.
  - set (q := sr_next r). set (r1 := setStateInstance _ _ _). set (inp := input_exited _). set (tg := StateUpdate).
    destruct (same_update inp tg r1) as [Hs Hh].
    assert (Hq : sr_heap r !! q = None).
    { destruct (sr_heap r !! q) eqn:E; [|done]. apply (ro_heap_old _ Hr) in E. subst q. lia. }
    assert (Hid : forall p', idat r1 p' = if decide (p' = q) then None else idat r p').
    { intros p'. apply (idat_insert r q (mkStateIns (si_StateID o) InstanceExit None) p' (<[s := q]> (sr_stateRoute r))). }
    assert (H1 : route_ok r1) by (by apply (route_ok_push r q _ s)).
    assert (E1 : ext r r1).
    { split; cbn; [done| |].
      - intros p' [o' Hp']. rewrite Hid. destruct (decide (p' = q)) as [->|]; [congruence|done].
      - intros s'. destruct (decide (s' = s)) as [->|]; [right|left; by rewrite lookup_insert_ne].
        intros q'. cbn. rewrite lookup_insert_eq. intros [= <-]. rewrite Hid. by rewrite decide_True. }
    split; [by eapply route_ok_same|]. split; [|split; [done|]].
    + destruct E1 as [A B C], (same_ext _ _ Hs) as [A' B' C']. split; [auto| |].
      * intros p' Hp'. rewrite B'; [by apply B|]. cbn. destruct (decide (p' = q)) as [->|]; [by rewrite lookup_insert_eq|by rewrite lookup_insert_ne].
      * intros s'. destruct Hs as [K1 K2 _ _]. rewrite K2. destruct (C s') as [?|Hv]; [by left|right].
        intros q' Hq'. rewrite K2 in Hq'. unfold idat. rewrite K1. by apply Hv.
    + intros s' iid Hne (p' & Hp' & Hi). apply (routed_same _ _ _ _ Hs). exists p'. cbn. rewrite lookup_insert_ne by done.
      split; [done|]. rewrite Hid. destruct (decide (p' = q)) as [->|]; [|done]. unfold idat in Hi. by rewrite Hq in Hi.
  - set (r1 := deleteStateInstance s r). destruct (same_update (input_of o s) StateDelete r1) as [Hs Hh].
    split; [eapply route_ok_same; [done|]; by apply route_ok_delete|]. split; [|split; [done|]].
    + destruct Hs as [K1 K2 K3 _]. split; [by rewrite K3|unfold idat; by rewrite K1|]. intros s'. rewrite K2. cbn.
      destruct (decide (s' = s)) as [->|]; [right|left; by rewrite lookup_delete_ne]. intros q'. by rewrite K2; cbn; rewrite lookup_delete_eq.
    + intros s' iid Hne (p' & Hp' & Hi). apply (routed_same _ _ _ _ Hs). exists p'. cbn. by rewrite lookup_delete_ne.
Qed.

Lemma step_enter gone x tid op :
  calm_inv gone x -> ss_threads x !! tid = Some (PcEnter op) -> sr_stateLocks (ss_route x) !! op_state op = None ->
  let r := ss_route x in
  calm_inv gone (ss_goto (set_route (sr_heap r) (sr_stateRoute r) (<[op_state op := sr_next r]> (sr_stateLocks r)) (S (sr_next r)) r)
                   tid (PcWait (sr_next r) op) x).
Proof.
  intros H Ht Hn r. pose proof (ci_route _ _ H) as [R1 R2 R3 R4 R5]. fold r in R1, R2, R3, R4, R5, Hn.
  set (r' := set_route _ _ _ _ r). assert (He : ext r r').
  { split; [|done|by left]. intros s k Hk. cbn. rewrite lookup_insert_ne; [done|]. congruence. }
  apply (calm_step_inv gone gone x _ tid H).
  - intros t Hne. cbn. by rewrite lookup_insert_ne.
  - split; cbn; try done.
    + intros s1 s2 k [[<- <-]|[N1 H1]]%lookup_insert_Some [[<- ?]|[N2 H2]]%lookup_insert_Some; try done;
        [apply R2 in H2; lia|apply R2 in H1; lia|by eapply R1].
    + intros s k [[<- <-]|[_ Hk]]%lookup_insert_Some; [lia|]. apply R2 in Hk. lia.
    + intros p o Hp. apply R3 in Hp. lia.
  - intros t pc _ Hp. eapply pc_ok_ext; [apply H|done|]. by eapply ci_threads.
  - cbn. intros pc. rewrite lookup_insert_eq. intros [= <-]. split; [|done]. cbn. pose proof (ci_threads _ _ H _ _ Ht) as Hok.
    destruct op; cbn in *; try done; apply lookup_insert_eq.
  - intros k Hk. by left.
  - intros iid s Hc. apply (accounted_step gone gone x _ tid H); [|done|done|done| |].
    + intros t Hne. cbn. by rewrite lookup_insert_ne.
    + intros Hrt. by right; right; left.
    + intros pc Hp. rewrite Ht in Hp. by injection Hp as <-.
Qed.

Lemma step_create gone x tid k s i :
  calm_inv gone x -> ss_threads x !! tid = Some (PcCreate k s) -> ss_created x !! sn_InstanceID i = None ->
  calm_inv gone (mkStates (ss_route x) (ss_pm x) (<[tid := PcCreated k s i]> (ss_threads x)) (ss_saved x) (ss_deleted x) (ss_results x)
                   (<[sn_InstanceID i := s]> (ss_created x))).
Proof.
  intros H Ht Hn. assert (Ho : forall t, t <> tid -> <[tid := PcCreated k s i]> (ss_threads x) !! t = ss_threads x !! t)
    by (intros; by rewrite lookup_insert_ne).
  apply (calm_step_inv gone gone x _ tid H); cbn; [exact Ho|apply H| | | |].
  - intros t pc _ Hp. by eapply ci_threads.
  - intros pc. rewrite lookup_insert_eq. intros [= <-]. pose proof (ci_threads _ _ H _ _ Ht) as Hok. split; [done|].
    intros k' [= <-]. split; [by eapply (ci_held _ _ H)|right; eauto].
  - intros k' Hk. by left.
  - intros iid s' [[<- <-]|[_ Hc]]%lookup_insert_Some.
    + right; right; right. exists tid, (PcCreated k s i). cbn. by rewrite lookup_insert_eq.
    + apply (accounted_step gone gone x _ tid H); [exact Ho|done..|by intros; right; right; left|].
      intros pc Hp. rewrite Ht in Hp. by injection Hp as <-.
Qed.

(** A new object in the route, seen by the goroutines that hold other locks. *)
Lemma pc_ok_routed r r1 s p k id pc :
  route_ok r -> sr_heap r !! p = None -> sr_stateLocks r1 = sr_stateLocks r -> sr_stateRoute r1 = <[s := p]> (sr_stateRoute r) ->
  (forall q, idat r1 q = if decide (q = p) then Some id else idat r q) ->
  sr_stateLocks r !! s = Some k -> lock_of pc <> Some k -> pc_ok r pc -> pc_ok r1 pc.
Proof.
  intros Hr Hp El Er Hid Hk Hn.
  assert (Hi : forall q iid, idat r q = Some iid -> idat r1 q = Some iid).
  { intros q iid Hq. rewrite Hid. destruct (decide (q = p)) as [->|]; [|done]. unfold idat in Hq. by rewrite Hp in Hq. }
  assert (Hrt : forall s' k' q, sr_stateLocks r !! s' = Some k' -> lock_of pc = Some k' -> sr_stateRoute r1 !! s' = Some q ->
                  sr_stateRoute r !! s' = Some q /\ idat r1 q = idat r q).
  { intros s' k' q Hk' Hl Hq. rewrite Er in Hq. apply lookup_insert_Some in Hq as [[<- _]|[_ Hq]]; [congruence|]. split; [done|].
    rewrite Hid. destruct (decide (q = p)) as [->|]; [|done]. apply (ro_route _ Hr) in Hq as [? ?]. congruence. }
  destruct pc as [op|k' op|k' op|k' s'|k' s' i|k' q|k' i a|k' op q|k' [[q [iid|]]|]|q [iid|]|q s'|s'|q s']; cbn in *; rewrite ?El;
    try done; auto;
    try (intros [H1 H2]; split; [done|]; intros q Hq; destruct (Hrt s' k' q H1 eq_refl Hq) as [Hq' ->]; by apply H2).
  destruct op as [s'|s'|s' iid]; try done. intros (H1 & H2 & H3). split; [done|]. split; [auto|]. intros q' Hq'.
  destruct (Hrt s' k' q' H1 eq_refl Hq') as [Hq'' ->]. by apply H3.
Qed.

Lemma step_created consistent gone x tid k s i :
  calm_inv gone x -> ss_threads x !! tid = Some (PcCreated k s i) ->
  let p := sr_next (ss_route x) in
  let r := set_route (<[p := mkStateIns s InstanceOk (Some i)]> (sr_heap (ss_route x))) (sr_stateRoute (ss_route x))
             (sr_stateLocks (ss_route x)) (S p) (ss_route x) in
  calm_inv gone (ss_goto (processStateRoute consistent p s stateUpdate r) tid (PcLease k p) x).
Proof.
  intros H Ht p r. pose proof (ci_route _ _ H) as Hr. destruct (ci_threads _ _ H _ _ Ht) as [Hlk Hvac].
  unfold processStateRoute. cbn [sr_heap r set_route]. rewrite lookup_insert_eq. set (r1 := setStateInstance s p r).
  set (inp := input_of _ _). destruct (same_update inp StateUpdate r1) as [Hs Hh].
  assert (Hp : sr_heap (ss_route x) !! p = None).
  { destruct (sr_heap (ss_route x) !! p) eqn:E; [|done]. apply (ro_heap_old _ Hr) in E. subst p. lia. }
  assert (Hid : forall q, idat r1 q = if decide (q = p) then Some (sn_InstanceID i) else idat (ss_route x) q).
  { intros q. apply (idat_insert (ss_route x) p (mkStateIns s InstanceOk (Some i)) q (<[s := p]> (sr_stateRoute (ss_route x)))). }
  assert (Hr1 : route_ok r1)
    by exact (route_ok_push (ss_route x) p (mkStateIns s InstanceOk (Some i)) s _ Hr eq_refl (fun _ _ => or_introl eq_refl) eq_refl).
  assert (Ho : forall t, t <> tid -> <[tid := PcLease k p]> (ss_threads x) !! t = ss_threads x !! t)
    by (intros; by rewrite lookup_insert_ne).
  apply (calm_step_inv gone gone x _ tid H); cbn [ss_route ss_goto ss_set ss_threads ss_created]; [exact Ho|..].
  - by eapply route_ok_same.
  - intros t pc Hne Hpc. eapply pc_ok_ext; [exact Hr1|by apply same_ext|].
    apply (pc_ok_routed (ss_route x) r1 s p k (sn_InstanceID i)); try done; [|by eapply ci_threads].
    intros Hk. by apply Hne, (ci_excl _ _ H t tid pc (PcCreated k s i) k).
  - intros pc. rewrite lookup_insert_eq. intros [= <-]. split; [done|]. intros k' [= <-]. rewrite Hh.
    split; [by eapply (ci_held _ _ H)|right; eauto].
  - intros k' Hk. left. by rewrite Hh.
  - assert (Hnew : accounted gone (ss_goto (state_Update inp StateUpdate r1) tid (PcLease k p) x) (sn_InstanceID i) s).
    { right; right; left. apply (routed_same _ _ _ _ Hs). exists p. split; [apply lookup_insert_eq|]. by rewrite Hid, decide_True. }
    intros iid s' Hc. apply (accounted_step gone gone x _ tid H); [exact Ho|done..| |].
    + intros (q & Hq & Hi). right; right; left. apply (routed_same _ _ _ _ Hs). destruct (decide (s' = s)) as [->|].
      { by rewrite (Hvac q Hq) in Hi. }
      exists q. split; [cbn; by rewrite lookup_insert_ne|]. rewrite Hid. destruct (decide (q = p)) as [->|]; [|done].
      unfold idat in Hi. by rewrite Hp in Hi.
    + intros pc Hpc. rewrite Ht in Hpc. injection Hpc as <-. by intros [<- <-].
Qed.

Lemma step_remove consistent gone x tid k s iid p :
  calm_inv gone x -> ss_threads x !! tid = Some (PcRemove k (OpScaleDown s iid) p) ->
  calm_inv gone (ss_goto (processStateRoute consistent p s stateInstanceDelete (ss_route x)) tid (PcUnlock k (Some (p, Some iid))) x).
Proof.
  intros H Ht. destruct (ci_threads _ _ H _ _ Ht) as (Hlk & Hid & Hq).
  assert (Hp : is_Some (sr_heap (ss_route x) !! p)) by (unfold idat in Hid; destruct (sr_heap (ss_route x) !! p); [by eexists|done]).
  destruct (removed_facts consistent p s _ (ci_route _ _ H) Hp) as (Hr & He & Hh & Hrt).
  set (r := processStateRoute consistent p s stateInstanceDelete (ss_route x)) in *.
  assert (Ho : forall t, t <> tid -> <[tid := PcUnlock k (Some (p, Some iid))]> (ss_threads x) !! t = ss_threads x !! t)
    by (intros; by rewrite lookup_insert_ne).
  apply (calm_step_inv gone gone x _ tid H); cbn [ss_route ss_goto ss_set ss_threads ss_created]; [exact Ho|done|..].
  - intros t pc _ Hpc. eapply pc_ok_ext; [apply H|done|]. by eapply ci_threads.
  - intros pc. rewrite lookup_insert_eq. intros [= <-]. split; [by apply (idat_ext _ _ _ _ He)|].
    intros k' [= <-]. rewrite Hh. split; [by eapply (ci_held _ _ H)|right; eauto].
  - intros k' Hk. left. by rewrite Hh.
  - intros iid' s' Hc. apply (accounted_step gone gone x _ tid H); [exact Ho|done..| |].
    + intros Hrd. destruct (decide (s' = s)) as [->|]; [|right; right; left; by apply Hrt]. destruct Hrd as (q & Hq' & Hi).
      right; right; right. exists tid. eexists. split; [apply lookup_insert_eq|]. cbn.
      destruct (Hq q Hq') as [->|Hn]; congruence.
    + intros pc Hpc. rewrite Ht in Hpc. by injection Hpc as <-.
Qed.

Lemma step_delete gone x tid p iid :
  calm_inv gone x -> ss_threads x !! tid = Some (PcDelete p (Some iid)) -> calm_inv gone (ss_delete tid [iid] x).
Proof.
  intros H Ht. assert (Ho : forall t, t <> tid -> delete tid (ss_threads x) !! t = ss_threads x !! t)
    by (intros; by rewrite lookup_delete_ne).
  apply (calm_step_inv gone gone x _ tid H); cbn [ss_route ss_delete ss_threads ss_created]; [exact Ho|apply H|..].
  - intros t pc _ Hpc. by eapply ci_threads.
  - intros pc. by rewrite lookup_delete_eq.
  - intros k Hk. by left.
  - intros iid' s Hc. apply (accounted_step gone gone x _ tid H); [exact Ho|done|cbn; set_solver|done| |].
    + intros Hr. by right; right; left.
    + intros pc Hpc. rewrite Ht in Hpc. injection Hpc as <-. cbn. intros <-. left. cbn. set_solver.
Qed.

(** What a step creates. *)
Definition creates_only (created : option stInstance) x x' : Prop :=
  forall id, is_Some (ss_created x' !! id) -> is_Some (ss_created x !! id) \/ (exists i, created = Some i /\ id = sn_InstanceID i).

Lemma creates_same created x y : ss_created y = ss_created x -> creates_only created x y.
Proof. intros E id. rewrite E. by left. Qed.
#[local] Hint Resolve creates_same : core.

Lemma step_wait gone x tid k op :
  calm_inv gone x -> ss_threads x !! tid = Some (PcWait k op) -> k ∉ sr_held (ss_route x) ->
  calm_inv gone (ss_goto (set_held ({[k]} ∪ sr_held (ss_route x)) (ss_route x)) tid (PcHeld k op) x).
Proof.
  intros H Ht Hk. apply (calm_simple gone x _ tid); cbn; try done.
  - intros t Hne. by rewrite lookup_insert_ne.
  - intros pc. rewrite lookup_insert_eq. intros [= <-]. split; [by apply (ci_threads _ _ H _ _ Ht)|].
    intros k' [= <-]. split; [set_solver|by left].
  - intros k' Hk'. left. set_solver.
  - intros pc s iid Hpc. rewrite Ht in Hpc. by injection Hpc as <-.
Qed.

Ltac goes_to H Ht := eapply calm_goto; [exact H|exact Ht|apply same_refl|done| |by right|done].

Lemma step_held_acquire consistent gone x tid k s x' :
  calm_inv gone x -> ss_threads x !! tid = Some (PcHeld k (OpAcquire s)) ->
  thread_step consistent 0 tid None x = Some x' -> calm_inv gone x' /\ ss_created x' = ss_created x.
Proof.
  intros H Ht Hs. step_in Hs. rewrite Ht in Hs. pose proof (ci_threads _ _ H _ _ Ht) as Hok.
  destruct (sr_stateRoute (ss_route x) !! s) as [p|] eqn:Ep; cbn in Hs; unfold getStateInstance in Hs; rewrite Ep in Hs; cbn in Hs.
  - destruct (sr_heap (ss_route x) !! p) as [o|] eqn:Eo; cbn in Hs.
    + destruct (Z.eqb_spec (si_status o) InstanceOk) as [|N0]; [|destruct (Z.eqb_spec (si_status o) InstanceAbnormal) as [|N1]; [|destruct consistent]];
        injection Hs as <-; (split; [|done]).
      * by goes_to H Ht.
      * by eapply calm_answer; [exact H|exact Ht|..|intros ?? []].
      * by eapply calm_answer; [exact H|exact Ht|..|intros ?? []].
      * goes_to H Ht. split; [done|]. intros q Hq. rewrite Ep in Hq. injection Hq as <-.
        unfold idat. rewrite Eo. cbn. destruct (si_instance o) eqn:Ei; [|done].
        by destruct (ro_status _ (ci_route _ _ H) _ _ _ Eo Ei).
    + by destruct (ro_route _ (ci_route _ _ H) _ _ Ep) as [? ?]; congruence.
  - injection Hs as <-. split; [|done]. goes_to H Ht. split; [done|]. intros q. by rewrite Ep.
Qed.

Lemma step_held_scale consistent gone x tid k s iid x' :
  calm_inv gone x -> ss_threads x !! tid = Some (PcHeld k (OpScaleDown s iid)) ->
  thread_step consistent 0 tid None x = Some x' -> calm_inv gone x' /\ ss_created x' = ss_created x.
Proof.
  intros H Ht Hs. step_in Hs. rewrite Ht in Hs. pose proof (ci_threads _ _ H _ _ Ht) as Hok.
  destruct (sr_stateRoute (ss_route x) !! s) as [p|] eqn:Ep; unfold getStateInstance in Hs; rewrite Ep in Hs; cbn in Hs.
  - destruct (sr_heap (ss_route x) !! p) as [o|] eqn:Eo; cbn in Hs.
    + destruct (si_instance o) as [i|] eqn:Ei; [|done].
      destruct (String.eqb_spec (sn_InstanceID i) iid) as [<-|]; injection Hs as <-; (split; [|done]).
      * goes_to H Ht. split; [done|]. split; [unfold idat; by rewrite Eo; cbn; rewrite Ei|].
        intros q Hq. left. congruence.
      * by goes_to H Ht.
    + injection Hs as <-. split; [|done]. by goes_to H Ht.
  - injection Hs as <-. split; [|done]. by goes_to H Ht.
Qed.

Lemma same_leaser_of c s i r : same_route r (leaser_of c s i r).2 /\ sr_held (leaser_of c s i r).2 = sr_held r.
Proof. unfold leaser_of. destruct (sr_stateLeaseManager r !! i); split; try done. split; cbn; try done. lia. Qed.
Lemma same_on_leaser {A : Type} a (f : Leaser -> A * Leaser) r y r' :
  on_leaser a f r = Some (y, r') -> same_route r r' /\ sr_held r' = sr_held r.
Proof.
  unfold on_leaser. destruct (sr_leasers r !! a) as [[[s i] l]|]; [|done]. destruct (f l). intros [= <- <-]. by split.
Qed.

Lemma thread_step_calm consistent concurrentNum gone x tid created x' :
  calm_inv gone x -> (forall i, created = Some i -> ss_created x !! sn_InstanceID i = None) ->
  thread_step consistent concurrentNum tid created x = Some x' ->
  calm_inv gone x' /\ creates_only created x x'.
Proof.
  intros H Hn Hs. destruct (ss_threads x !! tid) as [pc|] eqn:Ht.
  2:{ step_in Hs. rewrite Ht in Hs. injection Hs as <-. by auto. }
  pose proof (ci_threads _ _ H _ _ Ht) as Hok.
  destruct pc as [op|k op|k [s|s|s iid]|k s|k s i|k p|k i a|k [s|s|s iid] p|k [[p [iid|]]|]|p [iid|]|p s|s|p s]; try done;
    try (step_in Hs; rewrite Ht in Hs; cbn zeta in Hs).
  - destruct (sr_stateLocks (ss_route x) !! op_state op) as [k|] eqn:E; injection Hs as <-; (split; [|by auto]).
    + eapply calm_goto; [exact H|exact Ht|apply same_refl|done|cbn; by destruct op|by left|done].
    + by apply step_enter.
  - destruct (decide _) as [|Hk]; injection Hs as <-; [by auto|]. split; [|by auto]. by apply step_wait.
  - destruct (step_held_acquire consistent gone x tid k s x') as [? ?]; [done..| |by auto]. unfold thread_step. by rewrite Ht.
  - destruct (step_held_scale consistent gone x tid k s iid x') as [? ?]; [done..| |by auto]. unfold thread_step. by rewrite Ht.
  - destruct created as [i|]; injection Hs as <-.
    + split; [by apply step_create; auto|]. intros id. cbn. intros [s' Hid]. apply lookup_insert_Some in Hid as [[<- _]|[_ Hid]]; [right; eauto|left; eauto].
    + split; [|by auto]. by eapply calm_answer; [exact H|exact Ht|..|intros ?? []].
  - injection Hs as <-. split; [|by auto]. by apply step_created.
  - destruct (sr_heap (ss_route x) !! p) as [o|]; [|done]. cbn in Hs. destruct (si_instance o) as [i|]; [|done]. cbn in Hs.
    pose proof (same_leaser_of concurrentNum (si_StateID o) (sn_InstanceID i) (ss_route x)) as [Hsm Hh].
    destruct (leaser_of _ _ _ _) as [a r]. injection Hs as <-. split; [|by auto].
    eapply calm_goto; [exact H|exact Ht|done|done|done|by right|done].
  - destruct (on_leaser a AcquireLease (ss_route x)) as [[[id|e] r]|] eqn:E; [| |done]; injection Hs as <-; (split; [|by auto]);
      apply same_on_leaser in E as [Hsm Hh]; by eapply calm_answer; [exact H|exact Ht|..|intros ?? []].
  - injection Hs as <-. split; [|by auto]. by apply step_remove.
  - injection Hs as <-. split; [|by auto]. eapply (calm_unlocked gone x _ tid); [exact H|exact Ht|done|by split|done|..]; try done.
    + intros t Hne. cbn. by rewrite lookup_insert_ne.
    + cbn. intros pc. rewrite lookup_insert_eq. by intros [= <-].
    + cbn. intros s iid' ->. exists (PcDelete p (Some iid')). by rewrite lookup_insert_eq.
  - injection Hs as <-. split; [|by auto]. eapply (calm_unlocked gone x _ tid); [exact H|exact Ht|done|by split|done|..]; try done.
    + intros t Hne. cbn. by rewrite lookup_delete_ne.
    + cbn. intros pc. by rewrite lookup_delete_eq.
  - cbn in Hok. unfold idat in Hok. destruct (sr_heap (ss_route x) !! p) as [o|]; [|done]. cbn in Hok.
    destruct (si_instance o) as [i|]; [|done]. injection Hok as Hi. rewrite Hi, String.eqb_refl in Hs.
    injection Hs as <-. split; [|by auto]. by eapply step_delete.
Qed.

(** *** Events of instances *)

Lemma findState_Some order iid r s p :
  findState order iid r = Some (s, p) -> sr_stateRoute r !! s = Some p /\ idat r p = Some iid.
Proof.
  unfold findState. destruct (List.find (names iid r) order) as [s'|] eqn:E; [|done]. apply List.find_some in E as [_ E].
  unfold names in E. destruct (sr_stateRoute r !! s') as [q|] eqn:Eq; [|done]. intros [= <- <-]. split; [done|].
  unfold idat. destruct (sr_heap r !! q) as [[sid st [i|]]|]; try done. cbn. apply String.eqb_eq in E. by rewrite E.
Qed.

(** A change that keeps the instances where they are, made by no goroutine that
    is left. *)
Lemma calm_quiet gone x r :
  calm_inv gone x -> route_ok r -> ext (ss_route x) r -> sr_held r = sr_held (ss_route x) ->
  forall gone', gone ⊆ gone' -> (forall s iid, routed (ss_route x) s iid -> iid ∈ gone' \/ routed r s iid) ->
  calm_inv gone' (ss_set r (ss_threads x) x).
Proof.
  intros H Hr He Hh gone' Hg Hrt. assert (Hno : exists tid, ss_threads x !! tid = None) by (exists (fresh (dom (ss_threads x))); apply not_elem_of_dom, is_fresh).
  destruct Hno as [tid Hno]. apply (calm_step_inv gone gone' x _ tid H); cbn [ss_route ss_set ss_threads ss_created]; try done.
  - intros t pc _ Hpc. eapply pc_ok_ext; [apply H|done|]. by eapply ci_threads.
  - intros pc Hpc. congruence.
  - intros k Hk. left. by rewrite Hh.
  - intros iid s Hc. apply (accounted_step gone gone' x _ tid H); try done.
    + intros Hrd. destruct (Hrt s iid Hrd); [by right; left|by right; right; left].
    + intros pc Hpc. congruence.
Qed.

Lemma updated_facts consistent i s p r :
  route_ok r -> sr_stateRoute r !! s = Some p -> idat r p = Some (sn_InstanceID i) ->
  let r' := processStateRoute consistent p s stateUpdate (update_found i p r) in
  route_ok r' /\ ext r r' /\ sr_held r' = sr_held r /\ (forall s' iid, routed r s' iid -> routed r' s' iid).
Proof.
  intros Hr Hp Hi. unfold update_found. unfold idat in Hi. destruct (sr_heap r !! p) as [o|] eqn:Eo; [|done]. cbn zeta.
  set (o' := mkStateIns _ _ _). set (r1 := set_route _ _ _ _ r). unfold processStateRoute.
  assert (E1 : sr_heap r1 !! p = Some o') by apply lookup_insert_eq. rewrite E1. set (r2 := setStateInstance s p r1).
  destruct (same_update (input_of o' s) StateUpdate r2) as [Hs Hh]. set (r3 := state_Update _ _ r2) in *.
  assert (Er : sr_stateRoute r2 = sr_stateRoute r) by (cbn; by apply insert_id).
  assert (Hid : forall q, idat r2 q = idat r q).
  { intros q. unfold idat; cbn. destruct (decide (q = p)) as [->|]; [rewrite lookup_insert_eq, Eo; by cbn in *|by rewrite lookup_insert_ne]. }
  assert (H2 : route_ok r2).
  { destruct Hr as [R1 R2 R3 R4 R5]. split; cbn; rewrite ?(insert_id _ _ _ Hp); try done.
    - intros q oq [[<- _]|[_ Hq]]%lookup_insert_Some; by eapply R3.
    - intros s' q Hq. destruct (decide (q = p)) as [->|]; [rewrite lookup_insert_eq; eauto|rewrite lookup_insert_ne by done; by eapply R4].
    - intros q oq j [[<- <-]|[_ Hq]]%lookup_insert_Some Hj; [|by eapply R5]. cbn. unfold status_of.
      destruct (_ =? _); [by left|by right]. }
  pose proof (route_ok_same _ _ Hs H2) as H3. destruct Hs as [K1 K2 K3 K4].
  assert (Hid3 : forall q, idat r3 q = idat r q) by (intros q; rewrite <- Hid; unfold idat; by rewrite K1).
  split; [done|]. split; [|split; [done|]].
  - split; [by rewrite K3|by intros; rewrite Hid3|intros s'; left; by rewrite K2, Er].
  - intros s' iid (q & Hq & Hqi). exists q. by rewrite K2, Er, Hid3.
Qed.

(** Steps beside the goroutines, and the start of one. *)
Lemma calm_side gone x x' :
  calm_inv gone x -> same_route (ss_route x) (ss_route x') -> sr_held (ss_route x') = sr_held (ss_route x) ->
  ss_threads x' = ss_threads x -> ss_created x' = ss_created x -> ss_deleted x' = ss_deleted x -> calm_inv gone x'.
Proof.
  intros H Hs Hh Ht Hc Hd. set (tid := fresh (dom (ss_threads x))).
  assert (Hno : ss_threads x !! tid = None) by apply not_elem_of_dom, is_fresh.
  apply (calm_simple gone x _ tid); rewrite ?Ht, ?Hno; try done. intros k Hk. left. by rewrite Hh.
Qed.
Lemma calm_start gone x r tid op :
  calm_inv gone x -> same_route (ss_route x) r -> sr_held r = sr_held (ss_route x) -> ss_threads x !! tid = None ->
  match op with OpGetAndDelete _ => False | _ => True end -> calm_inv gone (ss_goto r tid (PcEnter op) x).
Proof.
  intros H Hs Hh Hno Hop. apply (calm_simple gone x _ tid); cbn; rewrite ?Hno; try done.
  - intros t Hne. by rewrite lookup_insert_ne.
  - intros pc. rewrite lookup_insert_eq. by intros [= <-].
  - intros k Hk. left. by rewrite Hh.
Qed.

Section Events.
Context (consistent : bool) (concurrentNum : Z).
Let run := st_run consistent concurrentNum.

Lemma calm_update gone x tid i order x' :
  calm_inv gone x -> run [EvUpdate tid i order; EvStep tid None] x = Some x' -> calm_inv gone x' /\ creates_only None x x'.
Proof.
  intros H Hs. unfold run in Hs. cbn [st_run st_step mbind option_bind] in Hs. unfold sr_HandleInstanceUpdate in Hs.
  assert (Hnone : forall y, thread_step consistent concurrentNum tid None x = Some y -> calm_inv gone y /\ creates_only None x y)
    by (intros y Hy; by eapply thread_step_calm).
  destruct (ss_threads x !! tid) as [pc|] eqn:Ht, (findState order (sn_InstanceID i) (ss_route x)) as [[s p]|] eqn:Ef,
    (String.eqb (sn_InstanceType i) InstanceTypeState); cbn in Hs;
    try (destruct (thread_step consistent concurrentNum tid None x); [|done]; injection Hs as <-; by apply Hnone).
  apply findState_Some in Ef as [Hp Hi]. step_in Hs. cbn in Hs. rewrite lookup_insert_eq in Hs.
  injection Hs as <-. cbn. rewrite delete_insert_id by done.
  destruct (updated_facts consistent i s p _ (ci_route _ _ H) Hp Hi) as (Hr & He & Hh & Hrt).
  split; [|by auto]. apply (calm_quiet gone x _ H Hr He Hh gone); [done|]. intros s' iid Hrd. right. by apply Hrt.
Qed.

Lemma creates_trans created x y z : creates_only created x y -> creates_only None y z -> creates_only created x z.
Proof. intros H1 H2 id Hid. destruct (H2 id Hid) as [Hy|(? & [=] & _)]. by apply H1. Qed.

Lemma steps_calm gone x tid n x' :
  calm_inv gone x -> run (replicate n (EvStep tid None)) x = Some x' -> calm_inv gone x' /\ creates_only None x x'.
Proof.
  revert x. induction n as [|n IH]; intros x H Hs; cbn in Hs; [injection Hs as <-; by auto|].
  destruct (thread_step consistent concurrentNum tid None x) as [y|] eqn:E; [|done]. cbn in Hs.
  apply thread_step_calm with (gone := gone) in E as [Hy Hc]; [|done|done].
  destruct (IH y Hy Hs) as [Hx' Hc']. split; [done|]. by eapply creates_trans.
Qed.

Lemma calm_gone_inv gone x tid iid order x' :
  calm_inv gone x -> run [EvGone tid iid order; EvStep tid None; EvStep tid None] x = Some x' ->
  calm_inv (gone ++ [iid]) x' /\ creates_only None x x'.
Proof.
  intros H Hs. assert (Hmono : forall y, calm_inv gone y -> calm_inv (gone ++ [iid]) y).
  { intros y [I1 I2 I3 I4 I5]. split; try done. intros j s Hj. destruct (I5 j s Hj) as [?|[?|?]]; [by left|right; left; set_solver|by right; right]. }
  assert (Hno : run (replicate 2 (EvStep tid None)) x = Some x' -> calm_inv (gone ++ [iid]) x' /\ creates_only None x x').
  { intros Hr. destruct (steps_calm gone x tid 2 x' H Hr) as [? ?]. by auto. }
  unfold run in Hs, Hno. cbn [st_run st_step mbind option_bind] in Hs. unfold DeleteStateInstanceByInstanceID in Hs.
  destruct (findState order iid (ss_route x)) as [[s p]|] eqn:Ef; [|by apply Hno]. unfold spawn in Hs.
  destruct (ss_threads x !! tid) as [pc|] eqn:Ht; [by apply Hno|]. apply findState_Some in Ef as [Hp Hi].
  step_in Hs; unfold getStateInstance in Hs. cbn in Hs. rewrite lookup_insert_eq in Hs. cbn in Hs. rewrite Hp in Hs. cbn in Hs.
  rewrite lookup_insert_eq in Hs. cbn in Hs. injection Hs as <-. cbn. rewrite insert_insert_eq, delete_insert_id by done.
  destruct (removed_facts consistent p s _ (ci_route _ _ H) (ro_route _ (ci_route _ _ H) _ _ Hp)) as (Hr & He & Hh & Hrt).
  split; [|by auto]. apply (calm_quiet gone x _ H Hr He Hh); [set_solver|]. intros s' j Hj.
  destruct (decide (s' = s)) as [->|]; [|right; by apply Hrt]. left. destruct Hj as (q & Hq & Hqi).
  rewrite Hp in Hq. injection Hq as <-. rewrite Hi in Hqi. injection Hqi as <-. set_solver.
Qed.

Lemma with_leaser_frame iid alloc f x :
  let y := (with_leaser iid alloc f x).2 in
  same_route (ss_route x) (ss_route y) /\ sr_held (ss_route y) = sr_held (ss_route x) /\ ss_threads y = ss_threads x /\
  ss_created y = ss_created x /\ ss_deleted y = ss_deleted x.
Proof.
  unfold with_leaser. destruct (ss_pm x !! iid) as [a|]; [|by auto]. destruct (getLeaseIdFromAllocationId alloc) as [id|]; [|by auto].
  destruct (on_leaser a (f id) (ss_route x)) as [[ok r]|] eqn:E; [|by auto]. by apply same_on_leaser in E as [? ?].
Qed.
Lemma run1 ev x : run [ev] x = st_step consistent concurrentNum x ev.
Proof. unfold run. cbn. by destruct (st_step consistent concurrentNum x ev). Qed.

Lemma calm_event_inv gone x c x' :
  calm_inv gone x -> (forall id, id ∈ calm_ids c -> ss_created x !! id = None) -> run (calm_steps c) x = Some x' ->
  calm_inv (gone ++ calm_gone c) x' /\ (forall id, is_Some (ss_created x' !! id) -> is_Some (ss_created x !! id) \/ id ∈ calm_ids c).
Proof.
  intros H Hn Hs. assert (Hdone : forall y, calm_inv gone y -> ss_created y = ss_created x -> calm_gone c = [] ->
    calm_inv (gone ++ calm_gone c) y /\ (forall id, is_Some (ss_created y !! id) -> is_Some (ss_created x !! id) \/ id ∈ calm_ids c)).
  { intros y Hy E ->. rewrite app_nil_r, E. by auto. }
  assert (Hnone : forall g y, calm_inv g y /\ creates_only None x y -> calm_inv g y /\ (forall id, is_Some (ss_created y !! id) -> is_Some (ss_created x !! id) \/ id ∈ calm_ids c)).
  { intros g y [Hy Hc]. split; [done|]. intros id Hid. destruct (Hc id Hid) as [?|(? & [=] & _)]. by left. }
  destruct c as [tid s|tid created|tid i order|tid iid order|a t|tid a t| |iid alloc|iid alloc|d i]; cbn [calm_steps] in Hs;
    try (rewrite run1 in Hs; cbn [st_step] in Hs).
  - injection Hs as <-. unfold spawn. destruct (ss_threads x !! tid) eqn:Ht; apply Hdone; try done. by apply calm_start.
  - cbn [calm_gone]. rewrite app_nil_r. apply (thread_step_calm consistent concurrentNum gone) in Hs as [Hy Hc]; [|done|].
    + split; [done|]. intros id Hid. destruct (Hc id Hid) as [?|(i & -> & ->)]; [by left|right; cbn; set_solver].
    + intros i ->. apply Hn. cbn. set_solver.
  - cbn [calm_gone]. rewrite app_nil_r. apply Hnone. by apply (calm_update gone x tid i order).
  - apply Hnone. by apply (calm_gone_inv gone x tid iid order).
  - destruct (on_leaser a _ (ss_route x)) as [[[] r]|] eqn:E; injection Hs as <-; apply Hdone; try done.
    apply same_on_leaser in E as [? ?]. by apply (calm_side gone x).
  - destruct (ss_threads x !! tid) eqn:Ht; [injection Hs as <-; by apply Hdone|].
    destruct (on_leaser a _ (ss_route x)) as [[b r]|] eqn:E; [|injection Hs as <-; by apply Hdone].
    apply same_on_leaser in E as [? ?]. destruct (sr_leasers (ss_route x) !! a) as [[[s iid] l]|]; injection Hs as <-; [|by apply Hdone].
    destruct b; apply Hdone; try done; [by apply calm_start|by apply (calm_side gone x)].
  - unfold updateState in Hs. destruct (sr_queue (ss_route x)) as [|[i tag] q]; [injection Hs as <-; by apply Hdone|].
    destruct (match tag with StateUpdate => _ | StateDelete => _ end) as [m|]; [|done]. injection Hs as <-.
    apply Hdone; try done. by apply (calm_side gone x).
  - injection Hs as <-. destruct (with_leaser_frame iid alloc (fun id l => (true, ReleaseLease id l)) x) as (? & ? & ? & ? & ?).
    apply Hdone; try done. by apply (calm_side gone x).
  - injection Hs as <-. destruct (with_leaser_frame iid alloc RetainLease x) as (? & ? & ? & ? & ?).
    apply Hdone; try done. by apply (calm_side gone x).
  - injection Hs as <-. unfold updateStateLeaseMgrForHandleInstanceEvent. destruct (_ || _); [|by apply Hdone].
    destruct (ss_pm x !! sn_InstanceID i) as [a|]; [|by apply Hdone].
    destruct (on_leaser a _ (ss_route x)) as [[[] r]|] eqn:E; [|by apply Hdone]. apply same_on_leaser in E as [? ?].
    apply Hdone; try done. by apply (calm_side gone x).
Qed.
End Events.

Lemma new_calm saved : calm_inv [] (new_states saved).
Proof. by split. Qed.

Lemma st_run_app consistent n evs1 evs2 x :
  st_run consistent n (evs1 ++ evs2) x = st_run consistent n evs1 x ≫= st_run consistent n evs2.
Proof.
  revert x. induction evs1 as [|ev evs1 IH]; intros x; [done|]. cbn. destruct (st_step consistent n x ev); [apply IH|done].
Qed.
Lemma calm_run_inv consistent n cs gone x x' :
  calm_inv gone x -> NoDup (concat (map calm_ids cs)) ->
  (forall id, id ∈ concat (map calm_ids cs) -> ss_created x !! id = None) ->
  calm_run consistent n cs x = Some x' -> calm_inv (gone ++ concat (map calm_gone cs)) x'.
Proof.
  revert gone x. induction cs as [|c cs IH]; intros gone x H Hnd Hn Hr; cbn in *.
  { injection Hr as <-. by rewrite app_nil_r. }
  unfold calm_run in Hr. cbn in Hr. rewrite st_run_app in Hr.
  destruct (st_run consistent n (calm_steps c) x) as [y|] eqn:E; [|done]. apply NoDup_app in Hnd as (_ & Hd & Hnd).
  destruct (calm_event_inv consistent n gone x c y H) as [Hy Hc]; [set_solver|done|]. rewrite app_assoc.
  apply (IH _ y Hy Hnd); [|done]. intros id Hid. destruct (ss_created y !! id) eqn:Ey; [|done].
  destruct (Hc id (mk_is_Some _ _ Ey)) as [[s' Hs]|Hid']; [|by apply Hd in Hid'].
  rewrite (Hn id) in Hs; [done|]. set_solver.
Qed.

(** C8: no instance of a state is lost.  As long as no state is deleted by
    request and the event of an instance is handled without a step of others in
    between, each instance that was created is the one in the route of its state,
    or a goroutine is about to put it there, or its deletion is asked for or about
    to be, or it was reported gone; and two goroutines never create an instance
    for one state at the same time. *)
Theorem no_state_instance_lost consistent concurrentNum saved cs x :
  NoDup (concat (map calm_ids cs)) -> calm_run consistent concurrentNum cs (new_states saved) = Some x ->
  (forall iid s, ss_created x !! iid = Some s -> accounted (concat (map calm_gone cs)) x iid s) /\
  (forall t1 t2 k1 k2 s, ss_threads x !! t1 = Some (PcCreate k1 s) -> ss_threads x !! t2 = Some (PcCreate k2 s) -> t1 = t2).
Proof.
  intros Hnd Hr. pose proof (calm_run_inv consistent concurrentNum cs [] _ x (new_calm saved) Hnd) as H.
  specialize (H ltac:(done) Hr). split; [apply H|]. intros t1 t2 k1 k2 s H1 H2.
  destruct (ci_threads _ _ H _ _ H1) as [L1 _], (ci_threads _ _ H _ _ H2) as [L2 _].
  apply (ci_excl _ _ H t1 t2 _ _ k1 H1 H2); cbn; congruence.
Qed.

(** ** Runs *)

Definition demo_instance (id : string) : stInstance := mkStIns id "f" "sig" InstanceTypeState 3.
Definition demo_saved : gmap string (gmap string stInstance) := {["f" := ∅]}.
Definition acquire_steps (tid : nat) (s id : string) : list st_event :=
  EvRequest tid (OpAcquire s) :: replicate 3 (EvStep tid None) ++ EvStep tid (Some (demo_instance id)) :: replicate 3 (EvStep tid None).
Lemma no_state_instance_lost_witness :
  exists x, calm_run false 1
      (CeAcquire 0 "s" :: replicate 3 (CeStep 0 None) ++ CeStep 0 (Some (demo_instance "i")) :: replicate 3 (CeStep 0 None))
      (new_states demo_saved) = Some x /\
    ss_created x !! "i" = Some "s" /\ accounted [] x "i" "s".
Proof.
  eexists. split; [vm_compute; reflexivity|]. split; [reflexivity|].
  eapply (no_state_instance_lost false 1 demo_saved
            (CeAcquire 0 "s" :: replicate 3 (CeStep 0 None) ++ CeStep 0 (Some (demo_instance "i")) :: replicate 3 (CeStep 0 None)));
    [repeat constructor; set_solver|vm_compute; reflexivity|reflexivity].
Defined.

Lemma pm_step consistent concurrentNum x x' ev :
  ss_pm x = ∅ -> st_step consistent concurrentNum x ev = Some x' -> ss_pm x' = ∅.
Proof.
  intros Hx Hs. destruct ev as [tid op|tid created|tid i order|tid iid order|a t|tid a t| |iid alloc|iid alloc|d i|]; cbn in Hs.
  all: try (step_in Hs; unfold sr_HandleInstanceUpdate, DeleteStateInstanceByInstanceID, spawn in Hs; repeat (case_match; simplify_eq/=; try done); fail).
  - unfold updateState in Hs. destruct (sr_queue (ss_route x)) as [|[i tag] q]; [by simplify_eq|].
    destruct (match tag with StateUpdate => _ | StateDelete => _ end); by simplify_eq/=.
  - unfold ReleaseStateThread, with_leaser in Hs. rewrite Hx, lookup_empty in Hs. by simplify_eq/=.
  - unfold RetainStateThread, with_leaser in Hs. rewrite Hx, lookup_empty in Hs. by simplify_eq/=.
  - unfold updateStateLeaseMgrForHandleInstanceEvent in Hs. rewrite Hx, lookup_empty in Hs. destruct (_ || _); by simplify_eq/=.
  - by simplify_eq/=.
Qed.

(** C38: without a restart no lease on a state can be released or retained: the
    pool manager looks for the leaser in a map of its own, to which only a
    restart adds, and answers that there is none, whatever has happened. *)
Theorem state_lease_unreachable consistent concurrentNum saved evs x instanceID alloc :
  st_run consistent concurrentNum evs (new_states saved) = Some x ->
  ReleaseStateThread instanceID alloc x = (LeaserNil, x) /\ RetainStateThread instanceID alloc x = (LeaserNil, x).
Proof.
  intros Hr. enough (E : ss_pm x = ∅) by (unfold ReleaseStateThread, RetainStateThread, with_leaser; by rewrite E, lookup_empty).
  assert (E0 : ss_pm (new_states saved) = ∅) by done. revert E0 Hr. generalize (new_states saved).
  induction evs as [|ev evs IH]; intros y E0 Hr; cbn in Hr; [by injection Hr as <-|].
  destruct (st_step consistent concurrentNum y ev) eqn:E; [|done]. eapply IH; [|done]. by eapply pm_step.
Qed.

Lemma state_lease_unreachable_witness :
  exists x, st_run false 1 (acquire_steps 0 "s" "i") (new_states demo_saved) = Some x /\
    ss_results x = [(0%nat, inl "i-stateThread0")] /\ (ReleaseStateThread "i" "i-stateThread0" x).1 = LeaserNil.
Proof.
  eexists. split; [vm_compute; reflexivity|]. split; [reflexivity|].
  match goal with |- context [ReleaseStateThread _ _ ?x] =>
    destruct (state_lease_unreachable false 1 demo_saved (acquire_steps 0 "s" "i") x "i" "i-stateThread0") as [H _] end;
    [vm_compute; reflexivity|]. by rewrite H.
Defined.

(** The leaser's timers: the lease ends, the instance is given up, and the
    goroutine of the second runs. *)
Definition give_up_steps (tid a : nat) (n : nat) : list st_event :=
  [EvFire a 0; EvCallback tid a 0; EvFire a 1; EvCallback tid a 1] ++ replicate n (EvStep tid None).

(** A request to delete a state also drops its lock, while another goroutine
    waits for it: two goroutines create an instance for one state, and the first
    of the instances is never deleted, not even when its lease has ended. *)
Theorem lock_deleted_two_instances :
  exists x, st_run false 1
      (acquire_steps 0 "s" "i1" ++ EvRequest 1 (OpGetAndDelete "s") :: replicate 3 (EvStep 1 None) ++
       EvRequest 2 (OpAcquire "s") :: EvStep 2 None :: replicate 3 (EvStep 1 None) ++ replicate 2 (EvStep 2 None) ++
       EvRequest 3 (OpAcquire "s") :: replicate 3 (EvStep 3 None) ++
       EvStep 2 (Some (demo_instance "i2")) :: replicate 3 (EvStep 2 None) ++
       EvStep 3 (Some (demo_instance "i3")) :: replicate 3 (EvStep 3 None) ++ give_up_steps 4 5 4) (new_states demo_saved) = Some x /\
    ss_threads x = ∅ /\ ss_created x !! "i2" = Some "s" /\ ss_deleted x = ["i1"] /\ routed (ss_route x) "s" "i3".
Proof. eexists. split; [vm_compute; reflexivity|]. split_and!; try reflexivity. eexists. split; vm_compute; reflexivity. Qed.

(** An update that is overtaken by the deletion of its state puts the state
    back, with an instance that is deleted. *)
Theorem update_resurrects_state :
  exists x, st_run false 1
      (acquire_steps 0 "s" "i" ++ EvUpdate 1 (demo_instance "i") ["s"] :: EvRequest 2 (OpGetAndDelete "s") :: replicate 6 (EvStep 2 None) ++
       [EvStep 1 None]) (new_states demo_saved) = Some x /\
    ss_threads x = ∅ /\ ss_deleted x = ["i"] /\ routed (ss_route x) "s" "i".
Proof. eexists. split; [vm_compute; reflexivity|]. split_and!; try reflexivity. eexists. split; vm_compute; reflexivity. Qed.

(** After a restart a state that is acquired has two leasers.  Where the states
    end with their instances, the second that gives the instance up finds the
    state without one, and the process ends. *)
Theorem second_leaser_crashes :
  let saved : gmap string (gmap string stInstance) := {["f" := {["s" := demo_instance "i"]}]} in
  let x := RecoverInstancePool 1 "f" (Some {["i" := 3]}) saved in
  let before := EvRequest 0 (OpAcquire "s") :: replicate 5 (EvStep 0 None) ++ give_up_steps 1 3 6 in
  is_Some (st_run true 1 before x) /\
  st_run true 1 (before ++ [EvFire 1 0; EvCallback 2 1 0] ++ replicate 3 (EvStep 2 None)) x = None.
Proof. split; [eexists|]; vm_compute; reflexivity. Qed.

(** Nothing makes the entry of a function in what is saved: the first instance
    of a state that is to be saved ends the process. *)
Theorem first_save_crashes :
  is_Some (st_run false 1 (acquire_steps 0 "s" "i") (new_states ∅)) /\
  st_run false 1 (acquire_steps 0 "s" "i" ++ [EvSave]) (new_states ∅) = None.
Proof. split; [eexists|]; vm_compute; reflexivity. Qed.

(** A state that ended with its instance and is then deleted by request stays
    saved, and is there again after a restart. *)
Theorem deleted_state_returns :
  exists x, st_run true 1
      (acquire_steps 0 "s" "i" ++ give_up_steps 1 2 6 ++ EvRequest 2 (OpGetAndDelete "s") :: replicate 6 (EvStep 2 None) ++
       replicate 3 EvSave) (new_states demo_saved) = Some x /\
    ss_threads x = ∅ /\ sr_queue (ss_route x) = [] /\ sr_stateRoute (ss_route x) = ∅ /\
    is_Some (sr_stateRoute (ss_route (RecoverInstancePool 1 "f" None (ss_saved x))) !! "s").
Proof. eexists. split; [vm_compute; reflexivity|]. split_and!; try reflexivity. eexists. vm_compute. reflexivity. Qed.

Lemma Replace1_prefix old s : old <> "" -> Replace1 old (old ++ s)%string = s.
Proof.
  intros Hne. pose proof (HasPrefix_app old s) as Hp. pose proof (string_length_app old s) as Hl. pose proof (substring_app old s) as Hs.
  destruct old as [|c o]; [done|]. change (String c o ++ s)%string with (String c (o ++ s)%string) in *. cbn [Replace1]. rewrite Hp, Hl, Nat.add_comm, Nat.add_sub. exact Hs.
Qed.

(** The number of a lease is read back from its allocation, whatever the name of
    the instance. *)
Theorem lease_id_roundtrip instanceID id :
  0 <= id < 2 ^ 63 -> getLeaseIdFromAllocationId (allocationID instanceID id) = Some id.
Proof.
  intros Hid. unfold getLeaseIdFromAllocationId, allocationID.
  change ("-stateThread" ++ Itoa id)%string with (String "-"%char ("stateThread" ++ Itoa id)%string).
  assert (Hf : free_of "-" ("stateThread" ++ Itoa id)%string) by (apply free_of_app; [done|by apply Itoa_free; [|right; lia]]).
  rewrite last_Split by done.
  rewrite (Replace1_prefix "stateThread") by done. by apply Atoi_Itoa.
Qed.
