(* ===== verification/OneShotPool.v ===== *)
(** * The pool of instances that serve one request

    [OneShotInstancePool] (pkg/functionscaler/instancepool/oneshot_instance_pool.go)
    creates an instance for every request and deletes it when the request is
    over, or when it has lasted too long.  Creating and deleting are calls of the
    outside; a deletion runs in a goroutine of its own, and so does the timer
    that cleans an instance up: stopping a timer that has fired does nothing. *)
From S2P Require Import Prelude SchedErrors.
#[local] Open Scope string_scope.
#[local] Open Scope list_scope.

(** What the pool takes from a function's specification. *)
Record oneShotSpec := mkOneShotSpec {
  of_done : bool;   (* FuncCtx.Done() *)
  of_defaultResKey : string;
  of_poolLabel : string;
  of_signature : string;
  of_enableSessionCtx : bool
}.
Record createInstanceRequest := mkCreateReq {
  cr_poolLabel : string; cr_faasManager : string; cr_resKey : string; cr_instanceName : string; cr_sessionCtxID : option string
}.
Record oneShotInstanceRecord := mkOneShot { os_instance : string; os_cleanupTimer : nat }.

(** [op_armed] and [op_fired] are the clean-up timers, with the allocation and the
    instance they are for; [op_deleting] the goroutines that are about to delete;
    [op_deleted] the deletions that were asked for. *)
Record OneShotInstancePool := mkOneShotPool {
  op_funcSpec : oneShotSpec;
  op_faasManagerInfo : string;
  op_activeInstances : gmap string oneShotInstanceRecord;
  op_armed : gmap nat string;
  op_fired : gmap nat string;
  op_deleting : list string;
  op_deleted : list string;
  op_nextTimer : nat
}.
Implicit Types (op : OneShotInstancePool) (id : string) (t : nat).

Definition NewOneShotInstancePool (spec : oneShotSpec) (faasManager : string) : OneShotInstancePool :=
  mkOneShotPool spec faasManager ∅ ∅ ∅ [] [] 0.
Definition op_set active armed deleting op : OneShotInstancePool :=
  mkOneShotPool (op_funcSpec op) (op_faasManagerInfo op) active armed (op_fired op) deleting (op_deleted op) (op_nextTimer op).

Notation FuncMetaNotFoundErr := (SNError 150424 "function metadata not found").

Definition createRequest (instanceName : string) (resKey : option string) (sessionCtxID : option string) op : createInstanceRequest :=
  mkCreateReq (of_poolLabel (op_funcSpec op)) (op_faasManagerInfo op) (default (of_defaultResKey (op_funcSpec op)) resKey)
    instanceName sessionCtxID.

(** The requests up to the call that creates an instance, and what follows with
    its answer. *)
Definition CreateInstance_begin (instanceName : string) (resKey : option string) op : createInstanceRequest + goError :=
  if of_done (op_funcSpec op) then inr FuncMetaNotFoundErr else inl (createRequest instanceName resKey None op).
Definition AcquireInstance_begin (resKey : option string) (sessionCtxID : string) op : createInstanceRequest + goError :=
  if of_done (op_funcSpec op) then inr FuncMetaNotFoundErr
  else inl (createRequest "" resKey (if of_enableSessionCtx (op_funcSpec op) then Some sessionCtxID else None) op).
Definition AcquireInstance_end (created : string + string) op : (string + goError) * OneShotInstancePool :=
  match created with
  | inr message => (inr (SNError 150500 message), op)
  | inl id =>
      let t := op_nextTimer op in
      (inl id,
       mkOneShotPool (op_funcSpec op) (op_faasManagerInfo op) (<[id := mkOneShot id t]> (op_activeInstances op))
         (<[t := id]> (op_armed op)) (op_fired op) (op_deleting op) (op_deleted op) (S t))
  end.
Definition DeleteInstance_begin id op : option goError :=
  if of_done (op_funcSpec op) then Some FuncMetaNotFoundErr else None.

Definition one_ReleaseInstance id op : OneShotInstancePool :=
  match op_activeInstances op !! id with
  | Some record => op_set (delete id (op_activeInstances op)) (delete (os_cleanupTimer record) (op_armed op)) (op_deleting op ++ [id]) op
  | None => op_set (op_activeInstances op) (op_armed op) (op_deleting op ++ [id]) op
  end.

(** The timer fires; its goroutine gets the lock. *)
Definition cleanup_fires t op : OneShotInstancePool :=
  match op_armed op !! t with
  | Some id => mkOneShotPool (op_funcSpec op) (op_faasManagerInfo op) (op_activeInstances op) (delete t (op_armed op))
                 (<[t := id]> (op_fired op)) (op_deleting op) (op_deleted op) (op_nextTimer op)
  | None => op
  end.
Definition autoCleanupInstance t op : OneShotInstancePool :=
  match op_fired op !! t with
  | None => op
  | Some id =>
      let op := mkOneShotPool (op_funcSpec op) (op_faasManagerInfo op) (op_activeInstances op) (op_armed op)
                  (delete t (op_fired op)) (op_deleting op) (op_deleted op) (op_nextTimer op) in
      match op_activeInstances op !! id with
      | Some record => op_set (delete id (op_activeInstances op)) (op_armed op) (op_deleting op ++ [os_instance record]) op
      | None => op
      end
  end.
Definition deleteInstanceInternal (n : nat) op : OneShotInstancePool :=
  match op_deleting op !! n with
  | Some id => mkOneShotPool (op_funcSpec op) (op_faasManagerInfo op) (op_activeInstances op) (op_armed op) (op_fired op)
                 (delete n (op_deleting op)) (op_deleted op ++ [id]) (op_nextTimer op)
  | None => op
  end.

Definition cleanupAllInstances op : OneShotInstancePool :=
  let records := (map_to_list (op_activeInstances op)).*2 in
  op_set ∅ (foldr (fun record => delete (os_cleanupTimer record)) (op_armed op) records)
    (op_deleting op ++ map os_instance records) op.
Definition set_spec (spec : oneShotSpec) op : OneShotInstancePool :=
  mkOneShotPool spec (op_faasManagerInfo op) (op_activeInstances op) (op_armed op) (op_fired op) (op_deleting op) (op_deleted op)
    (op_nextTimer op).
Definition handleFunctionUpdate (spec : oneShotSpec) op : OneShotInstancePool :=
  let oldSig := of_signature (op_funcSpec op) in
  let op := set_spec spec op in
  if String.eqb oldSig (of_signature spec) then op else cleanupAllInstances op.
Definition handleFunctionDelete op : OneShotInstancePool := cleanupAllInstances op.
(** The instance is gone: its record goes, found in some order of the map. *)
Definition one_HandleInstanceDelete id (order : list string) op : OneShotInstancePool :=
  match List.find (fun alloc => match op_activeInstances op !! alloc with
                                | Some record => String.eqb (os_instance record) id | None => false end) order with
  | Some alloc =>
      match op_activeInstances op !! alloc with
      | Some record => op_set (delete alloc (op_activeInstances op)) (delete (os_cleanupTimer record) (op_armed op)) (op_deleting op) op
      | None => op
      end
  | None => op
  end.
Definition one_HandleFaaSManagerUpdate (info : string) op : OneShotInstancePool :=
  mkOneShotPool (op_funcSpec op) info (op_activeInstances op) (op_armed op) (op_fired op) (op_deleting op) (op_deleted op)
    (op_nextTimer op).

Inductive op_event :=
| OeCreated (id : string)
| OeRelease (id : string)
| OeFire (t : nat)
| OeCleanup (t : nat)
| OeDelete (n : nat)
| OeUpdate (spec : oneShotSpec)
| OeFunctionDeleted
| OeInstanceDeleted (id : string) (order : list string)
| OeManager (info : string).
Definition op_step op (ev : op_event) : OneShotInstancePool :=
  match ev with
  | OeCreated id => (AcquireInstance_end (inl id) op).2
  | OeRelease id => one_ReleaseInstance id op
  | OeFire t => cleanup_fires t op
  | OeCleanup t => autoCleanupInstance t op
  | OeDelete n => deleteInstanceInternal n op
  | OeUpdate spec => handleFunctionUpdate spec op
  | OeFunctionDeleted => handleFunctionDelete op
  | OeInstanceDeleted id order => one_HandleInstanceDelete id order op
  | OeManager info => one_HandleFaaSManagerUpdate info op
  end.
Definition op_run (evs : list op_event) op : OneShotInstancePool := fold_left op_step evs op.

(** ** Every instance is deleted *)

Definition created_ids (evs : list op_event) : list string := omap (fun ev => match ev with OeCreated id => Some id | _ => None end) evs.
Definition reported_ids (evs : list op_event) : list string :=
  omap (fun ev => match ev with OeInstanceDeleted id _ => Some id | _ => None end) evs.

Record op_inv (created reported : list string) op : Prop := {
  oi_active id record : op_activeInstances op !! id = Some record ->
    os_instance record = id /\ (op_armed op !! os_cleanupTimer record = Some id \/ op_fired op !! os_cleanupTimer record = Some id);
  oi_armed t id : op_armed op !! t = Some id -> op_activeInstances op !! id = Some (mkOneShot id t);
  oi_fresh t : (op_nextTimer op <= t)%nat -> op_armed op !! t = None /\ op_fired op !! t = None;
  oi_fired t id : op_fired op !! t = Some id ->
    id ∈ created /\ (forall record, op_activeInstances op !! id = Some record -> os_cleanupTimer record = t);
  oi_apart t id : op_armed op !! t = Some id -> op_fired op !! t = None;
  oi_known id : is_Some (op_activeInstances op !! id) -> id ∈ created;
  oi_kept id : id ∈ created -> is_Some (op_activeInstances op !! id) \/ id ∈ op_deleting op \/ id ∈ op_deleted op \/ id ∈ reported
}.

Lemma op_inv_new spec manager : op_inv [] [] (NewOneShotInstancePool spec manager).
Proof. split; cbn; intros; try done; try set_solver. by destruct H. Qed.

Lemma op_inv_created created reported id op :
  op_inv created reported op -> id ∉ created -> op_inv (created ++ [id]) reported (AcquireInstance_end (inl id) op).2.
Proof.
  intros [H1 H2 H3 H7 H4 H5 H6] Hn. destruct (H3 (op_nextTimer op) (le_n _)) as [Ha Hf].
  assert (Hno : op_activeInstances op !! id = None).
  { destruct (op_activeInstances op !! id) eqn:E; [|done]. destruct Hn. apply H5. eauto. }
  split; cbn.
  - intros j record [[<- <-]|[Hne Hj]]%lookup_insert_Some; [cbn; split; [done|left; apply lookup_insert_eq]|].
    destruct (H1 j record Hj) as [? Ht]. split; [done|]. rewrite lookup_insert_ne; [done|]. intros E. rewrite <- E in Ht. destruct Ht; congruence.
  - intros t j [[<- <-]|[Hne Ht]]%lookup_insert_Some; [apply lookup_insert_eq|]. apply H2 in Ht. rewrite lookup_insert_ne; [done|]. congruence.
  - intros t Ht. rewrite lookup_insert_ne by lia. apply H3. lia.
  - intros t j Ht. destruct (H7 t j Ht) as [Hj Hrec]. split; [set_solver|]. intros record Hr.
    apply lookup_insert_Some in Hr as [[<- _]|[_ Hr]]; [done|auto].
  - intros t j [[<- _]|[_ Ht]]%lookup_insert_Some; [done|]. by eapply H4.
  - intros j [record Hj]. apply lookup_insert_Some in Hj as [[<- _]|[_ Hj]]; [set_solver|]. apply elem_of_app. left. apply H5. eauto.
  - intros j Hj. apply elem_of_app in Hj as [Hj|Hj]; [|apply list_elem_of_singleton in Hj as ->; left; rewrite lookup_insert_eq; eauto].
    destruct (H6 j Hj) as [[record Hr]|?]; [left|by right]. rewrite lookup_insert_ne; [eauto|]. congruence.
Qed.

(** A record goes, with its timer. *)
Lemma op_inv_drop created reported reported' deleting id record op :
  op_inv created reported op -> op_activeInstances op !! id = Some record ->
  op_deleting op ⊆ deleting -> reported ⊆ reported' -> id ∈ deleting \/ id ∈ reported' ->
  op_inv created reported' (op_set (delete id (op_activeInstances op)) (delete (os_cleanupTimer record) (op_armed op)) deleting op).
Proof.
  intros [H1 H2 H3 H7 H4 H5 H6] Hr Hd Hrep Hid. destruct (H1 id record Hr) as [Hi Ht]. split; cbn.
  - intros j rj [Hne Hj]%lookup_delete_Some. destruct (H1 j rj Hj) as [? [Hx|Hx]]; (split; [done|]); [left|by right].
    rewrite lookup_delete_ne; [done|]. intros E. rewrite E in Ht. destruct Ht as [Ht|Ht]; [congruence|]. apply H4 in Hx. congruence.
  - intros t j [Hne Hj]%lookup_delete_Some. apply H2 in Hj. rewrite lookup_delete_ne; [done|].
    intros <-. rewrite Hr in Hj. by injection Hj as ->.
  - intros t Hlt. destruct (H3 t Hlt). split; [|done]. by rewrite lookup_delete_None; right.
  - intros t j Htj. destruct (H7 t j Htj) as [Hj Hrec]. split; [done|]. intros rj [_ Hrj]%lookup_delete_Some. auto.
  - intros t j [_ Hj]%lookup_delete_Some. by eapply H4.
  - intros j [rj Hj]. apply lookup_delete_Some in Hj as [_ Hj]. apply H5. eauto.
  - intros j Hj. destruct (decide (j = id)) as [->|]; [by right; destruct Hid; [left|right; right]|].
    rewrite lookup_delete_ne by done. destruct (H6 j Hj) as [?|[?|[?|?]]]; [by left|right; left|right; right; left|right; right; right]; auto.
Qed.

(** A deletion that is asked for once more. *)
Lemma op_inv_more created reported deleting op :
  op_inv created reported op -> op_deleting op ⊆ deleting ->
  op_inv created reported (op_set (op_activeInstances op) (op_armed op) deleting op).
Proof.
  intros [H1 H2 H3 H7 H4 H5 H6] Hd. split; cbn; try done. intros j Hj. destruct (H6 j Hj) as [?|[?|?]]; [by left|right; left; auto|by right; right].
Qed.

Lemma op_inv_fires created reported t op : op_inv created reported op -> op_inv created reported (cleanup_fires t op).
Proof.
  intros [H1 H2 H3 H7 H4 H5 H6]. unfold cleanup_fires. destruct (op_armed op !! t) as [id|] eqn:E; [|by split]. split; cbn; try done.
  - intros j rj Hj. destruct (H1 j rj Hj) as [? Ht]. split; [done|]. destruct (decide (os_cleanupTimer rj = t)) as [Et|].
    + right. rewrite Et in *. rewrite lookup_insert_eq. destruct Ht as [Ht|Ht]; [congruence|]. apply H4 in E. congruence.
    + rewrite lookup_delete_ne, lookup_insert_ne by done. done.
  - intros u j [_ Hj]%lookup_delete_Some. auto.
  - intros u Hu. destruct (H3 u Hu). assert (u <> t) by congruence. by rewrite lookup_delete_ne, lookup_insert_ne.
  - intros u j [[<- <-]|[_ Hu]]%lookup_insert_Some; [|by apply H7]. pose proof (H2 _ _ E) as Ha. split; [apply H5; eauto|].
    intros record Hr. rewrite Ha in Hr. by injection Hr as <-.
  - intros u j [Hne Hj]%lookup_delete_Some. rewrite lookup_insert_ne by done. by eapply H4.
Qed.

Lemma op_inv_cleanup created reported t op : op_inv created reported op -> op_inv created reported (autoCleanupInstance t op).
Proof.
  intros [H1 H2 H3 H7 H4 H5 H6]. unfold autoCleanupInstance. destruct (op_fired op !! t) as [id|] eqn:E; [|by split]. cbn.
  destruct (H7 t id E) as [Hc Hrec].
  assert (Hinv : forall record, op_activeInstances op !! id = Some record -> op_armed op !! os_cleanupTimer record = None).
  { intros record Hr. rewrite (Hrec record Hr). destruct (op_armed op !! t) eqn:Ea; [|done]. apply H4 in Ea. congruence. }
  destruct (op_activeInstances op !! id) as [record|] eqn:Er.
  - destruct (H1 id record Er) as [Hi _]. split; cbn.
    + intros j rj [Hne Hj]%lookup_delete_Some. destruct (H1 j rj Hj) as [? Ht]. split; [done|]. rewrite lookup_delete_ne; [done|].
      intros E'. rewrite <- E' in Ht. destruct Ht as [Ht|Ht]; [apply H4 in Ht|]; congruence.
    + intros u j Hj. pose proof (H2 u j Hj) as Hact. rewrite lookup_delete_ne; [done|]. intros <-. rewrite Er in Hact. injection Hact as ->.
      specialize (Hinv _ eq_refl). cbn in Hinv. congruence.
    + intros u Hu. destruct (H3 u Hu). split; [done|]. by rewrite lookup_delete_None; right.
    + intros u j [_ Hj]%lookup_delete_Some. destruct (H7 u j Hj). split; [done|]. intros rj [_ ?]%lookup_delete_Some. auto.
    + intros u j Hj. apply H4 in Hj. by rewrite lookup_delete_None; right.
    + intros j [rj Hj]. apply lookup_delete_Some in Hj as [_ Hj]. apply H5. eauto.
    + intros j Hj. destruct (decide (j = id)) as [->|]; [right; left; rewrite Hi; set_solver|]. rewrite lookup_delete_ne by done.
      destruct (H6 j Hj) as [?|[?|?]]; [by left|right; left; set_solver|by right; right].
  - split; cbn; try done.
    + intros j rj Hj. destruct (H1 j rj Hj) as [? Ht]. split; [done|]. rewrite lookup_delete_ne; [done|].
      intros E'. rewrite <- E' in Ht. destruct Ht as [Ht|Ht]; [apply H4 in Ht|]; congruence.
    + intros u Hu. destruct (H3 u Hu). split; [done|]. by rewrite lookup_delete_None; right.
    + intros u j [_ Hj]%lookup_delete_Some. auto.
    + intros u j Hj. apply H4 in Hj. by rewrite lookup_delete_None; right.
Qed.

Lemma op_inv_deleted created reported n op : op_inv created reported op -> op_inv created reported (deleteInstanceInternal n op).
Proof.
  intros [H1 H2 H3 H7 H4 H5 H6]. unfold deleteInstanceInternal. destruct (op_deleting op !! n) as [id|] eqn:E; [|by split].
  split; cbn; try done. intros j Hj. destruct (H6 j Hj) as [?|[Hd|[?|?]]]; [by left| |right; right; left; set_solver|by right; right; right].
  right. pose proof (delete_Permutation _ _ _ E) as Hp. rewrite Hp in Hd. apply elem_of_cons in Hd as [->|?]; [right; left; set_solver|by left].
Qed.

Lemma op_inv_all created reported op : op_inv created reported op -> op_inv created reported (cleanupAllInstances op).
Proof.
  intros [H1 H2 H3 H7 H4 H5 H6]. unfold cleanupAllInstances. set (records := (map_to_list (op_activeInstances op)).*2).
  assert (Hd : forall t, foldr (fun record => delete (os_cleanupTimer record)) (op_armed op) records !! t =
                         if decide (t ∈ map os_cleanupTimer records) then None else op_armed op !! t).
  { intros t. induction records as [|rc rcs IH]; cbn; [done|]. destruct (decide (t = os_cleanupTimer rc)) as [->|].
    - rewrite lookup_delete_eq, decide_True; [done|]. set_solver.
    - rewrite lookup_delete_ne, IH by done. destruct (decide (t ∈ map os_cleanupTimer rcs)).
      + rewrite decide_True; [done|]. set_solver.
      + rewrite decide_False; [done|]. set_solver. }
  assert (Hin : forall id record, op_activeInstances op !! id = Some record -> record ∈ records).
  { intros id record Hr. apply list_elem_of_fmap. exists (id, record). split; [done|]. by apply elem_of_map_to_list. }
  assert (Harm : forall t, foldr (fun record => delete (os_cleanupTimer record)) (op_armed op) records !! t = None).
  { intros t. rewrite Hd. destruct (decide _) as [|Hn]; [done|]. destruct (op_armed op !! t) as [id|] eqn:E; [|done]. destruct Hn.
    apply H2, Hin in E. apply list_elem_of_fmap. by exists (mkOneShot id t). }
  split; cbn.
  - intros id record. by rewrite lookup_empty.
  - intros t id. by rewrite Harm.
  - intros t Ht. destruct (H3 t Ht). by rewrite Harm.
  - intros t id Ht. destruct (H7 t id Ht). split; [done|]. intros record. by rewrite lookup_empty.
  - intros t id. by rewrite Harm.
  - intros id [record Hr]. by rewrite lookup_empty in Hr.
  - intros id Hid. right. destruct (H6 id Hid) as [[record Hr]|[?|?]]; [left|left; set_solver|by right].
    apply elem_of_app. right. apply list_elem_of_fmap. exists record. split; [|by eapply Hin]. symmetry. by apply (H1 id).
Qed.

Lemma op_step_inv created reported ev op :
  op_inv created reported op -> (forall id, ev = OeCreated id -> id ∉ created) ->
  op_inv (created ++ created_ids [ev]) (reported ++ reported_ids [ev]) (op_step op ev).
Proof.
  intros H Hn. destruct ev as [id|id|t|t|n|spec| |id order|info]; cbn; rewrite ?app_nil_r.
  - apply op_inv_created; auto.
  - unfold one_ReleaseInstance. destruct (op_activeInstances op !! id) eqn:E;
      [eapply op_inv_drop; [done|done|set_solver|done|set_solver]|apply op_inv_more; [done|set_solver]].
  - by apply op_inv_fires.
  - by apply op_inv_cleanup.
  - by apply op_inv_deleted.
  - unfold handleFunctionUpdate. assert (op_inv created reported (set_spec spec op)) by (destruct H; by split).
    destruct (String.eqb _ _); [done|by apply op_inv_all].
  - by apply op_inv_all.
  - assert (Hmore : op_inv created (reported ++ [id]) op).
    { destruct H as [H1 H2 H3 H7 H4 H5 H6]. split; try done. intros j Hj. destruct (H6 j Hj) as [?|[?|[?|?]]]; auto. right; right; right. set_solver. }
    unfold one_HandleInstanceDelete. destruct (List.find _ order) as [alloc|] eqn:E; [|done]. apply List.find_some in E as [_ E].
    destruct (op_activeInstances op !! alloc) as [record|] eqn:Er; [|done]. apply String.eqb_eq in E.
    destruct (oi_active _ _ _ H _ _ Er) as [Hi _]. eapply (op_inv_drop created reported); [done|done|done|set_solver|].
    right. rewrite <- Hi, E. set_solver.
  - destruct H; by split.
Qed.

(** C9: an instance of the one-shot pool is not kept.  Whatever the order of
    requests, releases, timers, events and goroutines, every instance that was
    created for a request is watched by a timer that runs or has fired, or its
    deletion was asked for or is about to be, or it was reported deleted; so once
    no timer and no goroutine is left it has been deleted. *)
Theorem one_shot_not_kept spec manager evs :
  NoDup (created_ids evs) ->
  let op := op_run evs (NewOneShotInstancePool spec manager) in
  (forall id, id ∈ created_ids evs ->
     (exists t, op_armed op !! t = Some id \/ op_fired op !! t = Some id) \/
     id ∈ op_deleting op \/ id ∈ op_deleted op \/ id ∈ reported_ids evs) /\
  (op_armed op = ∅ -> op_fired op = ∅ -> op_deleting op = [] ->
     op_activeInstances op = ∅ /\ forall id, id ∈ created_ids evs -> id ∈ op_deleted op \/ id ∈ reported_ids evs).
Proof.
  intros Hnd op. assert (H : op_inv (created_ids evs) (reported_ids evs) op).
  { subst op. induction evs as [|ev evs IH] using rev_ind; [apply op_inv_new|]. unfold op_run. rewrite fold_left_app. cbn [fold_left].
    assert (Ec : created_ids (evs ++ [ev]) = created_ids evs ++ created_ids [ev]) by apply omap_app.
    assert (Er : reported_ids (evs ++ [ev]) = reported_ids evs ++ reported_ids [ev]) by apply omap_app.
    rewrite Ec in *. rewrite Er. apply NoDup_app in Hnd as (Hnd & Hd & _). apply op_step_inv; [by apply IH|].
    intros id -> Hin. apply (Hd id Hin). cbn. by apply list_elem_of_singleton. }
  clearbody op. destruct H as [H1 H2 H3 H7 H4 H5 H6]. split.
  - intros id Hid. destruct (H6 id Hid) as [[record Hr]|?]; [left|by right]. destruct (H1 id record Hr) as [_ ?]. eauto.
  - intros Ea Ef Ed. assert (Hact : op_activeInstances op = ∅).
    { apply map_empty. intros id. destruct (op_activeInstances op !! id) as [record|] eqn:E; [|done].
      destruct (H1 id record E) as [_ [Ht|Ht]]; [by rewrite Ea, lookup_empty in Ht|by rewrite Ef, lookup_empty in Ht]. }
    split; [done|]. intros id Hid. destruct (H6 id Hid) as [[? Hr]|[Hd|?]]; [by rewrite Hact, lookup_empty in Hr|by rewrite Ed in Hd; apply elem_of_nil in Hd|done].
Qed.

Definition one_spec : oneShotSpec := mkOneShotSpec false "" "" "sig" false.
Lemma one_shot_not_kept_witness :
  let op := op_run [OeCreated "a"; OeCreated "b"; OeRelease "a"; OeFire 1; OeCleanup 1; OeDelete 0; OeDelete 0]
              (NewOneShotInstancePool one_spec "") in
  op_activeInstances op = ∅ /\ "a" ∈ op_deleted op /\ "b" ∈ op_deleted op.
Proof.
  set (evs := [OeCreated "a"; OeCreated "b"; OeRelease "a"; OeFire 1; OeCleanup 1; OeDelete 0; OeDelete 0]). intros op.
  destruct (one_shot_not_kept one_spec "" evs) as [_ H]; [cbn; apply NoDup_cons; split; [set_solver|apply NoDup_singleton]|].
  fold op in H. destruct H as [Ha Hd]; [vm_compute; reflexivity..|]. clearbody op. split; [exact Ha|].
  assert (Hc : created_ids evs = ["a"; "b"]) by (vm_compute; reflexivity). assert (Hr : reported_ids evs = []) by (vm_compute; reflexivity).
  rewrite Hc, Hr in Hd. split; [destruct (Hd "a") as [?|Hn]|destruct (Hd "b") as [?|Hn]]; try done; try set_solver.
Defined.

(** A release that comes after the clean-up deletes the instance once more. *)
Theorem late_release_deletes_again :
  op_deleted (op_run [OeCreated "a"; OeFire 0; OeCleanup 0; OeDelete 0; OeRelease "a"; OeDelete 0] (NewOneShotInstancePool one_spec "")) = ["a"; "a"].
Proof. by vm_compute. Qed.
