(* ===== verification/Metrics.v ===== *)
(** * The metrics of a function

    [BucketCollector] (pkg/functionscaler/metrics/bucket_collector.go) averages
    what the instances report: the time a request takes, the requests a thread
    processes per second, the requests that come per second.  Every second a new
    bucket starts, which carries the averages on.  The scalers calculate with
    them ([AutoScaler]).  Numbers are exact fractions; the clock is an argument.
    After [Stop] no tick comes any more. *)
From Stdlib Require Import QArith Qminmax Qround Lqa.
From S2P Require Import Prelude AutoScaler.
#[local] Open Scope Z_scope.

Notation defaultBucketBufferSize := 100%nat (only parsing).
Notation factor := (7 # 10)%Q (only parsing).

Record Bucket := mkBucket {
  bu_inUseInsThdNum : Q;
  bu_maxInUseInsThdNum : Q;
  bu_insThdReqNum : Q;
  bu_prevInsThdReqNumPS : Q;
  bu_avgProcTime : Q;
  bu_prevAvgProcTime : Q;
  bu_insThdProcNumPS : Q;
  bu_prevInsThdProcNumPS : Q;
  bu_initialized : bool;
  bu_isFirst : bool;
  bu_recordTime : Q
}.
(** An index of the buffer without a bucket holds nil. *)
Record BucketCollector := mkCollector {
  bc_bucketBuffer : list (option Bucket);
  bc_curIndex : nat;
  bc_started : bool;
  bc_collected : bool
}.
Implicit Types (b : Bucket) (bm : BucketCollector) (now : Q).

Definition curBucket bm : option Bucket := mjoin (bc_bucketBuffer bm !! bc_curIndex bm).
Definition set_bucket b bm : BucketCollector :=
  mkCollector (<[bc_curIndex bm := Some b]> (bc_bucketBuffer bm)) (bc_curIndex bm) (bc_started bm) (bc_collected bm).










(** ** Averages stay in the range of what is reported *)

Section Range.
Context (L H : Q) (HL : (0 < L)%Q) (HLH : (L <= H)%Q).



End Range.

(** ** The collector's invariant *)

Section Collector.
Context (lo hi : Z) (Hlo : 0 < lo <= hi).
Notation tlo := (inject_Z lo). Notation thi := (inject_Z hi).
Notation plo := (1000 / inject_Z hi)%Q. Notation phi := (1000 / inject_Z lo)%Q.



Lemma curBucket_set b bm : (bc_curIndex bm < length (bc_bucketBuffer bm))%nat -> curBucket (set_bucket b bm) = Some b.
Proof. intros Hi. unfold curBucket; cbn. by rewrite list_lookup_insert_eq. Qed.




End Collector.



(** ** A matter of units *)

(** The collector's time is in milliseconds, the scaler takes it off a window in
    seconds: with requests that take as many milliseconds as the window has
    seconds, or more, the threads in use count for nothing. *)
Theorem busy_threads_count_for_nothing (m : invokeMetrics) k s :
  (Seconds (as_scaleUpWindow s) <= im_avgProcTime m)%Q ->
  upNeed m k s = upNeed m k (as_set_threads (as_pendingInsThdNum s) 0 (as_totalInsThdNum s) s).
Proof.
  intros Hw. unfold upNeed. cbn [as_scaleUpWindow as_set_threads as_inUseInsThdNum as_coldStartTime as_remainedInsThdReqNum].
  set (win := Seconds (as_scaleUpWindow s)) in *.
  assert (Hz : (Qmax (win - im_avgProcTime m) 0 == 0)%Q) by (apply Q.max_r; lra).
  assert (E : forall n, (im_insThdProcNumPS m * inject_Z n * Qmax (win - im_avgProcTime m) 0 == 0)%Q) by (intros n; rewrite Hz; ring).
  set (todo := (inject_Z k + im_insThdReqNumPS m * win)%Q).
  assert (E2 : forall n, (Qmax (todo - im_insThdProcNumPS m * inject_Z n * Qmax (win - im_avgProcTime m) 0) 0 == Qmax todo 0)%Q).
  { intros n. rewrite E. apply Q.max_compat; [ring|reflexivity]. }
  rewrite (Qceiling_comp _ _ (E2 (as_inUseInsThdNum s))), (Qceiling_comp _ _ (E2 0)).
  assert (E3 : forall n c, Qceiling (Qmax (todo - im_insThdProcNumPS m * inject_Z n * Qmax (win - im_avgProcTime m) 0) 0 / im_insThdProcNumPS m / c) =
                      Qceiling (Qmax todo 0 / im_insThdProcNumPS m / c)) by (intros n c; apply Qceiling_comp; by rewrite E2).
  by rewrite !E3.
Qed.
