(* ===== verification/OnDemandQueue.v ===== *)
(** * Instances created on demand

    [OnDemandInstanceQueue]
    (pkg/functionscaler/instancequeue/ondemand_instance_queue.go) creates an
    instance when a client asks for one, and finds it again by its name or its
    identifier; the generic pool (instancepool/instancepool.go) refuses requests
    for a function that is deleted.  A creation is cut at the call that creates
    the instance and where it takes the lock; a deletion where it calls the
    outside.  The signature and the maps are read and written under one lock. *)
From S2P Require Import Prelude SchedErrors.
#[local] Open Scope string_scope.
#[local] Open Scope list_scope.
#[local] Open Scope Z_scope.

Record odInstance := mkOd { od_InstanceID : string; od_InstanceName : string }.
#[global] Instance odInstance_eq_dec : EqDecision odInstance.
Proof. solve_decision. Defined.

(** The texts of the schedulers' errors, and the coded error an answer carries. *)
Definition Error_text (e : schError) : string :=
  match e with
  | ErrUnsupported => "operation unsupported"
  | ErrInternal => "internal error"
  | ErrTypeConvertFail => "type convert failed"
  | ErrInsNotExist => "instance does not exist in queue"
  | ErrInsAlreadyExist => "instance already exist in queue"
  | ErrInsSubHealthy => "instance is not healthy"
  | ErrNoInsAvailable => "no instance available"
  | ErrDesignateInsNotAvailable => "designateInstance not available"
  | ErrInsReqTimeout => "instance request timeout"
  | ErrInvalidSession => "invalid session parameter"
  | ErrFuncSigMismatch => "function signature mismatch"
  | ErrFunctionDeleted => "function is deleted"
  | ErrSessionNotFound => "session not found"
  | ErrOverAcqLimitExceeded => "over-acquire limit exceeded for AI Agent session"
  end.
Definition buildSnError (err : option goError) : option goError :=
  match err with
  | None => None
  | Some (SNError code message) => Some (SNError code message)
  | Some (Sentinel e) =>
      Some (SNError match e with
                    | ErrNoInsAvailable | ErrOverAcqLimitExceeded => 150431
                    | ErrInsNotExist | ErrInsSubHealthy => 150425
                    | ErrInsReqTimeout => 150430
                    | ErrInvalidSession => 4037
                    | _ => 150500
                    end (Error_text e))
  | Some (PlainError message) => Some (SNError 150500 message)
  end.

(** A goroutine: creating; with the answer, before the function is looked at
    again; before it registers the instance; before it deregisters one; before it
    calls [deleteInstanceFunc]. *)
Inductive od_pc :=
| OdCreating (functionSignature name : string)
| OdChecking (functionSignature name : string) (instance : option odInstance) (createErr : option goError)
| OdInsert (name : string) (instance : odInstance)
| OdDeregister (instance : odInstance)
| OdKill (instance : odInstance).

(** [od_kills] are the goroutines that only call [deleteInstanceFunc], with nil
    as [None]; beside the queue stand the calls that deleted an instance, the
    answers, and the instances that were created. *)
Record OnDemandInstanceQueue := mkOnDemand {
  od_instanceMap : gmap string odInstance;
  od_insNameMap : gmap string odInstance;
  od_funcSig : string;
  od_funcDone : bool;
  od_threads : gmap nat od_pc;
  od_kills : list (option odInstance);
  od_deleted : list string;
  od_answers : list (nat * (string + goError));
  od_created : list odInstance
}.
Implicit Types (q : OnDemandInstanceQueue) (tid : nat) (i : odInstance).

Definition NewOnDemandInstanceQueue (funcSig : string) : OnDemandInstanceQueue := mkOnDemand ∅ ∅ funcSig false ∅ [] [] [] [].
Definition od_maps instances names q : OnDemandInstanceQueue :=
  mkOnDemand instances names (od_funcSig q) (od_funcDone q) (od_threads q) (od_kills q) (od_deleted q) (od_answers q) (od_created q).
Definition od_goto tid (pc : od_pc) q : OnDemandInstanceQueue :=
  mkOnDemand (od_instanceMap q) (od_insNameMap q) (od_funcSig q) (od_funcDone q) (<[tid := pc]> (od_threads q)) (od_kills q)
    (od_deleted q) (od_answers q) (od_created q).
Definition od_end tid (deleted : list string) q : OnDemandInstanceQueue :=
  mkOnDemand (od_instanceMap q) (od_insNameMap q) (od_funcSig q) (od_funcDone q) (delete tid (od_threads q)) (od_kills q)
    (od_deleted q ++ deleted) (od_answers q) (od_created q).
Definition od_answer tid (res : string + goError) q : OnDemandInstanceQueue :=
  mkOnDemand (od_instanceMap q) (od_insNameMap q) (od_funcSig q) (od_funcDone q) (od_threads q) (od_kills q)
    (od_deleted q) (od_answers q ++ [(tid, res)]) (od_created q).
Definition od_create i q : OnDemandInstanceQueue :=
  mkOnDemand (od_instanceMap q) (od_insNameMap q) (od_funcSig q) (od_funcDone q) (od_threads q) (od_kills q)
    (od_deleted q) (od_answers q) (od_created q ++ [i]).

Notation FuncMetaNotFound := (SNError 150424 "function metadata not found").
Notation InstanceNotFound := (SNError 150425 "instance not exist").

Definition od_AcquireInstance (name id : string) q : odInstance + goError :=
  if od_funcDone q then inr FuncMetaNotFound else
  match od_insNameMap q !! name, od_instanceMap q !! id with
  | Some i, _ => inl i
  | None, Some i => inl i
  | None, None => inr InstanceNotFound
  end.

(** What a creation does with the answer, an instance or an error, once it has
    looked at the function again, and its end. *)
Definition create_check tid (functionSignature name : string) (instance : option odInstance) (createErr : option goError) q : OnDemandInstanceQueue :=
  let createErr := if od_funcDone q then Some (PlainError "function is deleted")
                   else if String.eqb functionSignature (od_funcSig q) then createErr
                   else Some (PlainError "function signature mismatch") in
  match buildSnError createErr, instance with
  | Some e, Some i => od_answer tid (inr e) (od_goto tid (OdDeregister i) q)
  | Some e, None => od_answer tid (inr e) (od_end tid [] q)
  | None, Some i => od_goto tid (OdInsert name i) q
  | None, None => q
  end.
Definition create_insert tid (name : string) i q : OnDemandInstanceQueue :=
  od_answer tid (inl (od_InstanceID i))
    (od_end tid [] (od_maps (<[od_InstanceID i := i]> (od_instanceMap q))
       (if String.eqb name "" then od_insNameMap q else <[name := i]> (od_insNameMap q)) q)).

(** [DeleteInstance], up to its call of [deleteInstanceFunc]. *)
Definition od_DeleteInstance tid i q : OnDemandInstanceQueue :=
  od_goto tid (OdKill i)
    (od_maps (delete (od_InstanceID i) (od_instanceMap q))
       (if String.eqb (od_InstanceName i) "" then od_insNameMap q else delete (od_InstanceName i) (od_insNameMap q)) q).
Definition od_HandleInstanceDelete i q : OnDemandInstanceQueue :=
  od_maps (delete (od_InstanceID i) (od_instanceMap q)) (delete (od_InstanceName i) (od_insNameMap q)) q.
Definition od_HandleFuncSpecUpdate (sig : string) q : OnDemandInstanceQueue :=
  if String.eqb (od_funcSig q) sig then q else
  let deleteList := replicate (size (od_insNameMap q)) None ++ map Some (map_to_list (od_instanceMap q)).*2 in
  mkOnDemand ∅ ∅ (od_funcSig q) (od_funcDone q) (od_threads q) (od_kills q ++ deleteList) (od_deleted q) (od_answers q) (od_created q).
Definition od_GetInstanceNumber q : Z := Z.of_nat (size (od_insNameMap q)).

(** The pool's [CreateInstance] and [DeleteInstance]. *)
Definition pool_CreateInstance tid (name : string) q : OnDemandInstanceQueue :=
  match od_threads q !! tid with
  | Some _ => q
  | None => if od_funcDone q then od_answer tid (inr FuncMetaNotFound) q else od_goto tid (OdCreating (od_funcSig q) name) q
  end.
Definition pool_DeleteInstance tid i q : OnDemandInstanceQueue :=
  match od_threads q !! tid with
  | Some _ => q
  | None => if od_funcDone q then od_answer tid (inr FuncMetaNotFound) q else od_goto tid (OdDeregister i) q
  end.

(** A step of a goroutine; [created] answers [createInstanceFunc] with an
    instance, named as it was asked for, or with an error. *)
Definition od_thread tid (created : string + goError) q : OnDemandInstanceQueue :=
  match od_threads q !! tid with
  | None => q
  | Some (OdCreating sig name) =>
      match created with
      | inl id => od_create (mkOd id name) (od_goto tid (OdChecking sig name (Some (mkOd id name)) None) q)
      | inr e => od_goto tid (OdChecking sig name None (Some e)) q
      end
  | Some (OdChecking sig name instance createErr) => create_check tid sig name instance createErr q
  | Some (OdInsert name i) => create_insert tid name i q
  | Some (OdDeregister i) => od_DeleteInstance tid i q
  | Some (OdKill i) => od_end tid [od_InstanceID i] q
  end.

Inductive od_event :=
| OvCreate tid (name : string)
| OvDelete tid i
| OvStep tid (created : string + goError)
| OvGone i
| OvUpdate (sig : string)
| OvKilled (n : nat)
| OvFunctionDeleted.
(** [None]: a goroutine dereferences nil, and the process ends. *)
Definition od_step q (ev : od_event) : option OnDemandInstanceQueue :=
  match ev with
  | OvCreate tid name => Some (pool_CreateInstance tid name q)
  | OvDelete tid i => Some (pool_DeleteInstance tid i q)
  | OvStep tid created => Some (od_thread tid created q)
  | OvGone i => Some (od_HandleInstanceDelete i q)
  | OvUpdate sig => Some (od_HandleFuncSpecUpdate sig q)
  | OvKilled n =>
      match od_kills q !! n with
      | None => Some q
      | Some None => None
      | Some (Some i) => Some (mkOnDemand (od_instanceMap q) (od_insNameMap q) (od_funcSig q) (od_funcDone q) (od_threads q)
                                 (delete n (od_kills q)) (od_deleted q ++ [od_InstanceID i]) (od_answers q) (od_created q))
      end
  | OvFunctionDeleted =>
      Some (mkOnDemand (od_instanceMap q) (od_insNameMap q) (od_funcSig q) true (od_threads q) (od_kills q) (od_deleted q) (od_answers q)
              (od_created q))
  end.
Fixpoint od_run (evs : list od_event) q : option OnDemandInstanceQueue :=
  match evs with [] => Some q | ev :: evs => od_step q ev ≫= od_run evs end.

(** ** Instances are registered or deleted *)

Definition od_carries (pc : od_pc) (id : string) : Prop :=
  match pc with
  | OdChecking _ _ (Some i) _ | OdInsert _ i | OdDeregister i | OdKill i => od_InstanceID i = id
  | _ => False
  end.











(** ** Names lead to registered instances *)

Section Names.
Context (naming : string -> string).







End Names.



Definition create_steps tid (name id : string) : list od_event :=
  [OvCreate tid name; OvStep tid (inl id); OvStep tid (inl ""); OvStep tid (inl "")].

(** ** Deleted functions *)

(** Events that say nothing about the instance [id]; [HandleFuncSpecUpdate] is
    called by nobody. *)
Definition about_others (id : string) (ev : od_event) : Prop :=
  match ev with
  | OvGone i => od_InstanceID i <> id
  | OvStep _ (inl id') => id' <> id
  | OvUpdate _ => False
  | _ => True
  end.
Record left_alone (id : string) q : Prop := {
  la_done : od_funcDone q = true;
  la_registered : is_Some (od_instanceMap q !! id);
  la_threads : forall tid pc, od_threads q !! tid = Some pc -> ~ od_carries pc id;
  la_kills : forall i, Some i ∈ od_kills q -> od_InstanceID i <> id
}.

Lemma od_thread_alone id tid created q :
  left_alone id q -> about_others id (OvStep tid created) ->
  left_alone id (od_thread tid created q) /\ (id ∈ od_deleted (od_thread tid created q) -> id ∈ od_deleted q).
Proof.
  intros [H1 H2 H3 H4] He. unfold od_thread. destruct (od_threads q !! tid) as [pc|] eqn:Ht; [|by auto]. pose proof (H3 _ _ Ht) as Hpc.
  assert (Hput : forall pc' t p, ~ od_carries pc' id -> <[tid := pc']> (od_threads q) !! t = Some p -> ~ od_carries p id)
    by (intros pc' t p Hn [[<- <-]|[_ Hp]]%lookup_insert_Some; [done|by eapply H3]).
  assert (Hdel : forall t p, delete tid (od_threads q) !! t = Some p -> ~ od_carries p id)
    by (intros t p [_ Hp]%lookup_delete_Some; by eapply H3).
  destruct pc as [sig name|sig name [i|] err|name i|i|i].
  - destruct created as [id'|e]; (split; [split; cbn; try done; intros t p; by apply Hput|done]).
  - unfold create_check. destruct (buildSnError _); (split; [split; cbn; try done; intros t p; by apply Hput|done]).
  - unfold create_check. destruct (buildSnError _); [|done]. split; [by split; cbn|]. cbn. by rewrite app_nil_r.
  - split; [split; cbn; try done|cbn; by rewrite app_nil_r]. rewrite lookup_insert_ne by done. done.
  - split; [split; cbn; try done|done]; [rewrite lookup_delete_ne by done; done|intros t p; by apply Hput].
  - split; [by split; cbn|]. cbn. cbn in Hpc. set_solver.
Qed.

Lemma od_step_alone id q ev q' :
  left_alone id q -> about_others id ev -> od_step q ev = Some q' -> left_alone id q' /\ (id ∈ od_deleted q' -> id ∈ od_deleted q).
Proof.
  intros H He Hs. destruct ev as [tid name|tid i|tid created|i|sig|n|]; cbn [od_step about_others] in *; try done.
  - injection Hs as <-. unfold pool_CreateInstance. destruct (od_threads q !! tid); [by auto|]. rewrite (la_done _ _ H). by destruct H.
  - injection Hs as <-. unfold pool_DeleteInstance. destruct (od_threads q !! tid); [by auto|]. rewrite (la_done _ _ H). by destruct H.
  - injection Hs as <-. by apply od_thread_alone.
  - injection Hs as <-. destruct H as [H1 H2 H3 H4]. split; [|done]. split; cbn; try done. by rewrite lookup_delete_ne.
  - destruct H as [H1 H2 H3 H4]. destruct (od_kills q !! n) as [[i|]|] eqn:En; [|done|by injection Hs as <-]. injection Hs as <-.
    assert (od_InstanceID i <> id) by (apply H4; by eapply list_elem_of_lookup_2).
    split; [split; cbn; try done|cbn; set_solver]. intros j Hj. apply H4. apply list_elem_of_lookup in Hj as [m Hm].
    destruct (decide (m < n)%nat); [rewrite list_lookup_delete_lt in Hm by done|rewrite list_lookup_delete_ge in Hm by lia];
      by eapply list_elem_of_lookup_2.
  - injection Hs as <-. by destruct H.
Qed.

(** An instance created on demand outlives its function: once the function is
    deleted, an instance that is registered and not being deleted stays
    registered and is not deleted, whatever happens, until it is reported gone;
    requests to delete it are refused. *)
Theorem on_demand_outlives_function id q evs q' :
  left_alone id q -> Forall (about_others id) evs -> od_run evs q = Some q' ->
  is_Some (od_instanceMap q' !! id) /\ (id ∈ od_deleted q' -> id ∈ od_deleted q) /\
  (forall tid i, od_threads q' !! tid = None -> od_answers (pool_DeleteInstance tid i q') = od_answers q' ++ [(tid, inr FuncMetaNotFound)]).
Proof.
  intros H He Hr. assert (left_alone id q' /\ (id ∈ od_deleted q' -> id ∈ od_deleted q)) as [H' Hd].
  { revert q H Hr. induction He as [|ev evs Hev _ IH]; intros q H Hr; cbn in Hr; [by injection Hr as <-|].
    destruct (od_step q ev) as [q1|] eqn:E; [|done]. destruct (od_step_alone id q ev q1 H Hev E) as [H1 Hd1].
    destruct (IH q1 H1 Hr) as [? ?]. by auto. }
  split; [apply H'|]. split; [done|]. intros tid i Ht. unfold pool_DeleteInstance. by rewrite Ht, (la_done _ _ H').
Qed.

Definition outlived : OnDemandInstanceQueue := mkOnDemand {["a" := mkOd "a" "n"]} {["n" := mkOd "a" "n"]} "sig" true ∅ [] [] [(0%nat, inl "a")] [mkOd "a" "n"].
Lemma on_demand_outlives_function_witness :
  od_run (create_steps 0 "n" "a" ++ [OvFunctionDeleted]) (NewOnDemandInstanceQueue "sig") = Some outlived /\
  exists q', od_run [OvDelete 1 (mkOd "a" "n"); OvStep 1 (inl ""); OvKilled 0] outlived = Some q' /\
    is_Some (od_instanceMap q' !! "a") /\ ("a" ∈ od_deleted q' -> "a" ∈ od_deleted outlived).
Proof.
  split; [vm_compute; reflexivity|]. destruct (od_run _ outlived) as [q'|] eqn:E; [|discriminate E]. exists q'. split; [reflexivity|].
  destruct (on_demand_outlives_function "a" outlived [OvDelete 1 (mkOd "a" "n"); OvStep 1 (inl ""); OvKilled 0] q') as (H1 & H2 & _).
  - split; [reflexivity|by eexists|intros tid pc Hp; cbn in Hp; rewrite lookup_empty in Hp; discriminate Hp|intros i Hi; by apply elem_of_nil in Hi].
  - repeat constructor; discriminate.
  - exact E.
  - split; assumption.
Defined.

(** ** Where the queue does not do what it means to *)

(** The signature a creation compares with is never changed, so the check for a
    change during the creation never fires. *)
Theorem signature_never_changes evs q q' : od_run evs q = Some q' -> od_funcSig q' = od_funcSig q.
Proof.
  revert q. induction evs as [|ev evs IH]; intros q Hr; cbn in Hr; [by injection Hr as <-|].
  destruct (od_step q ev) as [q1|] eqn:E; [|done]. rewrite (IH q1 Hr). clear IH Hr.
  destruct ev; cbn in E; try injection E as <-;
    unfold pool_CreateInstance, pool_DeleteInstance, od_thread, create_check, od_HandleFuncSpecUpdate in *;
    repeat case_match; by simplify_eq/=.
Qed.

(** A change of the function deletes nil once per named instance, which ends the
    process. *)
Theorem update_deletes_nil :
  od_run (create_steps 0 "n" "a" ++ [OvUpdate "sig2"; OvKilled 0]) (NewOnDemandInstanceQueue "sig") = None.
Proof. by vm_compute. Qed.

(** Two instances with one name: deleting the first takes the name from the
    second. *)
Theorem name_taken_away :
  exists q, od_run (create_steps 0 "n" "a" ++ create_steps 0 "n" "b" ++ [OvDelete 0 (mkOd "a" "n"); OvStep 0 (inl "")])
              (NewOnDemandInstanceQueue "sig") = Some q /\
    od_AcquireInstance "n" "" q = inr InstanceNotFound /\ od_AcquireInstance "" "b" q = inl (mkOd "b" "n").
Proof. eexists. split; [vm_compute; reflexivity|]. by split; vm_compute. Qed.
